(* ===== verification/_CoqProject ===== *)
-Q . S2P
Prelude.v
Host.v
Values.v
Common.v
Validation.v
SchemaGrammar.v
TypedData.v
Sample.v
Merkle.v
SignedData.v
SasState.v
SasCore.v
SasAdmin.v
SasFees.v
SasIssue.v
SasAttest.v
SasRevoke.v
SasQuery.v
SasCalls.v
SasSample.v
SasFrame.v
SasRecord.v
SasIssueSpec.v
SasLife.v
SasAuthority.v
SasNonce.v
SasTime.v
SasVerify.v
SasProgress.v
SasQuota.v
SasConfig.v
SasMoney.v
RecordProps.v
LifeProps.v
AccessProps.v
CryptoProps.v
FeeProps.v
RegState.v
RegAdmin.v
RegOwners.v
RegSchemas.v
RegQuery.v
RegCalls.v
RegSample.v
RegFrame.v
RegRecord.v
RegIndex.v
RegLineage.v
RegQuorum.v
RegProps.v
Compose.v
IdxState.v
IdxWrite.v
IdxQuery.v
IdxCalls.v
IdxChunks.v
IdxRefine.v
IdxAnswers.v
IdxProps.v
Resolver.v
TimeWindow.v
TokenGate.v
Blacklist.v
Multisig.v
CrossChain.v
ZkVerifier.v
ComposeResolver.v
ResolverProps.v
ComposeIndexer.v
Eip712.v
Eip712Type.v
Eip712Hash.v
SdkSequence.v
SdkCache.v
SdkRetry.v
SdkBuilders.v
SdkDelegation.v
SdkSubmit.v
CliBulk.v
Findings.v
