(* ===== verification/Prelude.v ===== *)
(** * Soroban Attestation Service: verification development

    The repository is a set of Soroban smart contracts that issue, revoke and
    verify attestations, the library they share, and client code.  This
    development models the contracts, the shared library and the stateful parts
    of the Rust client as executable definitions and proves what they guarantee.

    ** The program and its model

    A contract function runs on the host, reads and writes the contract's
    storage, calls other contracts and may trap, in which case the host rolls
    the invocation back.  [Host.v] models that: an environment [Env] (ledger
    header, network, authorisations, and the host's hash, signature and XDR
    functions, which are parameters), a [State] of three kinds of storage with
    lifetimes, events and the state of other contracts, and the monad [M] in
    which each Rust function is one definition.  A contract is described by a
    signature [Sig] of its storage keys, the types stored under them, its events
    and its errors.  A call that fails leaves the state as it was; a history is
    a list of invocations run one after the other ([run_calls]).  Calls to other
    contracts go through a class of operations ([Deps] in [SasState.v], and its
    like), against which the theorems of the caller are proved; the contracts of
    this repository are instances of it where two of them are composed.

    - [Prelude.v]: integers at their widths, bytes, generic lemmas, tactics.
      [Host.v], [Values.v]: the host, total correctness of runs, and relations
      that ignore lifetimes.
    - [src/packages/soroban-sas-common/src]: [Common.v] (lib.rs, errors.rs),
      [Validation.v] and [SchemaGrammar.v] (validation.rs), [TypedData.v] and
      [SignedData.v] (typed_data.rs, frost.rs), [Merkle.v] (merkle.rs),
      [Eip712.v], [Eip712Type.v], [Eip712Hash.v] (eip712.rs).
    - [src/contracts/sas/src] (lib.rs, timestamp.rs, merkle_disclosure.rs,
      events.rs): [SasState.v] (storage layout, events, called contracts),
      [SasCore.v] (helpers, guards, records), [SasAdmin.v], [SasFees.v],
      [SasIssue.v], [SasAttest.v], [SasRevoke.v], [SasQuery.v] (the entry
      points), [SasCalls.v] (all of them as one type of calls).  The lemmas about
      them are in [SasFrame.v] to [SasMoney.v], the theorems in [RecordProps.v],
      [LifeProps.v], [AccessProps.v], [CryptoProps.v] and [FeeProps.v].
    - [src/contracts/schema-registry/src] (lib.rs, storage.rs): [RegState.v],
      [RegAdmin.v], [RegOwners.v], [RegSchemas.v], [RegQuery.v], [RegCalls.v];
      lemmas in [RegFrame.v] to [RegQuorum.v], theorems in [RegProps.v].
    - [src/contracts/indexer/src/lib.rs]: [IdxState.v], [IdxWrite.v],
      [IdxQuery.v], [IdxCalls.v]; lemmas in [IdxChunks.v] to [IdxAnswers.v],
      theorems in [IdxProps.v].
    - The resolvers SAS consults and the verifiers: [Resolver.v] (the interface,
      and permissive-resolver), [TimeWindow.v], [TokenGate.v], [Blacklist.v],
      [Multisig.v], [CrossChain.v], [ZkVerifier.v], each the lib.rs of its
      contract; theorems in [ResolverProps.v].
    - Contracts together: [Compose.v] (SAS over the registry),
      [ComposeResolver.v] (SAS over the registry and a resolver) and
      [ComposeIndexer.v] (SAS over the indexer, with calls of both on one
      ledger).
    - [src/packages/soroban-sas-sdk/src]: [SdkSequence.v] (sequence.rs),
      [SdkCache.v] (schema_cache.rs), [SdkRetry.v] (retry.rs), [SdkBuilders.v]
      (strkey.rs, attestation_builder.rs, schema_builder.rs), [SdkDelegation.v]
      (delegation.rs), [SdkSubmit.v] (transaction_submitter.rs), each with its
      theorem.
      [src/packages/soroban-sas-cli/src]: [CliBulk.v] (bulk.rs).
    - [Sample.v], [SasSample.v], [RegSample.v]: a concrete host with toy
      functions and concrete histories, used by witnesses only.  [Findings.v]:
      runs on which the code does other than its comments say.

    ** What the theorems show

    - Records ([RecordProps], [LifeProps]): under any history a record is issued,
      revoked or extended only with the rights the call established and never
      while paused, and pruned only when it has expired, by anyone and also while
      paused; revocation is final; exact conditions and effects of issuing,
      revoking, replacing, renewing and pruning; conditions under which they
      succeed; verification and timestamp queries answer from the record.  What
      other contracts answer is stated of states they reached, through the
      calls of SAS, from the one the call began in ([SasIssueSpec]).
    - Access ([AccessProps]): a delegation nonce is accepted once, delegated calls
      carry a valid signature over exactly what they do, a paused contract
      issues, revokes and extends nothing (expired records can still be pruned),
      only the admin changes the configuration, guards are always released.
    - Encodings ([CryptoProps], [Eip712Hash]): equal digests mean equal messages
      and accepted Merkle proofs mean committed leaves, unless two of the strings
      that were hashed collide (the strings are named in the statement, since
      some collision of a hash function always exists); the compact layout
      keeps every field but [valid_from], which is stored in an entry of its own;
      type strings are canonical and determine the declarations they spell.
    - Registry ([RegProps]): the syntax check decides a grammar, schemas are
      content addressed and permanent, pages enumerate all that [deprecate] has
      not marked, attester lists are sets, lineage walks end, ownership changes
      are authorised.
    - Indexer ([IdxProps]): the indexes refine the log of what SAS reported, and
      pages and filtered queries are those of the log, on an indexer that keeps
      the default chunk capacity and, for histories by address, for an address
      with one of the roles recipient and attester.  Bound strictly to SAS and
      kept so ([ComposeIndexer]), the index has every record of SAS and shows
      every revocation.
    - Resolvers and verifiers ([ResolverProps]): each resolver's verdict decides
      its rule, over any history; what SAS issues satisfied the registry's and
      the resolver's conditions; remote verdicts are authentic and fresh; a
      nullifier is spent once, and a proof that names an attestation was
      confirmed by SAS.
    - Client ([SdkSequence] to [CliBulk]): sequence numbers held at a time and
      reserved since the last resync are distinct, the cache is a bounded queue
      in order of use, retries end after at most [max_attempts + 1] calls, built
      attestations pass the checks of SAS that depend on their parties and
      identifier, SAS accepts what the client signs offline, fees and accepted
      fee bumps stay within the configured bounds and pace, and every CSV file
      that holds rows is read back as these rows.

    ** Bounds and fuel

    Integers are [Z] with the range of their type written out where the code
    depends on it: checked operations trap, saturating ones are [Z.min] and
    [Z.max], [as u32] is a remainder.  Loops over lists are structural.  Fuel is
    used where the source loops over an index or until a condition: the schema
    scanner (the length of the string), [merkle_root] (the number of leaves, the
    loop halves its list), the lineage walks (the source's own bound of 32), the
    walks over chunks (their number), [encode_type] (one more than the number of
    declarations), the retry loops (the permitted attempts).  In
    each case a theorem about the result shows that the fuel is enough.

    ** Assumptions

    Hash functions, signatures and XDR are fields of [Env], assumed where needed
    to have the output length or the prefix-freeness they document.  Called
    contracts outside of the repository (tokens, the Axelar gateway) and crates
    (ed25519-dalek, stellar-strkey, stellar-xdr) are class parameters, with their
    documented laws as named hypotheses; so are the RPC node and the signer of
    the client.  Each theorem with hypotheses is
    followed by a witness at a concrete input.

    ** Not modelled

    The host's replacement of contract code on upgrade; XDR topics of events;
    resource metering; the archival of persistent and instance entries whose
    lifetime has ended.  Lifetimes are stored and extended as the code does, but
    a read after their end still finds the entry; what the comments of
    sas/src/lib.rs expect of archived records, a trap of [get_attestation] (line
    3486) and [false] from verification (line 585), does not occur in the model.
    In the client: RPC requests, transaction assembly, event streams and the
    mock and chaos harnesses, which are network I/O and encodings of the
    stellar-xdr crate; the command-line tool,
    which is argument parsing and I/O; the JavaScript and React packages; the
    schema macro, which generates code; and the tools, benchmarks, fuzz targets,
    examples and tests.  [endorsement-resolver] re-exports [multisig-resolver]. *)

From stdpp Require Export base decidable option list numbers sets.
From Stdlib Require Export ZArith Lia.
From stdpp Require Export strings.

#[global] Open Scope Z_scope.

(** ** Machine integers

    Rust's fixed-width integers are integers of [Z] with their range written
    out.  The release profile keeps [overflow-checks], so [+] and [*] trap
    instead of wrapping; [as u32] truncates. *)

Definition u8_max : Z := 2 ^ 8 - 1.
Definition u32_max : Z := 2 ^ 32 - 1.
Definition u64_max : Z := 2 ^ 64 - 1.
Definition i128_max : Z := 2 ^ 127 - 1.
Definition i128_min : Z := - 2 ^ 127.

Definition is_u32 (z : Z) : Prop := 0 <= z <= u32_max.
Definition is_u64 (z : Z) : Prop := 0 <= z <= u64_max.
Definition is_i128 (z : Z) : Prop := i128_min <= z <= i128_max.

(** [x as u32] for a wider unsigned [x]. *)
Definition as_u32 (z : Z) : Z := z mod 2 ^ 32.

(** [u64::saturating_add], [u64::saturating_sub] and their [u32] versions. *)
Definition sat_add (max a b : Z) : Z := Z.min max (a + b).
Definition sat_sub (a b : Z) : Z := Z.max 0 (a - b).

(** [i128]'s [checked_*] operations, and its saturating addition. *)
Definition checked_i128 (z : Z) : option Z :=
  if (i128_min <=? z) && (z <=? i128_max) then Some z else None.
Definition sat_i128 (z : Z) : Z := Z.max i128_min (Z.min i128_max z).

(** ** Bytes

    [Bytes], [BytesN<N>] and Rust's byte arrays are lists of octets. *)

Definition bytes : Type := list Z.

(** [Vec::len], [Bytes::len]. *)
Definition len {A} (l : list A) : Z := Z.of_nat (length l).

Definition is_byte (b : Z) : Prop := 0 <= b < 256.
Definition is_bytes (bs : bytes) : Prop := Forall is_byte bs.

(** [to_be_bytes] of an [n]-byte integer, and [from_be_bytes]. *)
Fixpoint to_be_bytes (n : nat) (z : Z) : bytes :=
  match n with
  | O => []
  | S n' => to_be_bytes n' (z / 256) ++ [z mod 256]
  end.

Definition from_be_bytes (bs : bytes) : Z :=
  fold_left (fun acc b => acc * 256 + b) bs 0.

(** A byte-string literal [b"..."]. *)
Fixpoint bytes_of_string (s : string) : bytes :=
  match s with
  | EmptyString => []
  | String c s' => Z.of_N (Ascii.N_of_ascii c) :: bytes_of_string s'
  end.

(** The sub-slice [bs[from..to]]. *)
Definition slice (from to : nat) (bs : bytes) : bytes :=
  take (to - from) (drop from bs).

Lemma length_to_be_bytes n z : length (to_be_bytes n z) = n.
Proof.
  revert z; induction n as [|n IH]; intros z; simpl; [done|].
  rewrite length_app, IH; simpl; lia.
Qed.

Lemma to_be_bytes_is_bytes n z : is_bytes (to_be_bytes n z).
Proof.
  revert z; induction n as [|n IH]; intros z; simpl; [constructor|].
  apply Forall_app; split; [apply IH|].
  constructor; [|constructor]; apply Z.mod_pos_bound; lia.
Qed.

Lemma from_be_bytes_app bs b :
  from_be_bytes (bs ++ [b]) = from_be_bytes bs * 256 + b.
Proof. unfold from_be_bytes; by rewrite fold_left_app. Qed.

Lemma from_to_be_bytes n z :
  0 <= z < 256 ^ Z.of_nat n -> from_be_bytes (to_be_bytes n z) = z.
Proof.
  revert z; induction n as [|n IH]; intros z Hz.
  { change (256 ^ Z.of_nat 0) with 1 in Hz; simpl; unfold from_be_bytes; simpl; lia. }
  cbn [to_be_bytes]. rewrite from_be_bytes_app, IH.
  - pose proof (Z.div_mod z 256); lia.
  - rewrite Nat2Z.inj_succ, Z.pow_succ_r in Hz by lia.
    split; [apply Z.div_pos; lia | apply Z.div_lt_upper_bound; lia].
Qed.

(** A [u64] survives its eight-byte big-endian encoding. *)
Lemma from_to_be_bytes_u64 z :
  is_u64 z -> from_be_bytes (to_be_bytes 8 z) = z.
Proof.
  intros [? Hz]; apply from_to_be_bytes; unfold u64_max in Hz.
  change (256 ^ Z.of_nat 8) with (2 ^ 64); lia.
Qed.

Lemma slice_app_l (from to : nat) (l1 l2 : bytes) :
  (to <= length l1)%nat -> slice from to (l1 ++ l2) = slice from to l1.
Proof.
  intros H; unfold slice.
  destruct (decide (from <= length l1)%nat) as [Hle|Hgt].
  - rewrite drop_app_le by done.
    apply take_app_le; rewrite length_drop; lia.
  - replace (to - from)%nat with 0%nat by lia; done.
Qed.

Lemma slice_app_r (from to : nat) (l1 l2 : bytes) :
  (length l1 <= from)%nat ->
  slice from to (l1 ++ l2) = slice (from - length l1) (to - length l1) l2.
Proof.
  intros H; unfold slice.
  rewrite drop_app_ge by done; f_equal; lia.
Qed.

Lemma slice_full (l : bytes) : slice 0 (length l) l = l.
Proof. unfold slice; rewrite drop_0, Nat.sub_0_r; apply take_ge; lia. Qed.

(** ** Collisions

    A theorem that relies on a hash function names the messages it was applied
    to: two different ones of them have the same image. *)

Definition collides (h : bytes -> bytes) (xs ys : list bytes) : Prop :=
  exists x y, x ∈ xs /\ y ∈ ys /\ x <> y /\ h x = h y.

Lemma image_inj (h : bytes -> bytes) x y xs ys :
  h x = h y -> x ∈ xs -> y ∈ ys -> x = y \/ collides h xs ys.
Proof. intros H Hx Hy; destruct (decide (x = y)); [by left|right; by exists x, y]. Qed.
Lemma collides_mono h xs ys xs' ys' :
  xs ⊆ xs' -> ys ⊆ ys' -> collides h xs ys -> collides h xs' ys'.
Proof. intros Hx Hy (x & y & ? & ? & ? & ?); exists x, y; auto. Qed.

(** ** Automation *)

Create HintDb sas discriminated.

(** Decide every boolean comparison in sight. *)
Ltac bool_facts :=
  repeat match goal with
  | H : bool_decide _ = true |- _ => apply bool_decide_eq_true_1 in H
  | H : bool_decide _ = false |- _ => apply bool_decide_eq_false_1 in H
  | H : (_ && _)%bool = true |- _ => apply andb_true_iff in H as [? ?]
  | H : (_ || _)%bool = false |- _ => apply orb_false_iff in H as [? ?]
  | H : negb _ = true |- _ => apply negb_true_iff in H
  | H : negb _ = false |- _ => apply negb_false_iff in H
  | H : (_ <? _) = true |- _ => apply Z.ltb_lt in H
  | H : (_ <? _) = false |- _ => apply Z.ltb_ge in H
  | H : (_ <=? _) = true |- _ => apply Z.leb_le in H
  | H : (_ <=? _) = false |- _ => apply Z.leb_gt in H
  | H : (_ =? _) = true |- _ => apply Z.eqb_eq in H
  | H : (_ =? _) = false |- _ => apply Z.eqb_neq in H
  end.

(** Split the innermost [match] of the goal, remembering the equation. *)
Ltac case_match_eq :=
  match goal with
  | |- context [match ?x with _ => _ end] => let E := fresh "E" in destruct x eqn:E
  end.
