(* ===== verification/Host.v ===== *)
(** * The Soroban host

    What the contracts use of the Soroban environment: addresses, the three
    kinds of contract storage with their lifetimes, authorisation, events,
    contract panics and cross-contract calls.  A contract function is a value
    of the monad [M]: it reads the transaction environment [Env], threads the
    contract's own [State] and either returns or fails.  A failed invocation
    carries no state: the host rolls every write, event and nested call back. *)

From S2P Require Import Prelude.
From Stdlib Require Import Eqdep_dec.

(** ** Addresses *)

(** [Address]: an account (its 32-byte Ed25519 key) or a contract (its
    32-byte contract identifier). *)
Inductive Address :=
  | Account (key : bytes)
  | Contract (id : bytes).

#[export] Instance Address_eq_dec : EqDecision Address.
Proof. solve_decision. Defined.

(** ** Typed key/value stores

    A store maps a key to a value whose type the key determines, as the
    contracts always read a key back at the type they wrote it with. *)

Definition store {K : Type} (V : K -> Type) : Type := forall k : K, option (V k).

Section store.
Context {K : Type} `{EqDecision K} {V : K -> Type}.

Definition store_empty : store V := fun _ => None.

Definition store_update (k : K) (o : option (V k)) (s : store V) : store V :=
  fun k' => match decide (k = k') with
            | left E => eq_rect k (fun k => option (V k)) o k' E
            | right _ => s k'
            end.

Lemma store_update_eq k o s : store_update k o s k = o.
Proof.
  unfold store_update; destruct (decide (k = k)) as [E|]; [|done].
  by rewrite (UIP_dec (fun x y => decide (x = y)) E eq_refl).
Qed.

Lemma store_update_ne k k' o s : k <> k' -> store_update k o s k' = s k'.
Proof. intros Hne; unfold store_update; by destruct (decide (k = k')). Qed.
End store.

(** ** Environment, failures and signatures *)

(** What an invocation reads and cannot change: the ledger header, the
    network's rent parameters, the authorisations attached to the transaction
    and the host's cryptographic and XDR functions. *)
Record Env := mkEnv {
  timestamp : Z;
  sequence : Z;
  network_id : bytes;
  current_contract : Address;
  authorized : Address -> bool;
  max_entry_ttl : Z;
  min_persistent_ttl : Z;
  min_temp_ttl : Z;
  sha256 : bytes -> bytes;
  keccak256 : bytes -> bytes;
  ed25519_valid : bytes -> bytes -> bytes -> bool;
  xdr_address : Address -> bytes;
  xdr_bytes : bytes -> bytes;
  xdr_string : bytes -> bytes;
  xdr_uid : bytes -> bytes
}.

(** Host errors a contract cannot choose: a missing authorisation, a failed
    cryptographic check, arithmetic overflow, a value of another type than
    the one asked for, a missing ledger entry, a failed nested call. *)
Inductive host_error :=
  | AuthError | CryptoError | ArithError | ConversionError
  | MissingValue | CallError | StorageError | NonCanonical.

Inductive failure (E : Type) :=
  | Panic (e : E)
  | Trap (h : host_error).
Arguments Panic {E} _.
Arguments Trap {E} _.

Inductive result (E A : Type) :=
  | Ok (a : A)
  | Err (f : failure E).
Arguments Ok {E A} _.
Arguments Err {E A} _.

(** A contract's storage layout, event and error types. *)
Record Sig := mkSig {
  IKey : Type; ival : IKey -> Type; IKey_eq : EqDecision IKey;
  PKey : Type; pval : PKey -> Type; PKey_eq : EqDecision PKey;
  TKey : Type; tval : TKey -> Type; TKey_eq : EqDecision TKey;
  Event : Type;
  Error : Type
}.
#[export] Existing Instances IKey_eq PKey_eq TKey_eq.

(** The state of one contract, with the state [ext] of the contracts it calls. *)
Record State (C : Sig) (X : Type) := mkState {
  inst : store (ival C);
  inst_live : Z;
  pers : store (fun k => pval C k * Z)%type;
  temp : store (fun k => tval C k * Z)%type;
  events : list (Event C);
  ext : X
}.
Arguments mkState {C X} _ _ _ _ _ _.
Arguments inst {C X} _ _.
Arguments inst_live {C X} _.
Arguments pers {C X} _ _.
Arguments temp {C X} _ _.
Arguments events {C X} _.
Arguments ext {C X} _.

Definition empty_state (C : Sig) {X} (x : X) : State C X :=
  mkState store_empty 0 store_empty store_empty [] x.

Definition M (C : Sig) (X A : Type) : Type :=
  Env -> State C X -> result (Error C) (A * State C X).

#[export] Instance M_ret C X : MRet (M C X) := fun A a e s => Ok (a, s).
#[export] Instance M_bind C X : MBind (M C X) := fun A B f m e s =>
  match m e s with
  | Ok (a, s') => f a e s'
  | Err err => Err err
  end.

(** What a nested call replies: [try_invoke_contract]'s nested [Result]. *)
Inductive reply (A : Type) := Val (a : A) | Mistyped.
Arguments Val {A} _.
Arguments Mistyped {A}.

Inductive try_result (A : Type) := TryOk (a : A) | TryMistyped | TryErr.
Arguments TryOk {A} _.
Arguments TryMistyped {A}.
Arguments TryErr {A}.

Definition xcall (X A : Type) : Type := Env -> X -> option (reply A * X).

(** [Result::is_err] of the outer [Result] of a [try_invoke_contract]. *)
Definition is_call_err {A} (r : try_result A) : bool :=
  match r with TryErr => true | _ => false end.

(** [Ok(Ok(v))] of a [try_invoke_contract]. *)
Definition call_value {A} (r : try_result A) : option A :=
  match r with TryOk a => Some a | _ => None end.

(** ** Primitive operations *)

Section ops.
Context {C : Sig} {X : Type}.
Abbreviation MC := (M C X).
Abbreviation St := (State C X).

Definition upd_inst (f : store (ival C) -> store (ival C)) (s : St) : St :=
  mkState (f (inst s)) (inst_live s) (pers s) (temp s) (events s) (ext s).
Definition upd_inst_live (z : Z) (s : St) : St :=
  mkState (inst s) z (pers s) (temp s) (events s) (ext s).
Definition upd_pers (k : PKey C) (o : option (pval C k * Z)) (s : St) : St :=
  mkState (inst s) (inst_live s)
    (store_update (V := fun k => (pval C k * Z)%type) k o (pers s))
    (temp s) (events s) (ext s).
Definition upd_temp (k : TKey C) (o : option (tval C k * Z)) (s : St) : St :=
  mkState (inst s) (inst_live s) (pers s)
    (store_update (V := fun k => (tval C k * Z)%type) k o (temp s))
    (events s) (ext s).
Definition upd_events (l : list (Event C)) (s : St) : St :=
  mkState (inst s) (inst_live s) (pers s) (temp s) l (ext s).
Definition upd_ext (x : X) (s : St) : St :=
  mkState (inst s) (inst_live s) (pers s) (temp s) (events s) x.

Definition panic {A} (err : Error C) : MC A := fun _ _ => Err (Panic err).
Definition trap {A} (h : host_error) : MC A := fun _ _ => Err (Trap h).

(** [if b { panic_with_error!(env, err) }] *)
Definition panic_if (b : bool) (err : Error C) : MC unit :=
  fun _ s => if b then Err (Panic err) else Ok (tt, s).
Definition trap_if (b : bool) (h : host_error) : MC unit :=
  fun _ s => if b then Err (Trap h) else Ok (tt, s).
(** [o.unwrap_or_else(|| panic_with_error!(env, err))] *)
Definition unwrap_or_panic {A} (o : option A) (err : Error C) : MC A :=
  fun _ s => match o with Some a => Ok (a, s) | None => Err (Panic err) end.
(** [o.unwrap()] *)
Definition unwrap {A} (o : option A) (h : host_error) : MC A :=
  fun _ s => match o with Some a => Ok (a, s) | None => Err (Trap h) end.

Definition ask {A} (f : Env -> A) : MC A := fun e s => Ok (f e, s).

(** A pure function of the storage. *)
Definition read_state {A} (f : St -> A) : MC A := fun _ s => Ok (f s, s).

Definition require_auth (a : Address) : MC unit :=
  fun e s => if authorized e a then Ok (tt, s) else Err (Trap AuthError).

Definition publish (ev : Event C) : MC unit :=
  fun _ s => Ok (tt, upd_events (events s ++ [ev]) s).

(** Instance storage: one ledger entry, one lifetime. *)
Definition inst_get (k : IKey C) : MC (option (ival C k)) :=
  fun _ s => Ok (inst s k, s).
Definition inst_has (k : IKey C) : MC bool :=
  fun _ s => Ok (bool_decide (is_Some (inst s k)), s).
Definition inst_set (k : IKey C) (v : ival C k) : MC unit :=
  fun _ s => Ok (tt, upd_inst (store_update k (Some v)) s).
Definition inst_remove (k : IKey C) : MC unit :=
  fun _ s => Ok (tt, upd_inst (store_update k None) s).

(** The last ledger an entry may be extended to, and [extend_ttl]'s rule:
    extend only when the remaining lifetime is at most [threshold]. *)
Definition max_live (e : Env) : Z := sequence e + max_entry_ttl e - 1.
Definition extended (e : Env) (live threshold extend_to : Z) : Z :=
  let new := Z.min (sequence e + extend_to) (max_live e) in
  if (live <? new) && (live - sequence e <=? threshold) then new else live.

Definition inst_extend_ttl (threshold extend_to : Z) : MC unit :=
  fun e s => if extend_to <? threshold then Err (Trap StorageError)
             else Ok (tt, upd_inst_live (extended e (inst_live s) threshold extend_to) s).

(** Persistent storage: every entry has its own lifetime, which reads do not
    consult (archival is not modelled). *)
Definition pget (s : St) (k : PKey C) : option (pval C k) := fst <$> pers s k.
Definition pers_get (k : PKey C) : MC (option (pval C k)) :=
  fun _ s => Ok (pget s k, s).
Definition pers_has (k : PKey C) : MC bool :=
  fun _ s => Ok (bool_decide (is_Some (pget s k)), s).
Definition pers_set (k : PKey C) (v : pval C k) : MC unit :=
  fun e s =>
    let live := match pers s k with
                | Some (_, l) => l
                | None => sequence e + min_persistent_ttl e - 1
                end in
    Ok (tt, upd_pers k (Some (v, live)) s).
Definition pers_remove (k : PKey C) : MC unit :=
  fun _ s => Ok (tt, upd_pers k None s).
Definition pers_extend_ttl (k : PKey C) (threshold extend_to : Z) : MC unit :=
  fun e s =>
    if extend_to <? threshold then Err (Trap StorageError) else
    match pers s k with
    | Some (v, l) => Ok (tt, upd_pers k (Some (v, extended e l threshold extend_to)) s)
    | None => Err (Trap MissingValue)
    end.

(** A write followed by [extend_ttl(key, ttl, ttl)]. *)
Definition pers_put (k : PKey C) (v : pval C k) (ttl : Z) : MC unit :=
  fun e s => match pers_set k v e s with
             | Ok (_, s1) => pers_extend_ttl k ttl ttl e s1
             | Err err => Err err
             end.

(** Temporary storage: an expired entry is gone. *)
Definition temp_live (e : Env) (s : St) (k : TKey C) : option (tval C k * Z) :=
  match temp s k with
  | Some (v, l) => if sequence e <=? l then Some (v, l) else None
  | None => None
  end.
Definition temp_get (k : TKey C) : MC (option (tval C k)) :=
  fun e s => Ok (fst <$> temp_live e s k, s).
Definition temp_set (k : TKey C) (v : tval C k) : MC unit :=
  fun e s =>
    let live := match temp_live e s k with
                | Some (_, l) => l
                | None => sequence e + min_temp_ttl e - 1
                end in
    Ok (tt, upd_temp k (Some (v, live)) s).
Definition temp_remove (k : TKey C) : MC unit :=
  fun _ s => Ok (tt, upd_temp k None s).
(** A temporary entry may not be extended past the network's maximum. *)
Definition temp_extend_ttl (k : TKey C) (threshold extend_to : Z) : MC unit :=
  fun e s =>
    if extend_to <? threshold then Err (Trap StorageError) else
    if max_live e <? sequence e + extend_to then Err (Trap StorageError) else
    match temp_live e s k with
    | Some (v, l) => Ok (tt, upd_temp k (Some (v, extended e l threshold extend_to)) s)
    | None => Err (Trap MissingValue)
    end.

(** A nested call runs on the state of the other contracts; it fails as a
    whole or replies with a value of the expected type or of another one.
    The host refuses to re-enter a contract that is already on the call
    stack, so a callee cannot change the caller's own storage. *)
Definition invoke {A} (f : xcall X A) : MC A :=
  fun e s => match f e (ext s) with
             | Some (Val a, x) => Ok (a, upd_ext x s)
             | Some (Mistyped, _) => Err (Trap ConversionError)
             | None => Err (Trap CallError)
             end.
Definition try_invoke {A} (f : xcall X A) : MC (try_result A) :=
  fun e s => match f e (ext s) with
             | Some (Val a, x) => Ok (TryOk a, upd_ext x s)
             | Some (Mistyped, x) => Ok (TryMistyped, upd_ext x s)
             | None => Ok (TryErr, s)
             end.

(** [+] and [*] under [overflow-checks]. *)
Definition checked (max z : Z) : MC Z :=
  fun _ s => if (0 <=? z) && (z <=? max) then Ok (z, s) else Err (Trap ArithError).
End ops.

Arguments panic {C X A} & err.
Arguments panic_if {C X} & b err.
Arguments unwrap_or_panic {C X A} & o err.
Arguments publish {C X} & ev.

(** ** Reasoning about runs

    [run_inv] turns a successful run [m e s = Ok (a, s')] of a composed
    computation into the facts about its steps; [run] computes primitive
    steps in a goal. *)

Section lemmas.
Context {C : Sig} {X : Type}.
Implicit Types (s : State C X) (e : Env).

Lemma bind_ok {A B} (m : M C X A) (f : A -> M C X B) e s b s' :
  mbind f m e s = Ok (b, s') <->
  exists a s1, m e s = Ok (a, s1) /\ f a e s1 = Ok (b, s').
Proof.
  unfold mbind, M_bind; split.
  - destruct (m e s) as [[a s1]|]; [eauto|done].
  - by intros (a & s1 & -> & ?).
Qed.

Lemma ret_ok {A} (a b : A) e s s' :
  (mret a : M C X A) e s = Ok (b, s') <-> b = a /\ s' = s.
Proof. unfold mret, M_ret; split; [by intros [= -> ->]|by intros [-> ->]]. Qed.

Lemma panic_if_ok b err e s u s' :
  panic_if (C := C) (X := X) b err e s = Ok (u, s') <-> b = false /\ s' = s.
Proof.
  destruct u; unfold panic_if; destruct b; split; try done.
  - by intros [? _].
  - by intros [= ->].
  - by intros [_ ->].
Qed.

Lemma trap_if_ok b h e s u s' :
  trap_if (C := C) (X := X) b h e s = Ok (u, s') <-> b = false /\ s' = s.
Proof.
  destruct u; unfold trap_if; destruct b; split; try done.
  - by intros [? _].
  - by intros [= ->].
  - by intros [_ ->].
Qed.

Lemma unwrap_or_panic_ok {A} (o : option A) err e s a s' :
  unwrap_or_panic (C := C) (X := X) o err e s = Ok (a, s') <-> o = Some a /\ s' = s.
Proof.
  unfold unwrap_or_panic; destruct o; split; try done.
  - by intros [= -> ->].
  - by intros [[= ->] ->].
  - by intros [? _].
Qed.

Lemma unwrap_ok {A} (o : option A) h e s a s' :
  unwrap (C := C) (X := X) o h e s = Ok (a, s') <-> o = Some a /\ s' = s.
Proof.
  unfold unwrap; destruct o; split; try done.
  - by intros [= -> ->].
  - by intros [[= ->] ->].
  - by intros [? _].
Qed.

Lemma require_auth_ok a e s u s' :
  require_auth (C := C) (X := X) a e s = Ok (u, s') <-> authorized e a = true /\ s' = s.
Proof.
  destruct u; unfold require_auth; destruct (authorized e a); split; try done.
  - by intros [= ->].
  - by intros [_ ->].
  - by intros [? _].
Qed.

Lemma checked_ok max z e s a s' :
  checked (C := C) (X := X) max z e s = Ok (a, s') <-> 0 <= z <= max /\ a = z /\ s' = s.
Proof.
  unfold checked; destruct (_ && _) eqn:E; split.
  - intros [= -> ->]; bool_facts; done.
  - by intros (_ & -> & ->).
  - done.
  - intros [? _]; apply andb_false_iff in E as [E|E]; bool_facts; lia.
Qed.

Lemma invoke_ok {A} (f : xcall X A) e s a s' :
  invoke (C := C) f e s = Ok (a, s') <->
  exists x, f e (ext s) = Some (Val a, x) /\ s' = upd_ext x s.
Proof.
  unfold invoke; destruct (f e (ext s)) as [[[b|] x]|]; split; try done.
  - intros [= -> <-]; eauto.
  - by intros (? & [= -> ->] & ->).
  - by intros (? & ? & _).
  - by intros (? & ? & _).
Qed.

Lemma try_invoke_ok {A} (f : xcall X A) e s r s' :
  try_invoke (C := C) f e s = Ok (r, s') ->
  match r with
  | TryOk a => exists x, f e (ext s) = Some (Val a, x) /\ s' = upd_ext x s
  | TryMistyped => exists x, f e (ext s) = Some (Mistyped, x) /\ s' = upd_ext x s
  | TryErr => f e (ext s) = None /\ s' = s
  end.
Proof.
  unfold try_invoke; destruct (f e (ext s)) as [[[b|] x]|]; intros [= <- <-]; eauto.
Qed.

(** Running forwards. *)
Lemma bind_run {A B} (m : M C X A) (f : A -> M C X B) e s a s1 :
  m e s = Ok (a, s1) -> mbind f m e s = f a e s1.
Proof. by unfold mbind, M_bind; intros ->. Qed.
Lemma bind_err {A B} (m : M C X A) (f : A -> M C X B) e s err :
  m e s = Err err -> mbind f m e s = Err err.
Proof. by unfold mbind, M_bind; intros ->. Qed.

Lemma bind_panic_if {A} b err (f : unit -> M C X A) e s :
  b = false -> mbind f (panic_if b err) e s = f tt e s.
Proof. by intros ->. Qed.
Lemma bind_panicked {A} b err (f : unit -> M C X A) e s :
  b = true -> mbind f (panic_if b err) e s = Err (Panic err).
Proof. by intros ->. Qed.
Lemma bind_unwrap {A B} (o : option A) a err (f : A -> M C X B) e s :
  o = Some a -> mbind f (unwrap_or_panic o err) e s = f a e s.
Proof. by intros ->. Qed.
Lemma bind_unwrap_none {A B} (o : option A) err (f : A -> M C X B) e s :
  o = None -> mbind f (unwrap_or_panic o err) e s = Err (Panic err).
Proof. by intros ->. Qed.
Lemma bind_require_auth {A} a (f : unit -> M C X A) e s :
  authorized e a = true -> mbind f (require_auth a) e s = f tt e s.
Proof. by unfold mbind, M_bind, require_auth; intros ->. Qed.

Lemma pget_upd_eq k v l s : pget (upd_pers k (Some (v, l)) s) k = Some v.
Proof. unfold pget; simpl; by rewrite store_update_eq. Qed.
Lemma pget_remove_eq k s : pget (upd_pers k None s) k = None.
Proof. unfold pget; simpl; by rewrite store_update_eq. Qed.
Lemma pget_upd_ne k k' o s : k <> k' -> pget (upd_pers k o s) k' = pget s k'.
Proof. intros ?; unfold pget; simpl; by rewrite store_update_ne. Qed.

Lemma pers_set_ok k v e s u s' :
  pers_set k v e s = Ok (u, s') -> exists l, s' = upd_pers k (Some (v, l)) s.
Proof. intros [= _ <-]; eauto. Qed.
Lemma pers_extend_ok k t x e s u s' :
  pers_extend_ttl k t x e s = Ok (u, s') ->
  exists v l, pget s k = Some v /\ s' = upd_pers k (Some (v, l)) s.
Proof.
  unfold pget, pers_extend_ttl; destruct (_ <? _); [done|].
  destruct (pers s k) as [[v l]|]; [|done]; intros [= _ <-]; eauto.
Qed.

(** What a persistent write leaves behind: the value, and nothing else. *)
Lemma pers_set_run k v e s :
  exists l, pers_set k v e s = Ok (tt, upd_pers k (Some (v, l)) s).
Proof. by eexists. Qed.
Lemma pers_extend_run k v t e s :
  pget s k = Some v ->
  exists l, pers_extend_ttl k t t e s = Ok (tt, upd_pers k (Some (v, l)) s).
Proof.
  unfold pget, pers_extend_ttl; rewrite Z.ltb_irrefl.
  destruct (pers s k) as [[v' l]|]; [|done]; intros [= ->]; eauto.
Qed.
Lemma pers_put_run k v t e s :
  exists l1 l2, pers_put k v t e s
    = Ok (tt, upd_pers k (Some (v, l2)) (upd_pers k (Some (v, l1)) s)).
Proof.
  unfold pers_put; destruct (pers_set_run k v e s) as [l1 ->].
  destruct (pers_extend_run k v t e (upd_pers k (Some (v, l1)) s)) as [l2 ->];
    [apply pget_upd_eq|eauto].
Qed.
Lemma pers_put_ok k v t e s u s' :
  pers_put k v t e s = Ok (u, s') ->
  exists l1 l2, s' = upd_pers k (Some (v, l2)) (upd_pers k (Some (v, l1)) s).
Proof.
  destruct (pers_put_run k v t e s) as (l1 & l2 & ->); intros [= _ <-]; eauto.
Qed.

(** What a run may do to the state, as a preorder that depends on the
    environment; composed computations inherit it from their steps. *)
Definition preserves {A} (R : Env -> relation (State C X)) (m : M C X A) : Prop :=
  forall e s a s', m e s = Ok (a, s') -> R e s s'.

Class PreorderE (R : Env -> relation (State C X)) : Prop :=
  preorderE e :: PreOrder (R e).

Context (R : Env -> relation (State C X)) `{!PreorderE R}.

Lemma pres_ret {A} (a : A) : preserves R (mret a).
Proof. intros e s b s' [-> ->]%ret_ok; reflexivity. Qed.

Lemma pres_bind {A B} (m : M C X A) (f : A -> M C X B) :
  preserves R m -> (forall a, preserves R (f a)) -> preserves R (mbind f m).
Proof.
  intros Hm Hf e s b s' (a & s1 & H1 & H2)%bind_ok.
  transitivity s1; [by eapply Hm|by eapply Hf].
Qed.

Lemma pres_read {A} (f : Env -> State C X -> A) :
  preserves R (fun e s => Ok (f e s, s)).
Proof. intros e s a s' [= _ ->]; reflexivity. Qed.

Lemma pres_inst_get k : preserves R (inst_get k).
Proof. apply (pres_read (fun _ s => inst s k)). Qed.
Lemma pres_inst_has k : preserves R (inst_has k).
Proof. apply (pres_read (fun _ s => bool_decide (is_Some (inst s k)))). Qed.
Lemma pres_pers_get k : preserves R (pers_get k).
Proof. apply (pres_read (fun _ s => pget s k)). Qed.
Lemma pres_pers_has k : preserves R (pers_has k).
Proof. apply (pres_read (fun _ s => bool_decide (is_Some (pget s k)))). Qed.
Lemma pres_temp_get k : preserves R (temp_get k).
Proof. apply (pres_read (fun e s => fst <$> temp_live e s k)). Qed.
Lemma pres_ask {A} (f : Env -> A) : preserves R (ask f).
Proof. apply (pres_read (fun e _ => f e)). Qed.

Lemma pres_read_state {A} (f : State C X -> A) : preserves R (read_state f).
Proof. apply (pres_read (fun _ s => f s)). Qed.

Lemma pres_panic {A} err : preserves R (panic err : M C X A).
Proof. by intros ????. Qed.
Lemma pres_trap {A} h : preserves R (trap h : M C X A).
Proof. by intros ????. Qed.
Lemma pres_panic_if b err : preserves R (panic_if b err).
Proof. intros e s a s' [_ ->]%panic_if_ok; reflexivity. Qed.
Lemma pres_trap_if b h : preserves R (trap_if b h).
Proof. intros e s a s' [_ ->]%trap_if_ok; reflexivity. Qed.
Lemma pres_unwrap_or_panic {A} (o : option A) err : preserves R (unwrap_or_panic o err).
Proof. intros e s a s' [_ ->]%unwrap_or_panic_ok; reflexivity. Qed.
Lemma pres_unwrap {A} (o : option A) h : preserves R (unwrap o h).
Proof. intros e s a s' [_ ->]%unwrap_ok; reflexivity. Qed.
Lemma pres_require_auth a : preserves R (require_auth a).
Proof. intros e s u s' [_ ->]%require_auth_ok; reflexivity. Qed.
Lemma pres_checked max z : preserves R (checked max z).
Proof. intros e s a s' (_ & _ & ->)%checked_ok; reflexivity. Qed.
End lemmas.

#[export] Hint Resolve pres_ret pres_read_state pres_inst_has pres_pers_has pres_ask pres_panic pres_trap
  pres_panic_if pres_trap_if pres_unwrap_or_panic pres_unwrap pres_require_auth
  pres_checked : sas.
(** The value type of a key only unifies up to conversion. *)
#[export] Hint Extern 0 (preserves ?R (inst_get ?k)) =>
  (apply (pres_inst_get R k); typeclasses eauto) : sas.
#[export] Hint Extern 0 (preserves ?R (pers_get ?k)) =>
  (apply (pres_pers_get R k); typeclasses eauto) : sas.
#[export] Hint Extern 0 (preserves ?R (temp_get ?k)) =>
  (apply (pres_temp_get R k); typeclasses eauto) : sas.

(** ** Footprints

    [touches I P] bounds what a run writes: only instance keys of [I] and
    persistent keys of [P] change their value (lifetimes, temporary entries,
    events and the other contracts' state are not constrained). *)

Section footprint.
Context {C : Sig} {X : Type} (I : IKey C -> Prop) (P : PKey C -> Prop).
Abbreviation St := (State C X).

Definition touches (e : Env) (s s' : St) : Prop :=
  (forall k, ~ I k -> inst s' k = inst s k)
  /\ (forall k, ~ P k -> pget s' k = pget s k).

#[export] Instance touches_preorder : PreorderE touches.
Proof.
  intros e; split.
  - intros s; split; done.
  - intros s1 s2 s3 [Hi Hp] [Hi' Hp']; split; intros k Hk.
    + by rewrite Hi', Hi.
    + by rewrite Hp', Hp.
Qed.

Lemma fp_inst_set k v : I k -> preserves touches (inst_set (X := X) k v).
Proof.
  intros Hk e s u s' [= _ <-]; split; [|done].
  intros k' Hk'; apply (store_update_ne k k'); by intros ->.
Qed.
Lemma fp_inst_remove k : I k -> preserves touches (inst_remove (X := X) k).
Proof.
  intros Hk e s u s' [= _ <-]; split; [|done].
  intros k' Hk'; apply (store_update_ne k k'); by intros ->.
Qed.
Lemma fp_inst_extend_ttl t x : preserves touches (inst_extend_ttl (X := X) t x).
Proof.
  intros e s u s'; unfold inst_extend_ttl; destruct (_ <? _); [done|].
  by intros [= _ <-].
Qed.
Lemma fp_pers_set k v : P k -> preserves touches (pers_set (X := X) k v).
Proof.
  intros Hk e s u s' [= _ <-]; split; [done|].
  intros k' Hk'; unfold pget; simpl; rewrite store_update_ne; [done|by intros ->].
Qed.
Lemma fp_pers_remove k : P k -> preserves touches (pers_remove (X := X) k).
Proof.
  intros Hk e s u s' [= _ <-]; split; [done|].
  intros k' Hk'; unfold pget; simpl; rewrite store_update_ne; [done|by intros ->].
Qed.
Lemma fp_pers_extend_ttl k t x : preserves touches (pers_extend_ttl (X := X) k t x).
Proof.
  intros e s u s'; unfold pers_extend_ttl; destruct (_ <? _); [done|].
  destruct (pers s k) as [[v l]|] eqn:E; [|done].
  intros [= _ <-]; split; [done|]; intros k' _; unfold pget; simpl.
  destruct (decide (k = k')) as [<-|]; [|by rewrite store_update_ne].
  by rewrite store_update_eq, E.
Qed.
Lemma fp_pers_put k v t : P k -> preserves touches (pers_put (X := X) k v t).
Proof.
  intros Hk e s u s' (l1 & l2 & ->)%pers_put_ok; split; [done|].
  intros k' Hk'; rewrite !pget_upd_ne; [done|by intros ->..].
Qed.
Lemma fp_temp_set k v : preserves touches (temp_set (X := X) k v).
Proof. by intros e s u s' [= _ <-]. Qed.
Lemma fp_temp_extend_ttl k t x : preserves touches (temp_extend_ttl (X := X) k t x).
Proof.
  intros e s u s'; unfold temp_extend_ttl; destruct (_ <? _); [done|].
  destruct (_ <? _); [done|]; destruct (temp_live _ _ _) as [[v l]|]; [|done].
  by intros [= _ <-].
Qed.
Lemma fp_publish ev : preserves touches (publish (X := X) ev).
Proof. by intros e s u s' [= _ <-]. Qed.
Lemma fp_invoke {A} (f : xcall X A) : preserves touches (invoke f).
Proof.
  intros e s a s'; unfold invoke; destruct (f e (ext s)) as [[[b|] x]|]; try done.
  by intros [= _ <-].
Qed.
Lemma fp_try_invoke {A} (f : xcall X A) : preserves touches (try_invoke f).
Proof.
  intros e s a s'; unfold try_invoke; destruct (f e (ext s)) as [[[b|] x]|];
    by intros [= _ <-].
Qed.
End footprint.

#[export] Hint Resolve fp_inst_set fp_inst_remove fp_inst_extend_ttl fp_pers_set
  fp_pers_remove fp_pers_extend_ttl fp_pers_put fp_temp_set fp_temp_extend_ttl fp_publish
  fp_invoke fp_try_invoke : sas.

(** A footprint that avoids what a relation observes implies the relation. *)
Lemma pres_via_touches {C X A} (R : Env -> relation (State C X)) I P (m : M C X A) :
  preserves (touches I P) m ->
  (forall e s s', touches I P e s s' -> R e s s') ->
  preserves R m.
Proof. intros Hm Hsub e s a s' H; eapply Hsub, Hm, H. Qed.

(** From [Ok (a, s) = Ok (b, s')], replace [s'] by [s] and [b] by [a] where it
    is a variable. *)
Ltac inj_run H :=
  first [ injection H as H <-; try match type of H with _ = ?x => is_var x; subst x end
        | injection H as <- ].

(** Invert the primitive steps of the successful runs in the context. *)
Ltac run_inv_step :=
  match goal with
  | H : mbind _ _ _ _ = Ok _ |- _ =>
      apply bind_ok in H; destruct H as (? & ? & ? & H)
  | H : mret _ _ _ = Ok _ |- _ => apply ret_ok in H as [? ?]; subst
  | H : panic_if _ _ _ _ = Ok _ |- _ => apply panic_if_ok in H as [? ?]; subst
  | H : trap_if _ _ _ _ = Ok _ |- _ => apply trap_if_ok in H as [? ?]; subst
  | H : unwrap_or_panic _ _ _ _ = Ok _ |- _ =>
      apply unwrap_or_panic_ok in H as [? ?]; subst
  | H : unwrap _ _ _ _ = Ok _ |- _ => apply unwrap_ok in H as [? ?]; subst
  | H : require_auth _ _ _ = Ok _ |- _ => apply require_auth_ok in H as [? ?]; subst
  | H : checked _ _ _ _ = Ok _ |- _ => apply checked_ok in H as (? & ? & ?); subst
  | H : panic _ _ _ = Ok _ |- _ => discriminate H
  | H : trap _ _ _ = Ok _ |- _ => discriminate H
  | H : read_state _ _ _ = Ok _ |- _ => unfold read_state in H; inj_run H
  | H : ask _ _ _ = Ok _ |- _ => unfold ask in H; inj_run H
  | H : inst_get _ _ _ = Ok _ |- _ => unfold inst_get in H; inj_run H
  | H : inst_has _ _ _ = Ok _ |- _ => unfold inst_has in H; inj_run H
  | H : inst_set _ _ _ _ = Ok _ |- _ => unfold inst_set in H; inj_run H
  | H : inst_remove _ _ _ = Ok _ |- _ => unfold inst_remove in H; inj_run H
  | H : pers_get _ _ _ = Ok _ |- _ => unfold pers_get in H; inj_run H
  | H : pers_has _ _ _ = Ok _ |- _ => unfold pers_has in H; inj_run H
  | H : pers_set _ _ _ _ = Ok _ |- _ => apply pers_set_ok in H as [? ->]
  | H : pers_put _ _ _ _ _ = Ok _ |- _ => apply pers_put_ok in H as (? & ? & ->)
  | H : pers_extend_ttl _ _ _ _ _ = Ok _ |- _ => apply pers_extend_ok in H as (? & ? & H & ->)
  | H : pers_remove _ _ _ = Ok _ |- _ => unfold pers_remove in H; inj_run H
  | H : temp_get _ _ _ = Ok _ |- _ => unfold temp_get in H; inj_run H
  | H : publish _ _ _ = Ok _ |- _ => unfold publish in H; inj_run H
  end.
Ltac run_inv := repeat run_inv_step.

(** Run the leading primitive step of a computation in the goal. *)
Ltac run_step :=
  match goal with
  | |- mbind ?f (ask ?g) ?e ?s = ?r => change (f (g e) e s = r); cbv beta
  | |- mbind ?f (mret ?a) ?e ?s = ?r => change (f a e s = r); cbv beta
  | |- mbind ?f (inst_get ?k) ?e ?s = ?r => change (f (inst s k) e s = r); cbv beta
  | |- mbind ?f (inst_has ?k) ?e ?s = ?r =>
      change (f (bool_decide (is_Some (inst s k))) e s = r); cbv beta
  | |- mbind ?f (pers_get ?k) ?e ?s = ?r => change (f (pget s k) e s = r); cbv beta
  | |- mbind ?f (pers_has ?k) ?e ?s = ?r =>
      change (f (bool_decide (is_Some (pget s k))) e s = r); cbv beta
  | |- mbind ?f (panic_if _ _) ?e ?s = ?r =>
      rewrite (bind_panic_if _ _ f e s); cbv beta; [|try done]
  | |- mbind ?f (require_auth _) ?e ?s = ?r =>
      rewrite (bind_require_auth _ f e s); cbv beta; [|try done]
  end.
Ltac run := repeat run_step.

(** Prove [preserves R m] from the steps of [m]. *)
Ltac pres_step :=
  match goal with
  | |- preserves _ (mbind _ _) => apply pres_bind; [typeclasses eauto| |intros ?]
  | |- preserves _ (let '(_, _) := ?p in _) => destruct p
  | |- preserves _ (match ?x with _ => _ end) => destruct x eqn:?
  | |- preserves _ _ => solve [eauto with sas typeclass_instances]
  end.
Ltac pres := repeat pres_step.

(** ** Probes *)

(** The value of a best-effort probe, [match .. { Ok(Ok(v)) => v, _ => d }]. *)
Definition probe {C X A} (f : xcall X A) (d : A) : M C X A :=
  r ← try_invoke f; mret (default d (call_value r)).

(** A probe answers its default unless the callee answered. *)
Lemma probe_ok {C X A} (f : xcall X A) d e (s : State C X) v s' :
  probe f d e s = Ok (v, s') ->
  exists x, s' = upd_ext x s
    /\ (f e (ext s) = Some (Val v, x) \/ (v = d /\ forall b y, f e (ext s) <> Some (Val b, y))).
Proof.
  unfold probe; intros H; run_inv.
  match goal with H : try_invoke _ _ _ = _ |- _ => apply try_invoke_ok in H end.
  destruct x; simpl.
  - destruct H0 as (x & H1 & ->); eauto.
  - destruct H0 as (x & H1 & ->); exists x; split; [done|right].
    by rewrite H1; split.
  - destruct H0 as [H1 ->]; exists (ext s); split; [by destruct s|right].
    by rewrite H1; split.
Qed.

(** ** The other contracts

    A run changes the state of the other contracts through its nested calls
    only: when each of them respects [R], so does the run. *)

Section others.
Context {C : Sig} {X : Type} (R : relation X) `{!PreOrder R}.

Definition through (e : Env) (s s' : State C X) : Prop := R (ext s) (ext s').
#[export] Instance through_preorder : PreorderE through.
Proof.
  intros e; split; [intros s|intros s1 s2 s3]; unfold through; [reflexivity|apply transitivity].
Qed.

Definition respects {A} (f : xcall X A) : Prop :=
  forall e x r x', f e x = Some (r, x') -> R x x'.

Lemma through_eq {A} (m : M C X A) :
  (forall e s a s', m e s = Ok (a, s') -> ext s' = ext s) -> preserves through m.
Proof. intros Hm e s a s' Hr; unfold through; by rewrite (Hm _ _ _ _ Hr). Qed.

Lemma through_publish ev : preserves through (publish ev).
Proof. apply through_eq; by intros e s a s' [= _ <-]. Qed.
Lemma through_inst_set k v : preserves through (inst_set k v).
Proof. apply through_eq; by intros e s a s' [= _ <-]. Qed.
Lemma through_inst_remove k : preserves through (inst_remove k).
Proof. apply through_eq; by intros e s a s' [= _ <-]. Qed.
Lemma through_inst_extend_ttl t x : preserves through (inst_extend_ttl t x).
Proof.
  apply through_eq; intros e s a s'; unfold inst_extend_ttl; destruct (_ <? _); [done|].
  by intros [= _ <-].
Qed.
Lemma through_pers_set k v : preserves through (pers_set k v).
Proof. apply through_eq; by intros e s a s' [= _ <-]. Qed.
Lemma through_pers_remove k : preserves through (pers_remove k).
Proof. apply through_eq; by intros e s a s' [= _ <-]. Qed.
Lemma through_pers_extend_ttl k t x : preserves through (pers_extend_ttl k t x).
Proof.
  apply through_eq; intros e s a s'; unfold pers_extend_ttl; destruct (_ <? _); [done|].
  destruct (pers s k) as [[v l]|]; [|done]; by intros [= _ <-].
Qed.
Lemma through_pers_put k v t : preserves through (pers_put k v t).
Proof. apply through_eq; by intros e s a s' (l1 & l2 & ->)%pers_put_ok. Qed.
Lemma through_temp_set k v : preserves through (temp_set k v).
Proof. apply through_eq; by intros e s a s' [= _ <-]. Qed.
Lemma through_temp_extend_ttl k t x : preserves through (temp_extend_ttl k t x).
Proof.
  apply through_eq; intros e s a s'; unfold temp_extend_ttl; destruct (_ <? _); [done|].
  destruct (_ <? _); [done|]; destruct (temp_live _ _ _) as [[v l]|]; [|done].
  by intros [= _ <-].
Qed.
Lemma through_invoke {A} (f : xcall X A) : respects f -> preserves through (invoke f).
Proof. intros Hf e s v s' (x & Hx & ->)%invoke_ok; by apply Hf in Hx. Qed.
Lemma through_try_invoke {A} (f : xcall X A) : respects f -> preserves through (try_invoke f).
Proof.
  intros Hf e s r s' Hr; apply try_invoke_ok in Hr; destruct r.
  - destruct Hr as (x & Hx & ->); by apply Hf in Hx.
  - destruct Hr as (x & Hx & ->); by apply Hf in Hx.
  - destruct Hr as [_ ->]; unfold through; reflexivity.
Qed.
Lemma through_probe {A} (f : xcall X A) d : respects f -> preserves through (probe f d).
Proof.
  intros Hf; unfold probe; apply pres_bind; [typeclasses eauto|by apply through_try_invoke|].
  intros r; apply pres_ret, through_preorder.
Qed.
End others.
#[export] Hint Resolve through_publish through_inst_set through_inst_remove through_inst_extend_ttl
  through_pers_set through_pers_remove through_pers_extend_ttl through_pers_put through_temp_set
  through_temp_extend_ttl through_invoke through_try_invoke through_probe : sas.

(** ** Runs that succeed

    Total correctness of a computation: [wp m e s Q] says that [m] returns from
    [s] with a value and a state in [Q].  Shared by the progress theorems of
    the contracts. *)

Definition wp {C X A} (m : M C X A) (e : Env) (s : State C X) (Q : A -> State C X -> Prop) : Prop :=
  match m e s with
  | Ok (a, s') => Q a s'
  | Err _ => False
  end.

Section wp.
Context {C : Sig} {X : Type}.
Implicit Types (s : State C X) (e : Env).

Lemma wp_run {A} (m : M C X A) e s Q :
  wp m e s Q -> exists a s', m e s = Ok (a, s') /\ Q a s'.
Proof. unfold wp; destruct (m e s) as [[a s']|]; [eauto|done]. Qed.

Lemma wp_bind {A B} (m : M C X A) (f : A -> M C X B) e s Q :
  wp m e s (fun a s1 => wp (f a) e s1 Q) -> wp (mbind f m) e s Q.
Proof. unfold wp, mbind, M_bind; by destruct (m e s) as [[a s1]|]. Qed.

Lemma wp_of_run {A} (m : M C X A) e s a s' (Q : A -> State C X -> Prop) :
  m e s = Ok (a, s') -> Q a s' -> wp m e s Q.
Proof. unfold wp; by intros ->. Qed.

Lemma wp_panic_if b (err : Error C) e s (Q : unit -> State C X -> Prop) :
  b = false -> Q tt s -> wp (panic_if b err) e s Q.
Proof. by intros ->. Qed.
Lemma wp_unwrap_or_panic {A} (o : option A) (err : Error C) e s (Q : A -> State C X -> Prop) v :
  o = Some v -> Q v s -> wp (unwrap_or_panic o err) e s Q.
Proof. by intros ->. Qed.
Lemma wp_require_auth a e s (Q : unit -> State C X -> Prop) :
  authorized e a = true -> Q tt s -> wp (require_auth a) e s Q.
Proof. unfold wp, require_auth; by intros ->. Qed.

(** A contract that answers the same whatever the state of the others. *)
Definition always {A} (f : xcall X A) e (v : A) : Prop := forall x, exists x', f e x = Some (Val v, x').

Lemma wp_invoke {A} (f : xcall X A) e s v (Q : A -> State C X -> Prop) :
  always f e v -> (forall x, Q v (upd_ext x s)) -> wp (invoke f) e s Q.
Proof. intros Hf HQ; unfold wp, invoke; destruct (Hf (ext s)) as [x ->]; apply HQ. Qed.

(** A call whose failure the caller tolerates. *)
Lemma wp_try_invoke {A} (f : xcall X A) e s (Q : try_result A -> State C X -> Prop) :
  (forall r x, Q r (upd_ext x s)) -> Q TryErr s -> wp (try_invoke f) e s Q.
Proof.
  intros HQ H0; unfold wp, try_invoke; destruct (f e (ext s)) as [[[a|] x]|]; auto.
Qed.
Lemma wp_try_accepted {A} (f : xcall X A) e s (Q : try_result A -> State C X -> Prop) :
  (forall x, f e x <> None) -> (forall r x, is_call_err r = false -> Q r (upd_ext x s)) ->
  wp (try_invoke f) e s Q.
Proof.
  intros Hf HQ; unfold wp, try_invoke; specialize (Hf (ext s)).
  destruct (f e (ext s)) as [[[a|] x]|]; [by apply HQ..|done].
Qed.
End wp.
