(* ===== verification/Values.v ===== *)
(** * Values and lifetimes

    A read renews the lifetime of what it reads and changes no value.  The
    relations of this file see values only: two states with the [same_values],
    a computation that is [quiet], a query that [answers], a call that [wrote]
    one entry; and histories of invocations in which a failed one is rolled
    back.  They are shared by the contracts. *)

From S2P Require Import Prelude Host.

Section values.
Context {C : Sig} {X : Type}.
Implicit Types (s : State C X) (e : Env).

Record same_values s s' : Prop := {
  sv_inst : inst s' = inst s;
  sv_pget : forall k, pget s' k = pget s k;
  sv_events : events s' = events s;
  sv_ext : ext s' = ext s
}.
Definition quiet (e : Env) s s' : Prop := same_values s s'.

#[export] Instance same_values_equiv : Equivalence same_values.
Proof.
  split.
  - by intros s; split.
  - intros s1 s2 [? ? ? ?]; by split.
  - intros s1 s2 s3 [? ? ? ?] [? ? ? ?]; split; congruence.
Qed.

#[export] Instance pget_proper k : Proper (same_values ==> eq) (fun s => pget s k).
Proof. intros s s' Hs; symmetry; apply (sv_pget _ _ Hs). Qed.

#[export] Instance quiet_preorderE : PreorderE quiet.
Proof.
  intros e; split; [intros s|intros s1 s2 s3]; unfold quiet; [reflexivity|apply transitivity].
Qed.

Lemma quiet_inst_extend_ttl t x : preserves quiet (inst_extend_ttl t x).
Proof.
  intros e s u s'; unfold inst_extend_ttl; destruct (_ <? _); [done|]; by intros [= _ <-].
Qed.
Lemma quiet_pers_extend_ttl k t x : preserves quiet (pers_extend_ttl k t x).
Proof.
  intros e s u s' (v & l & Hv & ->)%pers_extend_ok; split; try done.
  intros k'; destruct (decide (k = k')) as [<-|Hne]; [by rewrite pget_upd_eq|by apply pget_upd_ne].
Qed.

(** A relation on values alone is preserved by everything quiet. *)
Class OnValues (R : Env -> relation (State C X)) : Prop :=
  on_values e s s' : same_values s s' -> R e s s'.

Lemma pres_of_quiet {A} (R : Env -> relation (State C X)) (m : M C X A) :
  OnValues R -> preserves quiet m -> preserves R m.
Proof. intros HR Hm e s a s' Hr; eapply on_values, Hm, Hr. Qed.

#[export] Instance touches_on_values I P : OnValues (touches (C := C) (X := X) I P).
Proof. intros e s s' [Hi Hp _ _]; split; intros k _; [by rewrite Hi|apply Hp]. Qed.

(** The entry [k] now holds [o] and every other value is as it was. *)
Record wrote (k : PKey C) (o : option (pval C k)) s s' : Prop := {
  w_inst : inst s' = inst s;
  w_value : pget s' k = o;
  w_others : forall k', k <> k' -> pget s' k' = pget s k'
}.

Lemma pers_put_wrote k v t e s u s' : pers_put k v t e s = Ok (u, s') -> wrote k (Some v) s s'.
Proof.
  intros (l1 & l2 & ->)%pers_put_ok; split; [done|apply pget_upd_eq|].
  intros k' Hk; by rewrite !pget_upd_ne.
Qed.
Lemma set_ok k v e s u s' : pers_set k v e s = Ok (u, s') -> wrote k (Some v) s s'.
Proof.
  intros [l ->]%pers_set_ok; split; [done|apply pget_upd_eq|].
  intros k' Hk; by apply pget_upd_ne.
Qed.
Lemma remove_ok k e s u s' : pers_remove k e s = Ok (u, s') -> wrote k None s s'.
Proof.
  unfold pers_remove; intros [= _ <-]; split; [done|apply pget_remove_eq|].
  intros k' Hk; by apply pget_upd_ne.
Qed.
Lemma wrote_same k s : wrote k (pget s k) s s.
Proof. by split. Qed.
Lemma publish_ok ev e s u s' :
  publish ev e s = Ok (u, s') ->
  inst s' = inst s /\ (forall k, pget s' k = pget s k) /\ events s' = events s ++ [ev].
Proof. by intros [= _ <-]. Qed.

(** ** Queries *)

(** A query that answers [v] and changes no value. *)
Definition answers {A} (m : M C X A) (e : Env) s (v : A) : Prop :=
  exists s', m e s = Ok (v, s') /\ same_values s s'.

Lemma answers_bind {A B} (m : M C X A) (f : A -> M C X B) e s a b :
  answers m e s a -> (forall s1, same_values s s1 -> answers (f a) e s1 b) ->
  answers (mbind f m) e s b.
Proof.
  intros (s1 & Hm & Hs1) Hf; destruct (Hf s1 Hs1) as (s2 & Hf2 & Hs2).
  exists s2; split; [by rewrite (bind_run _ _ _ _ _ _ Hm)|by transitivity s1].
Qed.
Lemma answers_ret {A} (a : A) e s : answers (mret a) e s a.
Proof. by exists s. Qed.
Lemma answers_inst_extend_ttl t e s : answers (inst_extend_ttl t t) e s tt.
Proof.
  unfold answers, inst_extend_ttl; rewrite Z.ltb_irrefl; eexists; split; [done|by split].
Qed.
Lemma answers_pers_extend_ttl k t e s :
  is_Some (pget s k) -> answers (pers_extend_ttl k t t) e s tt.
Proof.
  intros [v Hv]; destruct (pers_extend_run k v t e s Hv) as [z Hr].
  eexists; split; [exact Hr|]; by eapply quiet_pers_extend_ttl.
Qed.
Lemma answers_eq {A} (m : M C X A) e s v w : answers m e s v -> v = w -> answers m e s w.
Proof. by intros ? <-. Qed.
Lemma answers_inv {A} (m : M C X A) e s v a s' :
  answers m e s v -> m e s = Ok (a, s') -> a = v /\ same_values s s'.
Proof. intros (s1 & -> & Hs) [= <- <-]; done. Qed.
End values.

#[export] Hint Resolve quiet_inst_extend_ttl quiet_pers_extend_ttl : sas.
#[export] Hint Extern 6 (preserves ?R _) =>
  (lazymatch R with quiet => fail | _ => apply pres_of_quiet; [typeclasses eauto|] end) : sas.

(** Prove [preserves R m], unfolding the operations of [m] on the way. *)
Ltac pres_open :=
  repeat first [ pres_step
               | match goal with |- preserves _ ?m => let h := get_head m in unfold h end ].

(** Run the reads of a query in the goal. *)
Ltac ans_step :=
  match goal with
  | |- answers (mbind ?f (pers_get ?k)) ?e ?s ?v => change (answers (f (pget s k)) e s v); cbv beta
  | |- answers (mbind ?f (pers_has ?k)) ?e ?s ?v =>
      change (answers (f (bool_decide (is_Some (pget s k)))) e s v); cbv beta
  | |- answers (mbind ?f (inst_get ?k)) ?e ?s ?v => change (answers (f (inst s k)) e s v); cbv beta
  | |- answers (mbind ?f (read_state ?g)) ?e ?s ?v => change (answers (f (g s)) e s v); cbv beta
  | |- answers (mbind ?f (ask ?g)) ?e ?s ?v => change (answers (f (g e)) e s v); cbv beta
  | |- answers (mbind ?f (mret ?a)) ?e ?s ?v => change (answers (f a) e s v); cbv beta
  | |- answers (mret ?a) _ _ _ => apply answers_ret
  end.
Ltac ans := repeat ans_step.

(** Rewrite a read of a later state to the state that decided it. *)
Ltac settle_step :=
  match goal with
  | Hs : same_values ?s ?s1 |- context [pget ?s1 ?k] => rewrite (sv_pget _ _ Hs k)
  | Hs : same_values ?s ?s1 |- context [inst ?s1] => rewrite (sv_inst _ _ Hs)
  | Hw : wrote ?k ?o ?s ?s1 |- context [pget ?s1 ?k] => rewrite (w_value _ _ _ _ Hw)
  | Hw : wrote ?k ?o ?s ?s1 |- context [pget ?s1 ?k'] =>
      rewrite (w_others _ _ _ _ Hw k') by congruence
  | Hw : wrote ?k ?o ?s ?s1 |- context [inst ?s1] => rewrite (w_inst _ _ _ _ Hw)
  | Hp : forall k, pget ?s1 k = pget ?s k |- context [pget ?s1 ?k] => rewrite (Hp k)
  | Hi : inst ?s1 = inst ?s |- context [inst ?s1] => rewrite Hi
  end.
Ltac settle := repeat settle_step.

(** ** Histories of invocations *)

Section histories.
Context {C : Sig} {X Call : Type} (exec : Call -> M C X unit).
Implicit Types (s : State C X) (e : Env) (h : list (Env * Call)).

(** One transaction: a failed call leaves the state as it was. *)
Definition transact_call (e : Env) (c : Call) s : State C X :=
  match exec c e s with
  | Ok (_, s') => s'
  | Err _ => s
  end.

Fixpoint run_calls (h : list (Env * Call)) s : State C X :=
  match h with
  | [] => s
  | (e, c) :: h' => run_calls h' (transact_call e c s)
  end.

Lemma transact_call_run e c s :
  (exists s', exec c e s = Ok (tt, s') /\ transact_call e c s = s')
  \/ (exists err, exec c e s = Err err /\ transact_call e c s = s).
Proof.
  unfold transact_call; destruct (exec c e s) as [[[] s']|err] eqn:E; [left|right]; eauto.
Qed.

Lemma run_calls_app h1 h2 s : run_calls (h1 ++ h2) s = run_calls h2 (run_calls h1 s).
Proof. revert s; induction h1 as [|[e c] h1 IH]; intros s; simpl; [done|apply IH]. Qed.

(** An invariant of every call is an invariant of every history. *)
Lemma run_calls_inv (P : State C X -> Prop) (ok : Env -> Call -> Prop) :
  (forall c e s s', ok e c -> exec c e s = Ok (tt, s') -> P s -> P s') ->
  forall h s, Forall (fun '(e, c) => ok e c) h -> P s -> P (run_calls h s).
Proof.
  intros Hstep h; induction h as [|[e c] h IH]; intros s Hok Hs; simpl; [done|].
  apply Forall_cons in Hok as [Hc Hok]; apply IH; [done|].
  destruct (transact_call_run e c s) as [(s' & Hr & ->)|(err & _ & ->)]; eauto.
Qed.
End histories.
