(* ===== verification/Common.v ===== *)
(** * soroban-sas-common: shared data types

    The error codes, identifiers and records of
    [src/packages/soroban-sas-common/src], and the compact storage encoding
    of an attestation with its round trip. *)

From S2P Require Import Prelude Host.

(** ** Errors *)

Inductive SASError :=
  | AlreadyInitialized | NotInitialized
  | InvalidSchema | EmptySchema | InvalidSchemaDefinition
  | SchemaAlreadyExists | SchemaNotFound
  | AttestationNotFound | AlreadyRevoked | NotRevocable | AlreadyExpired
  | DuplicateAttestation | InvalidRevocability
  | Unauthorized | InvalidSignature | DelegationReplay | UnauthorizedAttester
  | InvalidTTL | InvalidRecipient | InvalidValue | IncompatibleDependency
  | BatchTooLarge | AttesterKeyAlreadyRegistered | AttesterKeyNotFound
  | AttesterKeyRevoked | ResolverRejected | FeeMismatch | IndexerUnavailable
  | CountMetadataExpired | InvalidRefUid | PayloadTooLarge | TreasuryNotSet
  | InvalidUID | LimitExceeded | InvalidTimeRange | InvalidExpirationTime
  | InvalidTimestamp | TimestampAnchorNotFound | SchemaQuarantined
  | CooldownActive | InvalidToken | RateLimitExceeded | AutoPruneDisabled
  | ContractPaused | ProtocolPaused | InsufficientFee | DelegationScopeDenied
  | InvalidZKProof | NullifierAlreadyUsed | Reentrancy.

#[export] Instance SASError_eq_dec : EqDecision SASError.
Proof. solve_decision. Defined.

(** ** Constants *)

Definition LEDGERS_IN_ONE_YEAR : Z := 6307200.
Definition INSTANCE_TTL_THRESHOLD_LEDGERS : Z := 500000.
Definition INSTANCE_EXTEND_TO_LEDGERS : Z := LEDGERS_IN_ONE_YEAR.
Definition MAX_ATTESTATION_DATA_BYTES : Z := 10000.
Definition MAX_MULTI_ATTEST : Z := 100.

(** The shared [extend_instance_ttl] of the registry and the indexer. *)
Definition extend_instance_ttl_common {C X} : M C X unit :=
  inst_extend_ttl INSTANCE_TTL_THRESHOLD_LEDGERS INSTANCE_EXTEND_TO_LEDGERS.

(** ** Identifiers *)

Record UID := mkUID { uid_bytes : bytes }.

#[export] Instance UID_eq_dec : EqDecision UID.
Proof. solve_decision. Defined.

Definition zero_bytes32 : bytes := replicate 32 0.
Definition zero_uid : UID := mkUID zero_bytes32.

(** Content addresses: the SHA-256 of the concatenated XDR encodings. *)
Definition schema_uid (e : Env) (schema : bytes) (resolver : Address) (revocable : bool) : UID :=
  mkUID (sha256 e (xdr_string e schema ++ xdr_address e resolver
                   ++ [if revocable then 1 else 0])).

Definition attestation_uid (e : Env) (schema : UID) (recipient attester : Address)
    (data : bytes) : UID :=
  mkUID (sha256 e (xdr_uid e (uid_bytes schema) ++ xdr_address e recipient
                   ++ xdr_address e attester ++ xdr_bytes e data)).

(** ** Records *)

Record AttesterKeyRecord := mkAttesterKeyRecord {
  public_key : bytes;
  version : Z;
  revoked : bool
}.

Inductive RevocationPolicy := RevocableOnly | IrrevocableOnly | Permissive.

Definition policy_from_bool (revocable : bool) : RevocationPolicy :=
  if revocable then Permissive else IrrevocableOnly.

Inductive SchemaStatus := Active | Deprecated | Quarantined.

Record SchemaRecord := mkSchemaRecord {
  sr_uid : UID;
  sr_resolver : Address;
  sr_revocable : bool;
  sr_schema : bytes;
  sr_deprecated : bool;
  sr_parent : option UID
}.

Record Attestation := mkAttestation {
  uid : UID;
  att_schema_uid : UID;
  time : Z;
  expiration_time : Z;
  revocation_time : Z;
  ref_uid : UID;
  recipient : Address;
  attester : Address;
  revocable : bool;
  data : bytes;
  valid_from : Z
}.

#[export] Instance RevocationPolicy_eq_dec : EqDecision RevocationPolicy.
Proof. solve_decision. Defined.
#[export] Instance SchemaStatus_eq_dec : EqDecision SchemaStatus.
Proof. solve_decision. Defined.
#[export] Instance AttesterKeyRecord_eq_dec : EqDecision AttesterKeyRecord.
Proof. solve_decision. Defined.
#[export] Instance SchemaRecord_eq_dec : EqDecision SchemaRecord.
Proof. solve_decision. Defined.
#[export] Instance Attestation_eq_dec : EqDecision Attestation.
Proof. solve_decision. Defined.

(** Field updates, [a.time = t] and so on. *)
Definition with_time (t : Z) (a : Attestation) : Attestation :=
  mkAttestation (uid a) (att_schema_uid a) t (expiration_time a) (revocation_time a)
    (ref_uid a) (recipient a) (attester a) (revocable a) (data a) (valid_from a).
Definition with_expiration_time (t : Z) (a : Attestation) : Attestation :=
  mkAttestation (uid a) (att_schema_uid a) (time a) t (revocation_time a)
    (ref_uid a) (recipient a) (attester a) (revocable a) (data a) (valid_from a).
Definition with_revocation_time (t : Z) (a : Attestation) : Attestation :=
  mkAttestation (uid a) (att_schema_uid a) (time a) (expiration_time a) t
    (ref_uid a) (recipient a) (attester a) (revocable a) (data a) (valid_from a).
Definition with_valid_from (t : Z) (a : Attestation) : Attestation :=
  mkAttestation (uid a) (att_schema_uid a) (time a) (expiration_time a) (revocation_time a)
    (ref_uid a) (recipient a) (attester a) (revocable a) (data a) t.

(** The Rust field types: the four times of an attestation are [u64]. *)
Definition att_typed (a : Attestation) : Prop :=
  is_u64 (time a) /\ is_u64 (expiration_time a) /\ is_u64 (revocation_time a)
  /\ is_u64 (valid_from a).

Lemma att_typed_with_time t a : is_u64 t -> att_typed a -> att_typed (with_time t a).
Proof. unfold att_typed; simpl; tauto. Qed.
Lemma att_typed_with_expiration_time t a :
  is_u64 t -> att_typed a -> att_typed (with_expiration_time t a).
Proof. unfold att_typed; simpl; tauto. Qed.
Lemma att_typed_with_revocation_time t a :
  is_u64 t -> att_typed a -> att_typed (with_revocation_time t a).
Proof. unfold att_typed; simpl; tauto. Qed.
#[export] Hint Resolve att_typed_with_time att_typed_with_expiration_time
  att_typed_with_revocation_time : sas.

(** ** Parties and revocation policy ([validation.rs]) *)

Definition ZERO_ACCOUNT : Address := Account zero_bytes32.
Definition ZERO_CONTRACT : Address := Contract zero_bytes32.

Definition validate_recipient (r : Address) : option SASError :=
  if bool_decide (r = ZERO_ACCOUNT) || bool_decide (r = ZERO_CONTRACT)
  then Some InvalidRecipient else None.

Definition validate_attestation_parties (r a : Address) : option SASError :=
  match validate_recipient r with
  | Some err => Some err
  | None => match validate_recipient a with
            | Some err => Some err
            | None => if bool_decide (r = a) then Some InvalidRecipient else None
            end
  end.

Definition check_policy (p : RevocationPolicy) (attestation_revocable : bool)
    : option SASError :=
  match p with
  | RevocableOnly => if negb attestation_revocable then Some InvalidRevocability else None
  | IrrevocableOnly => if attestation_revocable then Some NotRevocable else None
  | Permissive => None
  end.

(** ** CompactAttestation *)

Record CompactAttestation := mkCompactAttestation {
  c_schema_uid : UID;
  c_ref_uid : UID;
  c_recipient : Address;
  c_attester : Address;
  packed_meta : bytes;
  c_data : bytes
}.

Definition FLAG_REVOCABLE : Z := Z.shiftl 1 0.
Definition FLAG_REVOKED : Z := Z.shiftl 1 1.
Definition FLAG_DEPRECATED : Z := Z.shiftl 1 2.

Definition pack_meta (time expiration_time revocation_time : Z)
    (revocable deprecated : bool) : bytes :=
  let flags := 0 in
  let flags := if revocable then Z.lor flags FLAG_REVOCABLE else flags in
  let flags := if 0 <? revocation_time then Z.lor flags FLAG_REVOKED else flags in
  let flags := if deprecated then Z.lor flags FLAG_DEPRECATED else flags in
  [flags] ++ to_be_bytes 8 time ++ to_be_bytes 8 expiration_time
  ++ to_be_bytes 8 revocation_time.

Definition unpack_meta (buf : bytes) : Z * Z * Z * bool * bool * bool :=
  let flags := nth 0 buf 0 in
  (from_be_bytes (slice 1 9 buf), from_be_bytes (slice 9 17 buf),
   from_be_bytes (slice 17 25 buf),
   negb (Z.land flags FLAG_REVOCABLE =? 0),
   negb (Z.land flags FLAG_REVOKED =? 0),
   negb (Z.land flags FLAG_DEPRECATED =? 0)).

Definition from_attestation (a : Attestation) : CompactAttestation :=
  mkCompactAttestation (att_schema_uid a) (ref_uid a) (recipient a) (attester a)
    (pack_meta (time a) (expiration_time a) (revocation_time a) (revocable a) false)
    (data a).

Definition to_attestation (c : CompactAttestation) (u : UID) : Attestation :=
  let '(t, ex, rv, rb, _, _) := unpack_meta (packed_meta c) in
  mkAttestation u (c_schema_uid c) t ex rv (c_ref_uid c) (c_recipient c)
    (c_attester c) rb (c_data c) 0.

(** The typed setters re-pack the metadata with one field replaced. *)
Definition with_packed_meta (m : bytes) (c : CompactAttestation) : CompactAttestation :=
  mkCompactAttestation (c_schema_uid c) (c_ref_uid c) (c_recipient c) (c_attester c) m (c_data c).

Definition set_revocation_time (t : Z) (c : CompactAttestation) : CompactAttestation :=
  let '(tm, ex, _, rb, _, dp) := unpack_meta (packed_meta c) in
  with_packed_meta (pack_meta tm ex t rb dp) c.

Definition set_time (t : Z) (c : CompactAttestation) : CompactAttestation :=
  let '(_, ex, rv, rb, _, dp) := unpack_meta (packed_meta c) in
  with_packed_meta (pack_meta t ex rv rb dp) c.

Definition set_deprecated (b : bool) (c : CompactAttestation) : CompactAttestation :=
  let '(tm, ex, rv, rb, _, _) := unpack_meta (packed_meta c) in
  with_packed_meta (pack_meta tm ex rv rb b) c.

(** ** The compact encoding loses nothing *)

Lemma unpack_pack_meta t ex rv rb dp :
  is_u64 t -> is_u64 ex -> is_u64 rv ->
  unpack_meta (pack_meta t ex rv rb dp) = (t, ex, rv, rb, 0 <? rv, dp).
Proof.
  intros Ht Hex Hrv; unfold unpack_meta, pack_meta.
  match goal with |- context [[?f] ++ _] => set (fl := f) end.
  change (slice 1 9 _) with (to_be_bytes 8 t).
  change (slice 9 17 _) with (to_be_bytes 8 ex).
  change (slice 17 25 _) with (to_be_bytes 8 rv).
  rewrite !from_to_be_bytes_u64 by done.
  change (nth 0 _ 0) with fl; unfold fl.
  by destruct rb, (0 <? rv), dp.
Qed.

Lemma length_pack_meta t ex rv rb dp : length (pack_meta t ex rv rb dp) = 25%nat.
Proof. done. Qed.

Lemma to_from_attestation a :
  att_typed a -> to_attestation (from_attestation a) (uid a) = with_valid_from 0 a.
Proof.
  intros (Ht & Hex & Hrv & _); unfold to_attestation, from_attestation; cbn [packed_meta].
  by rewrite unpack_pack_meta.
Qed.

Lemma to_attestation_uid c u : uid (to_attestation c u) = u.
Proof. unfold to_attestation; by destruct (unpack_meta _) as [[[[[??]?]?]?]?]. Qed.

(** A setter changes its field and no other. *)
Lemma set_revocation_time_spec a t :
  att_typed a -> is_u64 t ->
  to_attestation (set_revocation_time t (from_attestation a)) (uid a)
  = with_valid_from 0 (with_revocation_time t a).
Proof.
  intros (? & ? & ? & _) ?; unfold set_revocation_time, from_attestation, to_attestation.
  cbn [packed_meta]; rewrite unpack_pack_meta by done.
  cbn [packed_meta with_packed_meta]; by rewrite unpack_pack_meta.
Qed.

Lemma set_time_spec a t :
  att_typed a -> is_u64 t ->
  to_attestation (set_time t (from_attestation a)) (uid a)
  = with_valid_from 0 (with_time t a).
Proof.
  intros (? & ? & ? & _) ?; unfold set_time, from_attestation, to_attestation.
  cbn [packed_meta]; rewrite unpack_pack_meta by done.
  cbn [packed_meta with_packed_meta]; by rewrite unpack_pack_meta.
Qed.

Lemma set_deprecated_spec a b :
  att_typed a ->
  to_attestation (set_deprecated b (from_attestation a)) (uid a) = with_valid_from 0 a
  /\ (unpack_meta (packed_meta (set_deprecated b (from_attestation a)))).2 = b.
Proof.
  intros (? & ? & ? & _); unfold set_deprecated, from_attestation, to_attestation.
  cbn [packed_meta]; rewrite unpack_pack_meta by done.
  cbn [packed_meta with_packed_meta]; by rewrite unpack_pack_meta.
Qed.
