(* ===== verification/Validation.v ===== *)
(** * soroban-sas-common: schema definitions

    [validation.rs]: the lexical and syntactic checks of a schema string, as
    the index-based scans of the source over its bytes. *)

From S2P Require Import Prelude Host Common.

Definition MAX_SCHEMA_LENGTH : Z := 1024.
Definition MAX_SCHEMA_FIELDS : Z := 64.

(** ** Characters *)

Definition is_ascii_whitespace (b : Z) : bool :=
  (b =? 32) || (b =? 10) || (b =? 13) || (b =? 9) || (b =? 11) || (b =? 12).
Definition in_range (lo hi b : Z) : bool := (lo <=? b) && (b <=? hi).
Definition is_ascii_alphabetic (b : Z) : bool := in_range 65 90 b || in_range 97 122 b.
Definition is_ascii_digit (b : Z) : bool := in_range 48 57 b.
Definition is_ascii_alphanumeric (b : Z) : bool := is_ascii_alphabetic b || is_ascii_digit b.
Definition to_ascii_lowercase (b : Z) : Z := if in_range 65 90 b then b + 32 else b.

(** [core::str::from_utf8]: the scalar values of a well-formed byte string. *)
Definition is_continuation (b : Z) : bool := in_range 128 191 b.
Fixpoint from_utf8 (bs : bytes) : option (list Z) :=
  match bs with
  | [] => Some []
  | b0 :: r0 =>
    if in_range 0 127 b0 then cs ← from_utf8 r0; Some (b0 :: cs)
    else match r0 with
    | [] => None
    | b1 :: r1 =>
      if in_range 194 223 b0 then
        if is_continuation b1
        then cs ← from_utf8 r1; Some ((b0 - 192) * 64 + (b1 - 128) :: cs) else None
      else match r1 with
      | [] => None
      | b2 :: r2 =>
        if in_range 224 239 b0 then
          if in_range (if b0 =? 224 then 160 else 128) (if b0 =? 237 then 159 else 191) b1
             && is_continuation b2
          then cs ← from_utf8 r2;
               Some ((b0 - 224) * 4096 + (b1 - 128) * 64 + (b2 - 128) :: cs) else None
        else match r2 with
        | [] => None
        | b3 :: r3 =>
          if in_range 240 244 b0
             && in_range (if b0 =? 240 then 144 else 128) (if b0 =? 244 then 143 else 191) b1
             && is_continuation b2 && is_continuation b3
          then cs ← from_utf8 r3;
               Some ((b0 - 240) * 262144 + (b1 - 128) * 4096 + (b2 - 128) * 64 + (b3 - 128) :: cs)
          else None
        end
      end
    end
  end.

(** [char::is_whitespace]: the Unicode [White_Space] property. *)
Definition is_char_whitespace (c : Z) : bool :=
  in_range 9 13 c || (c =? 32) || (c =? 133) || (c =? 160) || (c =? 5760)
  || in_range 8192 8202 c || (c =? 8232) || (c =? 8233) || (c =? 8239) || (c =? 8287)
  || (c =? 12288).
Definition is_invisible (c : Z) : bool :=
  (c =? 133) || (c =? 160) || (c =? 5760) || in_range 8192 8203 c || (c =? 8204) || (c =? 8205)
  || (c =? 8232) || (c =? 8233) || (c =? 8239) || (c =? 8287) || (c =? 8288) || (c =? 12288)
  || (c =? 65279) || (c =? 173).

Definition contains_control_or_invalid_whitespace (bs : bytes) : bool :=
  existsb (fun b => (b <? 32) || (b =? 127)) bs
  || match from_utf8 bs with
     | Some cs => existsb (fun c => (negb (c =? 32) && is_char_whitespace c) || is_invisible c) cs
     | None => true
     end.

(** ** Scans *)

(** [while i < end { if stop(bytes[i]) { break } i += 1 }]; [None] when an
    index is out of bounds. *)
Fixpoint scan_forward (bs : bytes) (stop : Z -> bool) (fuel i end_ : nat) : option nat :=
  match fuel with
  | O => Some i
  | S fuel' =>
    if (i <? end_)%nat then
      b ← bs !! i;
      if stop b then Some i else scan_forward bs stop fuel' (S i) end_
    else Some i
  end.
Definition scan (bs : bytes) (stop : Z -> bool) (i end_ : nat) : option nat :=
  scan_forward bs stop (end_ - i) i end_.

(** [while end > start { if stop(bytes[end - 1]) { break } end -= 1 }] *)
Fixpoint scan_backward (bs : bytes) (stop : Z -> bool) (start end_ : nat) : option nat :=
  match end_ with
  | O => Some O
  | S i =>
    if (start <? end_)%nat then
      b ← bs !! i;
      if stop b then Some end_ else scan_backward bs stop start i
    else Some end_
  end.

Definition trim_bounds (bs : bytes) (start end_ : nat) : option (nat * nat) :=
  start ← scan bs (fun b => negb (is_ascii_whitespace b)) start end_;
  end_ ← scan_backward bs (fun b => negb (is_ascii_whitespace b)) start end_;
  if (end_ <=? start)%nat then None else Some (start, end_).

(** [for index in i..end { .. return false .. }] *)
Definition all_between (bs : bytes) (p : Z -> bool) (i end_ : nat) : bool :=
  forallb (fun j => match bs !! j with Some b => p b | None => false end) (seq i (end_ - i)).

Definition is_valid_identifier (bs : bytes) (start end_ : nat) : bool :=
  (start <? end_)%nat
  && match bs !! start with
     | Some first => is_ascii_alphabetic first || (first =? 95)
     | None => false
     end
  && all_between bs (fun b => is_ascii_alphanumeric b || (b =? 95)) (S start) end_.

Definition is_type_char (b : Z) : bool :=
  is_ascii_alphanumeric b
  || bool_decide (b ∈ [95; 60; 62; 91; 93; 44; 58; 40; 41; 32; 63]).

(** The loop of [is_valid_type] with its two flags. *)
Fixpoint type_loop (bs : bytes) (indices : list nat) (has_alpha prev_space : bool) : bool :=
  match indices with
  | [] => has_alpha && negb prev_space
  | i :: rest =>
    match bs !! i with
    | None => false
    | Some b =>
      if (b =? 32) && prev_space then false
      else if negb (is_type_char b) then false
      else type_loop bs rest (has_alpha || is_ascii_alphabetic b) (b =? 32)
    end
  end.
Definition is_valid_type (bs : bytes) (start end_ : nat) : bool :=
  (start <? end_)%nat && type_loop bs (seq start (end_ - start)) false false.

Definition eq_ignore_ascii_case (bs : bytes) (a0 a1 b0 b1 : nat) : bool :=
  if (a1 <? a0)%nat || (b1 <? b0)%nat || negb ((a1 - a0) =? (b1 - b0))%nat then false
  else forallb (fun o =>
         match bs !! (a0 + o)%nat, bs !! (b0 + o)%nat with
         | Some a, Some b => to_ascii_lowercase a =? to_ascii_lowercase b
         | _, _ => false
         end) (seq 0 (a1 - a0)).

(** ** Syntax *)

Definition is_comma (b : Z) : bool := b =? 44.
Definition is_space (b : Z) : bool := b =? 32.
Definition byte_at (bs : bytes) (i : nat) (b : Z) : bool := bool_decide (bs !! i = Some b).

(** The loop of [field_name_collides] over the earlier fields. *)
Fixpoint collides_from (bs : bytes) (fuel cursor until name_start name_end : nat) : bool :=
  match fuel with
  | O => false
  | S fuel' =>
    if negb (cursor <? until)%nat then false else
    match scan bs is_comma cursor until with
    | None => false
    | Some field_end =>
      match trim_bounds bs cursor field_end with
      | None => false
      | Some (field_start, trimmed_end) =>
        match scan bs is_space field_start trimmed_end with
        | None => false
        | Some split =>
          if (field_start <? split)%nat
             && eq_ignore_ascii_case bs field_start split name_start name_end then true
          else if (until <=? field_end)%nat then false
          else
            let cursor := S field_end in
            let cursor :=
              if (cursor <? until)%nat && byte_at bs cursor 32 then S cursor else cursor in
            collides_from bs fuel' cursor until name_start name_end
        end
      end
    end
  end.
Definition field_name_collides (bs : bytes) (from until name_start name_end : nat) : bool :=
  collides_from bs (until - from) from until name_start name_end.

(** The checks on the field between [start] and [field_end]. *)
Definition field_accepted (bs : bytes) (region_start start field_end : nat) : bool :=
  if (start <? field_end)%nat && byte_at bs (field_end - 1) 32 then false else
  match trim_bounds bs start field_end with
  | None => false
  | Some (field_start, fe) =>
    if (64 <? fe - field_start)%nat then false else
    match scan bs is_space field_start fe with
    | None => false
    | Some split_index =>
      if (split_index =? field_start)%nat || (fe <=? split_index)%nat then false
      else if (32 <? split_index - field_start)%nat then false
      else
        let ty_start := S split_index in
        if (fe <=? ty_start)%nat || byte_at bs ty_start 32 then false
        else if (32 <? fe - ty_start)%nat then false
        else if negb (is_valid_identifier bs field_start split_index)
                || negb (is_valid_type bs ty_start fe) then false
        else negb (field_name_collides bs region_start field_start field_start split_index)
    end
  end.

(** The loop over the fields; [None] is [InvalidSchemaDefinition], otherwise
    the number of fields. *)
Fixpoint fields_from (bs : bytes) (fuel region_start start end_ : nat) (field_count : Z) : option Z :=
  match fuel with
  | O => Some field_count
  | S fuel' =>
    if negb (start <? end_)%nat then Some field_count else
    field_end ← scan bs is_comma start end_;
    if negb (field_accepted bs region_start start field_end) then None
    else
      let field_count := field_count + 1 in
      if MAX_SCHEMA_FIELDS <? field_count then None
      else if (end_ <=? field_end)%nat then Some field_count
      else
        let next_start := S field_end in
        if (next_start <? end_)%nat && byte_at bs next_start 32 then
          let next_start := S next_start in
          if (next_start <? end_)%nat && byte_at bs next_start 32 then None
          else if (end_ <=? next_start)%nat then None
          else fields_from bs fuel' region_start next_start end_ field_count
        else if (end_ <=? next_start)%nat then None
        else fields_from bs fuel' region_start next_start end_ field_count
  end.

(** [None] is [Ok(())]. *)
Definition validate_schema_syntax (schema : bytes) : option SASError :=
  let schema_len := length schema in
  if (schema_len =? 0)%nat then Some EmptySchema
  else if MAX_SCHEMA_LENGTH <? Z.of_nat schema_len then Some InvalidSchemaDefinition
  else if contains_control_or_invalid_whitespace schema then Some InvalidSchemaDefinition
  else match trim_bounds schema 0 schema_len with
  | None => Some InvalidSchemaDefinition
  | Some (start, end_) =>
    if byte_at schema start 44 || byte_at schema (end_ - 1) 44
    then Some InvalidSchemaDefinition
    else match fields_from schema (end_ - start) start start end_ 0 with
    | None => Some InvalidSchemaDefinition
    | Some field_count => if field_count =? 0 then Some EmptySchema else None
    end
  end.

(** ** Lexical rules *)

(** The separator rules at one index. *)
Definition separator_ok (bs : bytes) (index : nat) : bool :=
  let schema_len := length bs in
  if byte_at bs index 32 then
    negb ((index + 1 <? schema_len)%nat && byte_at bs (index + 1) 32)
    && negb ((index + 1 <? schema_len)%nat && byte_at bs (index + 1) 44)
  else if byte_at bs index 44 then
    negb (schema_len <=? index + 1)%nat
    && negb (byte_at bs (index + 1) 44)
    && negb (byte_at bs (index + 1) 32 && (index + 2 <? schema_len)%nat
             && byte_at bs (index + 2) 32)
  else true.

Definition validate_schema_lexical (schema : bytes) : option SASError :=
  let schema_len := length schema in
  if (schema_len =? 0)%nat then None
  else if MAX_SCHEMA_LENGTH <? Z.of_nat schema_len then Some InvalidSchemaDefinition
  else if contains_control_or_invalid_whitespace schema then Some InvalidSchemaDefinition
  else if negb (forallb (separator_ok schema) (seq 0 schema_len)) then Some InvalidSchemaDefinition
  else if byte_at schema 0 44 then Some InvalidSchemaDefinition
  else None.

(** ** Lifetimes *)

Definition validate_ttl (current_time expiration_time : Z) : option SASError :=
  if (0 <? expiration_time) && (expiration_time <=? current_time) then Some InvalidTTL else None.

(** ** Revocability *)

Definition check_revocable (schema_revocable attestation_revocable : bool) : option SASError :=
  check_policy (policy_from_bool schema_revocable) attestation_revocable.
