(* ===== verification/SchemaGrammar.v ===== *)
(** * The grammar of schema definitions

    [validate_schema_syntax] scans a byte string by index.  Here is the
    language it accepts, as a grammar over field lists, and the proof that the
    scanner accepts exactly that language. *)

From S2P Require Import Prelude Host Common Validation.

(** ** The grammar *)

Definition name_ok (n : bytes) : Prop :=
  match n with
  | [] => False
  | c :: r => (is_ascii_alphabetic c || (c =? 95)) = true
              /\ Forall (fun b => (is_ascii_alphanumeric b || (b =? 95)) = true) r
  end.

(** A type: type characters without a comma, single spaces inside only, at
    least one letter. *)
Definition type_ok (t : bytes) : Prop :=
  Forall (fun b => is_type_char b = true /\ b <> 44) t
  /\ Exists (fun b => is_ascii_alphabetic b = true) t
  /\ t !! O <> Some 32 /\ last t <> Some 32
  /\ forall i, t !! i = Some 32 -> t !! S i <> Some 32.

Record field := mkField { f_name : bytes; f_type : bytes }.

Definition field_ok (f : field) : Prop :=
  name_ok (f_name f) /\ (length (f_name f) <= 32)%nat
  /\ type_ok (f_type f) /\ (length (f_type f) <= 32)%nat
  /\ (length (f_name f) + 1 + length (f_type f) <= 64)%nat.

Definition render_field (f : field) : bytes := f_name f ++ 32 :: f_type f.

(** Fields are separated by a comma and at most one space. *)
Definition render_sep (spaced : bool) : bytes := if spaced then [44; 32] else [44].
Fixpoint render (f : field) (rest : list (bool * field)) : bytes :=
  match rest with
  | [] => render_field f
  | (spaced, g) :: rest' => render_field f ++ render_sep spaced ++ render g rest'
  end.

Definition lower (n : list Z) : list Z := to_ascii_lowercase <$> n.
Definition key_of_field (f : field) : bytes := lower (f_name f).

(** Field names are distinct up to ASCII case. *)
Definition distinct_fields (l : list field) : Prop := NoDup (map key_of_field l).

Definition schema_grammar (bs : bytes) : Prop :=
  exists (lead trail : nat) f rest,
    bs = replicate lead 32 ++ render f rest ++ replicate trail 32
    /\ Forall field_ok (f :: map snd rest) /\ distinct_fields (f :: map snd rest)
    /\ len (f :: map snd rest) <= MAX_SCHEMA_FIELDS /\ len bs <= MAX_SCHEMA_LENGTH.

(** ** Segments

    The scanner's bounds delimit segments of the string. *)

(** [l] stands at position [i] of [bs]. *)
Definition seg (bs : list Z) (i : nat) (l : list Z) : Prop :=
  forall o, (o < length l)%nat -> bs !! (i + o)%nat = l !! o.

Lemma seg_cons bs i x l : seg bs i (x :: l) <-> bs !! i = Some x /\ seg bs (S i) l.
Proof.
  split.
  - intros Hs; split.
    + rewrite <- (Nat.add_0_r i); apply (Hs O); simpl; lia.
    + intros o Ho; replace (S i + o)%nat with (i + S o)%nat by lia; apply (Hs (S o)); simpl; lia.
  - intros [Hx Hs] [|o] Ho; [by rewrite Nat.add_0_r|]; simpl in *.
    replace (i + S o)%nat with (S i + o)%nat by lia; apply Hs; lia.
Qed.
Lemma seg_app bs i a b : seg bs i (a ++ b) <-> seg bs i a /\ seg bs (i + length a) b.
Proof.
  revert i; induction a as [|x a IH]; intros i; simpl.
  - rewrite Nat.add_0_r; split; [|tauto]; intros Hs; split; [|done]; intros o Ho; simpl in Ho; lia.
  - rewrite !seg_cons, IH; replace (i + S (length a))%nat with (S i + length a)%nat by lia; tauto.
Qed.
Lemma seg_whole (bs : list Z) : seg bs 0 bs.
Proof. by intros o _. Qed.
Lemma seg_byte_at bs i x l b : seg bs i (x :: l) -> byte_at bs i b = (x =? b).
Proof.
  intros [Hx _]%seg_cons; unfold byte_at, bytes; rewrite Hx.
  destruct (Z.eqb_spec x b); [by apply bool_decide_eq_true_2; congruence|].
  apply bool_decide_eq_false_2; congruence.
Qed.

(** *** Scans *)

Lemma scan_seg (stop : Z -> bool) bs i l m :
  seg bs i l -> m = (i + length l)%nat ->
  exists a b, l = a ++ b /\ Forall (fun x => stop x = false) a
    /\ match b with [] => True | x :: _ => stop x = true end
    /\ scan bs stop i m = Some (i + length a)%nat.
Proof.
  intros Hs ->; unfold scan; replace (i + length l - i)%nat with (length l) by lia.
  revert i Hs; induction l as [|x l IH]; intros i Hs; simpl.
  - exists [], []; rewrite Nat.add_0_r; auto.
  - apply seg_cons in Hs as [Hx Hs].
    rewrite (proj2 (Nat.ltb_lt _ _)) by lia; unfold bytes; rewrite Hx; simpl.
    destruct (stop x) eqn:Es; [exists [], (x :: l); rewrite Nat.add_0_r; auto|].
    destruct (IH (S i) Hs) as (a & b & -> & Ha & Hb & Hr); exists (x :: a), b.
    split_and!; [done|by constructor|done|].
    replace (i + S (length (a ++ b)))%nat with (S i + length (a ++ b))%nat by lia.
    rewrite Hr; simpl; f_equal; lia.
Qed.

Lemma scan_backward_seg (stop : Z -> bool) bs i l :
  seg bs i l ->
  exists a b, l = a ++ b /\ Forall (fun x => stop x = false) b
    /\ (a = [] \/ exists a' x, a = a' ++ [x] /\ stop x = true)
    /\ scan_backward bs stop i (i + length l) = Some (i + length a)%nat.
Proof.
  induction l as [|x l IH] using rev_ind; intros Hs.
  - exists [], []; split_and!; [done|done|by left|]; simpl; rewrite Nat.add_0_r.
    destruct i as [|i]; [done|]; simpl; by rewrite Nat.ltb_irrefl.
  - apply seg_app in Hs as [Hs [Hx _]%seg_cons].
    rewrite length_app, Nat.add_1_r, <- plus_n_Sm; simpl.
    rewrite (proj2 (Nat.ltb_lt _ _)) by lia; unfold bytes; rewrite Hx; simpl.
    destruct (stop x) eqn:Es.
    + exists (l ++ [x]), []; rewrite app_nil_r, length_app; split_and!; [done|done|eauto|].
      simpl; f_equal; lia.
    + destruct (IH Hs) as (a & b & -> & Hb & Ha & Hr); exists a, (b ++ [x]).
      rewrite app_assoc; split_and!; [done| |done|done].
      apply Forall_app; split; [done|by constructor].
Qed.

(** A segment that starts and ends with something else than whitespace. *)
Definition tight (l : list Z) : Prop :=
  exists x r l' y, l = x :: r /\ l = l' ++ [y]
    /\ is_ascii_whitespace x = false /\ is_ascii_whitespace y = false.

Lemma trim_seg bs i l m :
  seg bs i l -> m = (i + length l)%nat ->
  exists w1 c w2, l = w1 ++ c ++ w2
    /\ Forall (fun x => is_ascii_whitespace x = true) (w1 ++ w2)
    /\ (c = [] /\ trim_bounds bs i m = None
        \/ tight c /\ trim_bounds bs i m = Some (i + length w1, i + length w1 + length c)%nat).
Proof.
  intros Hs ->; unfold trim_bounds.
  destruct (scan_seg (fun b => negb (is_ascii_whitespace b)) bs i l _ Hs eq_refl)
    as (w1 & r & -> & Hw1 & Hr & Hscan).
  rewrite Hscan; simpl; apply seg_app in Hs as [_ Hs].
  destruct (scan_backward_seg (fun b => negb (is_ascii_whitespace b)) bs _ r Hs)
    as (c & w2 & -> & Hw2 & Hc & Hback).
  rewrite length_app, Nat.add_assoc, Hback; simpl.
  exists w1, c, w2; split; [done|]; split.
  { apply Forall_app; split; (eapply Forall_impl; [eassumption|]); intros x; simpl;
      by destruct (is_ascii_whitespace x). }
  destruct c as [|x c].
  - left; split; [done|]; by rewrite (proj2 (Nat.leb_le _ _)) by (simpl; lia).
  - right; rewrite (proj2 (Nat.leb_gt _ _)) by (simpl; lia); split; [|done].
    destruct Hc as [?|(c' & y & Hc & Hy)]; [done|].
    exists x, c, c', y; split_and!; [done|done|by apply negb_true_iff..].
Qed.

Lemma trim_tight bs i l m :
  seg bs i l -> m = (i + length l)%nat -> tight l -> trim_bounds bs i m = Some (i, m).
Proof.
  intros Hs -> (x & r & l' & y & Hx & Hy & Hwx & Hwy).
  destruct (trim_seg bs i l _ Hs eq_refl) as (w1 & c & w2 & Hl & Hw & Hc).
  apply Forall_app in Hw as [Hw1 Hw2].
  assert (w1 = []) as ->.
  { destruct w1 as [|z w1]; [done|]; apply Forall_cons in Hw1 as [Hz _].
    rewrite Hx in Hl; injection Hl as -> _; congruence. }
  assert (w2 = []) as ->.
  { destruct w2 as [|z w2 _] using rev_ind; [done|]; apply Forall_app in Hw2 as [_ [Hz _]%Forall_cons].
    rewrite Hy in Hl; simpl in Hl; rewrite app_assoc in Hl.
    apply app_inj_tail in Hl as [_ ->]; congruence. }
  rewrite app_nil_r in Hl; simpl in Hl; subst c.
  destruct Hc as [[-> _]|[_ ->]]; [done|]; simpl; by rewrite Nat.add_0_r.
Qed.
Lemma trim_empty bs i : trim_bounds bs i i = None.
Proof.
  unfold trim_bounds, scan; rewrite Nat.sub_diag; simpl.
  destruct i as [|i]; simpl; [done|]; rewrite Nat.ltb_irrefl; simpl; by rewrite Nat.leb_refl.
Qed.

(** *** Names and types *)

Lemma all_between_seg bs p i l m :
  seg bs i l -> m = (i + length l)%nat -> all_between bs p i m = forallb p l.
Proof.
  intros Hs ->; unfold all_between; replace (i + length l - i)%nat with (length l) by lia.
  revert i Hs; induction l as [|x l IH]; intros i Hs; simpl; [done|].
  apply seg_cons in Hs as [Hx Hs]; unfold bytes; rewrite Hx; f_equal; by apply IH.
Qed.

Lemma is_valid_identifier_seg bs i n m :
  seg bs i n -> m = (i + length n)%nat -> is_valid_identifier bs i m = true <-> name_ok n.
Proof.
  intros Hs ->; unfold is_valid_identifier, name_ok; destruct n as [|c r]; simpl.
  - rewrite Nat.add_0_r, Nat.ltb_irrefl; done.
  - apply seg_cons in Hs as [Hc Hs]; unfold bytes; rewrite Hc.
    rewrite (proj2 (Nat.ltb_lt _ _)), (all_between_seg _ _ _ r) by (done || lia); simpl.
    rewrite andb_true_iff; apply and_iff_compat_l.
    by rewrite Forall_forall, forallb_forall; setoid_rewrite list_elem_of_In.
Qed.

(** The loop of [is_valid_type] over the bytes themselves. *)
Fixpoint type_scan (l : list Z) (has_alpha prev_space : bool) : bool :=
  match l with
  | [] => has_alpha && negb prev_space
  | b :: r =>
    if (b =? 32) && prev_space then false
    else if negb (is_type_char b) then false
    else type_scan r (has_alpha || is_ascii_alphabetic b) (b =? 32)
  end.

Lemma type_loop_seg bs i l ha ps :
  seg bs i l -> type_loop bs (seq i (length l)) ha ps = type_scan l ha ps.
Proof.
  revert i ha ps; induction l as [|x l IH]; intros i ha ps Hs; simpl; [done|].
  apply seg_cons in Hs as [Hx Hs]; unfold bytes; rewrite Hx; by rewrite IH.
Qed.

Definition single_spaced (l : list Z) : Prop := forall i, l !! i = Some 32 -> l !! S i <> Some 32.
Lemma single_spaced_cons b l :
  single_spaced (b :: l) <-> (b = 32 -> l !! O <> Some 32) /\ single_spaced l.
Proof.
  split.
  - intros Hs; split; [intros ->; by apply (Hs O)|intros i; apply (Hs (S i))].
  - intros [Hb Hs] [|i]; simpl; [intros [= ->]; by apply Hb|apply Hs].
Qed.

Lemma type_scan_spec l ha ps :
  type_scan l ha ps = true <->
  Forall (fun b => is_type_char b = true) l
  /\ (ha = true \/ Exists (fun b => is_ascii_alphabetic b = true) l)
  /\ (ps = true -> l !! O <> Some 32)
  /\ match last l with Some b => b <> 32 | None => ps = false end
  /\ single_spaced l.
Proof.
  revert ha ps; induction l as [|b l IH]; intros ha ps.
  { simpl; rewrite andb_true_iff, negb_true_iff, Exists_nil; split.
    - intros [-> ->]; split_and!; auto; by intros i.
    - intros (_ & [->|[]] & _ & -> & _); done. }
  simpl type_scan; destruct ((b =? 32) && ps) eqn:E1.
  { apply andb_true_iff in E1 as [->%Z.eqb_eq ->]; split; [done|].
    intros (_ & _ & H0 & _); by destruct (H0 eq_refl). }
  destruct (is_type_char b) eqn:Et; simpl negb; cbn iota.
  2: { split; [done|]; intros [[Hb _]%Forall_cons _]; congruence. }
  rewrite IH, Forall_cons, Exists_cons, orb_true_iff, single_spaced_cons, last_cons, Z.eqb_eq.
  assert (Hlast : match last l with Some y => y <> 32 | None => (b =? 32) = false end
                  <-> match (match last l with Some y => Some y | None => Some b end) with
                      | Some y => y <> 32 | None => ps = false end).
  { destruct (last l); [done|apply Z.eqb_neq]. }
  rewrite Hlast; assert (Hps : ps = true -> Some b <> Some 32).
  { intros -> [= ->]; by rewrite Z.eqb_refl in E1. }
  simpl; tauto.
Qed.

(** A type in the grammar is one the scan accepts, given how it was delimited. *)
Lemma is_valid_type_seg bs i t m :
  seg bs i t -> m = (i + length t)%nat -> (forall x, x ∈ t -> x <> 44) -> t !! O <> Some 32 ->
  is_valid_type bs i m = true <-> type_ok t.
Proof.
  intros Hs -> Hcomma Hhead; unfold is_valid_type.
  replace (i + length t - i)%nat with (length t) by lia.
  rewrite (type_loop_seg _ _ _ _ _ Hs), andb_true_iff, type_scan_spec, Nat.ltb_lt.
  unfold type_ok, single_spaced; split.
  - intros [Hl (Hc & [?|Ha] & _ & Hlast & Hd)]; [done|]; split_and!; try done.
    + apply Forall_forall; intros x Hx; split; [by eapply Forall_forall in Hc|by apply Hcomma].
    + by destruct (last t); intros [= ->].
  - intros (Hc & Ha & _ & Hlast & Hd); split.
    + destruct t; [by inversion Ha|simpl; lia].
    + split_and!; [|by right|done| |done].
      * eapply Forall_impl; [exact Hc|]; by intros x [? _].
      * destruct (last t); [by intros ->|done].
Qed.

(** *** Facts about well-formed fields *)

Ltac ranges := unfold is_ascii_alphanumeric, is_ascii_alphabetic, is_ascii_digit, in_range in *;
  rewrite ?orb_true_iff, ?andb_true_iff, ?Z.leb_le, ?Z.eqb_eq in *.

Lemma name_char_plain b :
  (is_ascii_alphanumeric b || (b =? 95)) = true -> 48 <= b <= 122 /\ is_ascii_whitespace b = false.
Proof.
  intros Hb; assert (Hr : 48 <= b <= 122) by (ranges; lia); split; [done|].
  unfold is_ascii_whitespace; rewrite !orb_false_iff, !Z.eqb_neq; lia.
Qed.
Lemma type_char_plain b :
  is_type_char b = true -> 32 <= b <= 122 /\ (b <> 32 -> is_ascii_whitespace b = false).
Proof.
  unfold is_type_char; intros Hb.
  assert (Hr : 32 <= b <= 122).
  { apply orb_true_iff in Hb as [Hb|Hb]; [ranges; lia|].
    apply bool_decide_eq_true_1 in Hb; repeat (apply elem_of_cons in Hb as [->|Hb]; [lia|]).
    by apply not_elem_of_nil in Hb. }
  split; [done|]; intros H32; unfold is_ascii_whitespace; rewrite !orb_false_iff, !Z.eqb_neq; lia.
Qed.

Lemma name_ok_chars n :
  name_ok n -> n <> [] /\ Forall (fun b => (is_ascii_alphanumeric b || (b =? 95)) = true) n.
Proof.
  destruct n as [|c r]; [done|]; intros [Hc Hr]; split; [done|]; constructor; [|done].
  unfold is_ascii_alphanumeric; apply orb_true_iff in Hc as [-> | ->]; by rewrite ?orb_true_r.
Qed.

Lemma name_ok_no n x : name_ok n -> (x < 48) -> x ∉ n.
Proof.
  intros [_ Hn]%name_ok_chars Hx Hin; eapply Forall_forall in Hn; [|exact Hin].
  apply name_char_plain in Hn as [? _]; lia.
Qed.
Lemma type_ok_no_comma t : type_ok t -> 44 ∉ t.
Proof. intros [Ht _] Hin; eapply Forall_forall in Ht; [|exact Hin]; by destruct Ht. Qed.
Lemma type_ok_nonempty t : type_ok t -> t <> [].
Proof. intros (_ & Ha & _) ->; by apply Exists_nil in Ha. Qed.

Lemma render_field_no_comma f : field_ok f -> 44 ∉ render_field f.
Proof.
  intros (Hn & _ & Ht & _); unfold render_field; rewrite elem_of_app, elem_of_cons.
  intros [Hin|[|Hin]]; [by apply (name_ok_no _ 44 Hn) in Hin|done|by apply type_ok_no_comma in Hin].
Qed.

Lemma render_field_tight f : field_ok f -> tight (render_field f).
Proof.
  intros (Hn & _ & Ht & _); unfold render_field.
  destruct (name_ok_chars _ Hn) as [Hne Hcs]; destruct (f_name f) as [|c r]; [done|].
  pose proof (type_ok_nonempty _ Ht) as Htne; destruct Ht as (Hts & _ & _ & Hlast & _).
  destruct (f_type f) as [|y t _] using rev_ind; [done|].
  exists c, (r ++ 32 :: t ++ [y]), (c :: r ++ 32 :: t), y; split_and!.
  - done.
  - simpl; by rewrite <- app_assoc.
  - inversion Hcs; subst; by apply name_char_plain.
  - rewrite last_snoc in Hlast; apply Forall_app in Hts as [_ [[Hy _] _]%Forall_cons].
    apply type_char_plain; [done|]; congruence.
Qed.

Lemma elem_false (P : Z -> bool) (x : Z) l :
  (forall b, P b = true -> b = x) -> x ∉ l -> Forall (fun b => P b = false) l.
Proof.
  intros HP Hx; apply Forall_forall; intros b Hb; destruct (P b) eqn:E; [|done].
  by apply HP in E as ->.
Qed.
Lemma is_comma_eq b : is_comma b = true -> b = 44.
Proof. apply Z.eqb_eq. Qed.
Lemma is_space_eq b : is_space b = true -> b = 32.
Proof. apply Z.eqb_eq. Qed.

(** A scan stops at the first [x]. *)
Lemma split_unique (x : Z) (stop : Z -> bool) (a b a' b' : list Z) :
  stop x = true -> Forall (fun z => stop z = false) a -> a ++ x :: b = a' ++ b' ->
  Forall (fun z => stop z = false) a' -> match b' with [] => True | z :: _ => stop z = true end ->
  a' = a /\ b' = x :: b.
Proof.
  intros Hx Ha; revert a'; induction Ha as [|z a Hz Ha IH]; intros [|z' a'] Heq Ha' Hb'; simpl in *.
  - done.
  - injection Heq as <- _; apply Forall_cons in Ha' as [? _]; congruence.
  - rewrite <- Heq in Hb'; congruence.
  - injection Heq as <- Heq; apply Forall_cons in Ha' as [_ Ha'].
    destruct (IH a' Heq Ha' Hb') as [-> ->]; done.
Qed.
Lemma scan_at (stop : Z -> bool) x bs i a b m :
  stop x = true -> Forall (fun z => stop z = false) a ->
  seg bs i (a ++ x :: b) -> m = (i + length (a ++ x :: b))%nat ->
  scan bs stop i m = Some (i + length a)%nat.
Proof.
  intros Hstop Ha Hs Hm; destruct (scan_seg stop bs i _ m Hs Hm) as (a' & b' & Hl & Ha' & Hb' & ->).
  by destruct (split_unique x stop a b a' b' Hstop Ha Hl Ha' Hb') as [-> _].
Qed.
Lemma scan_none (stop : Z -> bool) bs i a m :
  Forall (fun z => stop z = false) a -> seg bs i a -> m = (i + length a)%nat ->
  scan bs stop i m = Some m.
Proof.
  intros Ha Hs ->; destruct (scan_seg stop bs i _ _ Hs eq_refl) as (a' & b' & -> & Ha' & Hb' & ->).
  destruct b' as [|z b']; [by rewrite app_nil_r|].
  apply Forall_app in Ha as [_ [? _]%Forall_cons]; congruence.
Qed.

(** *** Names up to case *)

Lemma eq_ignore_seg bs a0 b0 x y a1 b1 :
  seg bs a0 x -> seg bs b0 y -> a1 = (a0 + length x)%nat -> b1 = (b0 + length y)%nat ->
  eq_ignore_ascii_case bs a0 a1 b0 b1 = bool_decide (lower x = lower y).
Proof.
  intros Hx Hy -> ->; unfold eq_ignore_ascii_case.
  rewrite !(proj2 (Nat.ltb_ge _ _)) by lia; simpl.
  replace (a0 + length x - a0)%nat with (length x) by lia.
  replace (b0 + length y - b0)%nat with (length y) by lia.
  destruct (Nat.eqb_spec (length x) (length y)) as [Hl|Hl]; simpl; symmetry.
  2: { apply bool_decide_eq_false_2; intros Heq%(f_equal length).
       unfold lower in Heq; by rewrite !length_fmap in Heq. }
  apply eq_true_iff_eq; rewrite bool_decide_eq_true, forallb_forall; split.
  - intros Heq o [_ Ho]%in_seq; unfold bytes; rewrite Hx, Hy by lia.
    destruct (lookup_lt_is_Some_2 x o) as [c Hc]; [lia|].
    destruct (lookup_lt_is_Some_2 y o) as [d Hd]; [lia|]; rewrite Hc, Hd; apply Z.eqb_eq.
    assert (He : lower x !! o = lower y !! o) by (by rewrite Heq).
    unfold lower in He; rewrite !list_lookup_fmap, Hc, Hd in He; by injection He.
  - intros Hf; unfold lower; apply list_eq_same_length with (n := length x);
      [by rewrite length_fmap..|].
    intros o c d Ho Hc Hd; specialize (Hf o); rewrite in_seq in Hf.
    unfold bytes in Hf; rewrite Hx, Hy in Hf by lia.
    rewrite list_lookup_fmap in Hc, Hd.
    destruct (x !! o); [|done]; destruct (y !! o); [|done]; simpl in *.
    injection Hc as <-; injection Hd as <-; apply Z.eqb_eq, Hf; lia.
Qed.

(** *** Collisions with earlier fields *)

(** Fields already read, each with the separator after it. *)
Fixpoint render_prev (prev : list (field * bool)) : list Z :=
  match prev with
  | [] => []
  | (f, spaced) :: rest => render_field f ++ render_sep spaced ++ render_prev rest
  end.

Lemma render_prev_head prev c r :
  Forall (fun p => field_ok p.1) prev -> render_prev prev = c :: r -> c <> 32.
Proof.
  intros Hok; destruct prev as [|[f b] prev]; simpl; [done|].
  apply Forall_cons in Hok as [(Hn & _) _]; simpl in Hn; unfold render_field.
  destruct (name_ok_chars _ Hn) as [Hne Hcs]; destruct (f_name f) as [|d n]; [done|].
  intros [= -> _]; apply Forall_cons in Hcs as [Hc _]; apply name_char_plain in Hc as [? _]; lia.
Qed.

(** Past a separator. *)
Lemma skip_sep bs i spaced rest m :
  seg bs i (render_sep spaced ++ rest) -> m = (i + length (render_sep spaced ++ rest))%nat ->
  (forall c r, rest = c :: r -> c <> 32) ->
  (if (S i <? m)%nat && byte_at bs (S i) 32 then S (S i) else S i)
  = (i + length (render_sep spaced))%nat.
Proof.
  intros Hs -> Hrest; destruct spaced; simpl in *; apply seg_cons in Hs as [_ Hs].
  - rewrite (seg_byte_at _ _ _ _ 32 Hs), (proj2 (Nat.ltb_lt _ _)) by lia; simpl; lia.
  - destruct rest as [|c r]; simpl.
    + rewrite Nat.ltb_irrefl || rewrite (proj2 (Nat.ltb_ge _ _)) by lia; simpl; lia.
    + rewrite (seg_byte_at _ _ _ _ 32 Hs), (proj2 (Z.eqb_neq _ _) (Hrest _ _ eq_refl)), andb_false_r; lia.
Qed.

Lemma collides_prev prev bs r fuel until ns ne n :
  seg bs r (render_prev prev) -> until = (r + length (render_prev prev))%nat ->
  seg bs ns n -> ne = (ns + length n)%nat -> Forall (fun p => field_ok p.1) prev ->
  (length prev <= fuel)%nat ->
  collides_from bs fuel r until ns ne
  = existsb (fun p => bool_decide (key_of_field p.1 = lower n)) prev.
Proof.
  intros Hs Hu Hn Hne Hok; revert r fuel Hs Hu; induction Hok as [|[f b] prev Hf Hok IH];
    intros r fuel Hs Hu Hfuel.
  - destruct fuel as [|fuel]; [done|]; simpl in *; by rewrite (proj2 (Nat.ltb_ge _ _)) by lia.
  - destruct fuel as [|fuel]; [simpl in Hfuel; lia|]; simpl in Hf, Hs, Hu |- *.
    set (tail := render_sep b ++ render_prev prev) in *.
    assert (Htail : exists t', tail = 44 :: t') by (unfold tail; destruct b; eauto).
    destruct Htail as [t' Ht']; rewrite length_app in Hu.
    assert (Hflen : (0 < length (render_field f))%nat) by (unfold render_field; rewrite length_app; simpl; lia).
    rewrite (proj2 (Nat.ltb_lt r until)) by lia; simpl.
    rewrite (scan_at is_comma 44 bs r (render_field f) t'); [|done| | |].
    2: { eapply elem_false; [apply is_comma_eq|by apply render_field_no_comma]. }
    2: { by rewrite <- Ht'. }
    2: { by rewrite <- Ht', length_app. }
    apply seg_app in Hs as [Hsf Hst].
    rewrite (trim_tight bs r (render_field f)) by (done || by apply render_field_tight).
    rewrite (scan_at is_space 32 bs r (f_name f) (f_type f)); [|done| |done|done].
    2: { eapply elem_false; [apply is_space_eq|]; apply name_ok_no; [apply Hf|lia]. }
    apply seg_app in Hsf as [Hsn _].
    rewrite (eq_ignore_seg _ _ _ _ _ _ _ Hsn Hn eq_refl Hne).
    rewrite (proj2 (Nat.ltb_lt r _)); [simpl|].
    2: { destruct Hf as (Hname & _); destruct (name_ok_chars _ Hname) as [? _].
         destruct (f_name f); [done|simpl; lia]. }
    destruct (decide (lower (f_name f) = lower n)) as [Heq|Hneq];
      [by rewrite !bool_decide_true by done|].
    rewrite !bool_decide_false by done; simpl.
    rewrite (proj2 (Nat.leb_gt until _)) by (rewrite Ht' in Hu; simpl in Hu; lia).
    rewrite (skip_sep bs _ b (render_prev prev)); [|done|fold tail; lia|].
    2: { intros c r'; by apply render_prev_head. }
    unfold tail in *; apply seg_app in Hst as [_ Hst]; rewrite length_app in Hu.
    apply IH; [done|lia|simpl in Hfuel; lia].
Qed.

(** *** One field *)

(** The only whitespace is the space, as the control check ensures. *)
Definition plain (l : list Z) : Prop := Forall (fun b => is_ascii_whitespace b = true -> b = 32) l.

Lemma render_field_split f N T :
  field_ok f -> Forall (fun z => is_space z = false) N -> N ++ 32 :: T = render_field f ->
  f = mkField N T.
Proof.
  intros (Hn & _) HN Heq; unfold render_field in Heq.
  destruct (split_unique 32 is_space N T (f_name f) (32 :: f_type f)) as [Hname Htype]; try done.
  - eapply elem_false; [apply is_space_eq|]; apply name_ok_no; [done|lia].
  - destruct f; simpl in *; congruence.
Qed.

Lemma render_field_last f l y : field_ok f -> render_field f = l ++ [y] -> y <> 32.
Proof.
  intros Hf Heq ->; destruct (render_field_tight f Hf) as (_ & _ & l' & y' & _ & Hy & _ & Hw).
  rewrite Heq in Hy; apply app_inj_tail in Hy as [_ <-]; done.
Qed.

Lemma existsb_none {A} (p : A -> bool) l :
  existsb p l = false <-> Forall (fun x => p x = false) l.
Proof.
  induction l as [|x l IH]; simpl; [split; [constructor|done]|].
  by rewrite orb_false_iff, Forall_cons, IH.
Qed.

(** The checks after the field was split at [split]. *)
Definition split_accepted bs (r i m split : nat) : bool :=
  if (32 <? split - i)%nat then false
  else if (m <=? S split)%nat || byte_at bs (S split) 32 then false
  else if (32 <? m - S split)%nat then false
  else if negb (is_valid_identifier bs i split) || negb (is_valid_type bs (S split) m) then false
  else negb (field_name_collides bs r i i split).

Lemma prev_length prev : (length prev <= length (render_prev prev))%nat.
Proof.
  induction prev as [|[f b] prev IH]; simpl; [lia|].
  rewrite !length_app; unfold render_field; rewrite length_app; simpl; lia.
Qed.

Lemma split_accepted_iff prev bs r i m N T :
  seg bs r (render_prev prev) -> i = (r + length (render_prev prev))%nat ->
  seg bs i (N ++ 32 :: T) -> m = (i + length N + S (length T))%nat ->
  Forall (fun p => field_ok p.1) prev -> 44 ∉ T -> (length N + S (length T) <= 64)%nat ->
  split_accepted bs r i m (i + length N) = true
  <-> field_ok (mkField N T) /\ Forall (fun p => key_of_field p.1 <> key_of_field (mkField N T)) prev.
Proof.
  intros Hprev Hi Hs Hm Hok Hcomma Hlen; unfold split_accepted, field_ok; cbn [f_name f_type].
  apply seg_app in Hs as [HsN [_ HsT]%seg_cons].
  replace (i + length N - i)%nat with (length N) by lia.
  replace (m - S (i + length N))%nat with (length T) by lia.
  unfold field_name_collides; rewrite (collides_prev prev _ _ _ _ _ _ N) by
    (done || (replace (i - r)%nat with (length (render_prev prev)) by lia; apply prev_length)).
  assert (Hcol : negb (existsb (fun p => bool_decide (key_of_field p.1 = lower N)) prev) = true
                 <-> Forall (fun p => key_of_field p.1 <> key_of_field (mkField N T)) prev).
  { rewrite negb_true_iff, existsb_none; by setoid_rewrite bool_decide_eq_false. }
  destruct (Nat.ltb_spec 32 (length N)); [split; [done|lia]|].
  destruct T as [|c T'].
  { rewrite (proj2 (Nat.leb_le m _)) by (simpl in Hm; lia); simpl; split; [done|].
    intros [(_ & _ & Ht & _) _]; by apply type_ok_nonempty in Ht. }
  rewrite (proj2 (Nat.leb_gt m _)), (seg_byte_at _ _ _ _ 32 HsT) by (simpl in Hm; lia); simpl orb.
  destruct (Z.eqb_spec c 32) as [->|Hc].
  { split; [done|]; intros [(_ & _ & (_ & _ & Hh & _) & _) _]; by simpl in Hh. }
  destruct (Nat.ltb_spec 32 (length (c :: T'))); [split; [done|lia]|].
  rewrite <- (is_valid_identifier_seg bs i N (i + length N) HsN eq_refl).
  rewrite <- (is_valid_type_seg bs (S (i + length N)) (c :: T') m HsT); [|lia|by intros x Hx ->|].
  2: { simpl; congruence. }
  destruct (is_valid_identifier _ _ _); [|simpl; split; [done|]; by intros [[? _] _]].
  destruct (is_valid_type _ _ _); [|simpl; split; [done|]; by intros [(_ & _ & ? & _) _]].
  simpl negb; cbn [orb]; rewrite Hcol; split; [|tauto].
  intros Hd; split_and!; done || lia.
Qed.

Lemma plain_tight F y : plain (F ++ [y]) -> (F ++ [y]) !! O <> Some 32 -> y <> 32 -> tight (F ++ [y]).
Proof.
  unfold plain; rewrite Forall_forall; intros Hp Hh Hy.
  assert (Hx : exists x r, F ++ [y] = x :: r) by (destruct F; eauto); destruct Hx as (x & r & Hx).
  assert (Hw : forall z, z ∈ F ++ [y] -> z <> 32 -> is_ascii_whitespace z = false).
  { intros z Hz Hz32; destruct (is_ascii_whitespace z) eqn:E; [|done]; by apply Hp in Hz. }
  exists x, r, F, y; split_and!; [done..| |].
  - apply Hw; [rewrite Hx; by left|]; rewrite Hx in Hh; simpl in Hh; congruence.
  - apply Hw; [|done]; apply elem_of_app; right; by left.
Qed.

(** After trimming. *)
Lemma trimmed_accepted_iff prev bs r i F m :
  seg bs r (render_prev prev) -> i = (r + length (render_prev prev))%nat ->
  seg bs i F -> m = (i + length F)%nat -> Forall (fun p => field_ok p.1) prev ->
  44 ∉ F -> F !! O <> Some 32 -> (length F <= 64)%nat ->
  match scan bs is_space i m with
  | None => false
  | Some split => if (split =? i)%nat || (m <=? split)%nat then false
                  else split_accepted bs r i m split
  end = true
  <-> exists f, F = render_field f /\ field_ok f
        /\ Forall (fun p => key_of_field p.1 <> key_of_field f) prev.
Proof.
  intros Hprev Hi Hs Hm Hok Hcomma Hhead Hlen.
  destruct (scan_seg is_space bs i F m Hs Hm) as (N & B & -> & HN & HB & ->).
  destruct B as [|z T].
  - rewrite app_nil_r in *; rewrite (proj2 (Nat.leb_le m _)), orb_true_r by lia; split; [done|].
    intros (f & -> & _); unfold render_field in HN; apply Forall_app in HN as [_ [? _]%Forall_cons]; done.
  - apply is_space_eq in HB as ->; rewrite length_app in Hm, Hlen; simpl in Hm, Hlen.
    assert (HNne : (0 < length N)%nat) by (destruct N; [done|simpl; lia]).
    rewrite (proj2 (Nat.eqb_neq _ _)), (proj2 (Nat.leb_gt m _)) by lia; simpl orb.
    rewrite (split_accepted_iff prev bs r i m N T); try done; [|lia|].
    2: { intros Hin; apply Hcomma, elem_of_app; right; by right. }
    split.
    + intros [Hf Hd]; by exists (mkField N T).
    + intros (f & Heq & Hf & Hd); by rewrite <- (render_field_split f N T Hf HN Heq).
Qed.

Lemma field_accepted_iff prev bs r i F m :
  seg bs r (render_prev prev) -> i = (r + length (render_prev prev))%nat ->
  seg bs i F -> m = (i + length F)%nat -> Forall (fun p => field_ok p.1) prev ->
  44 ∉ F -> plain F -> F !! O <> Some 32 ->
  field_accepted bs r i m = true
  <-> exists f, F = render_field f /\ field_ok f
        /\ Forall (fun p => key_of_field p.1 <> key_of_field f) prev.
Proof.
  intros Hprev Hi Hs Hm Hok Hcomma Hplain Hhead; unfold field_accepted.
  destruct F as [|y F' _] using rev_ind.
  { simpl in Hm; replace m with i by lia; rewrite Nat.ltb_irrefl, trim_empty; simpl.
    split; [done|]; intros (f & Hf & _); unfold render_field in Hf; by destruct (f_name f). }
  assert (Hy : byte_at bs (m - 1) 32 = (y =? 32)).
  { apply seg_app in Hs as [_ Hsy]; rewrite length_app in Hm; simpl in Hm.
    replace (m - 1)%nat with (i + length F')%nat by lia; by eapply seg_byte_at. }
  rewrite Hy, (proj2 (Nat.ltb_lt i m)) by (rewrite length_app in Hm; simpl in Hm; lia); simpl andb.
  destruct (Z.eqb_spec y 32) as [->|Hy32].
  { split; [done|]; intros (f & Hf & Hfok & _); symmetry in Hf.
    by apply (render_field_last f) in Hf. }
  rewrite (trim_tight bs i (F' ++ [y]) m Hs Hm) by (by apply plain_tight).
  replace (m - i)%nat with (length (F' ++ [y])) by lia.
  destruct (Nat.ltb_spec 64 (length (F' ++ [y]))) as [Hlong|Hshort].
  { split; [done|]; intros (f & Hf & (_ & _ & _ & _ & Hl) & _).
    rewrite Hf in Hlong; unfold render_field in Hlong; rewrite length_app in Hlong; simpl in Hlong; lia. }
  by apply trimmed_accepted_iff.
Qed.

(** *** All fields *)

(** [l] is a list of fields that may follow [prev]; [n] counts them on. *)
Definition parses (prev : list (field * bool)) (l : list Z) (count n : Z) : Prop :=
  exists f rest, l = render f rest /\ Forall field_ok (f :: map snd rest)
    /\ NoDup (map key_of_field (map fst prev ++ f :: map snd rest))
    /\ n = count + 1 + len rest /\ n <= MAX_SCHEMA_FIELDS.

Lemma render_prev_snoc prev f b :
  render_prev (prev ++ [(f, b)]) = render_prev prev ++ render_field f ++ render_sep b.
Proof.
  induction prev as [|[g c] prev IH]; simpl; [by rewrite app_nil_r|].
  by rewrite IH, <- !app_assoc.
Qed.

Lemma render_head f rest : field_ok f -> exists c l, render f rest = c :: l /\ c <> 32 /\ c <> 44.
Proof.
  intros (Hn & _); destruct (name_ok_chars _ Hn) as [Hne Hcs].
  destruct (f_name f) as [|c r] eqn:En; [done|]; apply Forall_cons in Hcs as [Hc _].
  apply name_char_plain in Hc as [? _].
  destruct rest as [|[b g] rest]; simpl; unfold render_field; rewrite En; simpl;
    eexists _, _; split_and!; [done|lia|lia|done|lia|lia].
Qed.

(** Everything up to the first comma is the first field. *)
Lemma render_split f rest F B :
  field_ok f -> render f rest = F ++ B -> Forall (fun z => is_comma z = false) F ->
  match B with [] => True | z :: _ => is_comma z = true end ->
  F = render_field f
  /\ B = match rest with [] => [] | (b, g) :: rest' => render_sep b ++ render g rest' end.
Proof.
  intros Hf Heq HF HB.
  assert (Hfc : Forall (fun z => is_comma z = false) (render_field f))
    by (eapply elem_false; [apply is_comma_eq|by apply render_field_no_comma]).
  destruct rest as [|[b g] rest]; simpl in Heq.
  - destruct B as [|z B]; [by rewrite app_nil_r in Heq|].
    rewrite Heq in Hfc; apply Forall_app in Hfc as [_ [? _]%Forall_cons]; congruence.
  - assert (Hsep : exists t, render_sep b ++ render g rest = 44 :: t) by (destruct b; simpl; eauto).
    destruct Hsep as [t Ht]; rewrite Ht in *.
    by destruct (split_unique 44 is_comma (render_field f) t F B) as [-> ->].
Qed.

(** The rest after a field [f] and the separator [b]. *)
Lemma parses_next prev f b L' count n :
  field_ok f -> parses (prev ++ [(f, b)]) L' (count + 1) n ->
  parses prev (render_field f ++ render_sep b ++ L') count n.
Proof.
  intros Hf (g & rest & -> & Hok & Hnd & -> & Hle); exists f, ((b, g) :: rest).
  split_and!; [done|by constructor| |unfold len; simpl; lia|lia].
  rewrite (map_app fst) in Hnd; simpl in Hnd; by rewrite <- app_assoc in Hnd.
Qed.
Lemma parses_after prev f b L' count n :
  field_ok f -> (exists c l, L' = c :: l /\ c <> 32) ->
  parses prev (render_field f ++ render_sep b ++ L') count n ->
  parses (prev ++ [(f, b)]) L' (count + 1) n.
Proof.
  intros Hf (c & l & HL & Hc) (f' & rest & Heq & Hok & Hnd & -> & Hle).
  pose proof Hok as [Hf' Hrest]%Forall_cons; symmetry in Heq.
  destruct (render_split f' rest _ _ Hf' Heq) as [Hff Hrest'].
  { eapply elem_false; [apply is_comma_eq|by apply render_field_no_comma]. }
  { by destruct b. }
  assert (f' = f) as ->.
  { symmetry in Hff; unfold render_field in Hff at 2.
    rewrite (render_field_split f' (f_name f) (f_type f) Hf'); [by destruct f| |done].
    eapply elem_false; [apply is_space_eq|]; apply name_ok_no; [apply Hf|lia]. }
  destruct rest as [|[b' g] rest]; [by destruct b|].
  apply Forall_cons in Hrest as [Hg Hrest]; simpl in Hg.
  destruct (render_head g rest Hg) as (cg & lg & Hgl & Hcg & _).
  assert (b' = b /\ L' = render g rest) as [-> ->].
  { rewrite Hgl, HL in *; destruct b, b'; simpl in *; split; try congruence. }
  exists g, rest; split_and!; [done|by constructor| |unfold len in *; simpl in *; lia|done].
  rewrite (map_app fst); simpl; by rewrite <- app_assoc.
Qed.

Lemma not_comma_spec F : Forall (fun z => is_comma z = false) F -> 44 ∉ F.
Proof. intros HF Hin; eapply Forall_forall in HF; [|exact Hin]; done. Qed.

(** A field list begins with a field the earlier ones allow. *)
Lemma parses_first prev F B count n :
  Forall (fun z => is_comma z = false) F ->
  match B with [] => True | z :: _ => is_comma z = true end ->
  parses prev (F ++ B) count n ->
  (exists f, F = render_field f /\ field_ok f
     /\ Forall (fun p => key_of_field p.1 <> key_of_field f) prev)
  /\ count + 1 <= MAX_SCHEMA_FIELDS
  /\ (B = [] /\ n = count + 1
      \/ exists b L' c l, B = render_sep b ++ L' /\ L' = c :: l /\ c <> 32).
Proof.
  intros HF HB (f & rest & Heq & Hok & Hnd & -> & Hle); symmetry in Heq.
  pose proof Hok as [Hf Hrest]%Forall_cons.
  destruct (render_split f rest F B Hf Heq HF HB) as [HFf HBr].
  split; [exists f; split_and!; [done..|]|split_and!].
  - apply Forall_forall; intros [g b] Hg Heqk; simpl in Heqk.
    rewrite map_app in Hnd; simpl in Hnd; apply NoDup_app in Hnd as (_ & Hdis & _).
    apply (Hdis (key_of_field g)); [|rewrite Heqk; left].
    apply list_elem_of_In, in_map, in_map_iff; exists (g, b); split; [done|by apply list_elem_of_In].
  - unfold len in Hle; lia.
  - destruct rest as [|[b g] rest]; [left; split; [done|unfold len; simpl; lia]|right].
    apply Forall_cons in Hrest as [Hg _]; destruct (render_head g rest Hg) as (c & l & Hc & Hc32 & _).
    exists b, (render g rest), c, l; auto.
Qed.

Lemma distinct_snoc prev f :
  Forall (fun p : field * bool => key_of_field p.1 <> key_of_field f) prev ->
  NoDup (map key_of_field (map fst prev)) -> NoDup (map key_of_field (map fst prev ++ [f])).
Proof.
  intros Hd Hn; rewrite map_app; apply NoDup_app; split_and!; [done| |apply NoDup_singleton].
  intros k Hk ->%list_elem_of_singleton; apply list_elem_of_In, in_map_iff in Hk as (g & Hg & Hin).
  apply in_map_iff in Hin as (p & <- & Hp); apply list_elem_of_In in Hp.
  by eapply Forall_forall in Hd.
Qed.

Lemma fields_from_iff fuel prev bs r i L m count n :
  seg bs r (render_prev prev) -> i = (r + length (render_prev prev))%nat ->
  seg bs i L -> m = (i + length L)%nat -> Forall (fun p => field_ok p.1) prev ->
  NoDup (map key_of_field (map fst prev)) -> plain L -> L <> [] -> L !! O <> Some 32 ->
  (length L <= fuel)%nat ->
  fields_from bs fuel r i m count = Some n <-> parses prev L count n.
Proof.
  revert prev i L count; induction fuel as [|fuel IH];
    intros prev i L count Hprev Hi Hs Hm Hok Hnd Hplain Hne Hhead Hfuel.
  { destruct L; simpl in *; [done|lia]. }
  cbn [fields_from]; rewrite (proj2 (Nat.ltb_lt i m)) by (destruct L; [done|simpl in Hm; lia]).
  simpl negb; cbn iota.
  destruct (scan_seg is_comma bs i L m Hs Hm) as (F & B & -> & HF & HB & Hscan).
  rewrite Hscan; cbn [mbind option_bind]; apply seg_app in Hs as [HsF HsB].
  rewrite length_app in Hm; apply Forall_app in Hplain as [HpF HpB].
  pose proof (field_accepted_iff prev bs r i F (i + length F) Hprev Hi HsF eq_refl Hok
                (not_comma_spec _ HF) HpF) as Hacc.
  destruct (field_accepted bs r i (i + length F)) eqn:Ea; simpl negb; cbn iota.
  2: { split; [done|]; intros Hp; apply parses_first in Hp as [Hf _]; [|done..].
       exfalso; apply diff_false_true, Hacc; [|done].
       intros Hf0; apply Hhead; destruct F; [done|done]. }
  destruct Hacc as [Hacc _]; [intros Hf0; apply Hhead; by destruct F|].
  destruct (Hacc eq_refl) as (f & HFf & Hf & Hdist).
  destruct (Z.ltb_spec MAX_SCHEMA_FIELDS (count + 1)) as [Hmax|Hmax].
  { split; [done|]; intros Hp; apply parses_first in Hp as (_ & ? & _); [lia|done..]. }
  assert (Hstep : forall b L' c l, B = render_sep b ++ L' -> L' = c :: l -> c <> 32 ->
    fields_from bs fuel r (i + length F + length (render_sep b)) m (count + 1) = Some n
    <-> parses prev (F ++ B) count n).
  { intros b L' c l -> -> Hc; rewrite HFf; rewrite HFf in *.
    apply seg_app in HsB as [Hssep HsL]; rewrite !length_app in Hfuel, Hm.
    rewrite (IH (prev ++ [(f, b)]) _ (c :: l)).
    - split; [by apply parses_next|apply parses_after; eauto].
    - rewrite render_prev_snoc, !seg_app, <- Hi; auto.
    - rewrite render_prev_snoc, !length_app; lia.
    - done.
    - lia.
    - apply Forall_app; split; [done|by apply Forall_singleton].
    - rewrite (map_app fst); by apply distinct_snoc.
    - by apply Forall_app in HpB as [_ ?].
    - done.
    - simpl; congruence.
    - unfold render_field in Hfuel; rewrite !length_app in Hfuel; simpl in *; lia. }
  assert (Hpf := parses_first prev F B count n HF HB).
  destruct B as [|z B]; [|apply is_comma_eq in HB as ->].
  { rewrite (proj2 (Nat.leb_le m _)) by (simpl in Hm; lia); rewrite app_nil_r in *; split.
    - intros [= <-]; exists f, []; simpl; split_and!; [done|by constructor| |unfold len; simpl; lia|done].
      by apply distinct_snoc.
    - intros (_ & _ & [[_ ->]|(b & ? & ? & ? & ? & _)])%Hpf; [done|by destruct b]. }
  apply seg_cons in HsB as [_ HsB]; simpl length in Hm.
  rewrite (proj2 (Nat.leb_gt m _)) by lia.
  destruct B as [|z B]; [|rewrite (seg_byte_at _ _ _ _ 32 HsB)].
  { rewrite (proj2 (Nat.ltb_ge _ _)) by (simpl in Hm; lia); cbn [andb].
    rewrite (proj2 (Nat.leb_le m _)) by (simpl in Hm; lia); split; [done|].
    intros (_ & _ & [[? _]|(b & ? & ? & ? & ? & -> & _)])%Hpf; [done|by destruct b]. }
  rewrite (proj2 (Nat.ltb_lt (S (i + length F)) m)) by (simpl in Hm; lia); simpl andb.
  destruct (Z.eqb_spec z 32) as [->|Hz].
  2: { rewrite (proj2 (Nat.leb_gt m _)) by (simpl in Hm; lia).
       rewrite <- (Hstep false (z :: B) z B) by done; simpl.
       by replace (i + length F + 1)%nat with (S (i + length F)) by lia. }
  apply seg_cons in HsB as [_ HsB]; simpl length in Hm.
  destruct B as [|c B]; [|rewrite (seg_byte_at _ _ _ _ 32 HsB)].
  { rewrite (proj2 (Nat.ltb_ge _ _)) by (simpl in Hm; lia); cbn [andb].
    rewrite (proj2 (Nat.leb_le m _)) by (simpl in Hm; lia); split; [done|].
    intros (_ & _ & [[? _]|(b & ? & ? & ? & Heq & -> & Hc)])%Hpf; [done|].
    destruct b; simpl in Heq; congruence. }
  rewrite (proj2 (Nat.ltb_lt (S (S (i + length F))) m)) by (simpl in Hm; lia); simpl andb.
  destruct (Z.eqb_spec c 32) as [->|Hc].
  { split; [done|]; intros (_ & _ & [[? _]|(b & ? & ? & ? & Heq & -> & Hc)])%Hpf; [done|].
    destruct b; simpl in Heq; congruence. }
  rewrite (proj2 (Nat.leb_gt m _)) by (simpl in Hm; lia).
  rewrite <- (Hstep true (c :: B) c B) by done; simpl.
  by replace (i + length F + 2)%nat with (S (S (i + length F))) by lia.
Qed.

(** ** The whole string *)

Definition printable (b : Z) : Prop := 32 <= b <= 122.

Lemma printable_utf8 l : Forall printable l -> from_utf8 l = Some l.
Proof.
  induction 1 as [|b l Hb _ IH]; [done|]; unfold printable in Hb; simpl.
  replace (in_range 0 127 b) with true by (unfold in_range; symmetry; rewrite andb_true_iff, !Z.leb_le; lia).
  by rewrite IH.
Qed.
Lemma printable_no_control l :
  Forall printable l -> contains_control_or_invalid_whitespace l = false.
Proof.
  intros Hl; unfold contains_control_or_invalid_whitespace; rewrite (printable_utf8 l Hl).
  apply orb_false_iff; split; apply existsb_none; eapply Forall_impl; eauto; unfold printable; simpl;
    intros b Hb; unfold is_char_whitespace, is_invisible, in_range.
  - rewrite orb_false_iff, Z.ltb_ge, Z.eqb_neq; lia.
  - rewrite !orb_false_iff, !andb_false_iff, !orb_false_iff, !negb_false_iff, !Z.eqb_neq, Z.eqb_eq,
      !andb_false_iff, !Z.leb_gt; lia.
Qed.
Lemma no_control_plain l : contains_control_or_invalid_whitespace l = false -> plain l.
Proof.
  intros [Hl _]%orb_false_iff; apply existsb_none in Hl; eapply Forall_impl; [exact Hl|]; simpl.
  intros b Hb; unfold is_ascii_whitespace; rewrite orb_false_iff, Z.ltb_ge, Z.eqb_neq in Hb.
  rewrite !orb_true_iff, !Z.eqb_eq; lia.
Qed.

Lemma render_field_printable f : field_ok f -> Forall printable (render_field f).
Proof.
  intros (Hn & _ & (Ht & _) & _); apply name_ok_chars in Hn as [_ Hn]; unfold render_field.
  apply Forall_app; split; [|constructor; [unfold printable; lia|]]; eapply Forall_impl; eauto; simpl.
  - intros b [? _]%name_char_plain; unfold printable; lia.
  - by intros b [[? _]%type_char_plain _].
Qed.
Lemma render_printable f rest :
  Forall field_ok (f :: map snd rest) -> Forall printable (render f rest).
Proof.
  revert f; induction rest as [|[b g] rest IH]; intros f [Hf Hr]%Forall_cons; simpl.
  - by apply render_field_printable.
  - rewrite !Forall_app; split_and!; [by apply render_field_printable| |by apply IH].
    unfold printable; destruct b; repeat constructor; lia.
Qed.

Lemma render_plain f rest : Forall field_ok (f :: map snd rest) -> plain (render f rest).
Proof. intros; by apply no_control_plain, printable_no_control, render_printable. Qed.

Lemma render_tight f rest :
  Forall field_ok (f :: map snd rest) ->
  tight (render f rest) /\ head (render f rest) <> Some 44 /\ last (render f rest) <> Some 44.
Proof.
  intros Hok; assert (Hf : field_ok f) by (by inversion Hok).
  assert (Hlast : exists l y, render f rest = l ++ [y] /\ is_ascii_whitespace y = false /\ y <> 44).
  { clear Hf; revert f Hok; induction rest as [|[b g] rest IH]; intros f [Hf Hr]%Forall_cons; simpl.
    - destruct (render_field_tight f Hf) as (_ & _ & l & y & _ & Hy & _ & Hw).
      exists l, y; split_and!; [done..|]; intros ->; apply (render_field_no_comma f Hf).
      rewrite Hy; apply elem_of_app; right; by left.
    - destruct (IH g Hr) as (l & y & -> & Hy & Hy44).
      exists (render_field f ++ render_sep b ++ l), y; by rewrite <- !app_assoc. }
  destruct Hlast as (l & y & Hy & Hwy & Hy44); destruct (render_head f rest Hf) as (c & r & Hc & ? & ?).
  assert (Hwc : is_ascii_whitespace c = false).
  { pose proof (render_printable f rest Hok) as Hp; rewrite Hc in Hp; inversion Hp as [|? ? Hpc _]; subst.
    unfold printable in Hpc; unfold is_ascii_whitespace; rewrite !orb_false_iff, !Z.eqb_neq; lia. }
  split_and!; [by exists c, r, l, y|rewrite Hc; simpl; congruence|rewrite Hy, last_snoc; congruence].
Qed.

(** A string has one decomposition into whitespace around a tight segment. *)
Lemma strip_unique (p : Z -> bool) w x r w' x' r' :
  Forall (fun b => p b = true) w -> Forall (fun b => p b = true) w' -> p x = false -> p x' = false ->
  w ++ x :: r = w' ++ x' :: r' -> w = w' /\ x :: r = x' :: r'.
Proof.
  intros Hw; revert w'; induction Hw as [|b w Hb _ IH]; intros w' Hw' Hx Hx' Heq.
  - destruct Hw' as [|b' w' Hb' _]; simpl in Heq; [done|]; congruence.
  - destruct Hw' as [|b' w' Hb' Hw']; simpl in Heq; [congruence|].
    injection Heq as -> Heq; by destruct (IH w' Hw' Hx Hx' Heq) as [-> ->].
Qed.
Lemma tight_unique w1 c w2 v1 d v2 :
  Forall (fun x => is_ascii_whitespace x = true) (w1 ++ w2) ->
  Forall (fun x => is_ascii_whitespace x = true) (v1 ++ v2) -> tight c -> tight d ->
  w1 ++ c ++ w2 = v1 ++ d ++ v2 -> w1 = v1 /\ c = d.
Proof.
  intros [Hw1 Hw2]%Forall_app [Hv1 Hv2]%Forall_app (x & r & l & y & Hx & Hy & Hwx & Hwy)
    (x' & r' & l' & y' & Hx' & Hy' & Hwx' & Hwy') Heq.
  assert (w1 = v1 /\ c ++ w2 = d ++ v2) as [-> Hc].
  { rewrite Hx, Hx' in *; eapply strip_unique; eauto. }
  split; [done|]; rewrite Hy, Hy' in Hc.
  apply (f_equal reverse) in Hc; rewrite !reverse_app in Hc; simpl in Hc.
  destruct (strip_unique is_ascii_whitespace _ _ _ _ _ _ (proj2 (Forall_reverse _ _) Hw2)
    (proj2 (Forall_reverse _ _) Hv2) Hwy Hwy' Hc) as [_ Hr].
  rewrite Hy, Hy'; apply (inj reverse); by rewrite !reverse_app.
Qed.

Lemma spaces_only w :
  Forall (fun x => is_ascii_whitespace x = true) w -> plain w -> w = replicate (length w) 32.
Proof.
  intros Hw Hp; symmetry; apply replicate_as_elem_of; split; [done|]; unfold plain in Hp.
  rewrite Forall_forall in Hw, Hp; auto.
Qed.

(** What the loop over the fields sees of the trimmed string. *)
Lemma trimmed_fields_iff bs w1 c w2 n :
  bs = w1 ++ c ++ w2 -> plain c -> tight c ->
  fields_from bs (length w1 + length c - length w1) (length w1) (length w1) (length w1 + length c) 0
    = Some n <-> parses [] c 0 n.
Proof.
  intros -> Hp (x & r & _ & _ & Hx & _ & Hwx & _); apply fields_from_iff; simpl; try done.
  - intros o Ho; simpl in Ho; lia.
  - assert (Hs := seg_whole (w1 ++ c ++ w2)); rewrite !seg_app in Hs; apply Hs.
  - constructor.
  - by rewrite Hx.
  - rewrite Hx; intros [= ->]; done.
  - lia.
Qed.

Lemma trimmed_core bs w1 c w2 lead trail d :
  bs = w1 ++ c ++ w2 -> bs = replicate lead 32 ++ d ++ replicate trail 32 ->
  Forall (fun x => is_ascii_whitespace x = true) (w1 ++ w2) -> tight d -> (c = [] \/ tight c) ->
  w1 = replicate lead 32 /\ c = d.
Proof.
  intros -> Heq Hw Hd [->|Hc].
  - exfalso; simpl in Heq; rewrite Heq, !Forall_app in Hw; destruct Hw as (_ & Hwd & _).
    destruct Hd as (x & r & _ & _ & -> & _ & Hx & _); inversion Hwd; congruence.
  - eapply tight_unique; eauto; apply Forall_app; split; by apply Forall_replicate.
Qed.

Lemma ends_not_comma bs w1 c w2 :
  bs = w1 ++ c ++ w2 -> tight c -> head c <> Some 44 -> last c <> Some 44 ->
  byte_at bs (length w1) 44 || byte_at bs (length w1 + length c - 1) 44 = false.
Proof.
  intros -> (x & r & l & y & Hx & Hy & _) Hh Hl; unfold byte_at.
  assert (Hf := length_app l [y]); rewrite <- Hy in Hf; simpl in Hf.
  rewrite (bool_decide_eq_false_2 (_ !! length w1 = _)), bool_decide_eq_false_2; [done| |].
  - rewrite (lookup_app_r w1) by lia; rewrite lookup_app_l by lia.
    rewrite last_lookup in Hl; by replace (_ - _)%nat with (pred (length c)) by lia.
  - rewrite (lookup_app_r w1), Nat.sub_diag, Hx by done; rewrite Hx in Hh; simpl in *; congruence.
Qed.

(** [validate_schema_syntax] accepts exactly the strings of the grammar. *)
Lemma validate_schema_syntax_iff bs : validate_schema_syntax bs = None <-> schema_grammar bs.
Proof.
  unfold validate_schema_syntax, schema_grammar; fold (len bs).
  destruct (trim_seg bs 0 bs _ (seg_whole bs) eq_refl) as (w1 & c & w2 & Hbs & Hw & Htrim).
  cbn [Nat.add] in Htrim; split.
  - destruct (_ =? _)%nat; [done|]; destruct (Z.ltb_spec MAX_SCHEMA_LENGTH (len bs)) as [|Hlen]; [done|].
    destruct (contains_control_or_invalid_whitespace bs) eqn:Ec; [done|].
    apply no_control_plain in Ec as Hp; unfold plain in Hp.
    destruct Htrim as [[_ ->]|[Ht ->]]; [done|].
    destruct (_ || _); [done|]; destruct (fields_from _ _ _ _ _ _) as [n|] eqn:Ef; [|done]; intros _.
    rewrite Hbs, !Forall_app in Hp; destruct Hp as (Hp1 & Hpc & Hp2); apply Forall_app in Hw as [Hw1 Hw2].
    apply (trimmed_fields_iff bs w1 c w2 n Hbs Hpc Ht) in Ef as (f & rest & -> & Hok & Hnd & -> & Hle).
    exists (length w1), (length w2), f, rest; rewrite <- !spaces_only by done; split_and!; try done.
    unfold len in *; simpl; rewrite length_map; lia.
  - intros (lead & trail & f & rest & Heq & Hok & Hnd & Hle & Hlen).
    destruct (render_tight f rest Hok) as (Htr & Hh & Hl).
    destruct (trimmed_core bs w1 c w2 lead trail _ Hbs Heq Hw Htr) as [-> ->]; [tauto|].
    destruct Htrim as [[Hnil _]|[_ ->]]; [rewrite Hnil in Htr; by destruct Htr as (? & ? & ? & ? & ? & _)|].
    rewrite (proj2 (Z.ltb_ge _ _) Hlen).
    rewrite printable_no_control; [|rewrite Heq, !Forall_app; split_and!;
      [apply Forall_replicate; unfold printable; lia|by apply render_printable|
       apply Forall_replicate; unfold printable; lia]].
    rewrite (ends_not_comma bs _ _ _ Hbs Htr Hh Hl).
    rewrite (proj2 (trimmed_fields_iff bs _ _ _ (1 + len rest) Hbs (render_plain f rest Hok) Htr)).
    + destruct (Nat.eqb_spec (length bs) 0) as [Hz|_]; [|by destruct rest].
      exfalso; destruct Htr as (x & r & _ & _ & Hx & _); apply length_zero_iff_nil in Hz.
      rewrite Hz, Hx in Hbs; by destruct lead.
    + unfold len in *; rewrite length_cons, length_map in Hle.
      exists f, rest; split_and!; [done..|unfold len; lia|lia].
Qed.
