(* ===== verification/Sample.v ===== *)
(** * A concrete host

    A ledger header with toy host functions, a few addresses, and the
    evaluation of a computation to its value and final state.  It is used to
    show that the hypotheses of the theorems can hold, by their witnesses
    only. *)

From S2P Require Import Prelude Host Common TypedData.

(** ** Host functions *)

(** A 32-byte digest; any function would do. *)
Definition toy_digest (b : bytes) : bytes :=
  to_be_bytes 32 (fold_left (fun acc x => (acc * 257 + x + 1) mod 2 ^ 256) b 7).

(** A signature is the digest of the key and the message, with a zero scalar. *)
Definition toy_sign (pk msg : bytes) : bytes := toy_digest (pk ++ msg) ++ replicate 32 0.

Definition toy_xdr_address (a : Address) : bytes :=
  match a with
  | Account k => ACCOUNT_ADDRESS_XDR_PREFIX ++ k
  | Contract i => [0; 0; 0; 18; 0; 0; 0; 1] ++ i
  end.

Definition key_of (n : Z) : bytes := replicate 32 n.
Definition alice : Address := Account (key_of 1).
Definition bob : Address := Account (key_of 2).
Definition root_admin : Address := Account (key_of 3).
Definition sas_id : Address := Contract (key_of 4).
Definition registry_id : Address := Contract (key_of 5).
Definition resolver_id : Address := Contract (key_of 6).
Definition treasury_id : Address := Account (key_of 7).
Definition gold : Address := Contract (key_of 8).

Definition sample_env (now : Z) (signers : list Address) : Env := {|
  timestamp := now;
  sequence := now / 5;
  network_id := key_of 9;
  current_contract := sas_id;
  authorized := fun a => bool_decide (a ∈ signers);
  max_entry_ttl := 2 ^ 31;
  min_persistent_ttl := 4096;
  min_temp_ttl := 16;
  sha256 := toy_digest;
  keccak256 := fun b => toy_digest (1 :: b);
  ed25519_valid := fun pk msg sg => bool_decide (sg = toy_sign pk msg);
  xdr_address := toy_xdr_address;
  xdr_bytes := fun b => to_be_bytes 4 (len b) ++ b;
  xdr_string := fun b => to_be_bytes 4 (len b) ++ b;
  xdr_uid := fun b => b
|}.

(** ** Running a call to its value *)

Definition final {C X A} (m : M C X A) (e : Env) (s : State C X) : State C X :=
  match m e s with Ok (_, s') => s' | Err _ => s end.
Definition value_of {C X A} (m : M C X A) (e : Env) (s : State C X) : option A :=
  match m e s with Ok (a, _) => Some a | Err _ => None end.
Definition error_of {C X A} (m : M C X A) (e : Env) (s : State C X)
    : option (failure (Error C)) :=
  match m e s with Ok _ => None | Err f => Some f end.

Lemma run_final {C X A} (m : M C X A) e s a :
  value_of m e s = Some a -> m e s = Ok (a, final m e s).
Proof.
  unfold value_of, final; destruct (m e s) as [[b s']|f]; [by intros [= ->]|done].
Qed.
Lemma run_error {C X A} (m : M C X A) e s f : error_of m e s = Some f -> m e s = Err f.
Proof. unfold error_of; destruct (m e s) as [[b s']|g]; [done|by intros [= ->]]. Qed.
