(* ===== verification/Merkle.v ===== *)
(** * soroban-sas-common: Merkle trees

    [merkle.rs]: the canonical tree over hashed leaves and the proof verifier.
    Every leaf of a tree has an accepted proof within the depth bound, and an
    accepted proof for data that was not committed to makes two of the strings
    hashed for the tree and for the proof collide. *)

From S2P Require Import Prelude Host Common TypedData.

Inductive MerkleHash := Sha256 | Keccak256.

Definition MAX_MERKLE_PROOF_DEPTH : Z := 32.

Definition digest (e : Env) (algo : MerkleHash) (buf : bytes) : bytes :=
  match algo with
  | Sha256 => sha256 e buf
  | Keccak256 => keccak256 e buf
  end.

Definition leaf_hash_with (e : Env) (algo : MerkleHash) (data : bytes) : bytes :=
  digest e algo (0 :: data).

(** [a.to_array() <= b.to_array()] *)
Definition sort_pair (a b : bytes) : bytes * bytes :=
  if negb (bytes_ltb b a) then (a, b) else (b, a).

Definition node_hash_with (e : Env) (algo : MerkleHash) (a b : bytes) : bytes :=
  let '(lo, hi) := sort_pair a b in digest e algo (1 :: lo ++ hi).

Definition leaf_hash (e : Env) : bytes -> bytes := leaf_hash_with e Sha256.
Definition node_hash (e : Env) : bytes -> bytes -> bytes := node_hash_with e Sha256.

(** One round of the [while level.len() > 1] loop. *)
Fixpoint next_level (e : Env) (level : list bytes) : list bytes :=
  match level with
  | a :: b :: rest => node_hash e a b :: next_level e rest
  | _ => level
  end.

Fixpoint merkle_loop (e : Env) (fuel : nat) (level : list bytes) : list bytes :=
  match fuel with
  | O => level
  | S fuel' => if 1 <? len level then merkle_loop e fuel' (next_level e level) else level
  end.

(** The loop halves the level, so as many rounds as leaves are enough; the
    result is [None] where [level.get(0).unwrap()] traps. *)
Definition merkle_root (e : Env) (leaves : list bytes) : option bytes :=
  head (merkle_loop e (length leaves) (leaf_hash e <$> leaves)).

Definition verify_proof (e : Env) (root leaf_data : bytes) (proof : list bytes) : bool :=
  bool_decide (fold_left (node_hash e) proof (leaf_hash e leaf_data) = root).

Definition verify_proof_with (e : Env) (algo : MerkleHash) (root leaf_data : bytes)
    (siblings : list bytes) : bool :=
  if MAX_MERKLE_PROOF_DEPTH <? len siblings then false
  else bool_decide (fold_left (node_hash_with e algo) siblings
                      (leaf_hash_with e algo leaf_data) = root).

(** ** The tree behind a root *)

Inductive tree :=
  | Leaf (data : bytes)
  | Node (l r : tree).

Fixpoint leaves_of (t : tree) : list bytes :=
  match t with
  | Leaf d => [d]
  | Node l r => leaves_of l ++ leaves_of r
  end.

Fixpoint depth (t : tree) : nat :=
  match t with
  | Leaf _ => 0
  | Node l r => S (Nat.max (depth l) (depth r))
  end.

Section tree.
Context (e : Env) (algo : MerkleHash).

Fixpoint root_of (t : tree) : bytes :=
  match t with
  | Leaf d => leaf_hash_with e algo d
  | Node l r => node_hash_with e algo (root_of l) (root_of r)
  end.

(** The strings hashed for a tree, and for a proof from the hash [x] on. *)
Definition node_payload (a b : bytes) : bytes := let '(lo, hi) := sort_pair a b in 1 :: lo ++ hi.
Fixpoint tree_hashed (t : tree) : list bytes :=
  match t with
  | Leaf d => [0 :: d]
  | Node l r => node_payload (root_of l) (root_of r) :: tree_hashed l ++ tree_hashed r
  end.
Fixpoint climb_hashed (x : bytes) (siblings : list bytes) : list bytes :=
  match siblings with
  | [] => []
  | s :: rest => node_payload x s :: climb_hashed (node_hash_with e algo x s) rest
  end.
Definition proof_hashed (leaf : bytes) (siblings : list bytes) : list bytes :=
  (0 :: leaf) :: climb_hashed (leaf_hash_with e algo leaf) siblings.

Lemma node_hash_payload a b : node_hash_with e algo a b = digest e algo (node_payload a b).
Proof. unfold node_hash_with, node_payload; by destruct (sort_pair a b). Qed.
Lemma climb_hashed_snoc x siblings s :
  climb_hashed x (siblings ++ [s])
  = climb_hashed x siblings ++ [node_payload (fold_left (node_hash_with e algo) siblings x) s].
Proof. revert x; induction siblings as [|y l IH]; intros x; simpl; [done|by rewrite IH]. Qed.

Lemma sort_pair_cases a b : sort_pair a b = (a, b) \/ sort_pair a b = (b, a).
Proof. unfold sort_pair; destruct (bytes_ltb b a); auto. Qed.

Lemma bytes_ltb_irrefl a : bytes_ltb a a = false.
Proof.
  induction a as [|x a IH]; simpl; [done|].
  by rewrite Z.ltb_irrefl, Z.eqb_refl, IH.
Qed.

Lemma bytes_ltb_asym a b : bytes_ltb a b = true -> bytes_ltb b a = false.
Proof.
  revert b; induction a as [|x a IH]; intros [|y b]; simpl; try done.
  intros H; apply orb_true_iff in H as [H|H].
  - apply Z.ltb_lt in H; destruct (y <? x) eqn:E1; [apply Z.ltb_lt in E1; lia|].
    destruct (y =? x) eqn:E2; [apply Z.eqb_eq in E2; lia|done].
  - apply andb_true_iff in H as [->%Z.eqb_eq H].
    by rewrite Z.ltb_irrefl, Z.eqb_refl, IH.
Qed.

Lemma bytes_ltb_total a b : bytes_ltb a b = false -> bytes_ltb b a = false -> a = b.
Proof.
  revert b; induction a as [|x a IH]; intros [|y b]; simpl; try done.
  intros H1 H2; apply orb_false_iff in H1 as [H1 H1'], H2 as [H2 H2'].
  apply Z.ltb_ge in H1, H2; assert (x = y) as -> by lia.
  rewrite Z.eqb_refl in H1', H2'; f_equal; by apply IH.
Qed.

(** Siblings are ordered before hashing, so their order is irrelevant. *)
Lemma sort_pair_comm a b : sort_pair a b = sort_pair b a.
Proof.
  unfold sort_pair.
  destruct (bytes_ltb b a) eqn:E1, (bytes_ltb a b) eqn:E2; simpl; try done.
  - by rewrite (bytes_ltb_asym _ _ E1) in E2.
  - by rewrite (bytes_ltb_total _ _ E2 E1).
Qed.

Lemma node_hash_with_comm a b : node_hash_with e algo a b = node_hash_with e algo b a.
Proof. unfold node_hash_with; by rewrite sort_pair_comm. Qed.

(** The string of a node determines its two children, up to their order. *)
Lemma node_payload_children a b c d :
  length a = 32%nat -> length b = 32%nat -> length c = 32%nat -> length d = 32%nat ->
  node_payload a b = node_payload c d -> a = c \/ a = d.
Proof.
  intros Ha Hb Hc Hd; unfold node_payload.
  destruct (sort_pair_cases a b) as [-> | ->], (sort_pair_cases c d) as [-> | ->];
    intros [= H]; apply app_inj_1 in H as [-> ->]; auto; congruence.
Qed.
Lemma leaf_node_distinct d a b : 0 :: d <> node_payload a b.
Proof. unfold node_payload; by destruct (sort_pair a b). Qed.
End tree.

(** ** Soundness *)

Section soundness.
Context (e : Env) (algo : MerkleHash).
Context (digest_length : forall x, length (digest e algo x) = 32%nat).

Lemma length_leaf_hash d : length (leaf_hash_with e algo d) = 32%nat.
Proof. apply digest_length. Qed.

Lemma length_node_hash a b : length (node_hash_with e algo a b) = 32%nat.
Proof. unfold node_hash_with; destruct (sort_pair a b); apply digest_length. Qed.

Lemma length_root_of t : length (root_of e algo t) = 32%nat.
Proof. destruct t; [apply length_leaf_hash|apply length_node_hash]. Qed.

Lemma length_climb x siblings :
  length x = 32%nat ->
  length (fold_left (node_hash_with e algo) siblings x) = 32%nat.
Proof.
  revert x; induction siblings as [|s l IH]; intros x Hx; simpl; [done|].
  apply IH, length_node_hash.
Qed.

(** Climbing from a leaf to the root of a tree starts at one of the tree's
    leaves, unless two of the strings hashed collide. *)
Lemma climb_sound t x siblings :
  Forall (fun s => length s = 32%nat) siblings ->
  fold_left (node_hash_with e algo) siblings (leaf_hash_with e algo x) = root_of e algo t ->
  x ∈ leaves_of t \/ collides (digest e algo) (proof_hashed e algo x siblings) (tree_hashed e algo t).
Proof.
  unfold proof_hashed; revert siblings; induction t as [d|l IHl r IHr]; intros siblings Hs Hx; simpl in *;
    destruct siblings as [|s siblings _] using rev_ind; simpl in Hx;
    rewrite ?fold_left_app, ?climb_hashed_snoc in *; simpl in Hx; rewrite ?node_hash_payload in Hx.
  - destruct (image_inj (digest e algo) (0 :: x) (0 :: d) [0 :: x] [0 :: d]) as [[= ->]|?];
      [exact Hx|by left..|left; by left|by right].
  - right; eexists _, _; split_and!; [| |apply not_eq_sym, leaf_node_distinct|exact Hx]; set_solver.
  - right; eexists _, _; split_and!; [| |apply leaf_node_distinct|exact Hx]; set_solver.
  - apply Forall_app in Hs as [Hs Hs1]; apply Forall_cons in Hs1 as [Hs1 _].
    edestruct (image_inj (digest e algo)) as [Hp|Hc]; [exact Hx| | | |right; exact Hc]; [set_solver..|].
    apply node_payload_children in Hp as [Hp|Hp]; auto using length_climb, length_leaf_hash, length_root_of.
    + destruct (IHl _ Hs Hp) as [?|Hc]; [left; set_solver|right]; eapply collides_mono; [| |exact Hc]; clear; set_solver.
    + destruct (IHr _ Hs Hp) as [?|Hc]; [left; set_solver|right]; eapply collides_mono; [| |exact Hc]; clear; set_solver.
Qed.
End soundness.

(** ** The loop builds a tree over the leaves *)

Fixpoint pair_up (ts : list tree) : list tree :=
  match ts with
  | a :: b :: rest => Node a b :: pair_up rest
  | _ => ts
  end.

Fixpoint tree_loop (fuel : nat) (ts : list tree) : list tree :=
  match fuel with
  | O => ts
  | S fuel' => if 1 <? len ts then tree_loop fuel' (pair_up ts) else ts
  end.

(** Induction two elements at a time. *)
Lemma list_pair_ind {A} (P : list A -> Prop) :
  P [] -> (forall a, P [a]) -> (forall a b l, P l -> P (a :: b :: l)) -> forall l, P l.
Proof.
  intros H0 H1 H2 l.
  enough (P l /\ forall a, P (a :: l)) by tauto.
  induction l as [|b l [IH1 IH2]]; split; auto.
Qed.

Lemma next_level_pair_up e ts :
  next_level e (root_of e Sha256 <$> ts) = root_of e Sha256 <$> pair_up ts.
Proof. induction ts using list_pair_ind; simpl; by f_equal. Qed.

Lemma merkle_loop_tree_loop e fuel ts :
  merkle_loop e fuel (root_of e Sha256 <$> ts) = root_of e Sha256 <$> tree_loop fuel ts.
Proof.
  revert ts; induction fuel as [|fuel IH]; intros ts; simpl; [done|].
  unfold len; rewrite length_fmap; destruct (1 <? _); [|done].
  by rewrite next_level_pair_up, IH.
Qed.

Lemma leaves_pair_up ts :
  concat (leaves_of <$> pair_up ts) = concat (leaves_of <$> ts).
Proof.
  induction ts as [| |a b ts IH] using list_pair_ind; csimpl; [done..|].
  by rewrite IH, app_assoc.
Qed.

Lemma leaves_tree_loop fuel ts :
  concat (leaves_of <$> tree_loop fuel ts) = concat (leaves_of <$> ts).
Proof.
  revert ts; induction fuel as [|fuel IH]; intros ts; simpl; [done|].
  destruct (1 <? _); [by rewrite IH, leaves_pair_up|done].
Qed.

Lemma length_pair_up ts : (2 * length (pair_up ts) <= length ts + 1)%nat.
Proof. induction ts using list_pair_ind; simpl in *; lia. Qed.

Lemma pair_up_nonempty ts : ts <> [] -> pair_up ts <> [].
Proof. by destruct ts as [|? [|? ?]]. Qed.

Lemma depth_pair_up d ts :
  Forall (fun t => depth t <= d)%nat ts -> Forall (fun t => depth t <= S d)%nat (pair_up ts).
Proof.
  induction ts as [|a|a b ts IH] using list_pair_ind; intros Hd; simpl; [done| |].
  - apply Forall_cons in Hd as [Hd _]; constructor; [lia|done].
  - apply Forall_cons in Hd as [Ha Hd]; apply Forall_cons in Hd as [Hb Hd].
    constructor; [simpl; lia|auto].
Qed.

(** Enough fuel leaves one tree, of logarithmic depth. *)
Lemma tree_loop_single fuel ts :
  ts <> [] -> (length ts <= fuel)%nat -> exists t, tree_loop fuel ts = [t].
Proof.
  revert ts; induction fuel as [|fuel IH]; intros ts Hne Hlen; simpl.
  { destruct ts; simpl in *; [done|lia]. }
  destruct (1 <? len ts) eqn:E.
  - apply Z.ltb_lt in E; unfold len in E.
    apply IH; [by apply pair_up_nonempty|]; pose proof (length_pair_up ts); lia.
  - apply Z.ltb_ge in E; unfold len in E.
    destruct ts as [|t [|]]; simpl in *; [done|by exists t|lia].
Qed.

Lemma depth_tree_loop fuel ts d k :
  Forall (fun t => depth t <= d)%nat ts -> (Z.of_nat (length ts) <= 2 ^ Z.of_nat k) ->
  Forall (fun t => depth t <= d + k)%nat (tree_loop fuel ts).
Proof.
  revert ts d k; induction fuel as [|fuel IH]; intros ts d k Hd Hlen; simpl.
  { eapply Forall_impl; [exact Hd|simpl; lia]. }
  destruct (1 <? len ts) eqn:E; [|eapply Forall_impl; [exact Hd|simpl; lia]].
  apply Z.ltb_lt in E; unfold len in E.
  destruct k as [|k]; [change (2 ^ Z.of_nat 0) with 1 in Hlen; lia|].
  rewrite Nat2Z.inj_succ, Z.pow_succ_r in Hlen by lia.
  replace (d + S k)%nat with (S d + k)%nat by lia.
  apply IH; [by apply depth_pair_up|]; pose proof (length_pair_up ts); lia.
Qed.

Lemma merkle_root_tree e leaves :
  leaves <> [] -> exists t,
    merkle_root e leaves = Some (root_of e Sha256 t)
    /\ leaves_of t = leaves
    /\ forall k, len leaves <= 2 ^ Z.of_nat k -> (depth t <= k)%nat.
Proof.
  intros Hne; unfold merkle_root.
  assert (leaf_hash e <$> leaves = root_of e Sha256 <$> (Leaf <$> leaves)) as ->
    by by rewrite <- list_fmap_compose.
  rewrite merkle_loop_tree_loop.
  destruct (tree_loop_single (length leaves) (Leaf <$> leaves)) as [t Ht];
    [by destruct leaves|by rewrite length_fmap|].
  exists t; rewrite Ht; split_and!; [done| |].
  - pose proof (leaves_tree_loop (length leaves) (Leaf <$> leaves)) as Hl.
    rewrite Ht in Hl; simpl in Hl; rewrite app_nil_r in Hl; rewrite Hl.
    clear; induction leaves as [|d l IH]; csimpl; [done|by rewrite IH].
  - intros k Hk.
    assert (Forall (fun t => depth t <= 0 + k)%nat (tree_loop (length leaves) (Leaf <$> leaves)))
      as Hd.
    { apply depth_tree_loop; [|by rewrite length_fmap].
      clear; induction leaves; simpl; constructor; auto. }
    rewrite Ht in Hd; by apply Forall_cons in Hd as [Hd _].
Qed.

(** Every leaf of a tree can be climbed from, within the tree's depth. *)
Lemma climb_complete e algo t d :
  d ∈ leaves_of t ->
  exists proof, (length proof <= depth t)%nat
    /\ fold_left (node_hash_with e algo) proof (leaf_hash_with e algo d) = root_of e algo t.
Proof.
  induction t as [d'|l IHl r IHr]; simpl; intros Hd.
  - apply list_elem_of_singleton in Hd as ->; by exists [].
  - apply elem_of_app in Hd as [Hd|Hd].
    + destruct (IHl Hd) as (p & Hp & Hr); exists (p ++ [root_of e algo r]).
      rewrite length_app, fold_left_app; simpl; rewrite Hr; split; [lia|done].
    + destruct (IHr Hd) as (p & Hp & Hr); exists (p ++ [root_of e algo l]).
      rewrite length_app, fold_left_app; simpl; rewrite Hr; split; [lia|].
      apply node_hash_with_comm.
Qed.
