(* ===== verification/SignedData.v ===== *)
(** * What a signature binds

    Every digest a delegate signs, as one type of messages.  Two messages with
    the same digest have the same content, or two of the strings hashed for them
    collide under SHA-256: a signature given for one message authorises no other, on no other contract
    or network and under no other nonce. *)

From S2P Require Import Prelude Host Common TypedData.

(** ** Messages *)

Inductive message :=
  | Attests (a : Attestation) (d : AttestationDomain)
  | AttestsScoped (a : Attestation) (d : AttestationDomain) (z : DelegationAuthorization)
  | Revokes (u : UID) (who : Address) (d : AttestationDomain)
  | Replaces (old : UID) (a : Attestation) (d : ReplacementConsentDomain)
  | InvalidatesNonces (who : Address) (min_nonce max_nonce : Z) (d : AttestationDomain).

Definition message_digest (e : Env) (m : message) : bytes :=
  match m with
  | Attests a d => hash_offchain_attestation e a d
  | AttestsScoped a d z => hash_scoped_attestation e a d z
  | Revokes u who d => hash_delegated_revocation e u who d
  | Replaces old a d => hash_delegated_replacement_consent e old a d
  | InvalidatesNonces who lo hi d => hash_delegated_nonce_invalidation e who lo hi d
  end.

(** ** The strings that are hashed *)

Section payloads.
Context (e : Env).

Definition domain_payload (d : AttestationDomain) : bytes :=
  DOMAIN_TYPE_TAG ++ ad_network_id d ++ xdr_address e (ad_contract d) ++ to_be_bytes 8 (ad_nonce d).
Definition struct_payload (a : Attestation) : bytes :=
  ATTESTATION_TYPE_TAG ++ uid_bytes (uid a) ++ uid_bytes (att_schema_uid a)
  ++ to_be_bytes 8 (time a) ++ to_be_bytes 8 (expiration_time a) ++ uid_bytes (ref_uid a)
  ++ xdr_address e (recipient a) ++ xdr_address e (attester a) ++ bool_byte (revocable a)
  ++ sha256 e (data a).
Definition scope_bytes (z : DelegationAuthorization) : bytes :=
  match schema_scope z with ScopeOnly s => [1] ++ uid_bytes s | ScopeAny => [0] end
  ++ to_be_bytes 4 (da_permissions z) ++ to_be_bytes 8 (da_valid_until z).
(** The outermost one. *)
Definition message_payload (m : message) : bytes :=
  match m with
  | Attests a d => PAYLOAD_PREFIX ++ hash_domain e d ++ hash_attestation_struct e a
  | AttestsScoped a d z => SCOPED_DELEGATION_TAG ++ hash_offchain_attestation e a d ++ scope_bytes z
  | Revokes u who d =>
    DELEGATED_REVOCATION_TYPE_TAG ++ hash_domain e d ++ uid_bytes u ++ xdr_address e who
  | Replaces old a d =>
    DELEGATED_REPLACEMENT_CONSENT_TYPE_TAG ++ rcd_network_id d ++ xdr_address e (rcd_contract d)
    ++ to_be_bytes 8 (attester_nonce d) ++ to_be_bytes 8 (recipient_nonce d) ++ uid_bytes old
    ++ hash_attestation_struct e a
  | InvalidatesNonces who lo hi d =>
    DELEGATED_NONCE_INVALIDATION_TYPE_TAG ++ hash_domain e d ++ xdr_address e who
    ++ to_be_bytes 8 lo ++ to_be_bytes 8 hi
  end.
(** All of them. *)
Definition hashed (m : message) : list bytes :=
  message_payload m ::
  match m with
  | Attests a d => [domain_payload d; struct_payload a; data a]
  | AttestsScoped a d z => [message_payload (Attests a d); domain_payload d; struct_payload a; data a]
  | Revokes _ _ d | InvalidatesNonces _ _ _ d => [domain_payload d]
  | Replaces _ a _ => [struct_payload a; data a]
  end.

Lemma message_digest_eq m : message_digest e m = sha256 e (message_payload m).
Proof. by destruct m. Qed.
Lemma hash_domain_eq d : hash_domain e d = sha256 e (domain_payload d).
Proof. done. Qed.
Lemma hash_attestation_struct_eq a : hash_attestation_struct e a = sha256 e (struct_payload a).
Proof. done. Qed.
End payloads.

(** The part of an attestation the digests cover: not its revocation time,
    and not the start of its validity. *)
Definition signed_part (a : Attestation) : Attestation :=
  with_valid_from 0 (with_revocation_time 0 a).

Definition signed_content (m : message) : message :=
  match m with
  | Attests a d => Attests (signed_part a) d
  | AttestsScoped a d z => AttestsScoped (signed_part a) d z
  | Replaces old a d => Replaces old (signed_part a) d
  | _ => m
  end.

(** The sizes the Rust types guarantee. *)
Definition is_bytes32 (b : bytes) : Prop := length b = 32%nat.
Definition att_sized (a : Attestation) : Prop :=
  is_bytes32 (uid_bytes (uid a)) /\ is_bytes32 (uid_bytes (att_schema_uid a))
  /\ is_bytes32 (uid_bytes (ref_uid a)) /\ is_u64 (time a) /\ is_u64 (expiration_time a).
Definition domain_sized (d : AttestationDomain) : Prop :=
  is_bytes32 (ad_network_id d) /\ is_u64 (ad_nonce d).
Definition scope_sized (z : DelegationAuthorization) : Prop :=
  match schema_scope z with ScopeAny => True | ScopeOnly u => is_bytes32 (uid_bytes u) end
  /\ is_u32 (da_permissions z) /\ is_u64 (da_valid_until z).
Definition message_sized (m : message) : Prop :=
  match m with
  | Attests a d => att_sized a /\ domain_sized d
  | AttestsScoped a d z => att_sized a /\ domain_sized d /\ scope_sized z
  | Revokes u _ d => is_bytes32 (uid_bytes u) /\ domain_sized d
  | Replaces old a d => is_bytes32 (uid_bytes old) /\ att_sized a /\ is_bytes32 (rcd_network_id d)
                        /\ is_u64 (attester_nonce d) /\ is_u64 (recipient_nonce d)
  | InvalidatesNonces _ lo hi d => is_u64 lo /\ is_u64 hi /\ domain_sized d
  end.

(** ** Injectivity up to collisions *)

Lemma to_be_bytes_inj n z z' :
  0 <= z < 256 ^ Z.of_nat n -> 0 <= z' < 256 ^ Z.of_nat n -> to_be_bytes n z = to_be_bytes n z' -> z = z'.
Proof. intros Hz Hz' He; rewrite <- (from_to_be_bytes n z), <- (from_to_be_bytes n z'), He by done; done. Qed.
Lemma u64_bytes_inj z z' : is_u64 z -> is_u64 z' -> to_be_bytes 8 z = to_be_bytes 8 z' -> z = z'.
Proof. unfold is_u64, u64_max; intros; apply (to_be_bytes_inj 8); lia || done. Qed.
Lemma u32_bytes_inj z z' : is_u32 z -> is_u32 z' -> to_be_bytes 4 z = to_be_bytes 4 z' -> z = z'.
Proof. unfold is_u32, u32_max; intros; apply (to_be_bytes_inj 4); lia || done. Qed.

Section binding.
Context (e : Env).
Context (sha256_length : forall x, length (sha256 e x) = 32%nat).
Context (xdr_prefix_free : forall a b x y,
  xdr_address e a ++ x = xdr_address e b ++ y -> a = b /\ x = y).

Lemma xdr_address_inj a b : xdr_address e a = xdr_address e b -> a = b.
Proof. intros He; apply (xdr_prefix_free a b [] []); by rewrite !app_nil_r. Qed.

(** Split equations between concatenations at their fields. *)
Lemma peel (a b x y : bytes) : length a = length b -> a ++ x = b ++ y -> a = b /\ x = y.
Proof. intros; by apply app_inj_1. Qed.

Ltac sized :=
  unfold att_sized, domain_sized, is_bytes32 in *; destruct_and?;
  unfold hash_domain, hash_attestation_struct, hash_offchain_attestation, bool_byte;
  rewrite ?length_to_be_bytes, ?sha256_length; simpl; congruence.
Ltac peel_all :=
  repeat match goal with
  | H : xdr_address e _ ++ _ = xdr_address e _ ++ _ |- _ => apply xdr_prefix_free in H as [? H]
  | H : xdr_address e _ = xdr_address e _ |- _ => apply xdr_address_inj in H
  | H : ?t ++ _ = ?t ++ _ |- _ => apply app_inv_head in H
  | H : _ ++ _ = _ ++ _ |- _ => apply peel in H as [? H]; [|sized]
  end.
Ltac fields_eq :=
  repeat match goal with
  | H : uid_bytes ?u = uid_bytes ?v |- _ => assert (u = v) by (destruct u, v; simpl in H; congruence); clear H
  | H : to_be_bytes 8 _ = to_be_bytes 8 _ |- _ => apply u64_bytes_inj in H; [|tauto..]
  | H : to_be_bytes 4 _ = to_be_bytes 4 _ |- _ => apply u32_bytes_inj in H; [|tauto..]
  end.

(** Membership among the strings that are hashed. *)
Ltac listed :=
  match goal with
  | |- _ ⊆ _ => intros ? ?; by right
  | Hs : ?l ⊆ ?xs |- _ ∈ ?xs => apply Hs; listed
  | |- _ => solve [repeat first [apply list_elem_of_here | apply list_elem_of_further]]
  end.

(** Inner hashes, among the strings hashed for two messages. *)
Section inner.
Context (xs ys : list bytes).

Lemma hash_domain_inj d d' :
  domain_sized d -> domain_sized d' -> domain_payload e d ∈ xs -> domain_payload e d' ∈ ys ->
  hash_domain e d = hash_domain e d' -> d = d' \/ collides (sha256 e) xs ys.
Proof.
  intros Hd Hd' Hx Hy He; destruct (image_inj _ _ _ _ _ He Hx Hy) as [Hp|]; [|by right]; left.
  unfold domain_payload in Hp; peel_all.
  unfold domain_sized in *; fields_eq; destruct d, d'; simpl in *; congruence.
Qed.

Lemma hash_attestation_struct_inj a a' :
  att_sized a -> att_sized a' -> struct_payload e a ∈ xs -> struct_payload e a' ∈ ys ->
  data a ∈ xs -> data a' ∈ ys ->
  hash_attestation_struct e a = hash_attestation_struct e a' ->
  signed_part a = signed_part a' \/ collides (sha256 e) xs ys.
Proof.
  intros Ha Ha' Hx Hy Hdx Hdy He; destruct (image_inj _ _ _ _ _ He Hx Hy) as [Hp|]; [|by right].
  unfold struct_payload in Hp; peel_all.
  match goal with Hs : sha256 e (data _) = _ |- _ =>
    destruct (image_inj _ _ _ _ _ Hs Hdx Hdy) as [Hdata|]; [|by right] end.
  left; unfold att_sized in *; fields_eq.
  match goal with Hb : bool_byte _ = bool_byte _ |- _ => unfold bool_byte in Hb end.
  assert (revocable a = revocable a') by (destruct (revocable a), (revocable a'); congruence).
  destruct a, a'; unfold signed_part, with_valid_from, with_revocation_time; simpl in *; congruence.
Qed.

Lemma hash_offchain_attestation_inj a d a' d' :
  att_sized a -> att_sized a' -> domain_sized d -> domain_sized d' ->
  hashed e (Attests a d) ⊆ xs -> hashed e (Attests a' d') ⊆ ys ->
  hash_offchain_attestation e a d = hash_offchain_attestation e a' d' ->
  (signed_part a = signed_part a' /\ d = d') \/ collides (sha256 e) xs ys.
Proof.
  intros Ha Ha' Hd Hd' Hx Hy He; simpl in Hx, Hy.
  destruct (image_inj _ _ _ xs ys He) as [Hp|]; [listed..| |by right]; peel_all.
  match goal with H1 : hash_domain e d = _, H2 : hash_attestation_struct e a = _ |- _ =>
    apply hash_domain_inj in H1 as [->|]; [|by right|done|done|listed..];
    apply hash_attestation_struct_inj in H2 as [->|]; [by left|by right|done|done|listed..] end.
Qed.
End inner.

Lemma scope_bytes_inj z z' : scope_sized z -> scope_sized z' -> scope_bytes z = scope_bytes z' -> z = z'.
Proof.
  unfold scope_sized, scope_bytes; destruct z as [[|u] p v], z' as [[|u'] p' v'];
    cbn [schema_scope da_permissions da_valid_until]; intros Hz Hz' He; try discriminate He;
    rewrite <- ?app_assoc in He; destruct_and?; peel_all; fields_eq; congruence.
Qed.

(** A digest determines the content of the message. *)
Lemma message_digest_inj m m' :
  message_sized m -> message_sized m' -> message_digest e m = message_digest e m' ->
  signed_content m = signed_content m' \/ collides (sha256 e) (hashed e m) (hashed e m').
Proof.
  intros Hm Hm' He; rewrite !message_digest_eq in He.
  destruct (image_inj _ _ _ (hashed e m) (hashed e m') He) as [Hp|]; [by left|by left| |by right].
  clear He; destruct m as [a d|a d z|u who d|old a d|who lo hi d],
    m' as [a' d'|a' d' z'|u' who' d'|old' a' d'|who' lo' hi' d']; try discriminate Hp; simpl in Hm, Hm';
    destruct_and?; cbn [message_payload] in Hp; peel_all; fields_eq.
  all: repeat match goal with
    | H : hash_offchain_attestation e _ _ = _ |- _ =>
      eapply hash_offchain_attestation_inj in H as [[? ?]|]; [|by right|done|done|done|done|listed..]
    | H : hash_domain e _ = _ |- _ => eapply hash_domain_inj in H as [?|]; [|by right|done|done|listed..]
    | H : hash_attestation_struct e _ = _ |- _ =>
      eapply hash_attestation_struct_inj in H as [?|]; [|by right|done|done|listed..]
    end; left; simpl.
  all: try congruence.
  - match goal with Hz : scope_bytes z = scope_bytes z' |- _ => apply scope_bytes_inj in Hz; [congruence|done..] end.
  - destruct d, d'; simpl in *; congruence.
Qed.
End binding.
