(* ===== verification/SasState.v ===== *)
(** * SAS: state and dependencies

    The storage layout of [src/contracts/sas/src/lib.rs] (its instance,
    persistent and temporary keys with the type of each value), the events of
    [events.rs], and the interface of the contracts SAS calls: the schema
    registry, schema resolvers, the indexer, token contracts and the proof
    verifier. *)

From S2P Require Import Prelude Host Common TypedData.

(** ** Values *)

Record DelegationPolicy := mkDelegationPolicy {
  authorized_schema_uid : DelegationSchemaScope;
  dp_permissions : Z;
  dp_valid_until : Z
}.

Record SchemaFeeConfig := mkSchemaFeeConfig {
  fee_type : Z;
  fixed_amount : Z;
  basis_points : Z
}.

Record FeeCeilings := mkFeeCeilings {
  max_fixed_fee : Z;
  max_basis_points : Z
}.

Record TimestampAnchor := mkTimestampAnchor {
  ledger_sequence : Z;
  ledger_timestamp : Z
}.

#[export] Instance TimestampAnchor_eq_dec : EqDecision TimestampAnchor.
Proof. solve_decision. Defined.

(** The key [uid] holds a compact record, or a full one written before the
    compact layout existed. *)
Inductive StoredRecord :=
  | StoredCompact (c : CompactAttestation)
  | StoredLegacy (a : Attestation).

(** ** Storage keys *)

Inductive SasIKey :=
  | SAS_ADMIN | PENDING_ADMIN | SCHEMA_REGISTRY | INDEXER | TREASURY
  | FEE_CONFIG | FEE_CEILINGS | FEE_PER_BYTE | ZK_VERIFIER
  | FEE_ASSET (token : Address) | MULTI_ASSET_ACTIVE
  | RATE_LIMIT_CONFIG | RATE_EXEMPT (attester : Address)
  | INDEXER_STRICT
  | DelegationNonceKey (attester : Address)
  | RecipientConsentNonceKey (recipient : Address)
  | SAS_VERSION | CURRENT_WASM_HASH | PAUSED | REENTRANCY_GUARD
  | AUTO_PRUNE | CALL_DEPTH.

Definition sas_ival (k : SasIKey) : Type :=
  match k with
  | SAS_ADMIN | PENDING_ADMIN | SCHEMA_REGISTRY | INDEXER | TREASURY | ZK_VERIFIER => Address
  | FEE_CONFIG => (Address * Z)%type
  | FEE_CEILINGS => FeeCeilings
  | RATE_LIMIT_CONFIG => (Z * Z)%type
  | FEE_PER_BYTE | FEE_ASSET _ | DelegationNonceKey _ | RecipientConsentNonceKey _
  | SAS_VERSION | CALL_DEPTH => Z
  | CURRENT_WASM_HASH => bytes
  | MULTI_ASSET_ACTIVE | RATE_EXEMPT _ | INDEXER_STRICT | PAUSED | REENTRANCY_GUARD
  | AUTO_PRUNE => bool
  end.

Inductive SasPKey :=
  | CompactAttestationKey (u : UID)
  | UidKey (u : UID)
  | VALID_FROM (u : UID)
  | TimestampAnchorKey (u : UID) (revocation : bool)
  | SCHEMA_FEE_CONFIG (schema : UID)
  | TREASURY_FEES (token : Address)
  | CREATOR_FEES (creator token : Address)
  | ZERO_FEE_SCHEMA (schema : UID)
  | DELEGATION_POLICY (attester : Address)
  | ATTESTER_KEY (attester : Address)
  | ZkNullifierKey (nullifier : bytes).

Definition sas_pval (k : SasPKey) : Type :=
  match k with
  | CompactAttestationKey _ => CompactAttestation
  | UidKey _ => StoredRecord
  | VALID_FROM _ | TREASURY_FEES _ | CREATOR_FEES _ _ => Z
  | TimestampAnchorKey _ _ => TimestampAnchor
  | SCHEMA_FEE_CONFIG _ => SchemaFeeConfig
  | ZERO_FEE_SCHEMA _ | ZkNullifierKey _ => bool
  | DELEGATION_POLICY _ => DelegationPolicy
  | ATTESTER_KEY _ => AttesterKeyRecord
  end.

Inductive SasTKey := RATE_HISTORY (attester : Address).
Definition sas_tval (k : SasTKey) : Type := list Z.

#[export] Instance SasIKey_eq_dec : EqDecision SasIKey.
Proof. solve_decision. Defined.
#[export] Instance SasPKey_eq_dec : EqDecision SasPKey.
Proof. solve_decision. Defined.
#[export] Instance SasTKey_eq_dec : EqDecision SasTKey.
Proof. solve_decision. Defined.

(** ** Events *)

Inductive SasEvent :=
  | EvAttested (u schema : UID) (attester recipient : Address)
  | EvAttestedWithFee (u schema : UID) (attester recipient : Address) (fee : Z)
  | EvRevoked (u : UID) (at_time : Z)
  | EvIndexerUpdated (old : option Address) (new authorizer : Address)
  | EvIndexerStrictUpdated (old new : bool) (admin : Address)
  | EvContractUpgraded (old new : bytes) (authorizer : Address)
  | EvIndexFailed (u : UID)
  | EvReindexed (u : UID)
  | EvBulkReindexed (u : UID)
  | EvBatchAttested (count attester_count : Z)
  | EvBatchRevoked (count attester_count : Z)
  | EvWithdrawal (token : Address) (amount : Z) (destination authorizer : Address)
  | EvAdminTransferProposed (current proposed : Address)
  | EvAdminTransferCompleted (old new : Address)
  | EvFeeConfigUpdated (old new : option (Address * Z)) (authorizer : Address)
  | EvContractPaused (authorizer : Address)
  | EvContractUnpaused (authorizer : Address)
  | EvProtocolPaused (authorizer : Address) (at_time : Z)
  | EvProtocolUnpaused (authorizer : Address) (at_time : Z)
  | EvRenewed (u : UID) (attester : Address) (new_expiration_time : Z)
  | EvNoncesInvalidated (attester : Address) (min_nonce max_nonce : Z)
  | EvFeeDistributed (schema : UID) (token : Address)
      (total_fee treasury_amount creator_amount : Z) (creator : Address)
  | EvFeeSplit (schema : UID) (treasury_amount creator_amount : Z)
  | EvPruned (u : UID)
  | EvKeyRegistered (attester : Address) (public_key : bytes) (version : Z)
  | EvKeyRotated (attester : Address) (old_key new_key : bytes) (new_version : Z)
  | EvKeyRevoked (attester : Address) (public_key : bytes) (version : Z).

Canonical Structure SasSig : Sig :=
  mkSig SasIKey sas_ival _ SasPKey sas_pval _ SasTKey sas_tval _ SasEvent SASError.

(** ** The contracts SAS calls *)

(** Each call names the callee's address; its effect is on the state [X] of
    the other contracts. *)
Class Deps (X : Type) := {
  registry_SASREG : Address -> xcall X bool;
  registry_sasreg : Address -> xcall X bool;
  registry_get_schema : Address -> UID -> xcall X (option SchemaRecord);
  registry_is_schema_quarantined : Address -> UID -> xcall X bool;
  registry_get_max_ttl : Address -> UID -> xcall X Z;
  registry_is_authorized : Address -> UID -> Address -> xcall X bool;
  registry_is_attester_authorized : Address -> UID -> Address -> xcall X bool;
  registry_is_schema_restricted : Address -> UID -> xcall X bool;
  registry_get_schema_policy : Address -> UID -> xcall X RevocationPolicy;
  registry_get_creator : Address -> UID -> xcall X (option Address);
  registry_get_creator_royalty : Address -> UID -> xcall X Z;
  registry_get_schema_frost_group : Address -> UID -> xcall X (option FrostGroup);
  resolver_on_attest : Address -> Attestation -> xcall X unit;
  resolver_on_revoke : Address -> Attestation -> xcall X unit;
  indexer_index_attestation : Address -> UID -> Address -> UID -> Address -> Z -> xcall X unit;
  indexer_set_valid_from : Address -> UID -> Z -> xcall X unit;
  indexer_handle_revoke : Address -> UID -> xcall X unit;
  indexer_handle_replace : Address -> UID -> UID -> xcall X unit;
  indexer_handle_renew : Address -> UID -> Z -> xcall X unit;
  token_transfer : Address -> Address -> Address -> Z -> xcall X unit;
  token_balance : Address -> Address -> xcall X Z;
  zk_verify_proof : Address -> bytes -> list bytes -> xcall X bool
}.

(** [Result<(), SASError>] is [None] for [Ok(())]. *)
Definition check {X} (r : option SASError) : M SasSig X unit :=
  match r with
  | Some err => panic err
  | None => mret tt
  end.

Lemma check_ok {X} r e (s : State SasSig X) u s' :
  check r e s = Ok (u, s') <-> r = None /\ s' = s.
Proof.
  destruct u, r; unfold check; split; try done; [by intros [? _]| |].
  - intros H; run_inv; done.
  - by intros [_ ->].
Qed.
