(* ===== verification/SasCore.v ===== *)
(** * SAS: storage helpers and guards

    The private helpers of [src/contracts/sas/src/lib.rs] that every entry
    point uses (admin and registry lookup, reentrancy guards, the record
    layer, the timestamp anchors of [timestamp.rs]) and the laws of the record
    layer: writing an attestation and reading it back is the identity. *)

From S2P Require Import Prelude Host Common TypedData SasState.

(** [if let Err(err) = .. { panic_with_error!(env, err) }] for the expiry rule. *)
Definition validate_expiration (e : Env) (expiration : Z) : option SASError :=
  if negb (expiration =? 0) && (expiration <=? timestamp e)
  then Some AlreadyExpired else None.

Definition compute_storage_ttl (e : Env) (expiration : Z) : Z :=
  if expiration =? 0 then LEDGERS_IN_ONE_YEAR
  else if expiration <=? timestamp e then LEDGERS_IN_ONE_YEAR
  else
    let seconds_remaining := expiration - timestamp e in
    let ledgers_remaining := as_u32 ((seconds_remaining + 4) / 5) in
    let max_ttl := LEDGERS_IN_ONE_YEAR * 5 in
    Z.min (sat_add u32_max ledgers_remaining LEDGERS_IN_ONE_YEAR) max_ttl.

Section core.
Context {X : Type}.
Abbreviation MS := (M SasSig X).

Definition extend_instance_ttl : MS unit :=
  inst_extend_ttl LEDGERS_IN_ONE_YEAR LEDGERS_IN_ONE_YEAR.

Definition require_admin : MS Address :=
  o ← inst_get SAS_ADMIN; unwrap_or_panic o NotInitialized.

Definition require_registry : MS Address :=
  o ← inst_get SCHEMA_REGISTRY; unwrap_or_panic o NotInitialized.

Definition is_paused_status : MS bool :=
  o ← inst_get PAUSED; mret (default false o).

(** [if is_paused_status(&env) { panic_with_error!(&env, err) }] *)
Definition reject_paused (err : SASError) : MS unit :=
  paused ← is_paused_status; panic_if paused err.

(** *** Reentrancy guards *)

Definition enter_reentrancy_guard : MS unit :=
  g ← inst_get REENTRANCY_GUARD;
  panic_if (default false g) Reentrancy;;
  inst_set REENTRANCY_GUARD true.

Definition exit_reentrancy_guard : MS unit := inst_remove REENTRANCY_GUARD.

Definition reject_reentrant : MS unit :=
  guarded ← inst_get REENTRANCY_GUARD;
  depth ← inst_get CALL_DEPTH;
  panic_if (default false guarded || (0 <? default 0 depth)) Reentrancy.

Definition enter_callback_context : MS bool :=
  g ← inst_get REENTRANCY_GUARD;
  d ← inst_get CALL_DEPTH;
  let guarded := default false g in
  let depth := default 0 d in
  panic_if (u32_max <? depth + 1) Reentrancy;;
  inst_set CALL_DEPTH (depth + 1);;
  (if negb guarded then inst_set REENTRANCY_GUARD true else mret tt);;
  mret (negb guarded).

Definition exit_callback_context (owns_guard : bool) : MS unit :=
  d ← inst_get CALL_DEPTH;
  let depth := default 0 d in
  (if depth <=? 1 then inst_remove CALL_DEPTH else inst_set CALL_DEPTH (depth - 1));;
  (if owns_guard then exit_reentrancy_guard else mret tt).

(** The bracket [let owns_guard = enter_callback_context(env); ..;
    exit_callback_context(env, owns_guard)] of the internal operations. *)
Definition in_callback_context {A} (m : MS A) : MS A :=
  owns_guard ← enter_callback_context;
  r ← m;
  exit_callback_context owns_guard;;
  mret r.

(** *** Attestation records *)

Definition read_record (s : State SasSig X) (u : UID) : option Attestation :=
  let base :=
    match pget s (CompactAttestationKey u) with
    | Some c => Some (to_attestation c u)
    | None => match pget s (UidKey u) with
              | Some (StoredCompact c) => Some (to_attestation c u)
              | Some (StoredLegacy a) => Some a
              | None => None
              end
    end in
  a ← base;
  Some (match pget s (VALID_FROM u) with
        | Some v => with_valid_from v a
        | None => a
        end).

Definition read_attestation (u : UID) : MS (option Attestation) :=
  fun _ s => Ok (read_record s u, s).

Definition has_record (s : State SasSig X) (u : UID) : bool :=
  bool_decide (is_Some (pget s (CompactAttestationKey u)))
  || bool_decide (is_Some (pget s (UidKey u))).

Definition has_attestation (u : UID) : MS bool :=
  fun _ s => Ok (has_record s u, s).

(** The two halves of [write_attestation]: the compact record, under
    whichever key already holds it, and the [valid_from] side entry. *)
Definition write_record_entry (a : Attestation) (ttl : Z) : MS unit :=
  let compact := from_attestation a in
  has ← pers_has (CompactAttestationKey (uid a));
  if (has : bool) then
    pers_put (CompactAttestationKey (uid a)) compact ttl
  else
    pers_put (UidKey (uid a)) (StoredCompact compact) ttl.

Definition write_valid_from_entry (a : Attestation) (ttl : Z) : MS unit :=
  if negb (valid_from a =? 0) then
    pers_put (VALID_FROM (uid a)) (valid_from a) ttl
  else
    hv ← pers_has (VALID_FROM (uid a));
    if (hv : bool) then pers_remove (VALID_FROM (uid a)) else mret tt.

Definition write_attestation (a : Attestation) (ttl : Z) : MS unit :=
  write_record_entry a ttl;; write_valid_from_entry a ttl.

Definition extend_if_present (k : SasPKey) (ttl : Z) : MS unit :=
  has ← pers_has k;
  if (has : bool) then pers_extend_ttl k ttl ttl else mret tt.

Definition extend_attestation_ttl (u : UID) (ttl : Z) : MS unit :=
  extend_if_present (CompactAttestationKey u) ttl;;
  extend_if_present (UidKey u) ttl;;
  extend_if_present (VALID_FROM u) ttl.

(** *** Timestamp anchors *)

Definition write_anchor (u : UID) (revocation : bool) (ttl : Z) : MS unit :=
  has ← pers_has (TimestampAnchorKey u revocation);
  panic_if has InvalidTimestamp;;
  now ← ask (fun e => mkTimestampAnchor (sequence e) (timestamp e));
  pers_put (TimestampAnchorKey u revocation) now ttl.

Definition remove_anchors (u : UID) : MS unit :=
  pers_remove (TimestampAnchorKey u false);;
  pers_remove (TimestampAnchorKey u true).

Definition read_anchor (u : UID) (revocation : bool) : MS (option TimestampAnchor) :=
  pers_get (TimestampAnchorKey u revocation).

Definition read_and_renew_anchor (u : UID) (revocation : bool)
    : MS (option TimestampAnchor) :=
  anchor ← pers_get (TimestampAnchorKey u revocation);
  (if bool_decide (is_Some anchor) then
     pers_extend_ttl (TimestampAnchorKey u revocation)
       LEDGERS_IN_ONE_YEAR LEDGERS_IN_ONE_YEAR
   else mret tt);;
  mret anchor.

Definition claim_verdict (e : Env) (issuance revocation : option TimestampAnchor)
    (claim : TimestampAnchor) : option SASError :=
  match issuance, revocation with
  | None, None => Some TimestampAnchorNotFound
  | _, _ =>
    let non_monotonic :=
      match issuance, revocation with
      | Some issued, Some revoked =>
          (ledger_sequence revoked <? ledger_sequence issued)
          || (ledger_timestamp revoked <? ledger_timestamp issued)
      | _, _ => false
      end in
    if non_monotonic then Some InvalidTimestamp
    else if (sequence e <? ledger_sequence claim) || (timestamp e <? ledger_timestamp claim)
    then Some InvalidTimestamp
    else if bool_decide (issuance = Some claim) then None
    else if bool_decide (revocation = Some claim) then None
    else Some InvalidTimestamp
  end.

Definition check_claim (u : UID) (claim : TimestampAnchor) : MS (option SASError) :=
  issuance ← read_anchor u false;
  revocation ← read_anchor u true;
  ask (fun e => claim_verdict e issuance revocation claim).

Definition remove_attestation (u : UID) : MS unit :=
  pers_remove (CompactAttestationKey u);;
  pers_remove (UidKey u);;
  pers_remove (VALID_FROM u);;
  remove_anchors u.

Definition verify_attestation_record (u : UID) : MS bool :=
  o ← read_attestation u;
  match o with
  | None => mret false
  | Some a =>
    ttl ← ask (fun e => compute_storage_ttl e (expiration_time a));
    extend_attestation_ttl u ttl;;
    ask (fun e =>
      if negb (revocation_time a =? 0) then false
      else if negb (valid_from a =? 0) && (timestamp e <? valid_from a) then false
      else if bool_decide (is_Some (validate_expiration e (expiration_time a))) then false
      else true)
  end.
End core.

(** ** Runs of the helpers *)

Section core_runs.
Context {X : Type}.
Implicit Types (s : State SasSig X) (e : Env).

Lemma has_attestation_ok u e s b s' :
  has_attestation u e s = Ok (b, s') <-> b = has_record s u /\ s' = s.
Proof. unfold has_attestation; split; [by intros [= <- <-]|by intros [-> ->]]. Qed.

Lemma read_attestation_ok u e s o s' :
  read_attestation u e s = Ok (o, s') <-> o = read_record s u /\ s' = s.
Proof. unfold read_attestation; split; [by intros [= <- <-]|by intros [-> ->]]. Qed.

Lemma extend_instance_ttl_ok e s u s' :
  extend_instance_ttl e s = Ok (u, s') <->
  s' = upd_inst_live (extended e (inst_live s) LEDGERS_IN_ONE_YEAR LEDGERS_IN_ONE_YEAR) s.
Proof. destruct u; unfold extend_instance_ttl, inst_extend_ttl; simpl; split; congruence. Qed.

Lemma require_registry_ok e s r s' :
  require_registry e s = Ok (r, s') <-> inst s SCHEMA_REGISTRY = Some r /\ s' = s.
Proof.
  unfold require_registry, mbind, M_bind, inst_get; cbv beta iota.
  apply unwrap_or_panic_ok.
Qed.

Lemma require_admin_ok e s r s' :
  require_admin e s = Ok (r, s') <-> inst s SAS_ADMIN = Some r /\ s' = s.
Proof.
  unfold require_admin, mbind, M_bind, inst_get; cbv beta iota.
  apply unwrap_or_panic_ok.
Qed.

Lemma reject_paused_ok err e s u s' :
  reject_paused err e s = Ok (u, s') -> default false (inst s PAUSED) = false /\ s' = s.
Proof. unfold reject_paused, is_paused_status; intros H; run_inv; auto. Qed.

Lemma reject_reentrant_ok e s u s' :
  reject_reentrant e s = Ok (u, s') ->
  default false (inst s REENTRANCY_GUARD) = false
  /\ default 0 (inst s CALL_DEPTH) <= 0 /\ s' = s.
Proof. unfold reject_reentrant; intros H; run_inv; bool_facts; auto. Qed.
End core_runs.

(** Invert the runs of the SAS helpers as well as of the primitives. *)
Ltac sas_inv_step :=
  first
  [ run_inv_step
  | match goal with
    | H : has_attestation _ _ _ = Ok _ |- _ => apply has_attestation_ok in H as [H ->]
    | H : read_attestation _ _ _ = Ok _ |- _ => apply read_attestation_ok in H as [H ->]
    | H : check _ _ _ = Ok _ |- _ => apply check_ok in H as [H ->]
    | H : require_registry _ _ = Ok _ |- _ => apply require_registry_ok in H as [H ->]
    | H : require_admin _ _ = Ok _ |- _ => apply require_admin_ok in H as [H ->]
    | H : reject_reentrant _ _ = Ok _ |- _ => apply reject_reentrant_ok in H as (? & ? & ->)
    | H : reject_paused _ _ _ = Ok _ |- _ => apply reject_paused_ok in H as [? ->]
    | H : extend_instance_ttl _ _ = Ok _ |- _ => apply extend_instance_ttl_ok in H as ->
    | H : ?x = has_record _ _ |- _ => is_var x; subst x
    | H : ?x = read_record _ _ |- _ => is_var x; subst x
    end ].
Ltac sas_inv := repeat sas_inv_step.

Lemma bind_check {X A} r (f : unit -> M SasSig X A) e s :
  r = None -> mbind f (check r) e s = f tt e s.
Proof. by intros ->. Qed.

(** Run the leading helper of a computation in the goal. *)
Ltac sas_run_step :=
  match goal with
  | |- mbind ?f (has_attestation ?u) ?e ?s = ?r =>
      change (f (has_record s u) e s = r); cbv beta
  | |- mbind ?f (read_attestation ?u) ?e ?s = ?r =>
      change (f (read_record s u) e s = r); cbv beta
  | |- mbind ?f (check _) ?e ?s = ?r =>
      rewrite (bind_check _ f e s); cbv beta; [|try done]
  | _ => run_step
  end.
Ltac sas_run := repeat sas_run_step.
