(* ===== verification/SasAdmin.v ===== *)
(** * SAS: configuration

    The administrative entry points of [src/contracts/sas/src/lib.rs]:
    initialisation, upgrade, two-step admin transfer, the circuit breaker,
    indexer and treasury bindings, fee policy, rate limits and withdrawals. *)

From S2P Require Import Prelude Host Common TypedData SasState SasCore.

Definition MAX_KNOWN_VERSION : Z := 2.
Definition MAX_CREATOR_BPS : Z := 10000.

Section admin.
Context {X : Type} `{Deps X}.
Abbreviation MS := (M SasSig X).

(** *** Initialisation and upgrade *)

Definition init (admin registry : Address) : MS unit :=
  reject_reentrant;;
  extend_instance_ttl;;
  has ← inst_has SAS_ADMIN;
  panic_if has AlreadyInitialized;;
  require_auth admin;;
  upper ← probe (registry_SASREG registry) false;
  compatible ← (if (upper : bool) then mret true
                else probe (registry_sasreg registry) false);
  panic_if (negb compatible) IncompatibleDependency;;
  inst_set SAS_ADMIN admin;;
  inst_set SCHEMA_REGISTRY registry;;
  has_version ← inst_has SAS_VERSION;
  (if negb has_version then inst_set SAS_VERSION 1 else mret tt);;
  extend_instance_ttl.

Definition sasv1 : MS bool := mret true.

Definition get_admin : MS Address := extend_instance_ttl;; require_admin.

Definition get_version : MS Z :=
  extend_instance_ttl;;
  v ← inst_get SAS_VERSION; mret (default 1 v).

Definition required_upgrade_address (o : option Address) : SASError + Address :=
  match o with Some a => inr a | None => inl IncompatibleDependency end.

Definition validate_upgrade (s : State SasSig X) (new_wasm_hash : bytes)
    (new_version : Z) : SASError + Address :=
  match required_upgrade_address (inst s SAS_ADMIN) with
  | inl err => inl err
  | inr admin =>
    match required_upgrade_address (inst s SCHEMA_REGISTRY) with
    | inl err => inl err
    | inr _ =>
      match (if bool_decide (is_Some (inst s INDEXER))
             then required_upgrade_address (inst s INDEXER) else inr admin) with
      | inl err => inl err
      | inr _ =>
      let old_version := default 1 (inst s SAS_VERSION) in
      if MAX_KNOWN_VERSION <? new_version then inl IncompatibleDependency
      else if negb (new_version =? sat_add u32_max old_version 1) then inl InvalidValue
      else if bool_decide (new_wasm_hash = zero_bytes32) then inl InvalidValue
      else inr admin
      end
    end
  end.

Definition commit_upgrade (admin : Address) (new_wasm_hash : bytes) (new_version : Z)
    : MS unit :=
  old ← inst_get CURRENT_WASM_HASH;
  inst_set SAS_VERSION new_version;;
  inst_set CURRENT_WASM_HASH new_wasm_hash;;
  publish (EvContractUpgraded (default zero_bytes32 old) new_wasm_hash admin).

(** The host swaps the executable after this invocation; the storage it
    leaves behind is what is modelled. *)
Definition upgrade (new_wasm_hash : bytes) (new_version : Z) : MS unit :=
  reject_reentrant;;
  extend_instance_ttl;;
  v ← read_state (fun s => validate_upgrade s new_wasm_hash new_version);
  match v with
  | inl err => panic err
  | inr layout_admin =>
    admin ← require_admin;
    panic_if (negb (bool_decide (admin = layout_admin))) IncompatibleDependency;;
    require_auth admin;;
    commit_upgrade admin new_wasm_hash new_version
  end.

(** *** Two-step admin transfer *)

Definition propose_admin (new_admin : Address) : MS unit :=
  reject_reentrant;;
  extend_instance_ttl;;
  current_admin ← require_admin;
  require_auth current_admin;;
  inst_set PENDING_ADMIN new_admin;;
  extend_instance_ttl;;
  publish (EvAdminTransferProposed current_admin new_admin).

Definition accept_admin : MS unit :=
  reject_reentrant;;
  extend_instance_ttl;;
  o ← inst_get PENDING_ADMIN;
  pending_admin ← unwrap_or_panic o NotInitialized;
  require_auth pending_admin;;
  old_admin ← require_admin;
  inst_set SAS_ADMIN pending_admin;;
  inst_remove PENDING_ADMIN;;
  extend_instance_ttl;;
  publish (EvAdminTransferCompleted old_admin pending_admin).

(** *** Delegation policy *)

Definition set_delegation_policy (attester : Address) (policy : DelegationPolicy)
    : MS unit :=
  require_auth attester;;
  pers_put (DELEGATION_POLICY attester) policy LEDGERS_IN_ONE_YEAR;;
  extend_instance_ttl.

Definition get_delegation_policy (attester : Address) : MS (option DelegationPolicy) :=
  extend_instance_ttl;; pers_get (DELEGATION_POLICY attester).

(** *** Circuit breaker *)

(** The common prologue of the guarded administrative entry points. *)
Definition admin_prologue : MS Address :=
  reject_reentrant;;
  extend_instance_ttl;;
  admin ← require_admin;
  require_auth admin;;
  mret admin.

Definition pause : MS unit :=
  admin ← admin_prologue;
  inst_set PAUSED true;;
  extend_instance_ttl;;
  publish (EvContractPaused admin);;
  now ← ask timestamp;
  publish (EvProtocolPaused admin now).

Definition unpause : MS unit :=
  admin ← admin_prologue;
  inst_set PAUSED false;;
  extend_instance_ttl;;
  publish (EvContractUnpaused admin);;
  now ← ask timestamp;
  publish (EvProtocolUnpaused admin now).

Definition is_paused : MS bool := extend_instance_ttl;; is_paused_status.

(** *** Bindings *)

Definition get_indexer : MS (option Address) := extend_instance_ttl;; inst_get INDEXER.

Definition set_indexer (indexer : Address) : MS unit :=
  admin ← admin_prologue;
  old_indexer ← inst_get INDEXER;
  inst_set INDEXER indexer;;
  publish (EvIndexerUpdated old_indexer indexer admin);;
  extend_instance_ttl.

Definition set_treasury (treasury : Address) : MS unit :=
  admin_prologue;;
  inst_set TREASURY treasury;;
  extend_instance_ttl.

Definition get_treasury : MS (option Address) := extend_instance_ttl;; inst_get TREASURY.

Definition set_indexer_strict (strict : bool) : MS unit :=
  admin ← admin_prologue;
  old_strict ← inst_get INDEXER_STRICT;
  inst_set INDEXER_STRICT strict;;
  publish (EvIndexerStrictUpdated (default false old_strict) strict admin);;
  extend_instance_ttl.

Definition get_indexer_strict : MS bool :=
  extend_instance_ttl;;
  o ← inst_get INDEXER_STRICT; mret (default false o).

Definition set_auto_prune (enabled : bool) : MS unit :=
  extend_instance_ttl;;
  admin ← require_admin;
  require_auth admin;;
  inst_set AUTO_PRUNE enabled;;
  extend_instance_ttl.

Definition is_auto_prune_enabled : MS bool :=
  extend_instance_ttl;;
  o ← inst_get AUTO_PRUNE; mret (default false o).

Definition set_zk_verifier (verifier : Address) : MS unit :=
  admin ← require_admin;
  require_auth admin;;
  inst_set ZK_VERIFIER verifier;;
  extend_instance_ttl.

Definition get_zk_verifier : MS (option Address) :=
  extend_instance_ttl;; inst_get ZK_VERIFIER.
End admin.
