(* ===== verification/SasFees.v ===== *)
(** * SAS: fees and quotas

    Fee policy, fee quotes, the split of a paid fee, withdrawals and the
    sliding-window issuance quota of [src/contracts/sas/src/lib.rs]. *)

From S2P Require Import Prelude Host Common TypedData SasState SasCore SasAdmin.

Section fees.
Context {X : Type} `{Deps X}.
Abbreviation MS := (M SasSig X).

(** *** Fee policy *)

Definition get_fee : MS (option (Address * Z)) := extend_instance_ttl;; inst_get FEE_CONFIG.

Definition set_accepted_fee (token : Address) (amount : Z) : MS unit :=
  admin_prologue;;
  panic_if (amount <=? 0) InvalidValue;;
  inst_set (FEE_ASSET token) amount;;
  inst_set MULTI_ASSET_ACTIVE true.

Definition remove_accepted_fee (token : Address) : MS unit :=
  reject_reentrant;;
  admin ← require_admin;
  require_auth admin;;
  inst_remove (FEE_ASSET token);;
  extend_instance_ttl.

Definition get_accepted_fee (token : Address) : MS (option Z) :=
  extend_instance_ttl;; inst_get (FEE_ASSET token).

Definition set_fee (token : Address) (amount : Z) : MS unit :=
  admin ← admin_prologue;
  panic_if (amount <=? 0) InvalidValue;;
  old ← inst_get FEE_CONFIG;
  inst_set FEE_CONFIG (token, amount);;
  publish (EvFeeConfigUpdated old (Some (token, amount)) admin);;
  extend_instance_ttl.

Definition clear_fee : MS unit :=
  admin ← admin_prologue;
  old ← inst_get FEE_CONFIG;
  inst_remove FEE_CONFIG;;
  inst_remove FEE_PER_BYTE;;
  publish (EvFeeConfigUpdated old None admin);;
  extend_instance_ttl.

Definition set_fee_per_byte (amount : Z) : MS unit :=
  admin ← require_admin;
  require_auth admin;;
  has_fee ← inst_has FEE_CONFIG;
  panic_if ((amount <? 0) || ((0 <? amount) && negb has_fee)) InvalidValue;;
  inst_set FEE_PER_BYTE amount;;
  extend_instance_ttl.

Definition get_fee_per_byte : MS Z :=
  extend_instance_ttl;;
  o ← inst_get FEE_PER_BYTE; mret (default 0 o).

Definition set_schema_zero_fee (schema : UID) (enabled : bool) : MS unit :=
  admin ← require_admin;
  require_auth admin;;
  (if enabled then
     pers_put (ZERO_FEE_SCHEMA schema) true LEDGERS_IN_ONE_YEAR
   else pers_remove (ZERO_FEE_SCHEMA schema));;
  extend_instance_ttl.

Definition set_fee_ceilings (max_fixed max_bps : Z) : MS unit :=
  extend_instance_ttl;;
  admin ← require_admin;
  require_auth admin;;
  panic_if ((max_fixed <? 0) || (MAX_CREATOR_BPS <? max_bps)) InvalidValue;;
  inst_set FEE_CEILINGS (mkFeeCeilings max_fixed max_bps);;
  extend_instance_ttl.

Definition get_fee_ceilings : MS FeeCeilings :=
  extend_instance_ttl;;
  o ← inst_get FEE_CEILINGS;
  mret (default (mkFeeCeilings i128_max MAX_CREATOR_BPS) o).

(** The authority check of [set_schema_fee] and [clear_schema_fee]. *)
Definition require_creator_or_admin (schema : UID) (authorizer : Address) : MS unit :=
  registry ← require_registry;
  creator ← probe (registry_get_creator registry schema) None;
  admin ← require_admin;
  panic_if (negb (bool_decide (creator = Some authorizer))
            && negb (bool_decide (authorizer = admin))) Unauthorized.

Definition set_schema_fee (schema : UID) (authorizer : Address)
    (ftype amount bps : Z) : MS unit :=
  extend_instance_ttl;;
  require_auth authorizer;;
  require_creator_or_admin schema authorizer;;
  ceilings ← get_fee_ceilings;
  (if ftype =? 1 then
     panic_if ((amount <? 0) || (max_fixed_fee ceilings <? amount)) InvalidValue
   else if ftype =? 2 then panic_if (max_basis_points ceilings <? bps) InvalidValue
   else panic InvalidValue);;
  pers_put (SCHEMA_FEE_CONFIG schema) (mkSchemaFeeConfig ftype amount bps)
    LEDGERS_IN_ONE_YEAR;;
  extend_instance_ttl.

Definition clear_schema_fee (schema : UID) (authorizer : Address) : MS unit :=
  extend_instance_ttl;;
  require_auth authorizer;;
  require_creator_or_admin schema authorizer;;
  pers_remove (SCHEMA_FEE_CONFIG schema);;
  extend_instance_ttl.

Definition get_schema_fee (schema : UID) : MS (option SchemaFeeConfig) :=
  extend_instance_ttl;;
  config ← pers_get (SCHEMA_FEE_CONFIG schema);
  (if bool_decide (is_Some config) then
     pers_extend_ttl (SCHEMA_FEE_CONFIG schema) LEDGERS_IN_ONE_YEAR LEDGERS_IN_ONE_YEAR
   else mret tt);;
  mret config.

Definition get_treasury_fee_balance (token : Address) : MS Z :=
  extend_instance_ttl;;
  o ← pers_get (TREASURY_FEES token); mret (default 0 o).

Definition get_creator_fee_balance (creator token : Address) : MS Z :=
  extend_instance_ttl;;
  o ← pers_get (CREATOR_FEES creator token); mret (default 0 o).

(** *** Quotes *)

Definition fee_quote (schema : UID) (size : Z) : MS Z :=
  panic_if (MAX_ATTESTATION_DATA_BYTES <? size) PayloadTooLarge;;
  exempt ← pers_get (ZERO_FEE_SCHEMA schema);
  if default false exempt then mret 0
  else
    config ← inst_get FEE_CONFIG;
    let base := match config with Some (_, amount) => amount | None => 0 end in
    per_byte ← inst_get FEE_PER_BYTE;
    unwrap_or_panic
      (extra ← checked_i128 (default 0 per_byte * size); checked_i128 (base + extra))
      InvalidValue.

Definition quote_attestation_fee (schema : UID) (data_len : Z) : MS Z :=
  extend_instance_ttl;; fee_quote schema data_len.

Definition require_unpaid_allowed (a : Attestation) : MS unit :=
  o ← inst_get FEE_PER_BYTE;
  if 0 <? default 0 o then
    q ← fee_quote (att_schema_uid a) (len (data a));
    panic_if (0 <? q) InsufficientFee
  else mret tt.

(** *** Splitting a fee with the schema creator *)

Definition distribute_attestation_fee (schema : UID) (token : Address) (value : Z)
    : MS unit :=
  o ← inst_get SCHEMA_REGISTRY;
  match o with
  | None => mret tt
  | Some registry =>
    r ← try_invoke (registry_get_creator_royalty registry schema);
    match call_value r with
    | None => mret tt
    | Some bps =>
      panic_if (5000 <? bps) InvalidValue;;
      creator_amount ← unwrap_or_panic
        (product ← checked_i128 (value * bps); checked_i128 (Z.quot product 10000))
        InvalidValue;
      treasury_amount ← unwrap_or_panic (checked_i128 (value - creator_amount)) InvalidValue;
      t ← inst_get TREASURY;
      if bool_decide (t = None) && (creator_amount =? 0) then mret tt
      else
        treasury ← unwrap_or_panic t TreasuryNotSet;
        this ← ask current_contract;
        (if 0 <? treasury_amount then
           invoke (token_transfer token this treasury treasury_amount)
         else mret tt);;
        (if 0 <? creator_amount then
           c ← try_invoke (registry_get_creator registry schema);
           match call_value c with
           | Some (Some creator) => invoke (token_transfer token this creator creator_amount)
           | _ => panic SchemaNotFound
           end
         else mret tt);;
        publish (EvFeeSplit schema treasury_amount creator_amount)
    end
  end.

(** *** Withdrawals *)

Definition require_treasury_authority (authorizer : Address) : MS unit :=
  admin ← require_admin;
  provided_treasury ← inst_get TREASURY;
  panic_if (negb (bool_decide (authorizer = admin))
            && negb (bool_decide (provided_treasury = Some authorizer))) Unauthorized;;
  require_auth authorizer.

Definition withdraw_tokens (authorizer token : Address) (amount : Z)
    (destination : Address) : MS unit :=
  reject_reentrant;;
  extend_instance_ttl;;
  panic_if (amount <=? 0) InvalidValue;;
  require_treasury_authority authorizer;;
  this ← ask current_contract;
  balance ← invoke (token_balance token this);
  panic_if (balance <? amount) InvalidValue;;
  invoke (token_transfer token this destination amount);;
  publish (EvWithdrawal token amount destination authorizer);;
  extend_instance_ttl.

(** Debit an accrued balance and pay it out of the contract's tokens. *)
Definition debit_and_pay (balance amount : Z) (put_balance : Z -> MS unit)
    (token destination authorizer : Address) : MS unit :=
  panic_if (balance <? amount) InvalidValue;;
  put_balance (balance - amount);;
  this ← ask current_contract;
  invoke (token_transfer token this destination amount);;
  publish (EvWithdrawal token amount destination authorizer);;
  extend_instance_ttl.

Definition withdraw_creator_fees (creator token : Address) (amount : Z)
    (destination : Address) : MS unit :=
  extend_instance_ttl;;
  panic_if (amount <=? 0) InvalidValue;;
  require_auth creator;;
  o ← pers_get (CREATOR_FEES creator token);
  debit_and_pay (default 0 o) amount
    (fun z => pers_put (CREATOR_FEES creator token) z LEDGERS_IN_ONE_YEAR)
    token destination creator.

Definition withdraw_treasury_fees (authorizer token : Address) (amount : Z)
    (destination : Address) : MS unit :=
  extend_instance_ttl;;
  panic_if (amount <=? 0) InvalidValue;;
  require_treasury_authority authorizer;;
  o ← pers_get (TREASURY_FEES token);
  debit_and_pay (default 0 o) amount
    (fun z => pers_put (TREASURY_FEES token) z LEDGERS_IN_ONE_YEAR)
    token destination authorizer.

(** *** Issuance quota *)

Definition set_issuance_rate_limit (max_issuances window : Z) : MS unit :=
  reject_reentrant;;
  admin ← require_admin;
  require_auth admin;;
  panic_if ((max_issuances =? 0) || (100 <? max_issuances)
            || (window =? 0) || (10000 <? window)) InvalidValue;;
  inst_set RATE_LIMIT_CONFIG (max_issuances, window);;
  extend_instance_ttl.

Definition clear_issuance_rate_limit : MS unit :=
  reject_reentrant;;
  admin ← require_admin;
  require_auth admin;;
  inst_remove RATE_LIMIT_CONFIG;;
  extend_instance_ttl.

Definition get_issuance_rate_limit : MS (option (Z * Z)) :=
  extend_instance_ttl;; inst_get RATE_LIMIT_CONFIG.

Definition set_rate_limit_exempt (attester : Address) (exempt : bool) : MS unit :=
  reject_reentrant;;
  admin ← require_admin;
  require_auth admin;;
  inst_set (RATE_EXEMPT attester) exempt;;
  extend_instance_ttl.

Definition is_rate_limit_exempt (attester : Address) : MS bool :=
  extend_instance_ttl;;
  o ← inst_get (RATE_EXEMPT attester); mret (default false o).

Definition in_window (oldest now issued_at : Z) : bool :=
  (oldest <=? issued_at) && (issued_at <=? now).

Definition consume_issuance_quota (attester : Address) : MS unit :=
  config ← inst_get RATE_LIMIT_CONFIG;
  match config with
  | None => mret tt
  | Some (max_issuances, window) =>
    exempt ← inst_get (RATE_EXEMPT attester);
    if default false exempt then mret tt
    else
      prior ← temp_get (RATE_HISTORY attester);
      now ← ask sequence;
      let oldest := sat_sub now (sat_sub window 1) in
      let recent := List.filter (in_window oldest now) (default [] prior) in
      panic_if (max_issuances <=? len recent) RateLimitExceeded;;
      temp_set (RATE_HISTORY attester) (recent ++ [now]);;
      temp_extend_ttl (RATE_HISTORY attester) window window
  end.
End fees.
