(* ===== verification/SasIssue.v ===== *)
(** * SAS: issuance

    Delegation keys, nonces and policies, the common [attest_internal] and
    every issuing entry point of [src/contracts/sas/src/lib.rs]. *)

From S2P Require Import Prelude Host Common TypedData SasState SasCore SasAdmin SasFees.

Definition DELEGATION_PERMISSION_ISSUE : Z := 1.

(** The scope rule shared by [DelegationPolicy] and [DelegationAuthorization]. *)
Definition scope_denied (e : Env) (permissions valid_until : Z)
    (scope : DelegationSchemaScope) (schema : UID) : bool :=
  (Z.land permissions DELEGATION_PERMISSION_ISSUE =? 0)
  || (negb (valid_until =? 0) && (valid_until <? timestamp e))
  || match scope with
     | ScopeOnly u => negb (bool_decide (u = schema))
     | ScopeAny => false
     end.

(** A [Map<K, bool>] used as a set. *)
Definition map_set {K} `{EqDecision K} (k : K) (seen : list K) : list K :=
  if bool_decide (k ∈ seen) then seen else seen ++ [k].

Lemma elem_of_map_set {K} `{EqDecision K} (k x : K) seen :
  x ∈ map_set k seen <-> x = k \/ x ∈ seen.
Proof.
  unfold map_set; case_bool_decide.
  - split; [auto|by intros [->|?]].
  - rewrite elem_of_app, list_elem_of_singleton; tauto.
Qed.

Section issue.
Context {X : Type} `{Deps X}.
Abbreviation MS := (M SasSig X).

(** *** Delegation keys *)

Definition require_delegation_policy (attester : Address) (schema : UID) : MS unit :=
  o ← pers_get (DELEGATION_POLICY attester);
  match o with
  | None => mret tt
  | Some policy =>
    denied ← ask (fun e => scope_denied e (dp_permissions policy) (dp_valid_until policy)
                             (authorized_schema_uid policy) schema);
    panic_if denied DelegationScopeDenied
  end.

Definition registered_key_matches (attester : Address) (pk : bytes) : MS bool :=
  o ← pers_get (ATTESTER_KEY attester);
  mret (match o with
        | Some record => negb (revoked record) && bool_decide (public_key record = pk)
        | None => false
        end).

Definition require_attester_key (attester : Address) (pk : bytes) : MS unit :=
  structural ← ask (fun e => attester_matches_key e attester pk);
  registered ← registered_key_matches attester pk;
  panic_if (negb structural && negb registered) Unauthorized.

Definition schema_frost_group (schema : UID) : MS (option FrostGroup) :=
  registry ← require_registry;
  probe (registry_get_schema_frost_group registry schema) None.

Definition require_delegation_key (schema : UID) (attester : Address) (pk : bytes)
    : MS (option FrostGroup) :=
  g ← schema_frost_group schema;
  match g with
  | Some group =>
    panic_if (negb (bool_decide (pk = group_public_key group))) Unauthorized;;
    mret (Some group)
  | None => require_attester_key attester pk;; mret None
  end.

Definition verify_delegated_signature (payload_hash pk signature : bytes)
    (group : option FrostGroup) : MS unit :=
  match group with
  | Some g => verify_frost_aggregate_signature (C := SasSig) InvalidSignature
                payload_hash g signature
  | None => verify_offchain_signature (C := SasSig) InvalidSignature
              payload_hash pk signature
  end.

(** *** Nonces *)

Definition nonce_replayed (nonce : Z) (last : option Z) : bool :=
  match last with Some l => nonce <=? l | None => false end.

Definition require_nonce_not_replayed (attester : Address) (nonce : Z) : MS unit :=
  extend_instance_ttl;;
  last ← inst_get (DelegationNonceKey attester);
  panic_if (nonce_replayed nonce last) DelegationReplay.

Definition consume_delegation_nonce (attester : Address) (nonce : Z) : MS unit :=
  extend_instance_ttl;;
  last ← inst_get (DelegationNonceKey attester);
  panic_if (nonce_replayed nonce last) DelegationReplay;;
  inst_set (DelegationNonceKey attester) nonce;;
  extend_instance_ttl.

Definition consume_recipient_consent_nonce (recipient : Address) (nonce : Z) : MS unit :=
  extend_instance_ttl;;
  last ← inst_get (RecipientConsentNonceKey recipient);
  panic_if (nonce_replayed nonce last) DelegationReplay;;
  inst_set (RecipientConsentNonceKey recipient) nonce;;
  extend_instance_ttl.

Definition domain_of (nonce : Z) (e : Env) : AttestationDomain :=
  mkAttestationDomain (network_id e) (current_contract e) nonce.

(** *** Indexer notification *)

Definition push_to_indexer (indexer : Address) (a : Attestation) : MS bool :=
  r ← try_invoke (indexer_index_attestation indexer (uid a) (recipient a)
                    (att_schema_uid a) (attester a) (expiration_time a));
  mret (bool_decide (is_Some (call_value r))).

Definition notify_indexer_of_issuance (indexer : Address) (a : Attestation) : MS unit :=
  pushed ← push_to_indexer indexer a;
  if (pushed : bool) then
    (if 0 <? valid_from a then
       _ ← try_invoke (indexer_set_valid_from indexer (uid a) (valid_from a)); mret tt
     else mret tt)
  else
    strict ← inst_get INDEXER_STRICT;
    panic_if (default false strict) IndexerUnavailable;;
    publish (EvIndexFailed (uid a)).

(** *** The common issuance path *)

Definition schema_attester_acl_status (registry : Address) (schema : UID)
    (attester : Address) : MS (bool * bool) :=
  on_acl ← probe (registry_is_attester_authorized registry schema attester) false;
  if (on_acl : bool) then mret (true, true)
  else
    restricted ← probe (registry_is_schema_restricted registry schema) false;
    mret (false, restricted).

(** The schema's maximum validity window, [0] for none. *)
Definition exceeds_max_ttl (e : Env) (max_ttl expiration : Z) : bool :=
  (0 <? max_ttl)
  && ((expiration =? 0)
      || ((timestamp e <? expiration) && (max_ttl <? expiration - timestamp e))).

(** The checks on the attestation's own fields, before any nested call. *)
Definition validate_fields (a : Attestation) : MS unit :=
  panic_if (MAX_ATTESTATION_DATA_BYTES <? len (data a)) PayloadTooLarge;;
  dup ← has_attestation (uid a);
  panic_if dup DuplicateAttestation;;
  expected_uid ← ask (fun e =>
    attestation_uid e (att_schema_uid a) (recipient a) (attester a) (data a));
  panic_if (negb (bool_decide (uid a = expected_uid))) InvalidUID;;
  expired ← ask (fun e => validate_expiration e (expiration_time a));
  check expired;;
  panic_if ((0 <? expiration_time a) && (expiration_time a <=? valid_from a))
    InvalidTimeRange;;
  check (validate_attestation_parties (recipient a) (attester a));;
  panic_if (bool_decide (ref_uid a = uid a)) InvalidRefUid;;
  ref_known ← has_attestation (ref_uid a);
  panic_if (negb (bool_decide (ref_uid a = zero_uid)) && negb ref_known) InvalidRefUid.

(** The checks against the schema registry; returns the schema record. *)
Definition validate_schema_rules (registry : Address) (a : Attestation)
    : MS SchemaRecord :=
  schema_opt ← invoke (registry_get_schema registry (att_schema_uid a));
  schema ← unwrap_or_panic schema_opt InvalidSchema;
  quarantined ← probe (registry_is_schema_quarantined registry (att_schema_uid a)) false;
  panic_if quarantined SchemaQuarantined;;
  max_ttl ← probe (registry_get_max_ttl registry (att_schema_uid a)) 0;
  too_long ← ask (fun e => exceeds_max_ttl e max_ttl (expiration_time a));
  panic_if too_long InvalidExpirationTime;;
  is_auth ← probe (registry_is_authorized registry (att_schema_uid a) (attester a)) false;
  (if negb is_auth then
     '(on_acl, restricted) ← schema_attester_acl_status registry (att_schema_uid a) (attester a);
     if negb on_acl then
       panic_if restricted UnauthorizedAttester;; panic Unauthorized
     else mret tt
   else mret tt);;
  mret schema.

(** The end of the path: stamp, store, anchor, mirror and announce. *)
Definition store_issued (a : Attestation) : MS UID :=
  now ← ask timestamp;
  let a := with_time now a in
  ttl ← ask (fun e => compute_storage_ttl e (expiration_time a));
  write_attestation a ttl;;
  write_anchor (uid a) false ttl;;
  indexer ← inst_get INDEXER;
  match indexer with
  | Some ix => notify_indexer_of_issuance ix a
  | None => mret tt
  end;;
  publish (EvAttested (uid a) (att_schema_uid a) (attester a) (recipient a));;
  extend_instance_ttl;;
  mret (uid a).

Definition attest_body (a : Attestation) : MS UID :=
  extend_instance_ttl;;
  registry ← require_registry;
  validate_fields a;;
  schema ← validate_schema_rules registry a;
  consume_issuance_quota (attester a);;
  policy ← probe (registry_get_schema_policy registry (att_schema_uid a))
             (policy_from_bool (sr_revocable schema));
  check (check_policy policy (revocable a));;
  verdict ← try_invoke (resolver_on_attest (sr_resolver schema) a);
  panic_if (is_call_err verdict) ResolverRejected;;
  store_issued a.

Definition attest_internal (a : Attestation) : MS UID :=
  in_callback_context (attest_body a).
End issue.
