(* ===== verification/SasAttest.v ===== *)
(** * SAS: issuing entry points

    [attest] and its delegated, scoped, proof-backed, batch, paid and
    broadcast variants in [src/contracts/sas/src/lib.rs]. *)

From S2P Require Import Prelude Host Common TypedData SasState SasCore SasAdmin SasFees.
From S2P Require Import SasIssue.

Section attest.
Context {X : Type} `{Deps X}.
Abbreviation MS := (M SasSig X).

Definition attest (a : Attestation) : MS UID :=
  reject_reentrant;;
  reject_paused ProtocolPaused;;
  require_unpaid_allowed a;;
  require_auth (attester a);;
  attest_internal a.

Definition hash_delegation_digest (a : Attestation) (nonce : Z) : MS bytes :=
  ask (fun e => hash_offchain_attestation e a (domain_of nonce e)).

(** The checks and the nonce consumption of one delegated attestation,
    shared by the single and the batch entry point. *)
Definition authorize_delegated (a : Attestation) (nonce : Z)
    (signature public_key : bytes) : MS unit :=
  panic_if (negb (revocation_time a =? 0)) AlreadyRevoked;;
  require_unpaid_allowed a;;
  require_delegation_policy (attester a) (att_schema_uid a);;
  require_nonce_not_replayed (attester a) nonce;;
  group ← require_delegation_key (att_schema_uid a) (attester a) public_key;
  payload_hash ← ask (fun e => hash_offchain_attestation e a (domain_of nonce e));
  verify_delegated_signature payload_hash public_key signature group;;
  consume_delegation_nonce (attester a) nonce.

Definition attest_by_delegation (a : Attestation) (nonce : Z)
    (signature public_key : bytes) : MS UID :=
  reject_reentrant;;
  reject_paused ProtocolPaused;;
  authorize_delegated a nonce signature public_key;;
  attest_internal a.

Definition attest_by_scoped_delegation (a : Attestation) (nonce : Z)
    (signature public_key : bytes) (authorization : DelegationAuthorization) : MS UID :=
  reject_paused ProtocolPaused;;
  panic_if (negb (revocation_time a =? 0)) AlreadyRevoked;;
  require_unpaid_allowed a;;
  denied ← ask (fun e =>
    scope_denied e (da_permissions authorization) (da_valid_until authorization)
      (schema_scope authorization) (att_schema_uid a));
  panic_if denied DelegationScopeDenied;;
  require_attester_key (attester a) public_key;;
  require_delegation_policy (attester a) (att_schema_uid a);;
  digest ← ask (fun e => hash_scoped_attestation e a (domain_of nonce e) authorization);
  verify_offchain_signature (C := SasSig) InvalidSignature digest public_key signature;;
  consume_delegation_nonce (attester a) nonce;;
  attest_internal a.

Definition attest_with_zk (a : Attestation) (proof nullifier : bytes) : MS UID :=
  reject_paused ProtocolPaused;;
  require_unpaid_allowed a;;
  panic_if (bool_decide (proof = []) || (4096 <? len proof)) InvalidZKProof;;
  used ← pers_has (ZkNullifierKey nullifier);
  panic_if used NullifierAlreadyUsed;;
  v ← inst_get ZK_VERIFIER;
  verifier ← unwrap_or_panic v InvalidZKProof;
  accepted ← try_invoke (zk_verify_proof verifier proof
               [uid_bytes (uid a); uid_bytes (att_schema_uid a); nullifier]);
  panic_if (negb (bool_decide (call_value accepted = Some true))) InvalidZKProof;;
  require_auth (attester a);;
  u ← attest_internal a;
  pers_put (ZkNullifierKey nullifier) true LEDGERS_IN_ONE_YEAR;;
  mret u.

Definition is_zk_nullifier_used (nullifier : bytes) : MS bool :=
  extend_instance_ttl;; pers_has (ZkNullifierKey nullifier).

(** *** Batches *)

Fixpoint multi_attest_loop (atts : list Attestation) (authorized_attesters : list Address)
    (uids : list UID) : MS (list UID * list Address) :=
  match atts with
  | [] => mret (uids, authorized_attesters)
  | a :: rest =>
    require_unpaid_allowed a;;
    (if bool_decide (attester a ∈ authorized_attesters) then mret tt
     else require_auth (attester a));;
    u ← attest_internal a;
    multi_attest_loop rest (map_set (attester a) authorized_attesters) (uids ++ [u])
  end.

Definition multi_attest (atts : list Attestation) : MS (list UID) :=
  reject_paused ProtocolPaused;;
  extend_instance_ttl;;
  panic_if (MAX_MULTI_ATTEST <? len atts) BatchTooLarge;;
  enter_reentrancy_guard;;
  '(uids, attesters) ← multi_attest_loop atts [] [];
  publish (EvBatchAttested (len uids) (len attesters));;
  exit_reentrancy_guard;;
  mret uids.

Fixpoint multi_attest_by_delegation_loop (atts : list Attestation) (nonces : list Z)
    (signatures public_keys : list bytes) (attesters : list Address) (uids : list UID)
    : MS (list UID * list Address) :=
  match atts, nonces, signatures, public_keys with
  | [], _, _, _ => mret (uids, attesters)
  | a :: atts, n :: nonces, sg :: signatures, pk :: public_keys =>
    authorize_delegated a n sg pk;;
    u ← attest_internal a;
    multi_attest_by_delegation_loop atts nonces signatures public_keys
      (map_set (attester a) attesters) (uids ++ [u])
  | _, _, _, _ => trap MissingValue
  end.

Definition multi_attest_by_delegation (atts : list Attestation) (nonces : list Z)
    (signatures public_keys : list bytes) : MS (list UID) :=
  reject_paused ProtocolPaused;;
  extend_instance_ttl;;
  panic_if (MAX_MULTI_ATTEST <? len atts) BatchTooLarge;;
  panic_if (negb (len nonces =? len atts) || negb (len signatures =? len atts)
            || negb (len public_keys =? len atts)) InvalidValue;;
  enter_reentrancy_guard;;
  '(uids, attesters) ← multi_attest_by_delegation_loop atts nonces signatures public_keys [] [];
  publish (EvBatchAttested (len uids) (len attesters));;
  exit_reentrancy_guard;;
  mret uids.

(** *** Broadcast *)

Fixpoint broadcast_loop (attester : Address) (schema : UID) (recipients seen : list Address)
    (data : bytes) (expiration : Z) (revocable : bool) (uids : list UID) : MS (list UID) :=
  match recipients with
  | [] => mret uids
  | r :: rest =>
    panic_if (bool_decide (r ∈ seen)) DuplicateAttestation;;
    u ← ask (fun e => attestation_uid e schema r attester data);
    issued ← attest_internal
      (mkAttestation u schema 0 expiration 0 zero_uid r attester revocable data 0);
    broadcast_loop attester schema rest (map_set r seen) data expiration revocable
      (uids ++ [issued])
  end.

Definition broadcast_attest_by_attester (attester : Address) (schema : UID)
    (recipients : list Address) (data : bytes) (expiration : Z) (revocable : bool)
    : MS (list UID) :=
  reject_paused ContractPaused;;
  extend_instance_ttl;;
  panic_if (MAX_MULTI_ATTEST <? len recipients) BatchTooLarge;;
  panic_if (len recipients =? 0) InvalidValue;;
  require_auth attester;;
  enter_reentrancy_guard;;
  uids ← broadcast_loop attester schema recipients [] data expiration revocable [];
  publish (EvBatchAttested (len uids) 1);;
  exit_reentrancy_guard;;
  mret uids.

Definition broadcast_attest (schema : UID) (recipients : list Address) (data : bytes)
    (expiration : Z) (revocable : bool) : MS (list UID) :=
  registry ← require_registry;
  creator ← probe (registry_get_creator registry schema) None;
  attester ← unwrap_or_panic creator SchemaNotFound;
  broadcast_attest_by_attester attester schema recipients data expiration revocable.

(** *** Paid issuance *)

(** The creator's custom fee on top of the protocol fee. *)
Definition creator_fee (cfg : option SchemaFeeConfig) (base_amount : Z) : Z :=
  match cfg with
  | Some c =>
    if fee_type c =? 1 then fixed_amount c
    else if fee_type c =? 2 then
      if 0 <? base_amount then Z.quot (sat_i128 (base_amount * basis_points c)) 10000 else 0
    else 0
  | None => 0
  end.

(** Credit an accrued balance, [cur.saturating_add(amount)]. *)
Definition credit_treasury (token : Address) (amount : Z) : MS unit :=
  cur ← pers_get (TREASURY_FEES token);
  pers_put (TREASURY_FEES token) (sat_i128 (default 0 cur + amount)) LEDGERS_IN_ONE_YEAR.

Definition credit_creator (creator token : Address) (amount : Z) : MS unit :=
  cur ← pers_get (CREATOR_FEES creator token);
  pers_put (CREATOR_FEES creator token) (sat_i128 (default 0 cur + amount)) LEDGERS_IN_ONE_YEAR.

(** The value the caller must offer for [token]. *)
Definition check_fee_value (token : Address) (value creator_amount total_required : Z)
    (configured : option (Address * Z)) : MS bool :=
  additional ← inst_get (FEE_ASSET token);
  multi ← inst_get MULTI_ASSET_ACTIVE;
  let is_default := match configured with
                    | Some (fee_token, _) => bool_decide (fee_token = token)
                    | None => false
                    end in
  (if is_default then panic_if (negb (value =? total_required)) FeeMismatch
   else match additional with
        | Some additional_base =>
          panic_if (negb (value =? sat_i128 (additional_base + creator_amount))) FeeMismatch
        | None =>
          if bool_decide (configured = None) && (value =? 0) && (total_required =? 0)
          then mret tt
          else if default false multi then panic InvalidToken
          else panic FeeMismatch
        end);;
  mret is_default.

(** Collect [value] from the attester, credit the accrued balances, and split. *)
Definition collect_fee (a : Attestation) (token : Address)
    (value base_amount creator_amount : Z) (is_default : bool) : MS unit :=
  treasury ← inst_get TREASURY;
  panic_if (negb is_default && bool_decide (treasury = None)) TreasuryNotSet;;
  this ← ask current_contract;
  let destination := if 0 <? creator_amount then this else default this treasury in
  invoke (token_transfer token (attester a) destination value);;
  (if 0 <? base_amount then credit_treasury token base_amount else mret tt);;
  creator_addr ← (if 0 <? creator_amount then
                    registry ← require_registry;
                    c ← probe (registry_get_creator registry (att_schema_uid a)) None;
                    let creator_addr := default this c in
                    credit_creator creator_addr token creator_amount;;
                    mret creator_addr
                  else mret this);
  publish (EvFeeDistributed (att_schema_uid a) token value base_amount creator_amount
             creator_addr);;
  distribute_attestation_fee (att_schema_uid a) token value.

Definition attest_with_value (a : Attestation) (token : Address) (value : Z) : MS UID :=
  reject_reentrant;;
  reject_paused ProtocolPaused;;
  extend_instance_ttl;;
  panic_if (value <? 0) InvalidValue;;
  configured ← inst_get FEE_CONFIG;
  base_amount ← fee_quote (att_schema_uid a) (len (data a));
  rate ← inst_get FEE_PER_BYTE;
  panic_if ((0 <? default 0 rate) && (value <? base_amount)) InsufficientFee;;
  schema_fee ← get_schema_fee (att_schema_uid a);
  let creator_amount := creator_fee schema_fee base_amount in
  let total_required := sat_i128 (base_amount + creator_amount) in
  is_default ← check_fee_value token value creator_amount total_required configured;
  require_auth (attester a);;
  (if 0 <? value then collect_fee a token value base_amount creator_amount is_default
   else mret tt);;
  u ← attest_internal a;
  publish (EvAttestedWithFee (uid a) (att_schema_uid a) (attester a) (recipient a)
             total_required);;
  mret u.
End attest.
