(* ===== verification/SasRevoke.v ===== *)
(** * SAS: the rest of an attestation's life

    Revocation (direct, by authorizer, delegated, in batches, by schema),
    replacement, renewal, pruning and re-indexing in
    [src/contracts/sas/src/lib.rs]. *)

From S2P Require Import Prelude Host Common TypedData SasState SasCore SasAdmin SasFees.
From S2P Require Import SasIssue SasAttest.

Definition MAX_MULTI_REVOKE : Z := 100.
Definition MAX_REVOKE_BY_SCHEMA : Z := 100.
Definition MAX_PRUNE_BATCH : Z := 100.

Section revoke.
Context {X : Type} `{Deps X}.
Abbreviation MS := (M SasSig X).

(** Check the record, stamp, store, anchor and announce the revocation. *)
Definition store_revoked (u : UID) : MS Attestation :=
  o ← read_attestation u;
  a ← unwrap_or_panic o AttestationNotFound;
  panic_if (negb (revocable a)) NotRevocable;;
  panic_if (negb (revocation_time a =? 0)) AlreadyRevoked;;
  now ← ask timestamp;
  let a := with_revocation_time now a in
  ttl ← ask (fun e => compute_storage_ttl e (expiration_time a));
  write_attestation a ttl;;
  write_anchor u true ttl;;
  publish (EvRevoked u now);;
  mret a.

(** Let the schema's resolver veto it, and tell the indexer. *)
Definition consult_on_revocation (u : UID) (a : Attestation) : MS unit :=
  registry ← require_registry;
  schema_opt ← invoke (registry_get_schema registry (att_schema_uid a));
  schema ← unwrap_or_panic schema_opt InvalidSchema;
  verdict ← try_invoke (resolver_on_revoke (sr_resolver schema) a);
  panic_if (is_call_err verdict) ResolverRejected;;
  indexer ← inst_get INDEXER;
  match indexer with
  | Some ix => _ ← try_invoke (indexer_handle_revoke ix u); mret tt
  | None => mret tt
  end.

Definition revoke_body (u : UID) : MS unit :=
  extend_instance_ttl;;
  a ← store_revoked u;
  consult_on_revocation u a.

Definition revoke_internal (u : UID) : MS unit :=
  in_callback_context (revoke_body u).

Definition revoke (u : UID) : MS unit :=
  reject_reentrant;;
  reject_paused ProtocolPaused;;
  o ← read_attestation u;
  a ← unwrap_or_panic o AttestationNotFound;
  require_auth (attester a);;
  revoke_internal u.

Definition revoke_by_authorizer (u : UID) (authorizer : Address) : MS unit :=
  reject_reentrant;;
  reject_paused ProtocolPaused;;
  o ← read_attestation u;
  a ← unwrap_or_panic o AttestationNotFound;
  require_auth authorizer;;
  (if bool_decide (authorizer = attester a) then mret tt
   else
     registry ← require_registry;
     is_auth ← probe (registry_is_authorized registry (att_schema_uid a) authorizer) false;
     panic_if (negb is_auth) Unauthorized);;
  revoke_internal u.

Definition revoke_by_delegate (u : UID) (delegate : Address) : MS unit :=
  reject_reentrant;;
  reject_paused ProtocolPaused;;
  revoke_by_authorizer u delegate.

(** The signature checks of one delegated revocation, before its nonce is
    consumed. *)
Definition authorize_delegated_revocation (u : UID) (a : Attestation) (nonce : Z)
    (signature public_key : bytes) : MS unit :=
  require_nonce_not_replayed (attester a) nonce;;
  group ← require_delegation_key (att_schema_uid a) (attester a) public_key;
  payload_hash ← ask (fun e =>
    hash_delegated_revocation e u (attester a) (domain_of nonce e));
  verify_delegated_signature payload_hash public_key signature group.

Definition revoke_by_delegation (u : UID) (nonce : Z) (signature public_key : bytes)
    : MS unit :=
  reject_reentrant;;
  reject_paused ProtocolPaused;;
  o ← read_attestation u;
  a ← unwrap_or_panic o AttestationNotFound;
  authorize_delegated_revocation u a nonce signature public_key;;
  consume_delegation_nonce (attester a) nonce;;
  revoke_internal u.

(** *** Batch revocation *)

(** What a batch requires of each of its UIDs before any is revoked. *)
Definition check_revocable_item (u : UID) (seen : list UID) : MS Attestation :=
  panic_if (bool_decide (u ∈ seen)) DuplicateAttestation;;
  o ← read_attestation u;
  a ← unwrap_or_panic o AttestationNotFound;
  panic_if (negb (revocable a)) NotRevocable;;
  panic_if (negb (revocation_time a =? 0)) AlreadyRevoked;;
  mret a.

Fixpoint revoke_all (uids : list UID) : MS unit :=
  match uids with
  | [] => mret tt
  | u :: rest => revoke_internal u;; revoke_all rest
  end.

Fixpoint multi_revoke_validate (uids seen : list UID) (distinct : list Address)
    : MS (list Address) :=
  match uids with
  | [] => mret distinct
  | u :: rest =>
    a ← check_revocable_item u seen;
    multi_revoke_validate rest (map_set u seen) (map_set (attester a) distinct)
  end.

Fixpoint require_all_auth (addrs : list Address) : MS unit :=
  match addrs with
  | [] => mret tt
  | a :: rest => require_auth a;; require_all_auth rest
  end.

Definition multi_revoke (uids : list UID) : MS unit :=
  reject_reentrant;;
  reject_paused ProtocolPaused;;
  extend_instance_ttl;;
  panic_if (MAX_MULTI_REVOKE <? len uids) BatchTooLarge;;
  distinct ← multi_revoke_validate uids [] [];
  require_all_auth distinct;;
  revoke_all uids;;
  publish (EvBatchRevoked (len uids) (len distinct)).

Fixpoint multi_revoke_by_delegation_validate (uids : list UID) (nonces : list Z)
    (signatures public_keys : list bytes) (seen : list UID) (distinct : list Address)
    : MS (list Address) :=
  match uids, nonces, signatures, public_keys with
  | [], _, _, _ => mret distinct
  | u :: uids, n :: nonces, sg :: signatures, pk :: public_keys =>
    a ← check_revocable_item u seen;
    authorize_delegated_revocation u a n sg pk;;
    multi_revoke_by_delegation_validate uids nonces signatures public_keys
      (map_set u seen) (map_set (attester a) distinct)
  | _, _, _, _ => trap MissingValue
  end.

Fixpoint multi_revoke_by_delegation_commit (uids : list UID) (nonces : list Z) : MS unit :=
  match uids, nonces with
  | [], _ => mret tt
  | u :: uids, n :: nonces =>
    o ← read_attestation u;
    a ← unwrap o MissingValue;
    consume_delegation_nonce (attester a) n;;
    revoke_internal u;;
    multi_revoke_by_delegation_commit uids nonces
  | _, _ => trap MissingValue
  end.

Definition multi_revoke_by_delegation (uids : list UID) (nonces : list Z)
    (signatures public_keys : list bytes) : MS unit :=
  reject_reentrant;;
  reject_paused ProtocolPaused;;
  extend_instance_ttl;;
  panic_if (MAX_MULTI_REVOKE <? len uids) BatchTooLarge;;
  panic_if (negb (len nonces =? len uids) || negb (len signatures =? len uids)
            || negb (len public_keys =? len uids)) InvalidValue;;
  distinct ← multi_revoke_by_delegation_validate uids nonces signatures public_keys [] [];
  multi_revoke_by_delegation_commit uids nonces;;
  publish (EvBatchRevoked (len uids) (len distinct)).

Fixpoint revoke_by_schema_validate (schema : UID) (uids seen : list UID) : MS unit :=
  match uids with
  | [] => mret tt
  | u :: rest =>
    panic_if (bool_decide (u ∈ seen)) DuplicateAttestation;;
    o ← read_attestation u;
    a ← unwrap_or_panic o AttestationNotFound;
    panic_if (negb (bool_decide (att_schema_uid a = schema))) InvalidSchema;;
    panic_if (negb (revocable a)) NotRevocable;;
    panic_if (negb (revocation_time a =? 0)) AlreadyRevoked;;
    revoke_by_schema_validate schema rest (map_set u seen)
  end.

Definition revoke_by_schema (schema : UID) (uids : list UID) (authorizer : Address)
    : MS unit :=
  reject_paused ContractPaused;;
  extend_instance_ttl;;
  panic_if (MAX_REVOKE_BY_SCHEMA <? len uids) BatchTooLarge;;
  require_auth authorizer;;
  registry ← require_registry;
  is_auth ← probe (registry_is_authorized registry schema authorizer) false;
  panic_if (negb is_auth) Unauthorized;;
  revoke_by_schema_validate schema uids [];;
  revoke_all uids;;
  publish (EvBatchRevoked (len uids) 1).

(** *** Replacement *)

Definition with_ref_uid (r : UID) (a : Attestation) : Attestation :=
  mkAttestation (uid a) (att_schema_uid a) (time a) (expiration_time a) (revocation_time a)
    r (recipient a) (attester a) (revocable a) (data a) (valid_from a).

(** A shorter, non-perpetual validity than the current one. *)
Definition shortens (old_expiration new_expiration : Z) : bool :=
  negb (old_expiration =? 0) && negb (new_expiration =? 0)
  && (new_expiration <? old_expiration).

Definition replace_internal (old_uid : UID) (new_data old : Attestation) : MS UID :=
  panic_if (negb (revocable old)) NotRevocable;;
  panic_if (negb (revocation_time old =? 0)) AlreadyRevoked;;
  expired ← ask (fun e => validate_expiration e (expiration_time old));
  panic_if (bool_decide (is_Some expired)) InvalidTTL;;
  panic_if (negb (bool_decide (attester new_data = attester old))
            || negb (bool_decide (recipient new_data = recipient old))) Unauthorized;;
  panic_if (shortens (expiration_time old) (expiration_time new_data)) InvalidTTL;;
  let new_data := with_ref_uid old_uid new_data in
  let new_uid := uid new_data in
  revoke_internal old_uid;;
  issued_uid ← attest_internal new_data;
  indexer ← inst_get INDEXER;
  match indexer with
  | Some ix => _ ← try_invoke (indexer_handle_replace ix old_uid new_uid); mret tt
  | None => mret tt
  end;;
  mret issued_uid.

Definition replace_attestation (old_uid : UID) (new_data : Attestation) : MS UID :=
  reject_reentrant;;
  reject_paused ProtocolPaused;;
  require_unpaid_allowed new_data;;
  extend_instance_ttl;;
  o ← read_attestation old_uid;
  old ← unwrap_or_panic o AttestationNotFound;
  require_auth (attester old);;
  replace_internal old_uid new_data old.

Definition replace_by_delegation_consent (old_uid : UID) (new_data : Attestation)
    (attester_approval recipient_approval : ReplacementApproval) : MS UID :=
  reject_paused ContractPaused;;
  extend_instance_ttl;;
  o ← read_attestation old_uid;
  old ← unwrap_or_panic o AttestationNotFound;
  panic_if (negb (bool_decide (attester new_data = attester old))
            || negb (bool_decide (recipient new_data = recipient old))) Unauthorized;;
  require_attester_key (attester old) (ra_public_key attester_approval);;
  require_attester_key (recipient old) (ra_public_key recipient_approval);;
  digest ← ask (fun e => hash_delegated_replacement_consent e old_uid new_data
             (mkReplacementConsentDomain (network_id e) (current_contract e)
                (ra_nonce attester_approval) (ra_nonce recipient_approval)));
  verify_offchain_signature (C := SasSig) InvalidSignature digest
    (ra_public_key attester_approval) (ra_signature attester_approval);;
  verify_offchain_signature (C := SasSig) InvalidSignature digest
    (ra_public_key recipient_approval) (ra_signature recipient_approval);;
  consume_delegation_nonce (attester old) (ra_nonce attester_approval);;
  consume_recipient_consent_nonce (recipient old) (ra_nonce recipient_approval);;
  replace_internal old_uid new_data old.

(** *** Renewal *)

Definition renew_attestation (u : UID) (new_expiration_time : Z) : MS UID :=
  reject_reentrant;;
  reject_paused ProtocolPaused;;
  extend_instance_ttl;;
  o ← read_attestation u;
  a ← unwrap_or_panic o AttestationNotFound;
  require_auth (attester a);;
  panic_if (negb (revocable a)) NotRevocable;;
  panic_if (negb (revocation_time a =? 0)) AlreadyRevoked;;
  expired ← ask (fun e => validate_expiration e (expiration_time a));
  check expired;;
  panic_if (shortens (expiration_time a) new_expiration_time) InvalidTTL;;
  panic_if ((expiration_time a =? 0) && negb (new_expiration_time =? 0)) InvalidTTL;;
  panic_if ((0 <? new_expiration_time) && (new_expiration_time <=? valid_from a))
    InvalidTimeRange;;
  registry ← require_registry;
  max_ttl ← probe (registry_get_max_ttl registry (att_schema_uid a)) 0;
  too_long ← ask (fun e => exceeds_max_ttl e max_ttl new_expiration_time);
  panic_if too_long InvalidExpirationTime;;
  past ← ask (fun e => validate_expiration e new_expiration_time);
  check past;;
  let a := with_expiration_time new_expiration_time a in
  ttl ← ask (fun e => compute_storage_ttl e (expiration_time a));
  write_attestation a ttl;;
  publish (EvRenewed u (attester a) new_expiration_time);;
  indexer ← inst_get INDEXER;
  match indexer with
  | Some ix => _ ← try_invoke (indexer_handle_renew ix u new_expiration_time); mret tt
  | None => mret tt
  end;;
  extend_instance_ttl;;
  mret u.

(** *** Pruning *)

Definition prunable (e : Env) (a : Attestation) : bool :=
  negb ((expiration_time a =? 0)
        || bool_decide (validate_expiration e (expiration_time a) = None)).

Fixpoint prune_loop (uids : list UID) (pruned : Z) : MS Z :=
  match uids with
  | [] => mret pruned
  | u :: rest =>
    o ← read_attestation u;
    match o with
    | None => prune_loop rest pruned
    | Some a =>
      dead ← ask (fun e => prunable e a);
      if (dead : bool) then
        remove_attestation u;;
        publish (EvPruned u);;
        prune_loop rest (pruned + 1)
      else prune_loop rest pruned
    end
  end.

Definition prune_expired (uids : list UID) : MS Z :=
  extend_instance_ttl;;
  enabled ← inst_get AUTO_PRUNE;
  panic_if (negb (default false enabled)) AutoPruneDisabled;;
  panic_if (MAX_PRUNE_BATCH <? len uids) BatchTooLarge;;
  prune_loop uids 0.

(** *** Re-indexing *)

Fixpoint bulk_reindex_loop (indexer : Address) (uids failed : list UID) : MS (list UID) :=
  match uids with
  | [] => mret failed
  | u :: rest =>
    o ← read_attestation u;
    match o with
    | None => bulk_reindex_loop indexer rest (failed ++ [u])
    | Some a =>
      pushed ← push_to_indexer indexer a;
      if (pushed : bool) then
        publish (EvBulkReindexed u);; bulk_reindex_loop indexer rest failed
      else bulk_reindex_loop indexer rest (failed ++ [u])
    end
  end.

Definition bulk_reindex (uids : list UID) : MS (list UID) :=
  reject_paused ProtocolPaused;;
  reject_reentrant;;
  extend_instance_ttl;;
  panic_if (100 <? len uids) BatchTooLarge;;
  o ← inst_get INDEXER;
  indexer ← unwrap_or_panic o NotInitialized;
  bulk_reindex_loop indexer uids [].

Definition reindex_attestation (u : UID) : MS unit :=
  reject_paused ProtocolPaused;;
  reject_reentrant;;
  extend_instance_ttl;;
  o ← read_attestation u;
  a ← unwrap_or_panic o AttestationNotFound;
  ix ← inst_get INDEXER;
  indexer ← unwrap_or_panic ix NotInitialized;
  pushed ← push_to_indexer indexer a;
  panic_if (negb pushed) IndexerUnavailable;;
  publish (EvReindexed u).
End revoke.
