(* ===== verification/SasQuery.v ===== *)
(** * SAS: keys, nonces and queries

    Attester-key and nonce management, the off-chain verification oracle, the
    readers, migration of legacy records, timestamp and Merkle disclosure
    queries of [src/contracts/sas/src/lib.rs], [timestamp.rs] and
    [merkle_disclosure.rs]. *)

From S2P Require Import Prelude Host Common TypedData Merkle SasState SasCore SasAdmin SasFees.
From S2P Require Import SasIssue SasAttest.

Definition MAX_VERIFY_BATCH : Z := 100.
Definition ROOT_LEN : Z := 32.

Section query.
Context {X : Type} `{Deps X}.
Abbreviation MS := (M SasSig X).

(** *** Attester keys *)

Definition store_key_record (attester : Address) (r : AttesterKeyRecord) : MS unit :=
  pers_put (ATTESTER_KEY attester) r LEDGERS_IN_ONE_YEAR.

Definition register_attester_key (attester : Address) (pk : bytes) : MS unit :=
  reject_reentrant;;
  reject_paused ProtocolPaused;;
  extend_instance_ttl;;
  require_auth attester;;
  existing ← pers_get (ATTESTER_KEY attester);
  (match existing with
   | Some record => panic_if (negb (revoked record)) AttesterKeyAlreadyRegistered
   | None => mret tt
   end);;
  v ← (match existing with
       | Some record => checked u32_max (version record + 1)
       | None => mret 1
       end);
  store_key_record attester (mkAttesterKeyRecord pk v false);;
  publish (EvKeyRegistered attester pk v).

(** The current, non-revoked key record. *)
Definition require_active_key (attester : Address) : MS AttesterKeyRecord :=
  o ← pers_get (ATTESTER_KEY attester);
  record ← unwrap_or_panic o AttesterKeyNotFound;
  panic_if (revoked record) AttesterKeyRevoked;;
  mret record.

Definition rotate_attester_key (attester : Address) (new_pk : bytes) : MS unit :=
  reject_reentrant;;
  reject_paused ProtocolPaused;;
  require_auth attester;;
  record ← require_active_key attester;
  new_version ← checked u32_max (version record + 1);
  store_key_record attester (mkAttesterKeyRecord new_pk new_version false);;
  publish (EvKeyRotated attester (public_key record) new_pk new_version).

Definition revoke_attester_key (attester : Address) : MS unit :=
  reject_reentrant;;
  reject_paused ProtocolPaused;;
  require_auth attester;;
  record ← require_active_key attester;
  store_key_record attester
    (mkAttesterKeyRecord (public_key record) (version record) true);;
  publish (EvKeyRevoked attester (public_key record) (version record)).

Definition get_attester_key (attester : Address) : MS (option AttesterKeyRecord) :=
  extend_instance_ttl;;
  record ← pers_get (ATTESTER_KEY attester);
  (if bool_decide (is_Some record) then
     pers_extend_ttl (ATTESTER_KEY attester) LEDGERS_IN_ONE_YEAR LEDGERS_IN_ONE_YEAR
   else mret tt);;
  mret record.

(** *** Nonce watermarks *)

Definition invalidate_nonces_internal (attester : Address) (min_nonce max_nonce : Z)
    : MS unit :=
  current ← inst_get (DelegationNonceKey attester);
  panic_if (max_nonce <=? default 0 current) InvalidValue;;
  inst_set (DelegationNonceKey attester) max_nonce;;
  extend_instance_ttl;;
  publish (EvNoncesInvalidated attester min_nonce max_nonce).

Definition invalidate_nonces (attester : Address) (min_nonce max_nonce : Z) : MS unit :=
  reject_reentrant;;
  reject_paused ProtocolPaused;;
  extend_instance_ttl;;
  panic_if (max_nonce <? min_nonce) InvalidValue;;
  require_auth attester;;
  invalidate_nonces_internal attester min_nonce max_nonce.

Definition set_nonce_highwater_mark (attester : Address) (new_nonce : Z) : MS unit :=
  reject_reentrant;;
  reject_paused ProtocolPaused;;
  extend_instance_ttl;;
  require_auth attester;;
  current ← inst_get (DelegationNonceKey attester);
  invalidate_nonces_internal attester (sat_add u64_max (default 0 current) 1) new_nonce.

Definition invalidate_nonces_by_delegation (attester : Address)
    (min_nonce max_nonce nonce : Z) (signature pk : bytes) : MS unit :=
  reject_reentrant;;
  reject_paused ProtocolPaused;;
  extend_instance_ttl;;
  panic_if (max_nonce <? min_nonce) InvalidValue;;
  require_attester_key attester pk;;
  payload_hash ← ask (fun e =>
    hash_delegated_nonce_invalidation e attester min_nonce max_nonce (domain_of nonce e));
  verify_offchain_signature (C := SasSig) InvalidSignature payload_hash pk signature;;
  consume_delegation_nonce attester nonce;;
  invalidate_nonces_internal attester min_nonce max_nonce.

Definition get_nonce_highwater_mark (attester : Address) : MS Z :=
  extend_instance_ttl;;
  o ← inst_get (DelegationNonceKey attester); mret (default 0 o).

Definition get_delegation_nonce (attester : Address) : MS (option Z) :=
  extend_instance_ttl;;
  nonce ← inst_get (DelegationNonceKey attester);
  extend_instance_ttl;;
  mret nonce.

Definition get_recipient_consent_nonce (recipient : Address) : MS (option Z) :=
  extend_instance_ttl;;
  nonce ← inst_get (RecipientConsentNonceKey recipient);
  extend_instance_ttl;;
  mret nonce.

(** *** Off-chain verification *)

(** [get::<_, Attestation>(&uid)]: a record in the compact layout is not an
    [Attestation], and the typed read traps on it. *)
Definition read_full_record (u : UID) : MS (option Attestation) :=
  o ← pers_get (UidKey u);
  match o with
  | None => mret None
  | Some (StoredLegacy a) => mret (Some a)
  | Some (StoredCompact _) => trap ConversionError
  end.

Definition verify_offchain_attestation (a : Attestation) (nonce : Z)
    (pk signature : bytes) : MS bool :=
  extend_instance_ttl;;
  group ← require_delegation_key (att_schema_uid a) (attester a) pk;
  panic_if (negb (revocation_time a =? 0)) AlreadyRevoked;;
  early ← ask (fun e => negb (valid_from a =? 0) && (timestamp e <? valid_from a));
  if (early : bool) then mret false
  else
    expired ← ask (fun e => validate_expiration e (expiration_time a));
    check expired;;
    stored ← read_full_record (uid a);
    match stored with
    | Some st =>
      ttl ← ask (fun e => compute_storage_ttl e (expiration_time st));
      pers_extend_ttl (UidKey (uid a)) ttl ttl;;
      panic_if (negb (revocation_time st =? 0)) AlreadyRevoked
    | None => mret tt
    end;;
    registry ← require_registry;
    schema_opt ← invoke (registry_get_schema registry (att_schema_uid a));
    panic_if (bool_decide (schema_opt = None)) InvalidSchema;;
    payload_hash ← ask (fun e => hash_offchain_attestation e a (domain_of nonce e));
    verify_delegated_signature payload_hash pk signature group;;
    mret true.

Definition eip712_domain (e : Env) : Eip712Domain :=
  mkEip712Domain (bytes_of_string "Stellar Attestation Service") (bytes_of_string "1")
    (network_id e) (current_contract e).

Definition get_eip712_domain : MS Eip712Domain :=
  extend_instance_ttl;; ask eip712_domain.

Definition get_eip712_payload_hash (a : Attestation) (nonce : Z) : MS bytes :=
  extend_instance_ttl;;
  ask (fun e => hash_offchain_attestation e a (domain_of nonce e)).

(** *** Verification of stored records *)

Definition verify_attestation (u : UID) : MS bool :=
  extend_instance_ttl;; verify_attestation_record u.

Fixpoint verify_loop (uids : list UID) (results : list bool) : MS (list bool) :=
  match uids with
  | [] => mret results
  | u :: rest =>
    b ← verify_attestation_record u;
    verify_loop rest (results ++ [b])
  end.

Definition verify_attestations (uids : list UID) : MS (list bool) :=
  extend_instance_ttl;;
  panic_if (MAX_VERIFY_BATCH <? len uids) BatchTooLarge;;
  verify_loop uids [].

Fixpoint verify_all_loop (uids : list UID) : MS bool :=
  match uids with
  | [] => mret true
  | u :: rest =>
    b ← verify_attestation_record u;
    if negb b then mret false else verify_all_loop rest
  end.

Definition verify_all_attestations (uids : list UID) : MS bool :=
  extend_instance_ttl;;
  panic_if (MAX_VERIFY_BATCH <? len uids) BatchTooLarge;;
  verify_all_loop uids.

Definition get_attestation (u : UID) : MS (option Attestation) :=
  o ← read_attestation u;
  match o with
  | Some a =>
    ttl ← ask (fun e => compute_storage_ttl e (expiration_time a));
    extend_attestation_ttl u ttl;;
    mret (Some a)
  | None => mret None
  end.

Definition get_attestation_view (u : UID) : MS (option Attestation) := read_attestation u.

Definition verify_attestation_view (u : UID) : MS bool :=
  o ← read_attestation u;
  match o with
  | None => mret false
  | Some a => ask (fun e =>
      if negb (revocation_time a =? 0) then false
      else if negb (valid_from a =? 0) && (timestamp e <? valid_from a) then false
      else bool_decide (validate_expiration e (expiration_time a) = None))
  end.

Definition get_valid_from (u : UID) : MS Z :=
  extend_instance_ttl;;
  o ← read_attestation u;
  match o with
  | None => mret 0
  | Some a =>
    ttl ← ask (fun e => compute_storage_ttl e (expiration_time a));
    pers_extend_ttl (UidKey u) ttl ttl;;
    mret (valid_from a)
  end.

(** *** Migration of legacy records *)

Definition rewrite_legacy (u : UID) (legacy : Attestation) : MS unit :=
  ttl ← ask (fun e => compute_storage_ttl e (expiration_time legacy));
  pers_put (UidKey u) (StoredCompact (from_attestation legacy)) ttl;;
  if negb (valid_from legacy =? 0) then
    pers_put (VALID_FROM u) (valid_from legacy) ttl
  else mret tt.

Definition migrate_attestation (u : UID) : MS bool :=
  reject_reentrant;;
  extend_instance_ttl;;
  o ← pers_get (UidKey u);
  match o with
  | Some (StoredLegacy legacy) => rewrite_legacy u legacy;; mret true
  | _ => mret false
  end.

Fixpoint migrate_loop (uids : list UID) (count : Z) : MS Z :=
  match uids with
  | [] => mret count
  | u :: rest =>
    moved ← migrate_attestation u;
    if (moved : bool) then c ← checked u32_max (count + 1); migrate_loop rest c
    else migrate_loop rest count
  end.

Definition migrate_attestations (uids : list UID) : MS Z :=
  reject_reentrant;;
  extend_instance_ttl;;
  migrate_loop uids 0.

(** *** Timestamps *)

Definition get_issuance_timestamp (u : UID) : MS (option TimestampAnchor) :=
  extend_instance_ttl;; read_and_renew_anchor u false.

Definition get_revocation_timestamp (u : UID) : MS (option TimestampAnchor) :=
  extend_instance_ttl;; read_and_renew_anchor u true.

Definition verify_timestamp (u : UID) (claim : TimestampAnchor) : MS bool :=
  extend_instance_ttl;;
  r ← check_claim u claim; mret (bool_decide (r = None)).

Definition check_timestamp (u : UID) (claim : TimestampAnchor) : MS unit :=
  extend_instance_ttl;;
  r ← check_claim u claim; check r.

(** *** Selective disclosure *)

Definition verify_leaf (u : UID) (leaf : bytes) (proof : list bytes) (algo : MerkleHash)
    : MS bool :=
  if (MAX_MERKLE_PROOF_DEPTH <? len proof) || (MAX_ATTESTATION_DATA_BYTES <? len leaf)
  then mret false
  else
    o ← read_attestation u;
    match o with
    | None => mret false
    | Some a =>
      if negb (len (data a) =? ROOT_LEN) then mret false
      else
        live ← verify_attestation_record u;
        if negb live then mret false
        else ask (fun e => verify_proof_with e algo (data a) leaf proof)
    end.

Definition verify_merkle_leaf (u : UID) (leaf : bytes) (proof : list bytes) : MS bool :=
  extend_instance_ttl;; verify_leaf u leaf proof Sha256.

Definition verify_merkle_leaf_keccak (u : UID) (leaf : bytes) (proof : list bytes)
    : MS bool :=
  extend_instance_ttl;; verify_leaf u leaf proof Keccak256.
End query.
