(* ===== verification/SasCalls.v ===== *)
(** * SAS: the contract's interface

    Every entry point of the contract as one data type of calls, their
    execution, and histories of invocations in which a failed one is rolled
    back. *)

From S2P Require Import Prelude Host Common TypedData Merkle SasState SasCore SasAdmin SasFees.
From S2P Require Import SasIssue SasAttest SasRevoke SasQuery.

Inductive SasCall :=
  | Init (admin registry : Address)
  | Upgrade (wasm : bytes) (version : Z)
  | ProposeAdmin (new_admin : Address) | AcceptAdmin
  | SetDelegationPolicy (attester : Address) (policy : DelegationPolicy)
  | Pause | Unpause
  | SetIndexer (indexer : Address) | SetIndexerStrict (strict : bool)
  | SetTreasury (treasury : Address)
  | SetAutoPrune (enabled : bool) | SetZkVerifier (verifier : Address)
  | SetFee (token : Address) (amount : Z) | ClearFee
  | SetAcceptedFee (token : Address) (amount : Z) | RemoveAcceptedFee (token : Address)
  | SetFeePerByte (amount : Z) | SetSchemaZeroFee (schema : UID) (enabled : bool)
  | SetFeeCeilings (max_fixed max_bps : Z)
  | SetSchemaFee (schema : UID) (authorizer : Address) (ftype amount bps : Z)
  | ClearSchemaFee (schema : UID) (authorizer : Address)
  | WithdrawTokens (authorizer token : Address) (amount : Z) (destination : Address)
  | WithdrawCreatorFees (creator token : Address) (amount : Z) (destination : Address)
  | WithdrawTreasuryFees (authorizer token : Address) (amount : Z) (destination : Address)
  | SetIssuanceRateLimit (max_issuances window : Z) | ClearIssuanceRateLimit
  | SetRateLimitExempt (attester : Address) (exempt : bool)
  | Attest (a : Attestation)
  | AttestByDelegation (a : Attestation) (nonce : Z) (signature pk : bytes)
  | AttestByScopedDelegation (a : Attestation) (nonce : Z) (signature pk : bytes)
      (authorization : DelegationAuthorization)
  | AttestWithZk (a : Attestation) (proof nullifier : bytes)
  | MultiAttest (atts : list Attestation)
  | MultiAttestByDelegation (atts : list Attestation) (nonces : list Z)
      (signatures pks : list bytes)
  | AttestWithValue (a : Attestation) (token : Address) (value : Z)
  | BroadcastAttest (schema : UID) (recipients : list Address) (payload : bytes)
      (expiration : Z) (rev : bool)
  | BroadcastAttestByAttester (attester : Address) (schema : UID)
      (recipients : list Address) (payload : bytes) (expiration : Z) (rev : bool)
  | Revoke (u : UID)
  | RevokeByAuthorizer (u : UID) (authorizer : Address)
  | RevokeByDelegate (u : UID) (delegate : Address)
  | RevokeByDelegation (u : UID) (nonce : Z) (signature pk : bytes)
  | MultiRevoke (uids : list UID)
  | MultiRevokeByDelegation (uids : list UID) (nonces : list Z) (signatures pks : list bytes)
  | RevokeBySchema (schema : UID) (uids : list UID) (authorizer : Address)
  | ReplaceAttestation (old_uid : UID) (new_data : Attestation)
  | ReplaceByDelegationConsent (old_uid : UID) (new_data : Attestation)
      (attester_approval recipient_approval : ReplacementApproval)
  | RenewAttestation (u : UID) (new_expiration_time : Z)
  | PruneExpired (uids : list UID)
  | BulkReindex (uids : list UID) | ReindexAttestation (u : UID)
  | MigrateAttestation (u : UID) | MigrateAttestations (uids : list UID)
  | RegisterAttesterKey (attester : Address) (pk : bytes)
  | RotateAttesterKey (attester : Address) (pk : bytes)
  | RevokeAttesterKey (attester : Address)
  | InvalidateNonces (attester : Address) (min_nonce max_nonce : Z)
  | SetNonceHighwaterMark (attester : Address) (new_nonce : Z)
  | InvalidateNoncesByDelegation (attester : Address) (min_nonce max_nonce nonce : Z)
      (signature pk : bytes)
  | VerifyOffchainAttestation (a : Attestation) (nonce : Z) (pk signature : bytes)
  | VerifyAttestation (u : UID) | VerifyAttestations (uids : list UID)
  | VerifyAllAttestations (uids : list UID)
  | GetAttestation (u : UID) | GetValidFrom (u : UID)
  | GetIssuanceTimestamp (u : UID) | GetRevocationTimestamp (u : UID)
  | VerifyTimestamp (u : UID) (claim : TimestampAnchor)
  | CheckTimestamp (u : UID) (claim : TimestampAnchor)
  | VerifyMerkleLeaf (u : UID) (leaf : bytes) (proof : list bytes)
  | VerifyMerkleLeafKeccak (u : UID) (leaf : bytes) (proof : list bytes)
  | GetAttesterKey (attester : Address)
  | GetSchemaFee (schema : UID)
  | ReadOnly.

Section calls.
Context {X : Type} `{Deps X}.
Abbreviation MS := (M SasSig X).

Definition ignore {A} (m : MS A) : MS unit := _ ← m; mret tt.

(** [ReadOnly] stands for the remaining getters, which renew the instance
    entry and read a value. *)
Definition exec (c : SasCall) : MS unit :=
  match c with
  | Init a r => init a r
  | Upgrade w v => upgrade w v
  | ProposeAdmin a => propose_admin a
  | AcceptAdmin => accept_admin
  | SetDelegationPolicy a p => set_delegation_policy a p
  | Pause => pause
  | Unpause => unpause
  | SetIndexer i => set_indexer i
  | SetIndexerStrict b => set_indexer_strict b
  | SetTreasury t => set_treasury t
  | SetAutoPrune b => set_auto_prune b
  | SetZkVerifier v => set_zk_verifier v
  | SetFee t z => set_fee t z
  | ClearFee => clear_fee
  | SetAcceptedFee t z => set_accepted_fee t z
  | RemoveAcceptedFee t => remove_accepted_fee t
  | SetFeePerByte z => set_fee_per_byte z
  | SetSchemaZeroFee u b => set_schema_zero_fee u b
  | SetFeeCeilings f b => set_fee_ceilings f b
  | SetSchemaFee u a t f b => set_schema_fee u a t f b
  | ClearSchemaFee u a => clear_schema_fee u a
  | WithdrawTokens a t z d => withdraw_tokens a t z d
  | WithdrawCreatorFees c t z d => withdraw_creator_fees c t z d
  | WithdrawTreasuryFees a t z d => withdraw_treasury_fees a t z d
  | SetIssuanceRateLimit m w => set_issuance_rate_limit m w
  | ClearIssuanceRateLimit => clear_issuance_rate_limit
  | SetRateLimitExempt a b => set_rate_limit_exempt a b
  | Attest a => ignore (attest a)
  | AttestByDelegation a n sg pk => ignore (attest_by_delegation a n sg pk)
  | AttestByScopedDelegation a n sg pk z => ignore (attest_by_scoped_delegation a n sg pk z)
  | AttestWithZk a p n => ignore (attest_with_zk a p n)
  | MultiAttest l => ignore (multi_attest l)
  | MultiAttestByDelegation l ns sgs pks => ignore (multi_attest_by_delegation l ns sgs pks)
  | AttestWithValue a t v => ignore (attest_with_value a t v)
  | BroadcastAttest u rs d ex rv => ignore (broadcast_attest u rs d ex rv)
  | BroadcastAttestByAttester a u rs d ex rv =>
      ignore (broadcast_attest_by_attester a u rs d ex rv)
  | Revoke u => revoke u
  | RevokeByAuthorizer u a => revoke_by_authorizer u a
  | RevokeByDelegate u a => revoke_by_delegate u a
  | RevokeByDelegation u n sg pk => revoke_by_delegation u n sg pk
  | MultiRevoke l => multi_revoke l
  | MultiRevokeByDelegation l ns sgs pks => multi_revoke_by_delegation l ns sgs pks
  | RevokeBySchema sch l a => revoke_by_schema sch l a
  | ReplaceAttestation u a => ignore (replace_attestation u a)
  | ReplaceByDelegationConsent u a x y => ignore (replace_by_delegation_consent u a x y)
  | RenewAttestation u ex => ignore (renew_attestation u ex)
  | PruneExpired l => ignore (prune_expired l)
  | BulkReindex l => ignore (bulk_reindex l)
  | ReindexAttestation u => reindex_attestation u
  | MigrateAttestation u => ignore (migrate_attestation u)
  | MigrateAttestations l => ignore (migrate_attestations l)
  | RegisterAttesterKey a pk => register_attester_key a pk
  | RotateAttesterKey a pk => rotate_attester_key a pk
  | RevokeAttesterKey a => revoke_attester_key a
  | InvalidateNonces a m n => invalidate_nonces a m n
  | SetNonceHighwaterMark a n => set_nonce_highwater_mark a n
  | InvalidateNoncesByDelegation a m x n sg pk =>
      invalidate_nonces_by_delegation a m x n sg pk
  | VerifyOffchainAttestation a n pk sg => ignore (verify_offchain_attestation a n pk sg)
  | VerifyAttestation u => ignore (verify_attestation u)
  | VerifyAttestations l => ignore (verify_attestations l)
  | VerifyAllAttestations l => ignore (verify_all_attestations l)
  | GetAttestation u => ignore (get_attestation u)
  | GetValidFrom u => ignore (get_valid_from u)
  | GetIssuanceTimestamp u => ignore (get_issuance_timestamp u)
  | GetRevocationTimestamp u => ignore (get_revocation_timestamp u)
  | VerifyTimestamp u c => ignore (verify_timestamp u c)
  | CheckTimestamp u c => check_timestamp u c
  | VerifyMerkleLeaf u l p => ignore (verify_merkle_leaf u l p)
  | VerifyMerkleLeafKeccak u l p => ignore (verify_merkle_leaf_keccak u l p)
  | GetAttesterKey a => ignore (get_attester_key a)
  | GetSchemaFee u => ignore (get_schema_fee u)
  | ReadOnly => extend_instance_ttl
  end.

(** One transaction: a failed call leaves the state as it was. *)
Definition transact (e : Env) (c : SasCall) (s : State SasSig X) : State SasSig X :=
  match exec c e s with
  | Ok (_, s') => s'
  | Err _ => s
  end.

Fixpoint run_history (h : list (Env * SasCall)) (s : State SasSig X) : State SasSig X :=
  match h with
  | [] => s
  | (e, c) :: h' => run_history h' (transact e c s)
  end.
End calls.

(** The Rust types of the arguments that reach a stored record. *)
Definition call_typed (c : SasCall) : Prop :=
  match c with
  | Attest a | AttestByDelegation a _ _ _ | AttestByScopedDelegation a _ _ _ _
  | AttestWithZk a _ _ | AttestWithValue a _ _ | ReplaceAttestation _ a
  | ReplaceByDelegationConsent _ a _ _ => att_typed a
  | MultiAttest l | MultiAttestByDelegation l _ _ _ => Forall att_typed l
  | BroadcastAttest _ _ _ ex _ | BroadcastAttestByAttester _ _ _ _ ex _
  | RenewAttestation _ ex => is_u64 ex
  | _ => True
  end.
