(* ===== verification/SasSample.v ===== *)
(** * A concrete instance

    A toy world of other contracts in which SAS runs by computation on the
    concrete host.  It shows that the hypotheses of the theorems can hold and
    is used by their witnesses only. *)

From S2P Require Import Prelude Host Common Sample TypedData Merkle SasState SasCore SasAdmin.
From S2P Require Import SasFees SasIssue SasAttest SasRevoke SasQuery SasCalls.

(** ** Other contracts *)

(** The balances of one token. *)
Definition World : Type := list (Address * Z).

Fixpoint world_balance (w : World) (a : Address) : Z :=
  match w with
  | [] => 0
  | (b, z) :: w' => if bool_decide (a = b) then z else world_balance w' a
  end.

Definition reply {X A} (a : A) : xcall X A := fun _ x => Some (Val a, x).

Definition toy_transfer (from to : Address) (z : Z) : xcall World unit := fun _ w =>
  if (world_balance w from <? z) || (z <? 0) then None
  else Some (Val tt, (from, world_balance w from - z)
                       :: (to, world_balance ((from, world_balance w from - z) :: w) to + z) :: w).

Definition sample_schema_uid : UID := mkUID (key_of 10).
Definition sample_schema : SchemaRecord :=
  mkSchemaRecord sample_schema_uid resolver_id true (bytes_of_string "u64 score") false None.

(** A registry with one open schema, a permissive resolver and no royalty. *)
Definition sample_deps : Deps World := {|
  registry_SASREG _ := reply true;
  registry_sasreg _ := reply true;
  registry_get_schema _ u :=
    reply (if bool_decide (u = sample_schema_uid) then Some sample_schema else None);
  registry_is_schema_quarantined _ _ := reply false;
  registry_get_max_ttl _ _ := reply 0;
  registry_is_authorized _ _ a := reply (bool_decide (a = alice));
  registry_is_attester_authorized _ _ _ := reply false;
  registry_is_schema_restricted _ _ := reply false;
  registry_get_schema_policy _ _ := reply Permissive;
  registry_get_creator _ _ := reply (Some alice);
  registry_get_creator_royalty _ _ := reply 0;
  registry_get_schema_frost_group _ _ := reply None;
  resolver_on_attest _ _ := reply tt;
  resolver_on_revoke _ _ := reply tt;
  indexer_index_attestation _ _ _ _ _ _ := reply tt;
  indexer_set_valid_from _ _ _ := reply tt;
  indexer_handle_revoke _ _ := reply tt;
  indexer_handle_replace _ _ _ := reply tt;
  indexer_handle_renew _ _ _ := reply tt;
  token_transfer _ from to z := toy_transfer from to z;
  token_balance _ a := fun _ w => Some (Val (world_balance w a), w);
  zk_verify_proof _ _ _ := reply true
|}.
#[export] Existing Instance sample_deps.

(** Other contracts that agree to everything and keep what they hold. *)
Definition obliging {X} : Deps X := {|
  registry_SASREG _ := reply true;
  registry_sasreg _ := reply true;
  registry_get_schema _ _ := reply (Some sample_schema);
  registry_is_schema_quarantined _ _ := reply false;
  registry_get_max_ttl _ _ := reply 0;
  registry_is_authorized _ _ _ := reply true;
  registry_is_attester_authorized _ _ _ := reply false;
  registry_is_schema_restricted _ _ := reply false;
  registry_get_schema_policy _ _ := reply Permissive;
  registry_get_creator _ _ := reply (Some alice);
  registry_get_creator_royalty _ _ := reply 0;
  registry_get_schema_frost_group _ _ := reply None;
  resolver_on_attest _ _ := reply tt;
  resolver_on_revoke _ _ := reply tt;
  indexer_index_attestation _ _ _ _ _ _ := reply tt;
  indexer_set_valid_from _ _ _ := reply tt;
  indexer_handle_revoke _ _ := reply tt;
  indexer_handle_replace _ _ _ := reply tt;
  indexer_handle_renew _ _ _ := reply tt;
  token_transfer _ _ _ _ := reply tt;
  token_balance _ _ := reply 0;
  zk_verify_proof _ _ _ := reply true
|}.

(** ** Attestations and histories *)

Definition sample_uid (payload : bytes) : UID :=
  attestation_uid (sample_env 0 []) sample_schema_uid bob alice payload.

Definition sample_att (payload : bytes) (expiration : Z) : Attestation :=
  mkAttestation (sample_uid payload) sample_schema_uid 0 expiration 0 zero_uid bob alice true
    payload 0.

(** The contract initialised by its admin. *)
Definition sample_init : Env * SasCall := (sample_env 100 [root_admin], Init root_admin registry_id).
Definition sample_start : State SasSig World :=
  run_history [sample_init] (empty_state SasSig [(alice, 1000)]).

(** ... and with one attestation by alice about bob, valid until 5000. *)
Definition sample_issue : Env * SasCall := (sample_env 1000 [alice], Attest (sample_att [1; 2; 3] 5000)).
Definition sample_issued : State SasSig World := run_history [sample_issue] sample_start.
Definition sample_revoke : Env * SasCall := (sample_env 2000 [alice], Revoke (sample_uid [1; 2; 3])).
Definition sample_revoked : State SasSig World := run_history [sample_revoke] sample_issued.
