(* ===== verification/SasFrame.v ===== *)
(** * SAS: footprints

    Which storage keys each operation may change.  Every later theorem about a
    key an operation does not name uses these instead of the operation's code. *)

From S2P Require Import Prelude Host Common TypedData Merkle SasState SasCore SasAdmin SasFees.
From S2P Require Import SasIssue SasAttest SasRevoke SasQuery.

(** The storage keys of one attestation. *)
Definition record_key (u : UID) (k : SasPKey) : Prop :=
  k = CompactAttestationKey u \/ k = UidKey u \/ k = VALID_FROM u.
Definition attestation_key (u : UID) (k : SasPKey) : Prop :=
  record_key u k \/ exists b, k = TimestampAnchorKey u b.

(** The keys of the reentrancy guards. *)
Definition guard_key (k : SasIKey) : Prop := k = REENTRANCY_GUARD \/ k = CALL_DEPTH.

Ltac fp_side := solve [auto | unfold attestation_key, record_key, guard_key in *; naive_solver].
Ltac fp_unfold_goal :=
  match goal with |- preserves _ ?m => let h := get_head m in unfold h end.
Ltac fp := intros; fp_unfold_goal; pres.

Section frame.
Context {X : Type} `{Deps X} (I : SasIKey -> Prop) (P : SasPKey -> Prop).
Abbreviation T := (touches (C := SasSig) (X := X) I P).

Lemma fp_extend_instance_ttl : preserves T extend_instance_ttl.
Proof. fp. Qed.
Lemma fp_require_admin : preserves T require_admin.
Proof. fp. Qed.
Lemma fp_require_registry : preserves T require_registry.
Proof. fp. Qed.
Lemma fp_reject_reentrant : preserves T reject_reentrant.
Proof. fp. Qed.
Lemma fp_reject_paused err : preserves T (reject_paused err).
Proof. fp; fp. Qed.
Lemma fp_check r : preserves T (check r).
Proof. fp. Qed.
Lemma fp_probe {A} (f : xcall X A) d : preserves T (probe f d).
Proof. fp. Qed.
Lemma fp_read_attestation u : preserves T (read_attestation u).
Proof. apply (pres_read T (fun _ s => read_record s u)). Qed.
Lemma fp_has_attestation u : preserves T (has_attestation u).
Proof. apply (pres_read T (fun _ s => has_record s u)). Qed.
#[local] Hint Resolve fp_extend_instance_ttl fp_require_admin fp_require_registry
  fp_reject_reentrant fp_reject_paused fp_check fp_probe fp_read_attestation
  fp_has_attestation : sas.

(** *** Guards *)

Lemma fp_exit_reentrancy_guard : I REENTRANCY_GUARD -> preserves T exit_reentrancy_guard.
Proof. fp. Qed.
Lemma fp_enter_reentrancy_guard : I REENTRANCY_GUARD -> preserves T enter_reentrancy_guard.
Proof. fp. Qed.
Lemma fp_enter_callback_context :
  I REENTRANCY_GUARD -> I CALL_DEPTH -> preserves T enter_callback_context.
Proof. fp. Qed.
Lemma fp_exit_callback_context b :
  I REENTRANCY_GUARD -> I CALL_DEPTH -> preserves T (exit_callback_context b).
Proof. fp; fp. Qed.
#[local] Hint Resolve fp_exit_reentrancy_guard fp_enter_reentrancy_guard
  fp_enter_callback_context fp_exit_callback_context : sas.

(** *** Records and anchors *)

Lemma fp_write_attestation a ttl :
  (forall k, record_key (uid a) k -> P k) -> preserves T (write_attestation a ttl).
Proof.
  intros HP; assert (P (CompactAttestationKey (uid a)) /\ P (UidKey (uid a))
    /\ P (VALID_FROM (uid a))) as (? & ? & ?)
    by (split_and!; apply HP; unfold record_key; auto).
  fp; fp.
Qed.
Lemma fp_extend_if_present k ttl : preserves T (extend_if_present k ttl).
Proof. fp. Qed.
#[local] Hint Resolve fp_extend_if_present : sas.
Lemma fp_extend_attestation_ttl u ttl : preserves T (extend_attestation_ttl u ttl).
Proof. fp. Qed.
Lemma fp_write_anchor u b ttl :
  P (TimestampAnchorKey u b) -> preserves T (write_anchor u b ttl).
Proof. fp. Qed.
Lemma fp_remove_anchors u :
  P (TimestampAnchorKey u false) -> P (TimestampAnchorKey u true) ->
  preserves T (remove_anchors u).
Proof. fp. Qed.
#[local] Hint Resolve fp_write_attestation fp_extend_attestation_ttl fp_write_anchor
  fp_remove_anchors : sas.
Lemma fp_remove_attestation u :
  (forall k, attestation_key u k -> P k) -> preserves T (remove_attestation u).
Proof.
  intros HP; assert (forall b, P (TimestampAnchorKey u b)) by (intros; apply HP; right; eauto).
  assert (P (CompactAttestationKey u) /\ P (UidKey u) /\ P (VALID_FROM u))
    as (? & ? & ?) by (split_and!; apply HP; left; unfold record_key; auto).
  fp.
Qed.
Lemma fp_read_and_renew_anchor u b : preserves T (read_and_renew_anchor u b).
Proof. fp. Qed.
Lemma fp_check_claim u c : preserves T (check_claim u c).
Proof. fp; fp. Qed.
Lemma fp_verify_attestation_record u : preserves T (verify_attestation_record u).
Proof. fp. Qed.
#[local] Hint Resolve fp_remove_attestation fp_read_and_renew_anchor fp_check_claim
  fp_verify_attestation_record : sas.

(** *** Fees, quotas, keys and nonces *)

Lemma fp_fee_quote sch size : preserves T (fee_quote sch size).
Proof. fp. Qed.
#[local] Hint Resolve fp_fee_quote : sas.
Lemma fp_require_unpaid_allowed a : preserves T (require_unpaid_allowed a).
Proof. fp. Qed.
Lemma fp_distribute_attestation_fee sch tok v :
  preserves T (distribute_attestation_fee sch tok v).
Proof. fp. Qed.
Lemma fp_consume_issuance_quota a : preserves T (consume_issuance_quota a).
Proof. fp. Qed.
Lemma fp_require_delegation_policy a sch : preserves T (require_delegation_policy a sch).
Proof. fp. Qed.
Lemma fp_registered_key_matches a pk : preserves T (registered_key_matches a pk).
Proof. fp. Qed.
#[local] Hint Resolve fp_registered_key_matches : sas.
Lemma fp_require_attester_key a pk : preserves T (require_attester_key a pk).
Proof. fp. Qed.
Lemma fp_schema_frost_group sch : preserves T (schema_frost_group sch).
Proof. fp. Qed.
#[local] Hint Resolve fp_require_attester_key fp_schema_frost_group : sas.
Lemma fp_require_delegation_key sch a pk : preserves T (require_delegation_key sch a pk).
Proof. fp. Qed.
Lemma fp_verify_offchain_signature h pk sg :
  preserves T (verify_offchain_signature (C := SasSig) InvalidSignature h pk sg).
Proof. fp; fp. Qed.
#[local] Hint Resolve fp_verify_offchain_signature : sas.
Lemma fp_verify_delegated_signature h pk sg g :
  preserves T (verify_delegated_signature h pk sg g).
Proof. fp; fp. Qed.
Lemma fp_require_nonce_not_replayed a n : preserves T (require_nonce_not_replayed a n).
Proof. fp. Qed.
Lemma fp_consume_delegation_nonce a n :
  I (DelegationNonceKey a) -> preserves T (consume_delegation_nonce a n).
Proof. fp. Qed.
Lemma fp_consume_recipient_consent_nonce a n :
  I (RecipientConsentNonceKey a) -> preserves T (consume_recipient_consent_nonce a n).
Proof. fp. Qed.
#[local] Hint Resolve fp_require_unpaid_allowed fp_distribute_attestation_fee
  fp_consume_issuance_quota fp_require_delegation_policy fp_require_delegation_key
  fp_verify_delegated_signature fp_require_nonce_not_replayed
  fp_consume_delegation_nonce fp_consume_recipient_consent_nonce : sas.

(** *** The common issuance and revocation paths *)

Lemma fp_push_to_indexer ix a : preserves T (push_to_indexer ix a).
Proof. fp. Qed.
#[local] Hint Resolve fp_push_to_indexer : sas.
Lemma fp_notify_indexer_of_issuance ix a : preserves T (notify_indexer_of_issuance ix a).
Proof. fp. Qed.
Lemma fp_schema_attester_acl_status r sch a :
  preserves T (schema_attester_acl_status r sch a).
Proof. fp. Qed.
Lemma fp_validate_fields a : preserves T (validate_fields a).
Proof. fp. Qed.
#[local] Hint Resolve fp_notify_indexer_of_issuance fp_schema_attester_acl_status
  fp_validate_fields : sas.
Lemma fp_validate_schema_rules r a : preserves T (validate_schema_rules r a).
Proof. fp. Qed.
#[local] Hint Resolve fp_validate_schema_rules : sas.

Lemma fp_in_callback_context {A} (m : M SasSig X A) :
  I REENTRANCY_GUARD -> I CALL_DEPTH -> preserves T m -> preserves T (in_callback_context m).
Proof. fp. Qed.
Lemma fp_store_issued a :
  (forall k, record_key (uid a) k -> P k) ->
  P (TimestampAnchorKey (uid a) false) -> preserves T (store_issued a).
Proof. fp. Qed.
#[local] Hint Resolve fp_in_callback_context fp_store_issued : sas.
Lemma fp_attest_body a :
  (forall k, record_key (uid a) k -> P k) ->
  P (TimestampAnchorKey (uid a) false) -> preserves T (attest_body a).
Proof. fp. Qed.
Lemma fp_store_revoked u :
  (forall v k, record_key v k -> P k) -> (forall v, P (TimestampAnchorKey v true)) ->
  preserves T (store_revoked u).
Proof. fp. Qed.
Lemma fp_consult_on_revocation u a : preserves T (consult_on_revocation u a).
Proof. fp. Qed.
#[local] Hint Resolve fp_store_revoked fp_consult_on_revocation : sas.
Lemma fp_revoke_body u :
  (forall v k, record_key v k -> P k) -> (forall v, P (TimestampAnchorKey v true)) ->
  preserves T (revoke_body u).
Proof. fp. Qed.
#[local] Hint Resolve fp_attest_body fp_revoke_body : sas.

Lemma fp_attest_internal a :
  I REENTRANCY_GUARD -> I CALL_DEPTH -> (forall k, record_key (uid a) k -> P k) ->
  P (TimestampAnchorKey (uid a) false) -> preserves T (attest_internal a).
Proof. fp. Qed.

Lemma fp_revoke_internal u :
  I REENTRANCY_GUARD -> I CALL_DEPTH ->
  (forall v k, record_key v k -> P k) -> (forall v, P (TimestampAnchorKey v true)) ->
  preserves T (revoke_internal u).
Proof. fp. Qed.
(** *** Helpers of the entry points *)

Lemma fp_admin_prologue : preserves T admin_prologue.
Proof. fp. Qed.
Lemma fp_require_creator_or_admin sch a : preserves T (require_creator_or_admin sch a).
Proof. fp. Qed.
Lemma fp_get_fee_ceilings : preserves T get_fee_ceilings.
Proof. fp. Qed.
Lemma fp_get_schema_fee sch : preserves T (get_schema_fee sch).
Proof. fp. Qed.
Lemma fp_require_treasury_authority a : preserves T (require_treasury_authority a).
Proof. fp. Qed.
Lemma fp_debit_and_pay bal amt f tok d a :
  (forall z, preserves T (f z)) -> preserves T (debit_and_pay bal amt f tok d a).
Proof. fp. Qed.
Lemma fp_credit_treasury tok z :
  P (TREASURY_FEES tok) -> preserves T (credit_treasury tok z).
Proof. fp. Qed.
Lemma fp_credit_creator c tok z :
  P (CREATOR_FEES c tok) -> preserves T (credit_creator c tok z).
Proof. fp. Qed.
Lemma fp_check_fee_value tok v c t o : preserves T (check_fee_value tok v c t o).
Proof. fp. Qed.
#[local] Hint Resolve fp_admin_prologue fp_require_creator_or_admin fp_get_fee_ceilings
  fp_get_schema_fee fp_require_treasury_authority fp_debit_and_pay fp_credit_treasury
  fp_credit_creator fp_check_fee_value : sas.
Lemma fp_collect_fee a tok v b c d :
  P (TREASURY_FEES tok) -> (forall cr, P (CREATOR_FEES cr tok)) ->
  preserves T (collect_fee a tok v b c d).
Proof. fp. Qed.
Lemma fp_authorize_delegated a n sg pk :
  I (DelegationNonceKey (attester a)) -> preserves T (authorize_delegated a n sg pk).
Proof. fp. Qed.
Lemma fp_authorize_delegated_revocation u a n sg pk :
  preserves T (authorize_delegated_revocation u a n sg pk).
Proof. fp. Qed.
Lemma fp_check_revocable_item u seen : preserves T (check_revocable_item u seen).
Proof. fp. Qed.
#[local] Hint Resolve fp_collect_fee fp_authorize_delegated
  fp_authorize_delegated_revocation fp_check_revocable_item : sas.
Lemma fp_multi_revoke_validate l seen d : preserves T (multi_revoke_validate l seen d).
Proof. revert seen d; induction l; intros; simpl; pres. Qed.
Lemma fp_require_all_auth l : preserves T (require_all_auth l).
Proof. induction l; simpl; pres. Qed.
Lemma fp_multi_revoke_by_delegation_validate l ns sgs pks seen d :
  preserves T (multi_revoke_by_delegation_validate l ns sgs pks seen d).
Proof. revert ns sgs pks seen d; induction l; intros; simpl; pres. Qed.
Lemma fp_revoke_by_schema_validate sch l seen :
  preserves T (revoke_by_schema_validate sch l seen).
Proof. revert seen; induction l; intros; simpl; pres. Qed.
Lemma fp_store_key_record a r :
  P (ATTESTER_KEY a) -> preserves T (store_key_record a r).
Proof. fp. Qed.
Lemma fp_require_active_key a : preserves T (require_active_key a).
Proof. fp. Qed.
Lemma fp_invalidate_nonces_internal a m n :
  I (DelegationNonceKey a) -> preserves T (invalidate_nonces_internal a m n).
Proof. fp. Qed.
Lemma fp_read_full_record u : preserves T (read_full_record u).
Proof. fp. Qed.
Lemma fp_verify_loop l r : preserves T (verify_loop l r).
Proof. revert r; induction l; intros; simpl; pres. Qed.
Lemma fp_verify_all_loop l : preserves T (verify_all_loop l).
Proof. induction l; simpl; pres. Qed.
Lemma fp_verify_leaf u l p h : preserves T (verify_leaf u l p h).
Proof. fp. Qed.
Lemma fp_bulk_reindex_loop ix l f : preserves T (bulk_reindex_loop ix l f).
Proof. revert f; induction l; intros; simpl; pres. Qed.
End frame.

#[export] Hint Resolve fp_extend_instance_ttl fp_require_admin fp_require_registry
  fp_reject_reentrant fp_reject_paused fp_check fp_probe fp_read_attestation
  fp_has_attestation fp_exit_reentrancy_guard fp_enter_reentrancy_guard
  fp_enter_callback_context fp_exit_callback_context fp_write_attestation
  fp_extend_if_present fp_extend_attestation_ttl fp_write_anchor fp_remove_anchors
  fp_remove_attestation fp_read_and_renew_anchor fp_check_claim
  fp_verify_attestation_record fp_fee_quote fp_require_unpaid_allowed
  fp_distribute_attestation_fee fp_consume_issuance_quota fp_require_delegation_policy
  fp_registered_key_matches fp_require_attester_key fp_schema_frost_group
  fp_require_delegation_key fp_verify_offchain_signature fp_verify_delegated_signature
  fp_require_nonce_not_replayed fp_consume_delegation_nonce
  fp_consume_recipient_consent_nonce fp_push_to_indexer fp_notify_indexer_of_issuance
  fp_schema_attester_acl_status fp_validate_fields fp_validate_schema_rules
  fp_in_callback_context fp_store_issued fp_attest_body fp_store_revoked
  fp_consult_on_revocation fp_revoke_body
  fp_attest_internal fp_revoke_internal
  fp_admin_prologue fp_require_creator_or_admin fp_get_fee_ceilings fp_get_schema_fee
  fp_require_treasury_authority fp_debit_and_pay fp_credit_treasury fp_credit_creator
  fp_check_fee_value fp_collect_fee fp_authorize_delegated
  fp_authorize_delegated_revocation fp_check_revocable_item fp_multi_revoke_validate
  fp_require_all_auth fp_multi_revoke_by_delegation_validate
  fp_revoke_by_schema_validate fp_store_key_record fp_require_active_key
  fp_invalidate_nonces_internal fp_read_full_record fp_verify_loop fp_verify_all_loop
  fp_verify_leaf fp_bulk_reindex_loop : sas.

(** The batches write attestations, the guards and nonces only. *)
Section frame_loops.
Context {X : Type} `{Deps X} (I : SasIKey -> Prop) (P : SasPKey -> Prop).
Abbreviation T := (touches (C := SasSig) (X := X) I P).
Context (Hg : I REENTRANCY_GUARD) (Hd : I CALL_DEPTH) (Hn : forall a, I (DelegationNonceKey a))
  (HP : forall u k, attestation_key u k -> P k).

Lemma fp_records u k : record_key u k -> P k.
Proof. intros; apply (HP u); by left. Qed.
Lemma fp_anchors u b : P (TimestampAnchorKey u b).
Proof. apply (HP u); right; by eexists. Qed.
#[local] Hint Resolve fp_records fp_anchors : sas.

Lemma fp_multi_attest_loop l seen uids : preserves T (multi_attest_loop l seen uids).
Proof. revert seen uids; induction l; intros; simpl; pres. Qed.
Lemma fp_multi_attest_by_delegation_loop l ns sgs pks seen uids :
  preserves T (multi_attest_by_delegation_loop l ns sgs pks seen uids).
Proof. revert ns sgs pks seen uids; induction l; intros; simpl; pres. Qed.
Lemma fp_broadcast_loop a sch rs seen d ex rv uids :
  preserves T (broadcast_loop a sch rs seen d ex rv uids).
Proof. revert seen uids; induction rs; intros; simpl; pres. Qed.
Lemma fp_revoke_all l : preserves T (revoke_all l).
Proof. induction l; simpl; pres. Qed.
Lemma fp_multi_revoke_by_delegation_commit l ns :
  preserves T (multi_revoke_by_delegation_commit l ns).
Proof. revert ns; induction l; intros; simpl; pres. Qed.
Lemma fp_prune_loop l n : preserves T (prune_loop l n).
Proof. revert n; induction l; intros; simpl; pres. Qed.
Lemma fp_migrate_loop l n : preserves T (migrate_loop l n).
Proof.
  assert (forall u, P (UidKey u) /\ P (VALID_FROM u)) as HU.
  { intros u; split; apply (fp_records u); unfold record_key; auto. }
  revert n; induction l as [|u l IH]; intros; simpl; pres.
  destruct (HU u); fp; fp.
Qed.
End frame_loops.

#[export] Hint Resolve fp_multi_attest_loop fp_multi_attest_by_delegation_loop
  fp_broadcast_loop fp_revoke_all fp_multi_revoke_by_delegation_commit fp_prune_loop
  fp_migrate_loop : sas.
