(* ===== verification/SasRecord.v ===== *)
(** * SAS: the record layer

    What the stored record of a UID is after a write, a removal, or an
    operation with a footprint elsewhere. *)

From S2P Require Import Prelude Host Common TypedData Merkle SasState SasCore SasAdmin SasFees.
From S2P Require Import SasIssue SasAttest SasRevoke SasQuery SasFrame.

(** Records are stored under their own UID and within their Rust types. *)
Definition records_ok {X} (s : State SasSig X) : Prop :=
  forall u a, read_record s u = Some a -> uid a = u /\ att_typed a.

(** A record in the legacy layout has no companion in the newer ones. *)
Definition legacy_alone {X} (s : State SasSig X) : Prop :=
  forall u a, pget s (UidKey u) = Some (StoredLegacy a) ->
    pget s (CompactAttestationKey u) = None /\ pget s (VALID_FROM u) = None.

(** The parts of the state a record write leaves alone. *)
Definition same_rest {X} (s s' : State SasSig X) : Prop :=
  inst s' = inst s /\ inst_live s' = inst_live s /\ temp s' = temp s
  /\ events s' = events s /\ ext s' = ext s.

Section record.
Context {X : Type}.
Implicit Types (s : State SasSig X) (e : Env).

Lemma read_record_touch I P e s s' u :
  touches I P e s s' -> (forall k, record_key u k -> ~ P k) ->
  read_record s' u = read_record s u.
Proof.
  intros [_ HP] Hk; unfold read_record.
  rewrite !HP by (apply Hk; unfold record_key; auto); done.
Qed.

Lemma has_record_touch I P e s s' u :
  touches I P e s s' -> (forall k, record_key u k -> ~ P k) ->
  has_record s' u = has_record s u.
Proof.
  intros [_ HP] Hk; unfold has_record.
  rewrite !HP by (apply Hk; unfold record_key; auto); done.
Qed.

Lemma has_record_read s u : has_record s u = true <-> is_Some (read_record s u).
Proof.
  unfold has_record, read_record; rewrite orb_true_iff, !bool_decide_eq_true.
  destruct (pget s (CompactAttestationKey u)) as [c|]; simpl; [split; eauto|].
  destruct (pget s (UidKey u)) as [[c|a]|]; simpl; split; eauto.
  - by intros [[? [=]]|[? [=]]].
  - by intros [? [=]].
Qed.

Lemma has_record_false s u : has_record s u = false -> read_record s u = None.
Proof.
  intros H; apply eq_None_not_Some; intros Hs%has_record_read; congruence.
Qed.

Lemma upd_pers_same_rest k o s : same_rest s (upd_pers k o s).
Proof. done. Qed.

Lemma same_rest_trans s1 s2 s3 : same_rest s1 s2 -> same_rest s2 s3 -> same_rest s1 s3.
Proof.
  intros (? & ? & ? & ? & ?) (? & ? & ? & ? & ?); unfold same_rest.
  split_and!; congruence.
Qed.

(** Writing a value and extending its lifetime. *)
Lemma put_run k v ttl e s :
  exists s', pers_put k v ttl e s = Ok (tt, s')
    /\ same_rest s s' /\ pget s' k = Some v
    /\ (forall k', k' <> k -> pget s' k' = pget s k').
Proof.
  destruct (pers_put_run (X := X) k v ttl e s) as (l1 & l2 & E).
  eexists; split; [exact E|]; split_and!; [done|apply pget_upd_eq|].
  intros k' Hk; by rewrite !pget_upd_ne by done.
Qed.

Lemma write_record_entry_run a ttl e s :
  exists s', write_record_entry a ttl e s = Ok (tt, s')
    /\ same_rest s s'
    /\ (forall k, k <> CompactAttestationKey (uid a) -> k <> UidKey (uid a) ->
         pget s' k = pget s k)
    /\ ((is_Some (pget s (CompactAttestationKey (uid a)))
         /\ pget s' (CompactAttestationKey (uid a)) = Some (from_attestation a)
         /\ pget s' (UidKey (uid a)) = pget s (UidKey (uid a)))
        \/ (pget s' (CompactAttestationKey (uid a)) = None
            /\ pget s' (UidKey (uid a)) = Some (StoredCompact (from_attestation a)))).
Proof.
  unfold write_record_entry, pers_has, mbind at 1, M_bind at 1; cbv beta iota.
  case_bool_decide as Hc.
  - destruct (put_run (CompactAttestationKey (uid a)) (from_attestation a) ttl e s)
      as (s1 & E & Hr & Hv & Hk); exists s1; split_and!; auto.
  - destruct (put_run (UidKey (uid a)) (StoredCompact (from_attestation a)) ttl e s)
      as (s1 & E & Hr & Hv & Hk); exists s1; split_and!; auto.
    right; split; [|done]; rewrite Hk by done; by apply eq_None_not_Some.
Qed.

Lemma write_valid_from_entry_run a ttl e s :
  exists s', write_valid_from_entry a ttl e s = Ok (tt, s')
    /\ same_rest s s'
    /\ (forall k, k <> VALID_FROM (uid a) -> pget s' k = pget s k)
    /\ default 0 (pget s' (VALID_FROM (uid a))) = valid_from a.
Proof.
  unfold write_valid_from_entry; destruct (valid_from a =? 0) eqn:Ez; cbn [negb].
  - apply Z.eqb_eq in Ez; rewrite Ez; unfold pers_has, mbind, M_bind; cbv beta iota.
    case_bool_decide as Hv.
    + eexists; split; [done|]; split_and!; [done| |by rewrite pget_remove_eq].
      intros k Hne; by rewrite pget_upd_ne.
    + exists s; split_and!; try done.
      by apply eq_None_not_Some in Hv as ->.
  - destruct (put_run (VALID_FROM (uid a)) (valid_from a) ttl e s)
      as (s2 & E & Hr & Hv & Hk); exists s2; split_and!; auto; by rewrite Hv.
Qed.

(** Writing always succeeds, and reading returns what was written. *)
Lemma write_attestation_run a ttl e s :
  exists s', write_attestation a ttl e s = Ok (tt, s')
    /\ same_rest s s'
    /\ (forall k, ~ record_key (uid a) k -> pget s' k = pget s k)
    /\ (att_typed a -> read_record s' (uid a) = Some a).
Proof.
  destruct (write_record_entry_run a ttl e s) as (s1 & E1 & Hr1 & Hk1 & Hv1).
  destruct (write_valid_from_entry_run a ttl e s1) as (s2 & E2 & Hr2 & Hk2 & Hv2).
  exists s2; split_and!.
  - unfold write_attestation; by rewrite (bind_run _ _ _ _ _ _ E1).
  - by eapply same_rest_trans.
  - unfold record_key; intros k Hk.
    rewrite Hk2, Hk1 by (intros ->; apply Hk; auto); done.
  - intros Ht; apply to_from_attestation in Ht as Hf.
    unfold read_record.
    rewrite (Hk2 (CompactAttestationKey (uid a))), (Hk2 (UidKey (uid a))) by done.
    destruct (pget s2 (VALID_FROM (uid a))) as [v|]; simpl in Hv2;
      destruct Hv1 as [(_ & -> & _)|[-> ->]]; simpl; rewrite Hf; clear Hf;
      destruct a; simpl in *; by subst.
Qed.

Lemma write_attestation_ok a ttl e s r s' :
  write_attestation a ttl e s = Ok (r, s') ->
  same_rest s s'
  /\ (forall k, ~ record_key (uid a) k -> pget s' k = pget s k)
  /\ (att_typed a -> read_record s' (uid a) = Some a).
Proof.
  destruct (write_attestation_run a ttl e s) as (s1 & -> & Hs1).
  by intros [= _ <-].
Qed.

(** Removing an attestation leaves no record. *)
Lemma remove_attestation_ok u e s r s' :
  remove_attestation u e s = Ok (r, s') ->
  read_record s' u = None /\ pget s' (UidKey u) = None
  /\ (forall k, ~ attestation_key u k -> pget s' k = pget s k).
Proof.
  unfold remove_attestation, remove_anchors; intros Hr; run_inv.
  match goal with |- read_record ?s1 u = _ /\ _ => set (s1' := s1) end.
  assert (pget s1' (CompactAttestationKey u) = None) as H1
    by (unfold s1'; rewrite !pget_upd_ne by done; exact (pget_remove_eq _ _)).
  assert (pget s1' (UidKey u) = None) as H2
    by (unfold s1'; rewrite !pget_upd_ne by done; exact (pget_remove_eq _ _)).
  split_and!; [by unfold read_record; rewrite H1, H2|done|].
  intros k Hk; unfold attestation_key, record_key in Hk; unfold s1'.
  rewrite !pget_upd_ne; [done|intros <-..]; apply Hk; eauto 6.
Qed.

(** An anchor is written once, with the current ledger. *)
Lemma write_anchor_ok u b ttl e s r s' :
  write_anchor u b ttl e s = Ok (r, s') ->
  pget s (TimestampAnchorKey u b) = None
  /\ pget s' (TimestampAnchorKey u b) = Some (mkTimestampAnchor (sequence e) (timestamp e))
  /\ (forall k, k <> TimestampAnchorKey u b -> pget s' k = pget s k)
  /\ same_rest s s'.
Proof.
  unfold write_anchor; intros Hr; run_inv; bool_facts.
  split_and!; [by apply eq_None_not_Some|by rewrite pget_upd_eq| |done].
  intros k Hk; by rewrite !pget_upd_ne by done.
Qed.
End record.
