(* ===== verification/SasIssueSpec.v ===== *)
(** * SAS: what issuance guarantees

    The exact conditions under which an attestation's own fields are accepted,
    what a successful [attest_internal] leaves behind, and the balance of the
    reentrancy guards around it; and that issuing reaches the other contracts
    through its nested calls only. *)

From stdpp Require Import relations.
From S2P Require Import Values.
From S2P Require Import Prelude Host Common TypedData Merkle SasState SasCore SasAdmin SasFees.
From S2P Require Import SasIssue SasAttest SasRevoke SasQuery SasFrame SasRecord.

(** ** Guards *)

Definition guarded {X} (s : State SasSig X) : bool := default false (inst s REENTRANCY_GUARD).
Definition call_depth {X} (s : State SasSig X) : Z := default 0 (inst s CALL_DEPTH).
(** What the guard entries say is the same. *)
Definition guards_eq {X} (s s' : State SasSig X) : Prop :=
  guarded s' = guarded s /\ call_depth s' = call_depth s.

Section guards.
Context {X : Type}.
Implicit Types (s : State SasSig X) (e : Env).

Lemma inst_upd_eq (k : SasIKey) (o : option (sas_ival k)) s :
  inst (upd_inst (store_update (K := SasIKey) (V := sas_ival) k o) s) k = o.
Proof. apply (store_update_eq (K := SasIKey) (V := sas_ival)). Qed.
Lemma inst_upd_ne (k k' : SasIKey) (o : option (sas_ival k)) s :
  k <> k' -> inst (upd_inst (store_update (K := SasIKey) (V := sas_ival) k o) s) k' = inst s k'.
Proof. apply (store_update_ne (K := SasIKey) (V := sas_ival)). Qed.

Lemma enter_callback_context_ok e s b s' :
  enter_callback_context e s = Ok (b, s') ->
  b = negb (guarded s) /\ inst s' CALL_DEPTH = Some (call_depth s + 1)
  /\ guarded s' = true.
Proof.
  unfold enter_callback_context, guarded, call_depth; intros Hr; run_inv.
  destruct (default false (inst s REENTRANCY_GUARD)) eqn:Eg; simpl in *; run_inv;
    (split; [done|]).
  - rewrite inst_upd_eq, inst_upd_ne by done; by rewrite Eg.
  - rewrite inst_upd_eq, inst_upd_ne, inst_upd_eq by done; done.
Qed.

Lemma exit_callback_context_ok b e s u s' :
  0 < call_depth s ->
  exit_callback_context b e s = Ok (u, s') ->
  call_depth s' = call_depth s - 1
  /\ guarded s' = (if b then false else guarded s).
Proof.
  unfold exit_callback_context, exit_reentrancy_guard; intros Hd Hr; run_inv.
  fold (call_depth s) in *.
  destruct (call_depth s <=? 1) eqn:Ed; bool_facts; destruct b; run_inv;
    unfold guarded, call_depth in *;
    repeat first [rewrite inst_upd_eq | rewrite inst_upd_ne by done]; simpl;
    split; try done; lia.
Qed.

(** An operation that leaves the guard entries alone is balanced by the
    callback bracket. *)
Lemma in_callback_context_guards {A} (m : M SasSig X A) e s r s' :
  preserves (touches (fun k => ~ guard_key k) (fun _ => True)) m ->
  0 <= call_depth s ->
  in_callback_context m e s = Ok (r, s') -> guards_eq s s'.
Proof.
  intros Hm Hd Hr; unfold in_callback_context in Hr; run_inv.
  match goal with Hr : enter_callback_context _ _ = _ |- _ =>
    apply enter_callback_context_ok in Hr as (-> & Hd1 & Hg1) end.
  match goal with Hr : m _ _ = _ |- _ => apply Hm in Hr as [Hi _] end.
  match goal with Hr : exit_callback_context _ _ ?s1 = _ |- _ =>
    apply exit_callback_context_ok in Hr as [Hd2 Hg2] end.
  - unfold guards_eq; rewrite Hg2, Hd2; unfold call_depth, guarded in *.
    rewrite (Hi CALL_DEPTH), (Hi REENTRANCY_GUARD), Hd1, Hg1 by (unfold guard_key; tauto).
    simpl; split; [by destruct (default false (inst s REENTRANCY_GUARD))|lia].
  - unfold call_depth; rewrite (Hi CALL_DEPTH), Hd1 by (unfold guard_key; tauto).
    simpl; unfold call_depth in *; lia.
Qed.
End guards.

(** ** Accepted fields *)

Definition live_at (e : Env) (expiration : Z) : Prop :=
  expiration = 0 \/ timestamp e < expiration.

Lemma validate_expiration_None e ex : validate_expiration e ex = None <-> live_at e ex.
Proof.
  unfold validate_expiration, live_at.
  destruct (ex =? 0) eqn:E1, (ex <=? timestamp e) eqn:E2; simpl; bool_facts;
    split; try done; try lia; auto.
Qed.

Definition real_party (a : Address) : Prop := a <> ZERO_ACCOUNT /\ a <> ZERO_CONTRACT.

Lemma validate_recipient_None r : validate_recipient r = None <-> real_party r.
Proof.
  unfold validate_recipient, real_party; repeat case_bool_decide; simpl; split; try done; tauto.
Qed.

Lemma validate_attestation_parties_None r a :
  validate_attestation_parties r a = None <-> real_party r /\ real_party a /\ r <> a.
Proof.
  unfold validate_attestation_parties.
  rewrite <- (validate_recipient_None r), <- (validate_recipient_None a).
  destruct (validate_recipient r), (validate_recipient a);
    try (split; [done|by intros (? & ? & _)]).
  case_bool_decide; split; [done|by intros (_ & _ & ?)|auto|done].
Qed.

(** What [attest_internal] demands of an attestation's own fields. *)
Record fields_valid {X} (e : Env) (s : State SasSig X) (a : Attestation) : Prop := {
  fv_size : len (data a) <= MAX_ATTESTATION_DATA_BYTES;
  fv_fresh : read_record s (uid a) = None;
  fv_uid : uid a = attestation_uid e (att_schema_uid a) (recipient a) (attester a) (data a);
  fv_live : live_at e (expiration_time a);
  fv_range : 0 < expiration_time a -> valid_from a < expiration_time a;
  fv_recipient : real_party (recipient a);
  fv_attester : real_party (attester a);
  fv_distinct : recipient a <> attester a;
  fv_ref_self : ref_uid a <> uid a;
  fv_ref : ref_uid a = zero_uid \/ is_Some (read_record s (ref_uid a))
}.

Section fields.
Context {X : Type}.
Implicit Types (s : State SasSig X) (e : Env).

Lemma validate_fields_valid a e s u s' :
  validate_fields a e s = Ok (u, s') -> fields_valid e s a /\ s' = s.
Proof.
  unfold validate_fields; intros Hr; sas_inv.
  match goal with H : validate_attestation_parties _ _ = None |- _ =>
    apply validate_attestation_parties_None in H as (? & ? & ?) end.
  match goal with H : validate_expiration _ _ = None |- _ =>
    apply validate_expiration_None in H end.
  split; [|done]; split; bool_facts; auto using has_record_false.
  - intros ?; match goal with H : ((0 <? _) && _)%bool = false |- _ =>
      apply andb_false_iff in H as [H|H] end; bool_facts; lia.
  - match goal with H : (_ && negb _)%bool = false |- _ =>
      apply andb_false_iff in H as [H|H] end; bool_facts; [by left|right].
    by apply has_record_read.
Qed.

Lemma valid_fields_accepted a e s :
  fields_valid e s a -> validate_fields a e s = Ok (tt, s).
Proof.
  intros [Hs Hf Hu Hl Hr Hrc Hat Hd Hself Href]; unfold validate_fields.
  assert (has_record s (uid a) = false) as Hh.
  { apply not_true_iff_false; rewrite has_record_read, Hf; by intros [? [=]]. }
  sas_run.
  - unfold panic_if; destruct Href as [->|Href%has_record_read]; [done|].
    by rewrite Href, andb_false_r.
  - by apply bool_decide_eq_false_2.
  - by apply validate_attestation_parties_None.
  - destruct (0 <? expiration_time a) eqn:E; [|done]; bool_facts; apply Z.leb_gt; auto.
  - by apply validate_expiration_None.
  - by rewrite bool_decide_eq_true_2.
  - by apply Z.ltb_ge.
Qed.
End fields.

(** ** Accepted by the schema *)

(** The calls SAS makes to the other contracts. *)
Inductive sas_call {X} `{Deps X} : forall {A}, xcall X A -> Prop :=
  | call_SASREG r : sas_call (registry_SASREG r)
  | call_sasreg r : sas_call (registry_sasreg r)
  | call_get_schema r u : sas_call (registry_get_schema r u)
  | call_is_schema_quarantined r u : sas_call (registry_is_schema_quarantined r u)
  | call_get_max_ttl r u : sas_call (registry_get_max_ttl r u)
  | call_is_authorized r u a : sas_call (registry_is_authorized r u a)
  | call_is_attester_authorized r u a : sas_call (registry_is_attester_authorized r u a)
  | call_is_schema_restricted r u : sas_call (registry_is_schema_restricted r u)
  | call_get_schema_policy r u : sas_call (registry_get_schema_policy r u)
  | call_get_creator r u : sas_call (registry_get_creator r u)
  | call_get_creator_royalty r u : sas_call (registry_get_creator_royalty r u)
  | call_get_schema_frost_group r u : sas_call (registry_get_schema_frost_group r u)
  | call_on_attest r a : sas_call (resolver_on_attest r a)
  | call_on_revoke r a : sas_call (resolver_on_revoke r a)
  | call_index_attestation r u a v b t : sas_call (indexer_index_attestation r u a v b t)
  | call_set_valid_from r u t : sas_call (indexer_set_valid_from r u t)
  | call_handle_revoke r u : sas_call (indexer_handle_revoke r u)
  | call_handle_replace r u v : sas_call (indexer_handle_replace r u v)
  | call_handle_renew r u t : sas_call (indexer_handle_renew r u t)
  | call_transfer t a b z : sas_call (token_transfer t a b z)
  | call_balance t a : sas_call (token_balance t a)
  | call_verify_proof r b l : sas_call (zk_verify_proof r b l).

(** The state of the other contracts after some of these calls. *)
Definition reached {X} `{Deps X} : relation X :=
  rtc (fun x x' => exists A (f : xcall X A) e r, sas_call f /\ f e x = Some (r, x')).
#[export] Instance reached_preorder {X} `{Deps X} : PreOrder reached.
Proof. unfold reached; typeclasses eauto. Qed.

Lemma reached_call {X} `{Deps X} {A} (f : xcall X A) : sas_call f -> respects reached f.
Proof. intros Hf e x r x' Hx; apply rtc_once; eauto 8. Qed.
#[export] Hint Extern 1 (respects reached _) => (apply reached_call; constructor) : sas.

(** When the others are in the state [x0] at the start of a call of SAS, the
    callee answers [v] in a state the call reaches. *)
Definition answered {X} `{Deps X} (x0 : X) {A} (f : xcall X A) (e : Env) (v : A) : Prop :=
  exists x x', reached x0 x /\ f e x = Some (Val v, x').

Lemma answered_before {X} `{Deps X} (x0 x : X) {A} (f : xcall X A) e v :
  reached x0 x -> answered x f e v -> answered x0 f e v.
Proof. intros H0 (y & y' & Hy & Hf); exists y, y'; split; [by transitivity x|done]. Qed.
Lemma answered_now {X} `{Deps X} (x x' : X) {A} (f : xcall X A) e v :
  f e x = Some (Val v, x') -> answered x f e v.
Proof. intros Hf; exists x, x'; split; [reflexivity|done]. Qed.

(** What the registry said about a schema and an attester when an attestation
    was accepted. *)
Record schema_accepts {X} `{Deps X} (e : Env) (x0 : X) (registry : Address) (a : Attestation)
    (schema : SchemaRecord) : Prop := {
  sa_schema : answered x0 (registry_get_schema registry (att_schema_uid a)) e (Some schema);
  sa_attester :
    answered x0 (registry_is_authorized registry (att_schema_uid a) (attester a)) e true
    \/ answered x0 (registry_is_attester_authorized registry (att_schema_uid a) (attester a)) e true
}.

(** Relate the first and last state of a sequence of runs in the context. *)
Ltac chain_same := solve [unfold through; reflexivity].
Ltac chain_step :=
  match goal with
  | |- _ => reflexivity
  | Hr : ?m ?e ?s1 = Ok (?r, ?s') |- ?R ?e _ ?s' =>
      transitivity s1; [|refine ((_ : preserves R m) e s1 r s' Hr); solve [pres_open]]
  | |- ?R ?e _ ?s' =>
      match s' with
      | upd_inst_live _ ?s1 => transitivity s1; [|chain_same]
      | upd_events _ ?s1 => transitivity s1; [|chain_same]
      | upd_pers _ _ ?s1 => transitivity s1; [|chain_same]
      end
  end.
Ltac chain := repeat chain_step.

Section issuance.
Context {X : Type} `{Deps X}.
Implicit Types (s : State SasSig X) (e : Env).

Lemma probe_true (f : xcall X bool) e s s' :
  probe f false e s = Ok (true, s') -> answered (ext s) f e true.
Proof. intros (x & _ & [Hf|[? _]])%probe_ok; [by eapply answered_now|done]. Qed.

Lemma validate_schema_rules_ok registry a e s schema s' :
  validate_schema_rules registry a e s = Ok (schema, s') ->
  schema_accepts e (ext s) registry a schema.
Proof.
  unfold validate_schema_rules; intros Hr; sas_inv.
  match goal with H : probe (registry_is_authorized _ _ _) _ _ ?s3 = Ok (?b, ?s4) |- _ =>
    assert (through reached e s s3) as R3 by chain; assert (through reached e s s4) as R4 by chain end.
  split.
  { match goal with H : invoke _ _ _ = Ok (Some _, _) |- _ => apply invoke_ok in H as (x & Hs & _) end.
    by eapply answered_now. }
  match goal with H : probe (registry_is_authorized _ _ _) _ _ _ = Ok (?b, _) |- _ =>
    destruct b; [left; apply (answered_before _ _ _ _ _ R3); by eapply probe_true|right]; clear H end.
  apply (answered_before _ _ _ _ _ R4); unfold schema_attester_acl_status in *; simpl in *; sas_inv.
  match goal with H : probe (registry_is_attester_authorized _ _ _) _ _ _ = Ok (?b, _) |- _ =>
    destruct b; [by eapply probe_true|] end.
  sas_inv; simpl in *; sas_inv.
Qed.

(** An operation without a storage footprint. *)
Abbreviation silent := (touches (C := SasSig) (X := X) (fun _ => False) (fun _ => False)).

Lemma read_record_silent e s s' u : silent e s s' -> read_record s' u = read_record s u.
Proof. intros Ht; eapply read_record_touch; eauto. Qed.

Lemma pget_silent e s s' k : silent e s s' -> pget s' k = pget s k.
Proof. intros [_ Hp]; apply Hp; auto. Qed.

Lemma store_issued_ok a e s u s' :
  att_typed a -> is_u64 (timestamp e) ->
  store_issued a e s = Ok (u, s') ->
  u = uid a
  /\ read_record s' (uid a) = Some (with_time (timestamp e) a)
  /\ pget s (TimestampAnchorKey (uid a) false) = None
  /\ pget s' (TimestampAnchorKey (uid a) false)
     = Some (mkTimestampAnchor (sequence e) (timestamp e)).
Proof.
  intros Hty Hts; unfold store_issued; intros Hr; sas_inv.
  match goal with H : write_attestation _ _ _ _ = _ |- _ =>
    apply write_attestation_ok in H as (_ & Hk & Hv) end.
  match goal with H : write_anchor _ _ _ _ _ = _ |- _ =>
    pose proof (fp_write_anchor (fun _ => False) (fun k => k = TimestampAnchorKey (uid a) false)
      _ _ _ eq_refl _ _ _ _ H) as Ht;
    apply write_anchor_ok in H as (Hnone & Ha & _) end.
  match goal with H : ?m e ?s2 = Ok (_, ?s3) |- _ =>
    assert (silent e s2 s3) as Hsil by (eapply (_ : preserves silent m); exact H);
    split_and!; [done| | |];
    [ change (read_record s3 (uid a) = Some (with_time (timestamp e) a))
    | | change (pget s3 (TimestampAnchorKey (uid a) false)
                = Some (mkTimestampAnchor (sequence e) (timestamp e))) ] end.
  - rewrite (read_record_silent _ _ _ _ Hsil), (read_record_touch _ _ _ _ _ _ Ht).
    + apply Hv; auto with sas.
    + by intros k [-> | [-> | ->]].
  - rewrite <- Hk; [done|]; by intros [? | [? | ?]].
  - by rewrite (pget_silent _ _ _ _ Hsil).
  Unshelve. pres.
Qed.

(** Everything a successful issuance guarantees. *)
Record issued (e : Env) (a : Attestation) (s s' : State SasSig X) : Prop := {
  is_fields : fields_valid e s a;
  is_schema : exists registry schema policy x,
    inst s SCHEMA_REGISTRY = Some registry
    /\ schema_accepts e (ext s) registry a schema
    /\ (answered (ext s) (registry_get_schema_policy registry (att_schema_uid a)) e policy
        \/ policy = policy_from_bool (sr_revocable schema))
    /\ check_policy policy (revocable a) = None
    /\ reached (ext s) x /\ resolver_on_attest (sr_resolver schema) a e x <> None;
  is_record : read_record s' (uid a) = Some (with_time (timestamp e) a);
  is_anchor_fresh : pget s (TimestampAnchorKey (uid a) false) = None;
  is_anchor : pget s' (TimestampAnchorKey (uid a) false)
              = Some (mkTimestampAnchor (sequence e) (timestamp e));
  is_others : forall u, u <> uid a -> read_record s' u = read_record s u
}.

Lemma probe_answer {A} (f : xcall X A) d e s v s' :
  probe (C := SasSig) f d e s = Ok (v, s') -> answered (ext s) f e v \/ v = d.
Proof. intros (x & _ & [Hf|[? _]])%probe_ok; [left; by eapply answered_now|by right]. Qed.

Lemma attest_body_ok a e s u s' :
  att_typed a -> is_u64 (timestamp e) ->
  attest_body a e s = Ok (u, s') -> u = uid a /\ issued e a s s'.
Proof.
  intros Hty Hts Hr.
  assert (forall v, v <> uid a -> read_record s' v = read_record s v) as Hoth.
  { intros v Hv; eapply (read_record_touch (fun _ => False) (attestation_key (uid a))).
    - eapply fp_attest_body; [intros k Hk; by left|right; by eexists|exact Hr].
    - intros k [-> | [-> | ->]] [[? | [? | ?]]|[? ?]]; congruence. }
  unfold attest_body in Hr; sas_inv.
  match goal with Hv : validate_schema_rules _ _ _ ?s1 = _, Hp : probe _ _ _ ?s3 = _,
      Ht : try_invoke _ _ ?s4 = _ |- _ =>
    assert (through reached e s s1) as R1 by chain; assert (through reached e s s3) as R3 by chain;
    assert (through reached e s s4) as R4 by chain end.
  match goal with H : validate_fields _ _ _ = _ |- _ =>
    apply validate_fields_valid in H as [Hf ->] end.
  match goal with H : validate_schema_rules _ _ _ _ = _ |- _ =>
    pose proof (fp_validate_schema_rules (fun _ => False) (fun _ => False) _ _ _ _ _ _ H) as T1;
    apply validate_schema_rules_ok in H as Hsch end.
  match goal with H : consume_issuance_quota _ _ _ = _ |- _ =>
    pose proof (fp_consume_issuance_quota (fun _ => False) (fun _ => False) _ _ _ _ _ H) as T2 end.
  match goal with H : probe _ _ _ _ = _ |- _ =>
    pose proof (fp_probe (fun _ => False) (fun _ => False) _ _ _ _ _ _ H) as T3;
    apply probe_answer in H as Hpol end.
  match goal with H : try_invoke _ _ _ = _ |- _ =>
    pose proof (fp_try_invoke (fun _ => False) (fun _ => False) _ _ _ _ _ H) as T4;
    apply try_invoke_ok in H as Hres end.
  match goal with H : store_issued _ _ _ = _ |- _ =>
    apply store_issued_ok in H as (-> & Hrec & Hnone & Hanc); [|done..] end.
  split; [done|]; split; auto.
  - destruct Hf; by split.
  - match goal with H : is_call_err ?v = false, Hs : try_invoke _ _ ?st = _ |- _ =>
      eexists _, _, _, (ext st); split_and!; [done|exact Hsch| |done|exact R4|destruct v; [| |done]] end;
      [|by destruct Hres as (? & -> & _)..].
    destruct Hpol as [Hpol|]; [left; by apply (answered_before _ _ _ _ _ R3)|by right].
  - by rewrite (pget_silent _ _ _ _ T4), (pget_silent _ _ _ _ T3),
      (pget_silent _ _ _ _ T2), (pget_silent _ _ _ _ T1) in Hnone.
Qed.

(** The bracket around the body only moves the guard entries. *)
Lemma in_callback_context_body {A} (m : M SasSig X A) e s r s' :
  in_callback_context m e s = Ok (r, s') ->
  exists s1 s2, m e s1 = Ok (r, s2)
    /\ touches guard_key (fun _ => False) e s s1
    /\ touches guard_key (fun _ => False) e s2 s'
    /\ ext s1 = ext s /\ ext s' = ext s2.
Proof.
  intros Hr; unfold in_callback_context in Hr; sas_inv.
  match goal with Hin : enter_callback_context _ _ = Ok (_, ?s1),
                  Hout : exit_callback_context _ _ ?s2 = _ |- _ => exists s1, s2;
    split_and!;
    [ done
    | eapply fp_enter_callback_context; [by left|by right|exact Hin]
    | eapply fp_exit_callback_context; [by left|by right|exact Hout]
    | unfold enter_callback_context in Hin; run_inv
    | unfold exit_callback_context, exit_reentrancy_guard in Hout; run_inv ] end.
  - by match goal with H : (if _ then _ else _) _ _ = _ |- _ => destruct (negb _) end; run_inv.
  - repeat match goal with H : (if ?b then _ else _) _ _ = _ |- _ => destruct b; run_inv end;
      done.
Qed.

Lemma attest_internal_ok a e s u s' :
  att_typed a -> is_u64 (timestamp e) ->
  attest_internal a e s = Ok (u, s') -> u = uid a /\ issued e a s s'.
Proof.
  intros Hty Hts (s1 & s2 & Hr & T1 & T2 & X1 & _)%in_callback_context_body.
  apply attest_body_ok in Hr as [-> Hi]; [|done..]; split; [done|].
  assert (forall v, read_record s1 v = read_record s v) as R1
    by (intros; eapply read_record_touch; eauto).
  assert (forall v, read_record s' v = read_record s2 v) as R2
    by (intros; eapply read_record_touch; eauto).
  destruct Hi as [Hf Hs Hrec Hn Han Ho]; split.
  - destruct Hf; rewrite !R1 in *; by split.
  - destruct T1 as [Hi _]; rewrite <- X1, <- Hi by (by intros [|]); done.
  - by rewrite R2.
  - destruct T1 as [_ Hp]; rewrite <- Hp by tauto; done.
  - destruct T2 as [_ Hp]; rewrite Hp by tauto; done.
  - intros v Hv; rewrite R2, <- R1; auto.
Qed.
(** Issuance seen from an earlier state of the call that differs in no record,
    anchor or registry binding. *)
Lemma issued_before I P e s0 s a s' :
  touches I P e s0 s -> through reached e s0 s ->
  ~ I SCHEMA_REGISTRY -> (forall u k, attestation_key u k -> ~ P k) ->
  issued e a s s' -> issued e a s0 s'.
Proof.
  intros T HR HI HP [Hf Hs Hrec Hn Ha Ho].
  assert (forall v, read_record s v = read_record s0 v) as R.
  { intros v; eapply read_record_touch; [exact T|]; intros k Hk; apply (HP v); by left. }
  destruct T as [Ti Tp]; split; [destruct Hf; rewrite !R in *; by split| |done| |done|].
  - rewrite <- Ti by done; destruct Hs as (registry & schema & policy & x & Hr & [Hsch Hatt] & Hp & ? & ? & ?).
    exists registry, schema, policy, x; split_and!; [done|split| |done|by transitivity (ext s)|done].
    + by eapply answered_before.
    + destruct Hatt; [left|right]; by eapply answered_before.
    + destruct Hp; [left; by eapply answered_before|by right].
  - rewrite <- Tp; [done|]; apply (HP (uid a)); right; by eexists.
  - intros v Hv; rewrite Ho by done; apply R.
Qed.
End issuance.

(** ** Effects on the other contracts

    These steps of an issuance or a revocation make no nested call. *)

Section nested.
Context {X : Type} `{Deps X} (R : relation X) `{!PreOrder R}.

Lemma through_require_unpaid_allowed a : preserves (through R) (require_unpaid_allowed a).
Proof. pres_open. Qed.
Lemma through_validate_fields a : preserves (through R) (validate_fields a).
Proof. pres_open. Qed.
Lemma through_consume_issuance_quota b : preserves (through R) (consume_issuance_quota b).
Proof. pres_open. Qed.
Lemma through_write_attestation a ttl : preserves (through R) (write_attestation a ttl).
Proof. pres_open. Qed.
Lemma through_write_anchor u b ttl : preserves (through R) (write_anchor u b ttl).
Proof. pres_open. Qed.
Lemma through_store_revoked u : preserves (through R) (store_revoked u).
Proof. pres_open. Qed.
End nested.
