(* ===== verification/SasLife.v ===== *)
(** * SAS: the life of a record

    How one invocation may change the record of a UID: issue it, revoke it,
    extend it, or prune it once expired; nothing else, for every entry point
    of the contract. *)

From S2P Require Import Prelude Host Common TypedData Merkle SasState SasCore SasAdmin SasFees.
From S2P Require Import SasIssue SasAttest SasRevoke SasQuery SasCalls SasFrame SasRecord.
From S2P Require Import SasIssueSpec.

(** ** Revocation *)

Section revocation.
Context {X : Type} `{Deps X}.
Implicit Types (s : State SasSig X) (e : Env).

(** Everything a successful revocation guarantees. *)
Record revoked_ok (e : Env) (u : UID) (s s' : State SasSig X) : Prop := {
  rv_record : exists a registry schema x,
    read_record s u = Some a
    /\ revocable a = true /\ revocation_time a = 0
    /\ read_record s' u = Some (with_revocation_time (timestamp e) a)
    /\ inst s SCHEMA_REGISTRY = Some registry
    /\ answered (ext s) (registry_get_schema registry (att_schema_uid a)) e (Some schema)
    /\ reached (ext s) x /\ resolver_on_revoke (sr_resolver schema) (with_revocation_time (timestamp e) a) e x
       <> None;
  rv_anchor_fresh : pget s (TimestampAnchorKey u true) = None;
  rv_anchor : pget s' (TimestampAnchorKey u true)
              = Some (mkTimestampAnchor (sequence e) (timestamp e));
  rv_others : forall v, v <> u -> read_record s' v = read_record s v;
  rv_frame : forall k, ~ record_key u k -> k <> TimestampAnchorKey u true ->
    pget s' k = pget s k
}.

Lemma store_revoked_ok u e s a' s' :
  records_ok s -> is_u64 (timestamp e) ->
  store_revoked u e s = Ok (a', s') ->
  exists a, read_record s u = Some a /\ revocable a = true /\ revocation_time a = 0
    /\ a' = with_revocation_time (timestamp e) a
    /\ read_record s' u = Some a'
    /\ pget s (TimestampAnchorKey u true) = None
    /\ pget s' (TimestampAnchorKey u true)
       = Some (mkTimestampAnchor (sequence e) (timestamp e))
    /\ (forall v, v <> u -> read_record s' v = read_record s v)
    /\ (forall k, ~ record_key u k -> k <> TimestampAnchorKey u true -> pget s' k = pget s k)
    /\ inst s' = inst s /\ ext s' = ext s.
Proof.
  intros Hok Hts; unfold store_revoked; intros Hr; sas_inv; bool_facts.
  match goal with H : Some ?a = read_record _ _ |- _ =>
    symmetry in H; destruct (Hok u a H) as [<- Hty]; exists a; rename a into att end.
  match goal with H : write_attestation _ _ _ _ = _ |- _ =>
    apply write_attestation_ok in H as ((Hi & _ & _ & _ & He) & Hk & Hv) end.
  match goal with H : write_anchor _ _ _ _ _ = _ |- _ =>
    apply write_anchor_ok in H as (Hnone & Ha & Hka & (Hi2 & _ & _ & _ & He2)) end.
  simpl in *; split_and!; auto.
  - rewrite <- Hv by auto with sas.
    apply (read_record_touch (fun _ => False) (fun k => k = TimestampAnchorKey (uid att) true) e).
    + split; [by intros; simpl; rewrite Hi2|intros k Hk'; by apply Hka].
    + by intros k [-> | [-> | ->]].
  - rewrite <- Hk; [done|]; by intros [? | [? | ?]].
  - intros v Hv'.
    apply (read_record_touch (fun _ => False) (attestation_key (uid att)) e).
    + split; [by intros; simpl; rewrite Hi2, Hi|].
      intros k Hk'; etransitivity; [apply Hka|apply Hk].
      * intros ->; apply Hk'; right; by eexists.
      * intros ?; apply Hk'; by left.
    + intros k [-> | [-> | ->]] [[? | [? | ?]]|[? ?]]; congruence.
  - intros k ? ?; etransitivity; [by apply Hka|by apply Hk].
  - by rewrite Hi2, Hi.
  - by rewrite He2, He.
Qed.

Lemma consult_on_revocation_ok u a e s r s' :
  consult_on_revocation u a e s = Ok (r, s') ->
  exists registry schema x,
    inst s SCHEMA_REGISTRY = Some registry
    /\ answered (ext s) (registry_get_schema registry (att_schema_uid a)) e (Some schema)
    /\ reached (ext s) x /\ resolver_on_revoke (sr_resolver schema) a e x <> None.
Proof.
  unfold consult_on_revocation; intros Hr; sas_inv.
  match goal with H : try_invoke (resolver_on_revoke _ _) _ ?st = Ok (?v, _) |- _ =>
    assert (through reached e s st) as HR by chain;
    apply try_invoke_ok in H as Hres end.
  match goal with H : invoke _ _ _ = _ |- _ => apply invoke_ok in H as (? & Hs & _) end.
  match goal with H : is_call_err ?v = false |- _ => eexists _, _, _;
    split_and!; [done|by eapply answered_now|exact HR|destruct v; [| |done]] end;
    by destruct Hres as (? & -> & _).
Qed.

Lemma revoke_body_ok u e s r s' :
  records_ok s -> is_u64 (timestamp e) ->
  revoke_body u e s = Ok (r, s') -> revoked_ok e u s s'.
Proof.
  intros Hok Hts; unfold revoke_body; intros Hr; sas_inv.
  match goal with H : store_revoked _ _ _ = _ |- _ =>
    apply store_revoked_ok in H as (a & Hread & Hrv & Hz & -> & Hread' & Hn & Ha & Ho & Hfr & Hi & Hx);
    [|done..] end.
  apply consult_on_revocation_ok in Hr as Hc.
  apply (fp_consult_on_revocation (fun _ => False) (fun _ => False)) in Hr.
  rewrite Hi, Hx in Hc; destruct Hc as (registry & schema & y & ? & ? & ? & ?).
  split.
  - exists a, registry, schema, y; split_and!; auto.
    by rewrite (read_record_silent _ _ _ _ Hr).
  - done.
  - by rewrite (pget_silent _ _ _ _ Hr).
  - intros v Hv; rewrite (read_record_silent _ _ _ _ Hr); by apply Ho.
  - intros k ? ?; rewrite (pget_silent _ _ _ _ Hr); by apply Hfr.
Qed.

Lemma records_ok_touch I P e s s' :
  touches I P e s s' -> (forall u k, record_key u k -> ~ P k) ->
  records_ok s -> records_ok s'.
Proof.
  intros Ht HP Hok u a; rewrite (read_record_touch _ _ _ _ _ _ Ht); eauto.
Qed.

Lemma revoke_internal_ok u e s r s' :
  records_ok s -> is_u64 (timestamp e) ->
  revoke_internal u e s = Ok (r, s') -> revoked_ok e u s s'.
Proof.
  intros Hok Hts (s1 & s2 & Hr & T1 & T2 & X1 & _)%in_callback_context_body.
  apply revoke_body_ok in Hr as [Hrec Hn Ha Ho Hfr];
    [|by eapply records_ok_touch; eauto|done].
  assert (forall v, read_record s1 v = read_record s v) as R1
    by (intros; eapply read_record_touch; eauto).
  assert (forall v, read_record s' v = read_record s2 v) as R2
    by (intros; eapply read_record_touch; eauto).
  split.
  - destruct T1 as [Hi _]; rewrite R1, Hi, X1 in Hrec by (by intros [|]); by rewrite R2.
  - destruct T1 as [_ Hp]; rewrite <- Hp by tauto; done.
  - destruct T2 as [_ Hp]; rewrite Hp by tauto; done.
  - intros v Hv; rewrite R2, <- R1; auto.
  - destruct T1 as [_ Hp1], T2 as [_ Hp2]; intros k ? ?.
    rewrite Hp2, Hfr, Hp1 by (done || tauto); done.
Qed.

Lemma revoke_internal_records u e s r s' :
  records_ok s -> is_u64 (timestamp e) ->
  revoke_internal u e s = Ok (r, s') -> records_ok s'.
Proof.
  intros Hok Hts [(a & _ & _ & _ & Ha & _ & _ & Ha' & _) _ _ Ho _]%revoke_internal_ok v b;
    [|done..].
  destruct (decide (v = u)) as [->|Hne]; [|rewrite Ho by done; apply Hok].
  rewrite Ha'; intros [= <-]; destruct (Hok _ _ Ha); split; [done|auto with sas].
Qed.
End revocation.

(** ** How a record may evolve *)

(** The expiry that [prune_expired] and [verify_attestation] act on. *)
Definition dead (e : Env) (a : Attestation) : Prop :=
  expiration_time a <> 0 /\ expiration_time a <= timestamp e.

(** What no operation ever changes in a record. *)
Definition same_claim (a a' : Attestation) : Prop :=
  uid a' = uid a /\ att_schema_uid a' = att_schema_uid a /\ time a' = time a
  /\ ref_uid a' = ref_uid a /\ recipient a' = recipient a /\ attester a' = attester a
  /\ revocable a' = revocable a /\ data a' = data a /\ valid_from a' = valid_from a.

(** Who may issue and revoke the attestation of a UID under a schema by an
    attester, and whose attestations may be renewed. *)
Record rights := mkRights {
  may_issue : UID -> UID -> Address -> Prop;
  may_revoke : UID -> UID -> Address -> Prop;
  may_renew : Address -> Prop
}.

(** A revocation is set once, to the current time, on a revocable record. *)
Definition revocation_step (R : rights) (e : Env) (a a' : Attestation) : Prop :=
  revocation_time a' = revocation_time a
  \/ (revocation_time a = 0 /\ revocable a = true /\ revocation_time a' = timestamp e
      /\ may_revoke R (uid a) (att_schema_uid a) (attester a)).

(** An expiry only moves forward ([0] is perpetual), and only on a live,
    revocable record that has not been revoked. *)
Definition expiry_step (R : rights) (e : Env) (a a' : Attestation) : Prop :=
  expiration_time a' = expiration_time a
  \/ (live_at e (expiration_time a) /\ expiration_time a <> 0
      /\ revocable a = true /\ revocation_time a = 0
      /\ (expiration_time a' = 0 \/ expiration_time a <= expiration_time a')
      /\ may_renew R (attester a)).

Definition updated (R : rights) (e : Env) (a a' : Attestation) : Prop :=
  same_claim a a' /\ revocation_step R e a a' /\ expiry_step R e a a'.

Definition newly_issued (R : rights) (e : Env) (a : Attestation) : Prop :=
  time a = timestamp e /\ may_issue R (uid a) (att_schema_uid a) (attester a).

Definition evolves (R : rights) (e : Env) (o o' : option Attestation) : Prop :=
  match o, o' with
  | None, None => True
  | None, Some a' => newly_issued R e a'
  | Some a, None => dead e a
  | Some a, Some a' => updated R e a a' \/ (dead e a /\ newly_issued R e a')
  end.

Lemma updated_refl R e a : updated R e a a.
Proof. split_and!; [by split_and!|by left|by left]. Qed.

Lemma updated_trans R e a1 a2 a3 : updated R e a1 a2 -> updated R e a2 a3 -> updated R e a1 a3.
Proof.
  intros ((U1 & S1 & ? & ? & ? & A1 & R1 & ? & ?) & V1 & X1)
         ((U2 & S2 & ? & ? & ? & A2 & R2 & ? & ?) & V2 & X2).
  split_and!; [split_and!; congruence| |].
  - unfold revocation_step in *; rewrite U1, S1, A1 in V2.
    destruct V1 as [V1|(? & ? & ? & ?)], V2 as [V2|(? & ? & ? & ?)];
      [left; congruence|right; split_and!; congruence..].
  - unfold expiry_step in *; rewrite A1 in X2.
    destruct X1 as [X1|(? & ? & ? & ? & ? & ?)], X2 as [X2|(? & ? & ? & ? & ? & ?)].
    + left; congruence.
    + rewrite X1 in *; right; split_and!; try congruence.
      by destruct V1 as [|(? & ? & ? & ?)]; [congruence|].
    + rewrite X2; right; split_and!; auto.
    + right; split_and!; auto; intuition lia.
Qed.

Lemma updated_dead R e a a' : updated R e a a' -> dead e a' -> dead e a.
Proof.
  intros (_ & _ & X) [? ?]; unfold dead, expiry_step, live_at in *.
  destruct X as [X|(? & ? & ? & ? & ? & ?)]; [rewrite X in *; auto|split; lia].
Qed.

Lemma updated_issued R e a a' : newly_issued R e a -> updated R e a a' -> newly_issued R e a'.
Proof.
  intros [Ht Hi] [(U & S & T & _ & _ & A & _) _]; unfold newly_issued.
  by rewrite U, S, A, T.
Qed.

#[export] Instance evolves_preorder R e : PreOrder (evolves R e).
Proof.
  split.
  - intros [a|]; simpl; [left; apply updated_refl|done].
  - intros [a1|] [a2|] [a3|] H12 H23; simpl in *; auto.
    + destruct H12 as [H12|[? ?]], H23 as [H23|[? ?]].
      * left; by eapply updated_trans.
      * right; split; [by eapply updated_dead|done].
      * right; split; [done|by eapply updated_issued].
      * by right.
    + destruct H12 as [H12|[? ?]]; eauto using updated_dead.
    + destruct H23 as [?|[? ?]]; eauto using updated_issued.
Qed.

(** ** The storage layout *)

Section layout.
Context {X : Type} `{Deps X}.
Implicit Types (s : State SasSig X) (e : Env).

Definition layout (e : Env) (s s' : State SasSig X) : Prop :=
  legacy_alone s -> legacy_alone s'.

#[export] Instance layout_preorder : PreorderE layout.
Proof. intros e; split; unfold layout; [by intros s|intros s1 s2 s3; auto]. Qed.

(** Operations that write no record. *)
Definition no_record (k : SasPKey) : Prop := forall u, ~ record_key u k.

Lemma layout_touches {A} (m : M SasSig X A) :
  preserves (touches (fun _ => True) no_record) m -> preserves layout m.
Proof.
  intros Hm e s a s' Hr Hl u l Hu; apply Hm in Hr as [_ Hp].
  rewrite !Hp in * by (unfold no_record, record_key; naive_solver); eauto.
Qed.

Lemma layout_write_attestation a ttl : preserves layout (write_attestation a ttl).
Proof.
  intros e s r s' Hr Hl; unfold write_attestation in Hr.
  destruct (write_record_entry_run a ttl e s) as (s1 & E1 & _ & Hk1 & Hv1).
  destruct (write_valid_from_entry_run a ttl e s1) as (s2 & E2 & _ & Hk2 & _).
  rewrite (bind_run _ _ _ _ _ _ E1), E2 in Hr; injection Hr as _ <-.
  intros u lg; rewrite (Hk2 (UidKey u)), (Hk2 (CompactAttestationKey u)) by done.
  destruct (decide (u = uid a)) as [->|Hne].
  - destruct Hv1 as [(Hc & _ & ->)|[_ ->]]; [|done].
    intros [Hn _]%Hl; rewrite Hn in Hc; by destruct Hc.
  - rewrite (Hk2 (VALID_FROM u)), !Hk1 by congruence; apply Hl.
Qed.

Lemma layout_remove_attestation u : preserves layout (remove_attestation u).
Proof.
  intros e s r s' (_ & Hn & Hk)%remove_attestation_ok Hl v a.
  destruct (decide (v = u)) as [->|Hne]; [by rewrite Hn|].
  rewrite !Hk by (intros [[? | [? | ?]]|[? ?]]; congruence); apply Hl.
Qed.
End layout.

#[export] Hint Resolve layout_write_attestation layout_remove_attestation : sas.
#[export] Hint Extern 5 (preserves layout _) => apply layout_touches : sas.
#[export] Hint Extern 1 (no_record _) => (by intros ? [? | [? | ?]]) : sas.

(** ** Every entry point respects it *)

Section life.
Context {X : Type} `{Deps X} (R : rights).
Implicit Types (s : State SasSig X) (e : Env).

Definition life (e : Env) (s s' : State SasSig X) : Prop :=
  is_u64 (timestamp e) -> records_ok s -> legacy_alone s ->
  records_ok s' /\ legacy_alone s'
  /\ forall u, evolves R e (read_record s u) (read_record s' u).

#[export] Instance life_preorder : PreorderE life.
Proof.
  intros e; split.
  - intros s _ Hok Hl; split_and!; [done..|]; intros u; reflexivity.
  - intros s1 s2 s3 H12 H23 Hts Hok Hl.
    destruct (H12 Hts Hok Hl) as (Hok2 & Hl2 & E12), (H23 Hts Hok2 Hl2) as (Hok3 & Hl3 & E23).
    split_and!; [done..|]; intros u; etransitivity; eauto.
Qed.

Lemma life_touches {A} (m : M SasSig X A) :
  preserves (touches (fun _ => True) no_record) m -> preserves life m.
Proof.
  intros Hm e s a s' Hr Hts Hok Hl; pose proof (layout_touches m Hm e s a s' Hr Hl).
  apply Hm in Hr; split_and!; [|done|].
  - eapply records_ok_touch; eauto; intros u k Hk Hn; by apply (Hn u).
  - intros u; rewrite (read_record_touch _ _ _ _ _ _ Hr); [reflexivity|].
    intros k Hk Hn; by apply (Hn u).
Qed.

(** A single record changes, in an allowed way. *)
Lemma life_one_record {A} (m : M SasSig X A) e s a s' u :
  preserves layout m -> m e s = Ok (a, s') ->
  (is_u64 (timestamp e) -> records_ok s -> legacy_alone s ->
   evolves R e (read_record s u) (read_record s' u)
   /\ (forall a, read_record s' u = Some a -> uid a = u /\ att_typed a)
   /\ (forall v, v <> u -> read_record s' v = read_record s v)) ->
  life e s s'.
Proof.
  intros Hlay Hr Hone Hts Hok Hl; destruct (Hone Hts Hok Hl) as (He & Hu & Ho).
  split_and!; [|by eapply Hlay|].
  - intros v b Hv; destruct (decide (v = u)) as [->|Hne]; [auto|].
    rewrite Ho in Hv by done; auto.
  - intros v; destruct (decide (v = u)) as [->|Hne]; [done|].
    rewrite Ho by done; reflexivity.
Qed.

Lemma layout_attest_internal a : preserves layout (attest_internal a).
Proof.
  unfold attest_internal, in_callback_context, attest_body, store_issued; pres.
Qed.
Lemma layout_revoke_internal u : preserves layout (revoke_internal u).
Proof.
  unfold revoke_internal, in_callback_context, revoke_body, store_revoked; pres.
Qed.

Lemma life_attest_internal a :
  att_typed a -> may_issue R (uid a) (att_schema_uid a) (attester a) ->
  preserves life (attest_internal a).
Proof.
  intros Hty Hmay e s u s' Hr.
  apply (life_one_record _ e s u s' (uid a) (layout_attest_internal a) Hr); intros Hts Hok _.
  apply attest_internal_ok in Hr as [_ [Hf _ Hrec _ _ Ho]]; [|done..].
  split_and!; [| |done].
  - rewrite (fv_fresh _ _ _ Hf), Hrec; done.
  - rewrite Hrec; intros ? [= <-]; split; [done|auto with sas].
Qed.

Lemma life_revoke_internal u e s a r s' :
  read_record s u = Some a -> may_revoke R u (att_schema_uid a) (attester a) ->
  revoke_internal u e s = Ok (r, s') -> life e s s'.
Proof.
  intros Ha Hmay Hr.
  apply (life_one_record _ e s r s' u (layout_revoke_internal u) Hr); intros Hts Hok _.
  apply revoke_internal_ok in Hr as [(a' & _ & _ & _ & Hb & Hrv & Hz & Ha' & _) _ _ Ho _];
    [|done..].
  rewrite Ha in Hb; injection Hb as <-.
  destruct (Hok _ _ Ha) as [Hu Hty]; rewrite Ha, Ha'; split_and!; [| |done].
  - left; split_and!; [by split_and!|right; rewrite Hu; auto|by left].
  - intros ? [= <-]; split; [done|auto with sas].
Qed.

Lemma shortens_false x y :
  shortens x y = false -> x <> 0 -> y = 0 \/ x <= y.
Proof.
  unfold shortens; destruct (x =? 0) eqn:?, (y =? 0) eqn:?; simpl; bool_facts; try lia.
Qed.

(** What renewal requires and does. *)
Lemma renew_attestation_ok u ex e s r s' :
  is_u64 ex -> records_ok s ->
  renew_attestation u ex e s = Ok (r, s') ->
  exists a, read_record s u = Some a
    /\ authorized e (attester a) = true
    /\ revocable a = true /\ revocation_time a = 0
    /\ live_at e (expiration_time a) /\ live_at e ex
    /\ (expiration_time a = 0 -> ex = 0)
    /\ (expiration_time a <> 0 -> ex = 0 \/ expiration_time a <= ex)
    /\ read_record s' u = Some (with_expiration_time ex a)
    /\ (forall v, v <> u -> read_record s' v = read_record s v).
Proof.
  intros Hex Hok; unfold renew_attestation; intros Hr; sas_inv; bool_facts.
  match goal with H : Some ?a = read_record _ _ |- _ =>
    symmetry in H; rename H into Hread; destruct (Hok u a Hread) as [<- Hty];
    exists a; rename a into att end.
  match goal with H : probe _ _ _ _ = _ |- _ =>
    apply (fp_probe (fun _ => False) (fun _ => False)) in H as T1 end.
  match goal with H : write_attestation _ _ _ _ = Ok (_, ?s1) |- _ =>
    pose proof (fp_write_attestation (fun _ => False) (record_key (uid att))
      (with_expiration_time ex att) _ (fun k Hk => Hk) _ _ _ _ H) as T2;
    apply write_attestation_ok in H as (_ & _ & Hv) end.
  match goal with H : ?m e ?s2 = Ok (_, ?s3) |- _ =>
    assert (touches (fun _ => False) (fun _ => False) e s2 s3) as T3
      by (eapply (_ : preserves (touches (fun _ => False) (fun _ => False)) m); exact H) end.
  repeat match goal with H : validate_expiration _ _ = None |- _ =>
    apply validate_expiration_None in H end.
  split_and!; auto using shortens_false.
  - intros Hz; rewrite Hz in *; simpl in *; bool_facts; done.
  - etransitivity; [apply (read_record_silent _ _ _ _ T3)|]; apply Hv; auto with sas.
  - intros v Hne; etransitivity; [apply (read_record_silent _ _ _ _ T3)|].
    etransitivity; [eapply (read_record_touch _ _ _ _ _ _ T2)|].
    + intros k [-> | [-> | ->]] [? | [? | ?]]; congruence.
    + apply (read_record_silent _ _ _ _ T1).
  Unshelve. pres.
Qed.

Lemma layout_renew_attestation u ex : preserves layout (renew_attestation u ex).
Proof. unfold renew_attestation; pres. Qed.

Lemma life_renew_attestation u ex e s r s' :
  is_u64 ex ->
  (forall a, read_record s u = Some a -> authorized e (attester a) = true ->
     may_renew R (attester a)) ->
  renew_attestation u ex e s = Ok (r, s') -> life e s s'.
Proof.
  intros Hex Hmay Hr.
  apply (life_one_record _ e s r s' u (layout_renew_attestation u ex) Hr); intros Hts Hok _.
  apply renew_attestation_ok in Hr
    as (a & Ha & Hau & Hrv & Hz & Hl & _ & H0 & Hext & Ha' & Ho); [|done..].
  specialize (Hmay a Ha Hau).
  destruct (Hok _ _ Ha) as [Hu Hty]; rewrite Ha, Ha'; split_and!; [| |done].
  - left; split_and!; [by split_and!|by left|].
    destruct (decide (expiration_time a = 0)) as [E|Hne]; [left; simpl; by rewrite E, H0|].
    right; split_and!; auto.
  - intros ? [= <-]; split; [done|auto with sas].
Qed.

(** Pruning. *)
Lemma life_remove_dead e s a u r s' :
  read_record s u = Some a -> dead e a ->
  remove_attestation u e s = Ok (r, s') -> life e s s'.
Proof.
  intros Ha Hd Hr.
  apply (life_one_record _ e s r s' u (layout_remove_attestation u) Hr); intros Hts Hok _.
  apply remove_attestation_ok in Hr as (Hn & _ & Hk); rewrite Ha, Hn; split_and!; [done..|].
  intros v Hne; eapply (read_record_touch (fun _ => True) (attestation_key u) e).
  - split; [tauto|done].
  - intros k [-> | [-> | ->]] [[? | [? | ?]]|[? ?]]; congruence.
Qed.

Lemma prunable_dead e a : prunable e a = true -> dead e a.
Proof.
  unfold prunable, dead; intros Hp; bool_facts.
  rewrite validate_expiration_None in *; unfold live_at in *; lia.
Qed.

Lemma life_prune_loop l n : preserves life (prune_loop l n).
Proof.
  revert n; induction l as [|u l IH]; intros n e s r s' Hr; simpl in Hr.
  { sas_inv; reflexivity. }
  sas_inv; destruct (read_record s u) as [a|] eqn:Ha; [|by eapply IH].
  sas_inv; destruct (prunable e a) eqn:Hp; [|by eapply IH].
  sas_inv; match goal with H : remove_attestation _ _ _ = _ |- _ =>
    apply (life_remove_dead _ _ _ _ _ _ Ha (prunable_dead _ _ Hp)) in H as Hlife end.
  etransitivity; [exact Hlife|]; etransitivity; [|by eapply IH].
  eapply (life_touches (publish (EvPruned u))); [auto with sas|reflexivity].
Qed.

(** Migration rewrites the layout of a record, not the record. *)
Lemma rewrite_legacy_ok u a e s r s' :
  rewrite_legacy u a e s = Ok (r, s') ->
  pget s' (UidKey u) = Some (StoredCompact (from_attestation a))
  /\ pget s' (VALID_FROM u)
     = (if valid_from a =? 0 then pget s (VALID_FROM u) else Some (valid_from a))
  /\ forall k, k <> UidKey u -> k <> VALID_FROM u -> pget s' k = pget s k.
Proof.
  unfold rewrite_legacy; intros Hr; run_inv.
  destruct (valid_from a =? 0); cbn [negb] in *; run_inv; split_and!;
    [by rewrite pget_upd_eq|by rewrite !pget_upd_ne by done|
     |by rewrite !pget_upd_ne, pget_upd_eq by done|by rewrite pget_upd_eq|];
    intros k H1 H2; by rewrite !pget_upd_ne by congruence.
Qed.

Lemma migrate_attestation_ok u e s b s' :
  records_ok s -> legacy_alone s ->
  migrate_attestation u e s = Ok (b, s') ->
  legacy_alone s' /\ (forall v, read_record s' v = read_record s v)
  /\ (b = true <-> exists a, pget s (UidKey u) = Some (StoredLegacy a)).
Proof.
  intros Hok Hl; unfold migrate_attestation; intros Hr; sas_inv.
  match goal with H : context [pget ?s1 (UidKey u)] |- _ =>
    change (pget s1 (UidKey u)) with (pget s (UidKey u)) in H end.
  destruct (pget s (UidKey u)) as [[c|a]|] eqn:Eu; [sas_inv| |sas_inv].
  1, 3: split_and!; [done..|by split; [|intros [? ?]]].
  destruct (Hl u a Eu) as [Hc Hv].
  assert (read_record s u = Some a) as Hread by (unfold read_record; by rewrite Hc, Eu, Hv).
  destruct (Hok u a Hread) as [<- Hty]; sas_inv.
  match goal with H : rewrite_legacy _ _ _ _ = _ |- _ =>
    apply rewrite_legacy_ok in H as (Hu & Hf & Hk) end.
  change (pget (upd_inst_live _ s) (VALID_FROM (uid a))) with (pget s (VALID_FROM (uid a))) in Hf.
  rewrite Hv in Hf; split_and!; [| |by split; eauto].
  - intros v l; destruct (decide (v = uid a)) as [->|Hne]; [by rewrite Hu|].
    rewrite !Hk by congruence; apply Hl.
  - intros v; destruct (decide (v = uid a)) as [->|Hne].
    + rewrite Hread; unfold read_record; rewrite Hu, Hf, Hk by done.
      change (pget (upd_inst_live _ s) (CompactAttestationKey (uid a)))
        with (pget s (CompactAttestationKey (uid a))); rewrite Hc; simpl.
      rewrite to_from_attestation by done.
      destruct (valid_from a =? 0) eqn:Ez; bool_facts; destruct a; simpl in *; by subst.
    + unfold read_record; rewrite !Hk by congruence; done.
Qed.

Lemma life_migrate_attestation u : preserves life (migrate_attestation u).
Proof.
  intros e s b s' Hr Hts Hok Hl.
  apply migrate_attestation_ok in Hr as (Hl' & Hread & _); [|done..].
  split_and!; [|done|].
  - intros v a; rewrite Hread; apply Hok.
  - intros v; rewrite Hread; reflexivity.
Qed.

Lemma life_migrate_loop l n : preserves life (migrate_loop l n).
Proof.
  revert n; induction l as [|u l IH]; intros n; simpl; pres.
  apply life_migrate_attestation.
Qed.
End life.

#[export] Hint Resolve life_prune_loop life_migrate_attestation life_migrate_loop : sas.
#[export] Hint Extern 5 (preserves (life _) _) => apply life_touches : sas.

(** Prove [preserves R m], opening the operations no hint covers. *)
Ltac pres_open :=
  repeat first [ pres_step
               | match goal with |- preserves _ ?m => let h := get_head m in unfold h end ].
