(* ===== verification/SasAuthority.v ===== *)
(** * SAS: who may change a record

    Every change an entry point makes to a record is backed by its attester's
    authorisation, by a valid signature under a key that speaks for the
    attester, or, for revocation, by an account the registry answers for; and
    none is made while the contract is paused. *)

From S2P Require Import Prelude Host Common TypedData Merkle SasState SasCore SasAdmin SasFees.
From S2P Require Import SasIssue SasAttest SasRevoke SasQuery SasCalls SasFrame SasRecord.
From S2P Require Import SasIssueSpec SasLife.

(** ** Signatures and keys *)

Section authority.
Context {X : Type} `{Deps X}.
Implicit Types (s : State SasSig X) (e : Env).

(** [pk] is the account's own key, its registered key, or the key of the
    signing group the schema requires. *)
Definition key_speaks (e : Env) s (schema : UID) (who : Address) (pk : bytes) : Prop :=
  attester_matches_key e who pk = true
  \/ (exists r, pget s (ATTESTER_KEY who) = Some r /\ revoked r = false /\ public_key r = pk)
  \/ (exists registry g, inst s SCHEMA_REGISTRY = Some registry
        /\ answered (ext s) (registry_get_schema_frost_group registry schema) e (Some g)
        /\ group_public_key g = pk).

(** A canonical, valid signature of [who] over [msg] exists. *)
Definition signed (e : Env) s (schema : UID) (who : Address) (msg : bytes) : Prop :=
  exists pk sg, key_speaks e s schema who pk
    /\ signature_scalar_is_canonical sg = true /\ ed25519_valid e pk msg sg = true.

(** The digests whose signature issues [a], and those that revoke [u]. *)
Definition issues (e : Env) (a : Attestation) (msg : bytes) : Prop :=
  (exists n, msg = hash_offchain_attestation e a (domain_of n e))
  \/ (exists n z, msg = hash_scoped_attestation e a (domain_of n e) z)
  \/ (exists old n m, msg = hash_delegated_replacement_consent e old a
        (mkReplacementConsentDomain (network_id e) (current_contract e) n m)).
Definition revokes (e : Env) (u : UID) (who : Address) (msg : bytes) : Prop :=
  (exists n, msg = hash_delegated_revocation e u who (domain_of n e))
  \/ (exists a n m, msg = hash_delegated_replacement_consent e u a
        (mkReplacementConsentDomain (network_id e) (current_contract e) n m)).

Definition unpaused s : Prop := default false (inst s PAUSED) = false.

Definition rights_at (e : Env) s : rights := mkRights
  (fun u schema who => unpaused s /\
     (authorized e who = true
      \/ exists a msg, uid a = u /\ attester a = who /\ issues e a msg
           /\ signed e s schema who msg))
  (fun u schema who => unpaused s /\
     (authorized e who = true
      \/ (exists registry z, inst s SCHEMA_REGISTRY = Some registry
            /\ authorized e z = true
            /\ answered (ext s) (registry_is_authorized registry schema z) e true)
      \/ exists msg, revokes e u who msg /\ signed e s schema who msg))
  (fun who => unpaused s /\ authorized e who = true).

(** ** What these rights depend on *)

Definition kept (e : Env) s s' : Prop :=
  (forall a, pget s' (ATTESTER_KEY a) = pget s (ATTESTER_KEY a))
  /\ inst s' SCHEMA_REGISTRY = inst s SCHEMA_REGISTRY
  /\ inst s' PAUSED = inst s PAUSED
  /\ through reached e s s'.

#[export] Instance kept_preorder : PreorderE kept.
Proof.
  intros e; split; [by intros s; split_and!|].
  intros s1 s2 s3 (K1 & R1 & P1 & X1) (K2 & R2 & P2 & X2); split_and!; [|congruence..|by transitivity s2].
  intros a; by rewrite K2.
Qed.

Definition other_ikey (k : SasIKey) : Prop := k <> SCHEMA_REGISTRY /\ k <> PAUSED.
Definition other_pkey (k : SasPKey) : Prop := forall a, k <> ATTESTER_KEY a.

Lemma kept_touches {A} (m : M SasSig X A) :
  preserves (touches other_ikey other_pkey) m -> preserves (through reached) m -> preserves kept m.
Proof.
  intros Hm Hx e s r s' Hr; apply Hx in Hr as HR; apply Hm in Hr as [Hi Hp]; split_and!; [..|done].
  - intros a; rewrite (Hp (ATTESTER_KEY a)); [done|]; intros Ho; by apply (Ho a).
  - apply Hi; by intros [? _].
  - apply Hi; by intros [_ ?].
Qed.

Lemma key_speaks_kept e s s' sch who pk :
  kept e s s' -> key_speaks e s' sch who pk -> key_speaks e s sch who pk.
Proof.
  intros (K & R & _ & HX); unfold key_speaks; rewrite K, R.
  intros [?|[?|(registry & g & ? & Hg & ?)]]; [by left|by right; left|right; right].
  exists registry, g; split_and!; [done|by eapply answered_before|done].
Qed.

Lemma signed_kept e s s' sch who msg :
  kept e s s' -> signed e s' sch who msg -> signed e s sch who msg.
Proof.
  intros Hk (pk & sg & Hs & ? & ?); exists pk, sg; eauto using key_speaks_kept.
Qed.
End authority.

#[export] Hint Extern 5 (preserves kept _) => apply kept_touches : sas.
#[export] Hint Extern 1 (other_ikey _) => (split; discriminate) : sas.
#[export] Hint Extern 1 (other_pkey _) =>
  first [ intros ?; discriminate
        | match goal with H : record_key _ _ |- _ => by destruct H as [-> | [-> | ->]] end ] : sas.

(** A step that changes no entry. *)
Lemma life_same {X} R e (s s' : State SasSig X) : pers s' = pers s -> life R e s s'.
Proof.
  intros Hp Hts Hok Hl; unfold records_ok, legacy_alone, read_record, pget in *; rewrite Hp.
  split_and!; [done..|reflexivity].
Qed.

Lemma life_upd_pers {X} R e (s : State SasSig X) k o : no_record k -> life R e s (upd_pers k o s).
Proof.
  intros Hk Hts Hok Hl.
  assert (touches (fun _ => False) (fun k' => k' = k) e s (upd_pers k o s)) as T.
  { split; [done|]; intros k' Hne; by apply pget_upd_ne. }
  assert (forall u, read_record (upd_pers k o s) u = read_record s u) as Hr.
  { intros u; eapply read_record_touch; [exact T|]; intros k' Hu ->; by apply (Hk u). }
  split_and!; [intros u a; rewrite Hr; apply Hok| |intros u; rewrite Hr; reflexivity].
  intros u a; unfold no_record, record_key in Hk.
  rewrite !(proj2 T) by (intros <-; naive_solver); apply Hl.
Qed.

(** Updates that change no record. *)
Ltac chain_same ::=
  solve [ unfold through; reflexivity
        | split_and!; intros; try unfold through; reflexivity
        | intros ?; split; reflexivity
        | apply life_same; reflexivity
        | apply life_upd_pers; by intros ? [? | [? | ?]] ].

Section signatures.
Context {X : Type} `{Deps X}.
Implicit Types (s : State SasSig X) (e : Env).

Lemma require_attester_key_ok who pk e s u s' sch :
  require_attester_key who pk e s = Ok (u, s') -> key_speaks e s sch who pk /\ s' = s.
Proof.
  unfold require_attester_key, registered_key_matches; intros Hr; run_inv.
  split; [|done]; unfold key_speaks.
  destruct (attester_matches_key e who pk); [by left|right; left]; simpl in *.
  destruct (pget s (ATTESTER_KEY who)) as [r|] eqn:Er; simpl in *; [|done].
  exists r; bool_facts; auto.
Qed.

Lemma require_delegation_key_ok sch who pk e s g s' :
  require_delegation_key sch who pk e s = Ok (g, s') ->
  key_speaks e s sch who pk
  /\ match g with Some g => group_public_key g = pk | None => True end.
Proof.
  unfold require_delegation_key, schema_frost_group; intros Hr; sas_inv.
  match goal with Hp : probe _ _ _ _ = Ok (?g, ?s1) |- _ =>
    apply probe_answer in Hp as Ha;
    assert (kept e s s1) as Hk
      by (refine ((_ : preserves kept _) _ _ _ _ Hp); pres_open); destruct g as [g'|] end.
  - destruct Ha as [Ha|?]; [|done]; sas_inv; bool_facts.
    split; [|done]; right; right; eauto.
  - sas_inv; split; [|done].
    match goal with Hq : require_attester_key _ _ _ _ = _ |- _ =>
      apply (require_attester_key_ok _ _ _ _ _ _ sch) in Hq as [Hq _] end.
    eauto using key_speaks_kept.
Qed.

Lemma verify_delegated_signature_ok h pk sg g e s u s' :
  match g with Some g => group_public_key g = pk | None => True end ->
  verify_delegated_signature h pk sg g e s = Ok (u, s') ->
  signature_scalar_is_canonical sg = true /\ ed25519_valid e pk h sg = true.
Proof.
  intros Hg Hr; destruct g; simpl in Hr; unfold verify_frost_aggregate_signature in Hr;
    apply verify_offchain_signature_ok in Hr as (? & ? & _); by rewrite <- ?Hg.
Qed.

Lemma authorize_delegated_signed a n sg pk e s u s' :
  authorize_delegated a n sg pk e s = Ok (u, s') ->
  revocation_time a = 0
  /\ signed e s (att_schema_uid a) (attester a)
       (hash_offchain_attestation e a (domain_of n e)).
Proof.
  unfold authorize_delegated; intros Hr; sas_inv; bool_facts; split; [done|].
  match goal with Hk : require_delegation_key _ _ _ _ ?s1 = _ |- _ =>
    assert (kept e s s1) as K by chain;
    apply require_delegation_key_ok in Hk as [Hk Hg] end.
  match goal with Hv : verify_delegated_signature _ _ _ _ _ _ = _ |- _ =>
    apply (verify_delegated_signature_ok _ _ _ _ _ _ _ _ Hg) in Hv as [? ?] end.
  exists pk, sg; eauto using key_speaks_kept.
Qed.

Lemma authorize_delegated_revocation_signed v a n sg pk e s u s' :
  authorize_delegated_revocation v a n sg pk e s = Ok (u, s') ->
  signed e s (att_schema_uid a) (attester a)
    (hash_delegated_revocation e v (attester a) (domain_of n e)).
Proof.
  unfold authorize_delegated_revocation; intros Hr; sas_inv.
  match goal with Hk : require_delegation_key _ _ _ _ ?s1 = _ |- _ =>
    assert (kept e s s1) as K by chain;
    apply require_delegation_key_ok in Hk as [Hk Hg] end.
  apply (verify_delegated_signature_ok _ _ _ _ _ _ _ _ Hg) in Hr as [? ?].
  exists pk, sg; eauto using key_speaks_kept.
Qed.
End signatures.

(** ** Every entry point *)

Section exec.
Context {X : Type} `{Deps X}.
Implicit Types (s : State SasSig X) (e : Env).

(** Batches, against the state [s0] the entry point started in. *)
Lemma life_multi_attest_loop s0 l seen uids e s r s' :
  unpaused s0 -> Forall att_typed l -> Forall (fun a => authorized e a = true) seen ->
  multi_attest_loop l seen uids e s = Ok (r, s') -> life (rights_at e s0) e s s'.
Proof.
  intros Hp Hl; revert seen uids s; induction Hl as [|a l Ha Hl IH];
    intros seen uids s Hs Hr; simpl in Hr; sas_inv; [reflexivity|].
  assert (authorized e (attester a) = true) as Hau.
  { case_bool_decide; sas_inv; [|done]; by eapply (proj1 (Forall_forall _ _)) in Hs. }
  match goal with Hi : attest_internal _ _ _ = Ok (_, ?s2) |- _ =>
    transitivity s2; [|eapply IH; [|exact Hr]];
    [|by unfold map_set; case_bool_decide; rewrite ?Forall_app, ?Forall_singleton];
    apply (life_attest_internal (rights_at e s0) a Ha) in Hi;
    [|by split; [|left]] end.
  etransitivity; [|eassumption]; chain.
Qed.

Lemma life_multi_attest_by_delegation_loop s0 l ns sgs pks seen uids e s r s' :
  unpaused s0 -> Forall att_typed l -> kept e s0 s ->
  multi_attest_by_delegation_loop l ns sgs pks seen uids e s = Ok (r, s') ->
  life (rights_at e s0) e s s'.
Proof.
  intros Hp Hl; revert ns sgs pks seen uids s; induction Hl as [|a l Ha Hl IH];
    intros [|n ns] [|sg sgs] [|pk pks] seen uids s Hk Hr; simpl in Hr; sas_inv;
    [reflexivity..|].
  match goal with Hau : authorize_delegated _ _ _ _ _ _ = Ok (_, ?s1),
                  Hi : attest_internal _ _ _ = Ok (_, ?s2) |- _ =>
    assert (life (rights_at e s0) e s s1) as L1 by chain;
    assert (kept e s0 s2) as K2 by (transitivity s; [done|chain]);
    apply authorize_delegated_signed in Hau as [_ Hsig];
    apply (life_attest_internal (rights_at e s0) a Ha) in Hi;
    [|split; [done|right; exists a; eexists; split_and!; [done..|by left; eexists|]];
      exact (signed_kept _ _ _ _ _ _ Hk Hsig)];
    etransitivity; [exact L1|]; etransitivity; [exact Hi|]; by eapply IH end.
Qed.

Lemma life_broadcast_loop s0 a sch rs seen d ex rv uids e s r s' :
  unpaused s0 -> is_u64 ex -> authorized e a = true ->
  broadcast_loop a sch rs seen d ex rv uids e s = Ok (r, s') ->
  life (rights_at e s0) e s s'.
Proof.
  intros Hp Hex Hau; revert seen uids s; induction rs as [|x rs IH];
    intros seen uids s Hr; simpl in Hr; sas_inv; [reflexivity|].
  match goal with Hi : attest_internal ?att _ _ = Ok (_, ?s2) |- _ =>
    transitivity s2; [|by eapply IH];
    eapply (life_attest_internal (rights_at e s0) att); [| |exact Hi] end.
  - unfold att_typed, is_u64, u64_max in *; simpl; lia.
  - by split; [|left].
Qed.

(** *** Revocations *)

Definition revocable_by (R : rights) s (u : UID) : Prop :=
  exists a, read_record s u = Some a /\ may_revoke R u (att_schema_uid a) (attester a).

Lemma revocable_by_step R u v e s r s' :
  is_u64 (timestamp e) -> records_ok s -> revoke_internal v e s = Ok (r, s') ->
  revocable_by R s u -> revocable_by R s' u.
Proof.
  intros Hts Hok [(a & _ & _ & _ & Ha & _ & _ & Ha' & _) _ _ Ho _]%revoke_internal_ok
    (x & Hx & Hm); [|done..].
  destruct (decide (u = v)) as [->|Hne]; [|exists x; by rewrite Ho].
  rewrite Ha in Hx; injection Hx as <-; by eexists.
Qed.

Lemma life_revoke_all R l e s r s' :
  Forall (revocable_by R s) l -> revoke_all l e s = Ok (r, s') -> life R e s s'.
Proof.
  revert s; induction l as [|u l IH]; intros s Hl Hr; simpl in Hr; sas_inv; [reflexivity|].
  intros Hts Hok Hal; apply Forall_cons in Hl as [(a & Ha & Hm) Hl].
  match goal with Hi : revoke_internal _ _ _ = Ok (_, ?s1) |- _ =>
    assert (Forall (revocable_by R s1) l) as Hl1
      by (eapply Forall_impl; [exact Hl|]; intros; by eapply revocable_by_step);
    pose proof (life_revoke_internal R u e s a _ s1 Ha Hm Hi) as L1 end.
  by apply (transitivity (R := life R e) L1 (IH _ Hl1 Hr)).
Qed.

Lemma multi_revoke_validate_ok l seen d e s d' s' :
  multi_revoke_validate l seen d e s = Ok (d', s') ->
  s' = s /\ d ⊆ d'
  /\ Forall (fun u => exists a, read_record s u = Some a /\ attester a ∈ d') l.
Proof.
  revert seen d; induction l as [|u l IH]; intros seen d Hr; simpl in Hr; sas_inv; [done|].
  unfold check_revocable_item in *; sas_inv.
  apply IH in Hr as (-> & Hsub & Hl); split_and!; [done| |].
  - intros b Hb; apply Hsub, elem_of_map_set; auto.
  - constructor; [|done]; eexists; split; [done|]; apply Hsub, elem_of_map_set; auto.
Qed.

Lemma require_all_auth_ok l e s u s' :
  require_all_auth (X := X) l e s = Ok (u, s') ->
  s' = s /\ Forall (fun a => authorized e a = true) l.
Proof.
  revert s; induction l as [|a l IH]; intros s Hr; simpl in Hr; sas_inv; [done|].
  apply IH in Hr as [-> ?]; auto.
Qed.

Lemma revoke_by_schema_validate_ok sch l seen e s u s' :
  revoke_by_schema_validate sch l seen e s = Ok (u, s') ->
  s' = s /\ Forall (fun u => exists a, read_record s u = Some a /\ att_schema_uid a = sch) l.
Proof.
  revert seen; induction l as [|v l IH]; intros seen Hr; simpl in Hr; sas_inv; [done|].
  apply IH in Hr as [-> ?]; split; [done|]; constructor; [|done]; bool_facts; eauto.
Qed.

Lemma multi_revoke_by_delegation_validate_ok s0 l ns sgs pks seen d e s d' s' :
  kept e s0 s ->
  multi_revoke_by_delegation_validate l ns sgs pks seen d e s = Ok (d', s') ->
  Forall (fun u => exists a n, read_record s u = Some a
    /\ signed e s0 (att_schema_uid a) (attester a)
         (hash_delegated_revocation e u (attester a) (domain_of n e))) l.
Proof.
  revert ns sgs pks seen d s; induction l as [|u l IH];
    intros [|n ns] [|sg sgs] [|pk pks] seen d s Hk Hr; simpl in Hr; try done.
  unfold check_revocable_item in *; sas_inv.
  match goal with Ha : authorize_delegated_revocation _ _ _ _ _ _ _ = Ok (_, ?s1) |- _ =>
    assert (touches (fun _ => False) (fun _ => False) e s s1) as T1
      by (refine ((_ : preserves (touches _ _) _) _ _ _ _ Ha); pres_open);
    assert (kept e s0 s1) as K1 by (transitivity s; [done|chain]);
    apply authorize_delegated_revocation_signed in Ha as Hsig end.
  constructor; [do 2 eexists; split; [done|exact (signed_kept _ _ _ _ _ _ Hk Hsig)]|].
  eapply IH in Hr; [|done]; eapply Forall_impl; [exact Hr|].
  intros v (a & m & Hv & ?); rewrite (read_record_silent _ _ _ _ T1) in Hv; eauto.
Qed.

Lemma life_multi_revoke_by_delegation_commit R l ns e s r s' :
  Forall (revocable_by R s) l ->
  multi_revoke_by_delegation_commit l ns e s = Ok (r, s') -> life R e s s'.
Proof.
  revert ns s; induction l as [|u l IH]; intros [|n ns] s Hl Hr; simpl in Hr; sas_inv;
    [reflexivity..|].
  intros Hts Hok Hal.
  match goal with Hc : consume_delegation_nonce ?b _ _ _ = Ok (_, ?s1),
                  Hi : revoke_internal _ _ _ = Ok (_, ?s2) |- _ =>
    pose proof (fp_consume_delegation_nonce (fun _ => True) (fun _ => False) _ _ I _ _ _ _ Hc)
      as T1;
    assert (forall w, read_record s1 w = read_record s w) as R1
      by (intros w; eapply read_record_touch; [exact T1|auto]);
    assert (life R e s s1) as L1 by chain;
    assert (Forall (revocable_by R s1) (u :: l)) as Hl1
      by (eapply Forall_impl; [exact Hl|]; intros v (a & Hv & ?); exists a; by rewrite R1);
    destruct (L1 Hts Hok Hal) as (Hok1 & _ & _);
    apply Forall_cons in Hl1 as [(a & Ha & Hm) Hl1];
    assert (Forall (revocable_by R s2) l) as Hl2
      by (eapply Forall_impl; [exact Hl1|]; intros; by eapply revocable_by_step);
    pose proof (life_revoke_internal R u e s1 a _ s2 Ha Hm Hi) as L2 end.
  pose proof (IH _ _ Hl2 Hr) as L3.
  by apply (transitivity (R := life R e) L1 (transitivity L2 L3)).
Qed.

Lemma life_replace_internal R u a old e s r s' :
  att_typed a -> read_record s u = Some old ->
  may_revoke R u (att_schema_uid old) (attester old) ->
  (attester a = attester old -> may_issue R (uid a) (att_schema_uid a) (attester a)) ->
  replace_internal u a old e s = Ok (r, s') -> life R e s s'.
Proof.
  intros Hty Ho Hrv Hi; unfold replace_internal; intros Hr; sas_inv.
  match goal with Hv : revoke_internal _ _ _ = Ok (_, ?s1),
                  Ha : attest_internal ?b _ _ = Ok (_, ?s2) |- _ =>
    pose proof (life_revoke_internal R u e s old _ s1 Ho Hrv Hv) as L1;
    assert (life R e s1 s2) as L2
      by (refine (life_attest_internal R b _ _ e s1 _ s2 Ha); [auto with sas|bool_facts; by apply Hi]);
    transitivity s1; [exact L1|transitivity s2; [exact L2|chain]] end.
Qed.
End exec.

(** Split a run at its one issuance or revocation. *)
Ltac at_issuance :=
  match goal with
  | Ha : attest_internal ?b ?e ?s1 = Ok (?u, ?s2) |- life ?R ?e ?s ?s' =>
      transitivity s1; [chain|transitivity s2; [|chain]];
      refine (life_attest_internal R b _ _ e s1 u s2 Ha); [done|]
  end.
Ltac at_revocation :=
  match goal with
  | Ha : revoke_internal ?v ?e ?s1 = Ok (?u, ?s2) |- life ?R ?e ?s ?s' =>
      transitivity s1; [chain|transitivity s2; [|chain]];
      refine (life_revoke_internal R v e s1 _ u s2 _ _ Ha)
  end.

Section entry_points.
Context {X : Type} `{Deps X}.
Implicit Types (s : State SasSig X) (e : Env).

Lemma life_attest a e s r s' :
  att_typed a -> attest a e s = Ok (r, s') -> life (rights_at e s) e s s'.
Proof.
  intros Hty; unfold attest; intros Hr; sas_inv; at_issuance; by split; [|left].
Qed.
Lemma life_attest_by_delegation a n sg pk e s r s' :
  att_typed a -> attest_by_delegation a n sg pk e s = Ok (r, s') ->
  life (rights_at e s) e s s'.
Proof.
  intros Hty; unfold attest_by_delegation; intros Hr; sas_inv; at_issuance.
  match goal with Ha : authorize_delegated _ _ _ _ _ _ = _ |- _ =>
    apply authorize_delegated_signed in Ha as [_ ?] end.
  split; [done|right]; exists a; eexists; split_and!; [done..|by left; eexists|done].
Qed.
Lemma life_attest_by_scoped_delegation a n sg pk z e s r s' :
  att_typed a -> attest_by_scoped_delegation a n sg pk z e s = Ok (r, s') ->
  life (rights_at e s) e s s'.
Proof.
  intros Hty; unfold attest_by_scoped_delegation; intros Hr; sas_inv; at_issuance.
  match goal with Hk : require_attester_key _ _ _ ?s1 = _ |- _ =>
    assert (kept e s s1) as K by chain;
    apply (require_attester_key_ok _ _ _ _ _ _ (att_schema_uid a)) in Hk as [Hk _];
    apply (key_speaks_kept _ _ _ _ _ _ K) in Hk end.
  match goal with Hv : verify_offchain_signature _ _ _ _ _ _ = _ |- _ =>
    apply verify_offchain_signature_ok in Hv as (? & ? & _) end.
  split; [done|right]; exists a; eexists; split_and!; [done..|right; left; by do 2 eexists|].
  exists pk, sg; split_and!; eassumption.
Qed.
Lemma life_attest_with_zk a p n e s r s' :
  att_typed a -> attest_with_zk a p n e s = Ok (r, s') -> life (rights_at e s) e s s'.
Proof.
  intros Hty; unfold attest_with_zk; intros Hr; sas_inv; at_issuance; by split; [|left].
Qed.
Lemma life_attest_with_value a t v e s r s' :
  att_typed a -> attest_with_value a t v e s = Ok (r, s') -> life (rights_at e s) e s s'.
Proof.
  intros Hty; unfold attest_with_value; intros Hr; sas_inv; at_issuance; by split; [|left].
Qed.

Lemma life_multi_attest l e s r s' :
  Forall att_typed l -> multi_attest l e s = Ok (r, s') -> life (rights_at e s) e s s'.
Proof.
  intros Hty; unfold multi_attest; intros Hr; sas_inv.
  match goal with Hp : (let '(_, _) := ?p in _) _ _ = Ok _ |- _ => destruct p; sas_inv end.
  match goal with Hm : multi_attest_loop _ _ _ _ ?s1 = Ok (_, ?s2) |- _ =>
    transitivity s1; [chain|transitivity s2; [|chain]];
    exact (life_multi_attest_loop s _ _ _ _ _ _ _ ltac:(done) Hty (Forall_nil_2 _) Hm) end.
Qed.
Lemma life_multi_attest_by_delegation l ns sgs pks e s r s' :
  Forall att_typed l -> multi_attest_by_delegation l ns sgs pks e s = Ok (r, s') ->
  life (rights_at e s) e s s'.
Proof.
  intros Hty; unfold multi_attest_by_delegation; intros Hr; sas_inv.
  match goal with Hp : (let '(_, _) := ?p in _) _ _ = Ok _ |- _ => destruct p; sas_inv end.
  match goal with Hm : multi_attest_by_delegation_loop _ _ _ _ _ _ _ ?s1 = Ok (_, ?s2) |- _ =>
    assert (kept e s s1) as K by chain;
    transitivity s1; [chain|transitivity s2; [|chain]];
    exact (life_multi_attest_by_delegation_loop s _ _ _ _ _ _ _ _ _ _ ltac:(done) Hty K Hm)
  end.
Qed.
Lemma life_broadcast_attest_by_attester s0 a sch rs d ex rv e s r s' :
  is_u64 ex -> kept e s0 s ->
  broadcast_attest_by_attester a sch rs d ex rv e s = Ok (r, s') ->
  life (rights_at e s0) e s s'.
Proof.
  intros Hex (_ & _ & Kp & _); unfold broadcast_attest_by_attester; intros Hr; sas_inv.
  match goal with Hm : broadcast_loop _ _ _ _ _ _ _ _ _ ?s1 = Ok (_, ?s2) |- _ =>
    transitivity s1; [chain|transitivity s2; [|chain]];
    refine (life_broadcast_loop s0 _ _ _ _ _ _ _ _ _ _ _ _ _ Hex _ Hm); [|done] end.
  unfold unpaused; by rewrite <- Kp.
Qed.
Lemma life_broadcast_attest sch rs d ex rv e s r s' :
  is_u64 ex -> broadcast_attest sch rs d ex rv e s = Ok (r, s') ->
  life (rights_at e s) e s s'.
Proof.
  intros Hex; unfold broadcast_attest; intros Hr; sas_inv.
  match goal with Hp : probe _ _ _ _ = Ok (_, ?s1) |- _ =>
    assert (kept e s s1) as K by chain; transitivity s1; [chain|] end.
  by eapply life_broadcast_attest_by_attester.
Qed.

Lemma life_revoke u e s r s' : revoke u e s = Ok (r, s') -> life (rights_at e s) e s s'.
Proof.
  unfold revoke; intros Hr; sas_inv; at_revocation; [done|by split; [|left]].
Qed.
Lemma life_revoke_by_authorizer u z e s r s' :
  revoke_by_authorizer u z e s = Ok (r, s') -> life (rights_at e s) e s s'.
Proof.
  unfold revoke_by_authorizer; intros Hr; sas_inv.
  case_bool_decide; sas_inv; [at_revocation; [done|split; [done|left; by subst]]|].
  match goal with Hp : probe _ _ _ _ = Ok (?b, _) |- _ =>
    destruct b; [apply probe_true in Hp as Ha|done]; at_revocation;
    [|split; [done|right; left; by do 2 eexists]];
    destruct (probe_ok _ _ _ _ _ _ Hp) as (? & -> & _); done end.
Qed.
Lemma life_revoke_by_delegate u z e s r s' :
  revoke_by_delegate u z e s = Ok (r, s') -> life (rights_at e s) e s s'.
Proof.
  unfold revoke_by_delegate; intros Hr; sas_inv; by eapply life_revoke_by_authorizer.
Qed.
Lemma life_revoke_by_delegation u n sg pk e s r s' :
  revoke_by_delegation u n sg pk e s = Ok (r, s') -> life (rights_at e s) e s s'.
Proof.
  unfold revoke_by_delegation; intros Hr; sas_inv.
  match goal with Ha : authorize_delegated_revocation _ ?a _ _ _ _ _ = Ok (_, ?s1),
                  Hc : consume_delegation_nonce _ _ _ _ = Ok (_, ?s2) |- _ =>
    assert (touches (fun _ => True) (fun _ => False) e s s2) as T
      by (chain; done);
    apply authorize_delegated_revocation_signed in Ha as Hsig;
    at_revocation; [rewrite (read_record_touch _ _ _ _ _ u T); [done|auto]|] end.
  split; [done|right; right]; eexists; split; [by left; eexists|exact Hsig].
Qed.

Lemma life_multi_revoke l e s r s' :
  multi_revoke l e s = Ok (r, s') -> life (rights_at e s) e s s'.
Proof.
  unfold multi_revoke; intros Hr; sas_inv.
  match goal with Hv : multi_revoke_validate _ _ _ _ _ = _ |- _ =>
    apply multi_revoke_validate_ok in Hv as (-> & _ & Hl) end.
  match goal with Ha : require_all_auth _ _ _ = _ |- _ =>
    apply require_all_auth_ok in Ha as [-> Ha]; rewrite Forall_forall in Ha end.
  match goal with Hm : revoke_all _ _ ?s1 = Ok (_, ?s2) |- _ =>
    transitivity s1; [chain|transitivity s2; [|chain]];
    refine (life_revoke_all _ _ _ _ _ _ _ Hm); eapply Forall_impl; [exact Hl|] end.
  intros u (a & Hu & Hin); exists a; split; [done|]; split; [done|left; auto].
Qed.
Lemma life_multi_revoke_by_delegation l ns sgs pks e s r s' :
  multi_revoke_by_delegation l ns sgs pks e s = Ok (r, s') -> life (rights_at e s) e s s'.
Proof.
  unfold multi_revoke_by_delegation; intros Hr; sas_inv.
  match goal with Hv : multi_revoke_by_delegation_validate _ _ _ _ _ _ _ ?s1 = Ok (_, ?s2) |- _ =>
    assert (kept e s s1) as K by chain;
    assert (touches (fun _ => False) (fun _ => False) e s1 s2) as T
      by (eapply fp_multi_revoke_by_delegation_validate; exact Hv);
    pose proof (multi_revoke_by_delegation_validate_ok s _ _ _ _ _ _ _ _ _ _ K Hv) as Hl;
    assert (life (rights_at e s) e s s2) as L by chain;
    transitivity s2; [exact L|] end.
  match goal with Hm : multi_revoke_by_delegation_commit _ _ _ _ = Ok (_, ?s3) |- _ =>
    transitivity s3; [|chain];
    refine (life_multi_revoke_by_delegation_commit _ _ _ _ _ _ _ _ Hm);
    eapply Forall_impl; [exact Hl|] end.
  intros u (a & n & Hu & Hsig); exists a.
  rewrite (read_record_silent _ _ _ _ T); split; [done|].
  split; [done|right; right]; eexists; split; [by left; eexists|exact Hsig].
Qed.
Lemma life_revoke_by_schema sch l z e s r s' :
  revoke_by_schema sch l z e s = Ok (r, s') -> life (rights_at e s) e s s'.
Proof.
  unfold revoke_by_schema; intros Hr; sas_inv.
  match goal with Hp : probe _ _ _ _ = Ok (?b, _) |- _ =>
    destruct b; [apply probe_true in Hp as Ha|done];
    destruct (probe_ok _ _ _ _ _ _ Hp) as (? & -> & _) end.
  match goal with Hv : revoke_by_schema_validate _ _ _ _ _ = _ |- _ =>
    apply revoke_by_schema_validate_ok in Hv as (-> & Hl) end.
  match goal with Hm : revoke_all _ _ ?s1 = Ok (_, ?s2) |- _ =>
    transitivity s1; [by apply life_same|transitivity s2; [|chain]];
    refine (life_revoke_all _ _ _ _ _ _ _ Hm); eapply Forall_impl; [exact Hl|] end.
  intros u (a & Hu & <-); exists a; split; [done|]; split; [done|].
  right; left; by do 2 eexists.
Qed.

Lemma life_replace_attestation u a e s r s' :
  att_typed a -> replace_attestation u a e s = Ok (r, s') -> life (rights_at e s) e s s'.
Proof.
  intros Hty; unfold replace_attestation; intros Hr; sas_inv.
  match goal with Hm : replace_internal _ _ ?old _ ?s1 = _,
                  Ho : Some ?old = read_record _ _ |- _ =>
    assert (touches (fun _ => False) (fun _ => False) e s s1) as T by (chain; done);
    transitivity s1; [chain|];
    refine (life_replace_internal _ u a old e s1 r s' Hty _ _ _ Hm); [done|by split; [|left]|]
  end.
  intros E; split; [done|left; by rewrite E].
Qed.

Lemma consent_signed d pk sg who e s s1 s2 u1 u2 u3 s3 sch :
  kept e s s1 ->
  require_attester_key who pk e s1 = Ok (u1, s2) ->
  verify_offchain_signature (C := SasSig) InvalidSignature d pk sg e s3 = Ok (u2, u3) ->
  signed e s sch who d.
Proof.
  intros K [Hk _]%(require_attester_key_ok _ _ _ _ _ _ sch)
    (? & ? & _)%verify_offchain_signature_ok.
  exists pk, sg; eauto using key_speaks_kept.
Qed.

Lemma life_replace_by_delegation_consent u a x y e s r s' :
  att_typed a -> replace_by_delegation_consent u a x y e s = Ok (r, s') ->
  life (rights_at e s) e s s'.
Proof.
  intros Hty; unfold replace_by_delegation_consent; intros Hr; sas_inv; bool_facts.
  match goal with
    Hk : require_attester_key (attester ?old) _ _ ?s1 = Ok _,
    Hv : verify_offchain_signature _ ?d (ra_public_key x) _ _ _ = _,
    Hm : replace_internal _ _ ?old _ ?s9 = _ |- _ =>
    assert (kept e s s1) as K by chain;
    pose proof (fun sch => consent_signed _ _ _ _ _ s _ _ _ _ _ _ sch K Hk Hv) as Hsig;
    assert (touches (fun _ => True) (fun _ => False) e s s9) as T by (chain; done);
    transitivity s9; [chain|];
    refine (life_replace_internal _ u a old e s9 r s' Hty _ _ _ Hm) end.
  - rewrite (read_record_touch _ _ _ _ _ u T); [done|auto].
  - split; [done|right; right]; eexists; split; [right; by do 3 eexists|apply Hsig].
  - intros E; rewrite E; split; [done|right]; exists a; eexists.
    split_and!; [done..|right; right; by do 3 eexists|apply Hsig].
Qed.

(** Every entry point changes records only in the allowed ways, and only
    with the rights it has established in the state it was called in. *)
Lemma life_exec c e s r s' :
  call_typed c -> exec c e s = Ok (r, s') -> life (rights_at e s) e s s'.
Proof.
  intros Hty Hr; destruct c; simpl in Hty, Hr; try solve [chain];
    try (unfold ignore in Hr; sas_inv);
    eauto using life_attest, life_attest_by_delegation, life_attest_by_scoped_delegation,
      life_attest_with_zk, life_attest_with_value, life_multi_attest,
      life_multi_attest_by_delegation, life_broadcast_attest, life_revoke,
      life_revoke_by_authorizer, life_revoke_by_delegate, life_revoke_by_delegation,
      life_multi_revoke, life_multi_revoke_by_delegation, life_revoke_by_schema,
      life_replace_attestation, life_replace_by_delegation_consent.
  - by eapply life_broadcast_attest_by_attester; [..|reflexivity|].
  - eapply life_renew_attestation; [done| |done].
    intros a _ Hau; split; [|done].
    match goal with Hn : renew_attestation _ _ _ _ = _ |- _ =>
      unfold renew_attestation in Hn; sas_inv; done end.
Qed.
End entry_points.

(** ** Histories *)

(** The representation invariant of the record store: records are filed under
    their own UID with fields of their Rust types, and a record in the old
    layout is the only entry of its UID. *)
Definition store_ok {X} (s : State SasSig X) : Prop := records_ok s /\ legacy_alone s.

(** An invocation with arguments and a ledger time of their Rust types. *)
Definition typed_step (step : Env * SasCall) : Prop :=
  is_u64 (timestamp step.1) /\ call_typed step.2.

Section history.
Context {X : Type} `{Deps X}.
Implicit Types (s : State SasSig X) (e : Env).

Lemma transact_run e c s :
  (exists s', exec c e s = Ok (tt, s') /\ transact e c s = s')
  \/ (exists err, exec c e s = Err err /\ transact e c s = s).
Proof.
  unfold transact; destruct (exec c e s) as [[[] s']|err]; [left|right]; eauto.
Qed.

Lemma transact_life e c s :
  typed_step (e, c) -> store_ok s ->
  store_ok (transact e c s)
  /\ forall u, evolves (rights_at e s) e (read_record s u) (read_record (transact e c s) u).
Proof.
  intros [Hts Hty] [Hok Hl].
  destruct (transact_run e c s) as [(s' & Hr & ->)|(err & _ & ->)].
  - destruct (life_exec c e s _ s' Hty Hr Hts Hok Hl) as (? & ? & ?).
    by split; [split|].
  - split; [by split|]; intros u; reflexivity.
Qed.

Lemma store_ok_history h s :
  Forall typed_step h -> store_ok s -> store_ok (run_history h s).
Proof.
  intros Hh; revert s; induction Hh as [|[e c] h Hs Hh IH]; intros s Hok; simpl; [done|].
  apply IH, transact_life; done.
Qed.

Lemma run_history_app h1 h2 s : run_history (h1 ++ h2) s = run_history h2 (run_history h1 s).
Proof. revert s; induction h1 as [|[e c] h1 IH]; intros s; simpl; [done|apply IH]. Qed.

Lemma store_ok_empty (x : X) : store_ok (empty_state SasSig x).
Proof. split; [intros u a|intros u a]; done. Qed.
End history.
