(* ===== verification/SasNonce.v ===== *)
(** * SAS: replay protection

    Nonce watermarks only grow, and a nonce that an accepted delegated call
    used is refused by every later delegated call, whatever happens between. *)

From S2P Require Import Prelude Host Common TypedData Merkle SasState SasCore SasAdmin SasFees.
From S2P Require Import SasIssue SasAttest SasRevoke SasQuery SasCalls SasFrame SasRecord.
From S2P Require Import SasIssueSpec SasLife SasAuthority.

(** ** Watermarks *)

Definition watermark_le (o o' : option Z) : Prop :=
  match o, o' with
  | None, _ => True
  | Some n, Some n' => n <= n'
  | Some _, None => False
  end.

#[export] Instance watermark_le_preorder : PreOrder watermark_le.
Proof.
  split; [by intros [n|]; simpl|].
  intros [n1|] [n2|] [n3|]; simpl; try tauto; lia.
Qed.

Definition watermark {X} (s : State SasSig X) (a : Address) : option Z :=
  inst s (DelegationNonceKey a).

(** A nonce a watermark no longer admits. *)
Definition spent (n : Z) (o : option Z) : Prop := nonce_replayed n o = true.

Lemma spent_mono n n' o o' : n' <= n -> watermark_le o o' -> spent n o -> spent n' o'.
Proof.
  unfold spent; destruct o as [w|], o' as [w'|]; simpl; try done.
  rewrite !Z.leb_le; lia.
Qed.

Section nonce.
Context {X : Type} `{Deps X}.
Implicit Types (s : State SasSig X) (e : Env).

Definition watermarks_grow (e : Env) (s s' : State SasSig X) : Prop :=
  (forall a, watermark_le (watermark s a) (watermark s' a))
  /\ (forall a, watermark_le (inst s (RecipientConsentNonceKey a))
                            (inst s' (RecipientConsentNonceKey a))).

#[export] Instance watermarks_grow_preorder : PreorderE watermarks_grow.
Proof.
  intros e; split.
  - intros s; split; intros a; reflexivity.
  - intros s1 s2 s3 [? ?] [? ?]; split; intros a; etransitivity; eauto.
Qed.

(** Operations that write no watermark. *)
Definition no_nonce (k : SasIKey) : Prop :=
  match k with DelegationNonceKey _ | RecipientConsentNonceKey _ => False | _ => True end.

Lemma watermarks_touches {A} (m : M SasSig X A) :
  preserves (touches no_nonce (fun _ => True)) m -> preserves watermarks_grow m.
Proof.
  intros Hm e s a s' [Hi _]%Hm; unfold watermarks_grow, watermark.
  split; intros b.
  - rewrite (Hi (DelegationNonceKey b)) by (simpl; tauto); reflexivity.
  - rewrite (Hi (RecipientConsentNonceKey b)) by (simpl; tauto); reflexivity.
Qed.

(** Setting one watermark to a larger value. *)
Lemma grow_delegation e s a n :
  watermark_le (watermark s a) (Some n) ->
  watermarks_grow e s (upd_inst (store_update (K := SasIKey) (V := sas_ival)
                         (DelegationNonceKey a) (Some n)) s).
Proof.
  intros Hle; split; intros b; unfold watermark.
  - destruct (decide (b = a)) as [->|]; [by rewrite inst_upd_eq|].
    rewrite inst_upd_ne by congruence; reflexivity.
  - rewrite inst_upd_ne by done; reflexivity.
Qed.
Lemma grow_consent e s a n :
  watermark_le (inst s (RecipientConsentNonceKey a)) (Some n) ->
  watermarks_grow e s (upd_inst (store_update (K := SasIKey) (V := sas_ival)
                         (RecipientConsentNonceKey a) (Some n)) s).
Proof.
  intros Hle; split; intros b; unfold watermark.
  - rewrite inst_upd_ne by done; reflexivity.
  - destruct (decide (b = a)) as [->|]; [by rewrite inst_upd_eq|].
    rewrite inst_upd_ne by congruence; reflexivity.
Qed.

Lemma not_spent_le n o : nonce_replayed n o = false -> watermark_le o (Some n).
Proof. destruct o; simpl; [intros ?; bool_facts; lia|done]. Qed.

Lemma grow_consume_delegation_nonce a n :
  preserves watermarks_grow (consume_delegation_nonce a n).
Proof.
  intros e s u s' Hr; unfold consume_delegation_nonce in Hr; sas_inv.
  eapply (grow_delegation e s a n), not_spent_le; done.
Qed.
Lemma grow_consume_recipient_consent_nonce a n :
  preserves watermarks_grow (consume_recipient_consent_nonce a n).
Proof.
  intros e s u s' Hr; unfold consume_recipient_consent_nonce in Hr; sas_inv.
  eapply (grow_consent e s a n), not_spent_le; done.
Qed.
Lemma grow_invalidate_nonces_internal a m n :
  preserves watermarks_grow (invalidate_nonces_internal a m n).
Proof.
  intros e s u s' Hr; unfold invalidate_nonces_internal in Hr; sas_inv; bool_facts.
  eapply (grow_delegation e s a n); unfold watermark.
  destruct (inst s (DelegationNonceKey a)); simpl in *; [lia|done].
Qed.
End nonce.

#[export] Hint Resolve grow_consume_delegation_nonce grow_consume_recipient_consent_nonce
  grow_invalidate_nonces_internal : sas.
#[export] Hint Extern 5 (preserves watermarks_grow _) => apply watermarks_touches : sas.
#[export] Hint Extern 1 (no_nonce _) => exact I : sas.

Section nonce_exec.
Context {X : Type} `{Deps X}.
Implicit Types (s : State SasSig X) (e : Env).

Lemma grow_run {A} (m : M SasSig X A) e s r s' :
  preserves watermarks_grow m -> m e s = Ok (r, s') -> watermarks_grow e s s'.
Proof. intros Hm; apply Hm. Qed.

Lemma grow_multi_attest_loop l seen uids :
  preserves watermarks_grow (multi_attest_loop l seen uids).
Proof. revert seen uids; induction l; intros; simpl; pres_open. Qed.
Lemma grow_multi_attest_by_delegation_loop l ns sgs pks seen uids :
  preserves watermarks_grow (multi_attest_by_delegation_loop l ns sgs pks seen uids).
Proof. revert ns sgs pks seen uids; induction l; intros; simpl; pres_open. Qed.
Lemma grow_broadcast_loop a sch rs seen d ex rv uids :
  preserves watermarks_grow (broadcast_loop a sch rs seen d ex rv uids).
Proof. revert seen uids; induction rs; intros; simpl; pres_open. Qed.
Lemma grow_revoke_all l : preserves watermarks_grow (revoke_all l).
Proof. induction l; simpl; pres_open. Qed.
Lemma grow_multi_revoke_by_delegation_commit l ns :
  preserves watermarks_grow (multi_revoke_by_delegation_commit l ns).
Proof. revert ns; induction l; intros; simpl; pres_open. Qed.
Lemma grow_prune_loop l n : preserves (watermarks_grow (X := X)) (prune_loop l n).
Proof. revert n; induction l; intros; simpl; pres_open. Qed.
Lemma grow_migrate_loop l n : preserves (watermarks_grow (X := X)) (migrate_loop l n).
Proof. revert n; induction l; intros; simpl; pres_open. Qed.

#[local] Hint Resolve grow_multi_attest_loop grow_multi_attest_by_delegation_loop
  grow_broadcast_loop grow_revoke_all grow_multi_revoke_by_delegation_commit
  grow_prune_loop grow_migrate_loop : sas.

Lemma grow_exec c : preserves watermarks_grow (exec c).
Proof. destruct c; simpl; pres_open. Qed.

Lemma grow_history h s : forall a,
  watermark_le (watermark s a) (watermark (run_history h s) a).
Proof.
  intros a; revert s; induction h as [|[e c] h IH]; intros s; simpl; [reflexivity|].
  etransitivity; [|apply IH]; unfold transact.
  destruct (exec c e s) as [[u s']|] eqn:Hr; [|reflexivity].
  by apply grow_exec in Hr as [? _].
Qed.
End nonce_exec.

(** ** Using a nonce *)

(** The call [c], made in state [s], presents a signature of [a] under nonce [n]. *)
Definition presents_nonce {X} (s : State SasSig X) (c : SasCall) (a : Address) (n : Z) : Prop :=
  match c with
  | AttestByDelegation x m _ _ | AttestByScopedDelegation x m _ _ _ =>
      attester x = a /\ m = n
  | MultiAttestByDelegation l ns _ _ =>
      exists i x, l !! i = Some x /\ ns !! i = Some n /\ attester x = a
  | MultiRevokeByDelegation l ns _ _ =>
      exists i u x, l !! i = Some u /\ ns !! i = Some n
                    /\ read_record s u = Some x /\ attester x = a
  | RevokeByDelegation u m _ _ =>
      exists x, read_record s u = Some x /\ attester x = a /\ m = n
  | ReplaceByDelegationConsent u _ p _ =>
      exists x, read_record s u = Some x /\ attester x = a /\ ra_nonce p = n
  | InvalidateNoncesByDelegation b _ _ m _ _ => b = a /\ m = n
  | _ => False
  end.

Section spend.
Context {X : Type} `{Deps X}.
Implicit Types (s : State SasSig X) (e : Env).

(** A run that admits nonce [n] of [a] once. *)
Definition spends (a : Address) (n : Z) s s' : Prop :=
  ~ spent n (watermark s a) /\ spent n (watermark s' a).

Lemma spends_between a n e s s1 s2 s3 :
  watermarks_grow e s s1 -> spends a n s1 s2 -> watermarks_grow e s2 s3 -> spends a n s s3.
Proof.
  intros [H1 _] [Hn Hs] [H3 _]; split.
  - intros Hs0; apply Hn; eapply (spent_mono n n); eauto; lia.
  - eapply (spent_mono n n); eauto; lia.
Qed.

Lemma spends_consume a n e s u s' :
  consume_delegation_nonce a n e s = Ok (u, s') -> spends a n s s'.
Proof.
  unfold consume_delegation_nonce; intros Hr; sas_inv; unfold spends, spent, watermark.
  split; [apply not_true_iff_false; assumption|].
  change (inst (upd_inst_live ?z ?s) ?k) with (inst s k); rewrite inst_upd_eq.
  simpl; lia.
Qed.

Ltac spends_here :=
  match goal with
  | Hr : consume_delegation_nonce ?a ?n ?e ?s1 = Ok (_, ?s2) |- spends ?a ?n ?s ?s3 =>
      apply (spends_between a n e s s1 s2 s3);
        [chain|exact (spends_consume _ _ _ _ _ _ Hr)|chain]
  end.

Lemma spends_authorize_delegated x n sg pk e s u s' :
  authorize_delegated x n sg pk e s = Ok (u, s') -> spends (attester x) n s s'.
Proof. unfold authorize_delegated; intros Hr; sas_inv; spends_here. Qed.

Lemma spends_multi_attest_loop l ns sgs pks seen uids e s r s' i x n :
  multi_attest_by_delegation_loop l ns sgs pks seen uids e s = Ok (r, s') ->
  l !! i = Some x -> ns !! i = Some n -> spends (attester x) n s s'.
Proof.
  revert ns sgs pks seen uids s i; induction l as [|y l IH];
    intros [|m ns] [|sg sgs] [|pk pks] seen uids s i Hr Hl Hn; try done.
  simpl in Hr; sas_inv.
  match goal with Ha : authorize_delegated _ _ _ _ _ _ = Ok _ |- _ =>
    destruct i as [|i]; simpl in *; simplify_eq;
    [pose proof (spends_authorize_delegated _ _ _ _ _ _ _ _ Ha)|] end.
  - eapply (spends_between _ _ e); [chain|eassumption|].
    etransitivity; [|by eapply (grow_multi_attest_by_delegation_loop l ns)]; chain.
  - eapply (spends_between _ _ e); [|by eapply IH|reflexivity]; chain.
Qed.

(** A revocation changes nobody's attester. *)
Lemma revoke_internal_attester u e s r s' v x :
  is_u64 (timestamp e) -> records_ok s -> revoke_internal u e s = Ok (r, s') ->
  read_record s v = Some x ->
  exists x', read_record s' v = Some x' /\ attester x' = attester x.
Proof.
  intros Hts Hok [(a & _ & _ & _ & Ha & _ & _ & Ha' & _) _ _ Ho _]%revoke_internal_ok Hx;
    [|done..].
  destruct (decide (v = u)) as [->|Hne]; [|rewrite Ho by done; eauto].
  rewrite Ha in Hx; injection Hx as <-; rewrite Ha'; eauto.
Qed.

Lemma spends_multi_revoke_commit l ns e s r s' i u x n :
  is_u64 (timestamp e) -> records_ok s -> legacy_alone s ->
  multi_revoke_by_delegation_commit l ns e s = Ok (r, s') ->
  l !! i = Some u -> ns !! i = Some n -> read_record s u = Some x ->
  spends (attester x) n s s'.
Proof.
  intros Hts; revert ns s i x; induction l as [|v l IH];
    intros [|m ns] s i x Hok Hal Hr Hl Hn Hx; try done.
  simpl in Hr; sas_inv.
  match goal with Hc : consume_delegation_nonce ?b m e s = Ok (_, ?s1),
                  Hv : revoke_internal v e ?s1 = Ok (_, ?s2) |- _ =>
    pose proof (fp_consume_delegation_nonce (fun _ => True) (fun _ => False) b m
      I _ _ _ _ Hc) as T1;
    assert (forall w, read_record s1 w = read_record s w) as R1
      by (intros w; eapply read_record_touch; [exact T1|auto]);
    assert (records_ok s1) as Hok1 by (intros w y; rewrite R1; apply Hok);
    assert (legacy_alone s1) as Hal1
      by (intros w y; rewrite !(proj2 T1 _ ltac:(auto)); apply Hal);
    pose proof (revoke_internal_records v e s1 _ s2 Hok1 Hts Hv) as Hok2;
    pose proof (layout_revoke_internal v e s1 _ s2 Hv Hal1) as Hal2;
    destruct i as [|i]; simpl in *; simplify_eq end.
  - match goal with Hy : Some _ = read_record s _ |- _ =>
      rewrite Hx in Hy; injection Hy as -> end.
    eapply (spends_between _ _ e); [reflexivity|by eapply spends_consume|].
    etransitivity; [|by eapply (grow_multi_revoke_by_delegation_commit l ns)]; chain.
  - match goal with Hv : revoke_internal v e ?s1 = Ok (_, ?s2) |- _ =>
      destruct (revoke_internal_attester v e s1 _ s2 u x Hts Hok1 Hv) as (x' & Hx' & <-);
        [by rewrite R1|] end.
    eapply (spends_between _ _ e); [|by eapply IH|reflexivity]; chain.
Qed.

Lemma spends_exec c a n e s r s' :
  is_u64 (timestamp e) -> store_ok s -> presents_nonce s c a n ->
  exec c e s = Ok (r, s') -> spends a n s s'.
Proof.
  intros Hts [Hok Hal] Hp Hr; destruct c; simpl in Hp, Hr; try done; unfold ignore in Hr.
  - destruct Hp as [<- <-]; unfold attest_by_delegation in Hr; sas_inv.
    eapply (spends_between _ _ e); [reflexivity|by eapply spends_authorize_delegated|]; chain.
  - destruct Hp as [<- <-]; unfold attest_by_scoped_delegation in Hr; sas_inv; spends_here.
  - destruct Hp as (i & x & Hl & Hn & <-); unfold multi_attest_by_delegation in Hr; sas_inv.
    match goal with Hp : (let '(_, _) := ?p in _) _ _ = Ok _ |- _ => destruct p; sas_inv end.
    match goal with Hm : multi_attest_by_delegation_loop _ _ _ _ _ _ _ _ = Ok _ |- _ =>
      eapply (spends_between _ _ e); [|exact (spends_multi_attest_loop _ _ _ _ _ _ _ _ _ _ _ _ _ Hm Hl Hn)|] end; chain.
  - destruct Hp as (x & Hx & <- & <-); unfold revoke_by_delegation in Hr; sas_inv.
    match goal with Hy : Some _ = read_record _ _ |- _ =>
      rewrite Hx in Hy; injection Hy as -> end; spends_here.
  - destruct Hp as (i & u & x & Hl & Hn & Hx & <-).
    unfold multi_revoke_by_delegation in Hr; sas_inv.
    match goal with Hv : multi_revoke_by_delegation_validate _ _ _ _ _ _ _ ?s0 = Ok (_, ?s1) |- _ =>
      pose proof (fp_multi_revoke_by_delegation_validate (fun _ => False) (fun _ => False)
        _ _ _ _ _ _ _ _ _ _ Hv) as T1;
      assert (forall w, read_record s1 w = read_record s w) as R1
        by (intros w; apply (read_record_silent e s0 s1 w T1));
      assert (records_ok s1) as Hok1 by (intros w y; rewrite R1; apply Hok);
      assert (legacy_alone s1) as Hal1
        by (intros w y; rewrite !(proj2 T1 _ ltac:(auto)); apply Hal)
    end.
    match goal with Hc : multi_revoke_by_delegation_commit _ _ _ ?s1 = Ok _ |- _ =>
      eapply (spends_between _ _ e);
        [|by eapply (spends_multi_revoke_commit _ _ _ _ _ _ _ _ _ _ Hts Hok1 Hal1 Hc Hl Hn); rewrite R1|]
    end; chain.
  - destruct Hp as (x & Hx & <- & <-); unfold replace_by_delegation_consent in Hr; sas_inv.
    match goal with Hy : Some ?y = read_record _ ?u |- _ =>
      change (Some y = read_record s u) in Hy; rewrite Hx in Hy; injection Hy as -> end.
    spends_here.
  - destruct Hp as [<- <-]; unfold invalidate_nonces_by_delegation in Hr; sas_inv; spends_here.
Qed.
End spend.
