(* ===== verification/SasTime.v ===== *)
(** * SAS: timestamp anchors

    The anchors of [timestamp.rs] agree with the records: an issuance anchor
    carries the record's issuance time and a revocation anchor its revocation
    time, in every state the contract can reach; and what a timestamp claim
    proves. *)

From S2P Require Import Prelude Host Common TypedData Merkle SasState SasCore SasAdmin SasFees.
From S2P Require Import SasIssue SasAttest SasRevoke SasQuery SasCalls SasFrame SasRecord.
From S2P Require Import SasIssueSpec SasLife SasAuthority.

(** Every anchor belongs to a record and states its time. *)
Definition anchors_ok {X} (s : State SasSig X) : Prop :=
  forall u b x, pget s (TimestampAnchorKey u b) = Some x ->
    exists a, read_record s u = Some a
      /\ ledger_timestamp x = if b then revocation_time a else time a.

Section anchors.
Context {X : Type} `{Deps X}.
Implicit Types (s : State SasSig X) (e : Env).

Definition anchored (e : Env) s s' : Prop :=
  is_u64 (timestamp e) -> store_ok s -> anchors_ok s -> store_ok s' /\ anchors_ok s'.

#[export] Instance anchored_preorder : PreorderE anchored.
Proof.
  intros e; split; [done|].
  intros s1 s2 s3 H12 H23 Hts Hok Ha; destruct (H12 Hts Hok Ha); by apply H23.
Qed.

(** Operations that write neither a record nor an anchor. *)
Definition no_attestation (k : SasPKey) : Prop := forall u, ~ attestation_key u k.

Lemma no_attestation_record k : no_attestation k -> no_record k.
Proof. intros Hk u Hu; apply (Hk u); by left. Qed.

Lemma anchored_touches {A} (m : M SasSig X A) :
  preserves (touches (fun _ => True) no_attestation) m -> preserves anchored m.
Proof.
  intros Hm e s r s' T%Hm Hts [Hok Hl] Ha.
  assert (forall u, read_record s' u = read_record s u) as Hr.
  { intros u; eapply read_record_touch; [exact T|]; intros k Hk Hn; by apply (Hn u); left. }
  destruct T as [_ Hp]; split; [split|].
  - intros u a; rewrite Hr; apply Hok.
  - intros u a; rewrite !Hp; [apply Hl|..];
      intros Hn; apply (Hn u); left; unfold record_key; auto.
  - intros u b x; rewrite Hp, Hr; [apply Ha|]; intros Hn; apply (Hn u); right; eauto.
Qed.

(** A change to one record, with its anchors. *)
Lemma anchored_one {A} (m : M SasSig X A) e s r s' u :
  preserves layout m -> m e s = Ok (r, s') ->
  (is_u64 (timestamp e) -> store_ok s -> anchors_ok s ->
   (forall k, ~ attestation_key u k -> pget s' k = pget s k)
   /\ (forall a, read_record s' u = Some a -> uid a = u /\ att_typed a)
   /\ forall b x, pget s' (TimestampAnchorKey u b) = Some x ->
        exists a, read_record s' u = Some a
          /\ ledger_timestamp x = if b then revocation_time a else time a) ->
  anchored e s s'.
Proof.
  intros Hlay Hr Hone Hts Hok Ha; destruct (Hone Hts Hok Ha) as (Hfr & Hu & Hb).
  assert (touches (fun _ => True) (attestation_key u) e s s') as T by (split; [tauto|done]).
  destruct Hok as [Hok Hl].
  assert (forall v, v <> u -> read_record s' v = read_record s v) as Ho.
  { intros v Hne; eapply read_record_touch; [exact T|].
    intros k [-> | [-> | ->]] [[? | [? | ?]]|[? ?]]; congruence. }
  split; [split; [|by eapply Hlay]|].
  - intros v a; destruct (decide (v = u)) as [->|Hne]; [auto|rewrite Ho by done; apply Hok].
  - intros v b x; destruct (decide (v = u)) as [->|Hne]; [auto|].
    rewrite Ho, (proj2 T) by (done || intros [[? | [? | ?]]|[? ?]]; congruence); apply Ha.
Qed.

Lemma anchored_attest_internal a : att_typed a -> preserves anchored (attest_internal a).
Proof.
  intros Hty e s r s' Hr.
  apply (anchored_one _ e s r s' (uid a) (layout_attest_internal a) Hr); intros Hts Hok Ha.
  pose proof (fp_attest_internal (fun _ => True) (fun k => record_key (uid a) k
    \/ k = TimestampAnchorKey (uid a) false) a I I (fun k Hk => or_introl Hk) (or_intror eq_refl)
    e s r s' Hr) as T.
  apply attest_internal_ok in Hr as [_ [Hf _ Hrec _ Hanc _]]; [|done..]; split_and!.
  - intros k Hk; apply T; intros [?| ->]; apply Hk; [by left|right; by eexists].
  - rewrite Hrec; intros ? [= <-]; split; [done|auto with sas].
  - intros [] x; [|rewrite Hanc, Hrec; intros [= <-]; by eexists].
    rewrite (proj2 T) by (intros [[? | [? | ?]]|?]; congruence).
    intros (b & Hb & _)%Ha; by rewrite (fv_fresh _ _ _ Hf) in Hb.
Qed.

Lemma anchored_revoke_internal u : preserves anchored (revoke_internal u).
Proof.
  intros e s r s' Hr.
  apply (anchored_one _ e s r s' u (layout_revoke_internal u) Hr); intros Hts [Hok _] Ha.
  apply revoke_internal_ok in Hr as [(a & _ & _ & _ & Hb & Hrv & Hz & Ha' & _) _ Hanc _ Hfr];
    [|done..].
  destruct (Hok _ _ Hb); split_and!.
  - intros k Hk; apply Hfr; [intros ?; apply Hk; by left|].
    intros ->; apply Hk; right; by eexists.
  - rewrite Ha'; intros ? [= <-]; split; [done|auto with sas].
  - intros [] x; rewrite Ha'; [rewrite Hanc; intros [= <-]; by eexists|].
    rewrite Hfr by (done || intros [? | [? | ?]]; congruence).
    intros (a2 & Ha2 & ->)%Ha; rewrite Hb in Ha2; injection Ha2 as <-; by eexists.
Qed.

Lemma fp_renew_attestation (P : SasPKey -> Prop) u ex e s r s' :
  records_ok s -> (forall k, record_key u k -> P k) ->
  renew_attestation u ex e s = Ok (r, s') -> touches (fun _ => True) P e s s'.
Proof.
  intros Hok HP; unfold renew_attestation; intros Hr; sas_inv.
  match goal with Ha : Some ?a = read_record _ _ |- _ =>
    symmetry in Ha; destruct (Hok _ _ Ha) as [<- _] end.
  chain; done.
Qed.

Lemma anchored_renew_attestation u ex : is_u64 ex -> preserves anchored (renew_attestation u ex).
Proof.
  intros Hex e s r s' Hr.
  apply (anchored_one _ e s r s' u (layout_renew_attestation u ex) Hr); intros Hts [Hok _] Ha.
  pose proof (fp_renew_attestation (record_key u) u ex e s r s' Hok (fun k Hk => Hk) Hr) as [_ T].
  apply renew_attestation_ok in Hr as (a & Hb & _ & _ & _ & _ & _ & _ & _ & Ha' & _); [|done..].
  destruct (Hok _ _ Hb); split_and!.
  - intros k Hk; apply T; intros ?; apply Hk; by left.
  - rewrite Ha'; intros ? [= <-]; split; [done|auto with sas].
  - intros b x; rewrite T, Ha' by (intros [? | [? | ?]]; congruence).
    intros (a2 & Ha2 & ->)%Ha; rewrite Hb in Ha2; injection Ha2 as <-; by eexists.
Qed.

Lemma anchored_remove_attestation u : preserves anchored (remove_attestation u).
Proof.
  intros e s r s' Hr.
  apply (anchored_one _ e s r s' u (layout_remove_attestation u) Hr); intros Hts _ _.
  assert (forall b, pget s' (TimestampAnchorKey u b) = None) as Hn.
  { unfold remove_attestation, remove_anchors in Hr; run_inv; intros [].
    - exact (pget_remove_eq _ _).
    - rewrite pget_upd_ne by done; exact (pget_remove_eq _ _). }
  apply remove_attestation_ok in Hr as (Hu & _ & Hk); split_and!; [done|by rewrite Hu|].
  intros b x; by rewrite Hn.
Qed.

Lemma anchored_migrate_attestation u : preserves anchored (migrate_attestation u).
Proof.
  intros e s b s' Hr Hts [Hok Hl] Ha.
  assert (touches (fun _ => True) (record_key u) e s s') as [_ T].
  { refine ((_ : preserves (touches _ _) _) e s b s' Hr).
    assert (record_key u (UidKey u)) by (right; by left).
    assert (record_key u (VALID_FROM u)) by (right; by right).
    pres_open. }
  apply migrate_attestation_ok in Hr as (Hl' & Hread & _); [|done..].
  split; [split; [|done]; intros v a; rewrite Hread; apply Hok|].
  intros v c x; rewrite T, Hread by (intros [? | [? | ?]]; congruence); apply Ha.
Qed.
End anchors.

#[export] Hint Resolve anchored_attest_internal anchored_revoke_internal
  anchored_renew_attestation anchored_remove_attestation anchored_migrate_attestation : sas.
#[export] Hint Extern 5 (preserves anchored _) => apply anchored_touches : sas.
#[export] Hint Extern 1 (no_attestation _) =>
  (by intros ? [[? | [? | ?]]|[? ?]]) : sas.

Section anchored_exec.
Context {X : Type} `{Deps X}.
Implicit Types (s : State SasSig X) (e : Env).

Lemma anchored_multi_attest_loop l seen uids :
  Forall att_typed l -> preserves anchored (multi_attest_loop l seen uids).
Proof. intros Hl; revert seen uids; induction Hl; intros; simpl; pres. Qed.
Lemma anchored_multi_attest_by_delegation_loop l ns sgs pks seen uids :
  Forall att_typed l ->
  preserves anchored (multi_attest_by_delegation_loop l ns sgs pks seen uids).
Proof. intros Hl; revert ns sgs pks seen uids; induction Hl; intros; simpl; pres. Qed.
Lemma anchored_broadcast_loop a sch rs seen d ex rv uids :
  is_u64 ex -> preserves anchored (broadcast_loop a sch rs seen d ex rv uids).
Proof.
  intros Hex; revert seen uids; induction rs as [|r rs IH]; intros; simpl; pres.
  apply anchored_attest_internal; unfold att_typed, is_u64, u64_max in *; simpl; lia.
Qed.
Lemma anchored_revoke_all l : preserves anchored (revoke_all l).
Proof. induction l; simpl; pres. Qed.
Lemma anchored_multi_revoke_by_delegation_commit l ns :
  preserves anchored (multi_revoke_by_delegation_commit l ns).
Proof. revert ns; induction l; intros; simpl; pres. Qed.
Lemma anchored_prune_loop l n : preserves (anchored (X := X)) (prune_loop l n).
Proof. revert n; induction l; intros; simpl; pres. Qed.
Lemma anchored_migrate_loop l n : preserves (anchored (X := X)) (migrate_loop l n).
Proof. revert n; induction l; intros; simpl; pres. Qed.
Lemma anchored_replace_internal u a old :
  att_typed a -> preserves anchored (replace_internal u a old).
Proof. intros; unfold replace_internal; pres. Qed.

#[local] Hint Resolve anchored_multi_attest_loop anchored_multi_attest_by_delegation_loop
  anchored_broadcast_loop anchored_revoke_all anchored_multi_revoke_by_delegation_commit
  anchored_prune_loop anchored_migrate_loop anchored_replace_internal : sas.

Lemma anchored_exec c : call_typed c -> preserves anchored (exec c).
Proof. destruct c; simpl; intros; pres_open. Qed.
End anchored_exec.
