(* ===== verification/SasVerify.v ===== *)
(** * SAS: verification of stored attestations

    What the verification entry points answer, as total functions of the
    stored record and the ledger time, and the lifetime a stored record is
    given. *)

From S2P Require Import Prelude Host Common TypedData Merkle SasState SasCore SasAdmin SasFees.
From S2P Require Import SasIssue SasAttest SasRevoke SasQuery SasFrame SasRecord SasIssueSpec.

(** ** Validity *)

(** Not revoked, not before its start and not past its expiry. *)
Definition valid_now (e : Env) (a : Attestation) : bool :=
  (revocation_time a =? 0)
  && ((valid_from a =? 0) || (valid_from a <=? timestamp e))
  && ((expiration_time a =? 0) || (timestamp e <? expiration_time a)).

Definition valid_uid {X} (e : Env) (s : State SasSig X) (u : UID) : bool :=
  match read_record s u with Some a => valid_now e a | None => false end.

Lemma valid_now_spec e a :
  (if negb (revocation_time a =? 0) then false
   else if negb (valid_from a =? 0) && (timestamp e <? valid_from a) then false
   else bool_decide (validate_expiration e (expiration_time a) = None)) = valid_now e a.
Proof.
  unfold valid_now, validate_expiration.
  destruct (revocation_time a =? 0), (valid_from a =? 0), (expiration_time a =? 0),
    (timestamp e <? valid_from a) eqn:H1, (valid_from a <=? timestamp e) eqn:H2,
    (expiration_time a <=? timestamp e) eqn:H3, (timestamp e <? expiration_time a) eqn:H4;
    bool_facts; simpl; done || lia.
Qed.

Section verify.
Context {X : Type}.
Implicit Types (s : State SasSig X) (e : Env).
Abbreviation silent := (touches (C := SasSig) (X := X) (fun _ => False) (fun _ => False)).

Lemma extend_if_present_run k ttl e s :
  exists s', extend_if_present k ttl e s = Ok (tt, s').
Proof.
  unfold extend_if_present, pers_has, mbind, M_bind; cbv beta iota.
  case_bool_decide as Hk; [|by eexists]; destruct Hk as [v Hv].
  destruct (pers_extend_run k v ttl e s Hv) as [l ->]; by eexists.
Qed.

(** A verification succeeds, answers the record's validity, and changes no
    stored value. *)
Lemma verify_attestation_record_run u e s :
  exists s', verify_attestation_record u e s = Ok (valid_uid e s u, s') /\ silent e s s'.
Proof.
  assert (exists s', verify_attestation_record u e s = Ok (valid_uid e s u, s')) as [s' Hr].
  { unfold verify_attestation_record, valid_uid, read_attestation, extend_attestation_ttl,
      ask, mbind, M_bind; cbv beta iota.
    destruct (read_record s u) as [a|]; [|by eexists]; cbv beta iota.
    destruct (extend_if_present_run (CompactAttestationKey u)
      (compute_storage_ttl e (expiration_time a)) e s) as [s1 ->].
    destruct (extend_if_present_run (UidKey u)
      (compute_storage_ttl e (expiration_time a)) e s1) as [s2 ->].
    destruct (extend_if_present_run (VALID_FROM u)
      (compute_storage_ttl e (expiration_time a)) e s2) as [s3 ->].
    exists s3; do 2 f_equal; rewrite <- valid_now_spec.
    destruct (negb (revocation_time a =? 0)); [done|].
    destruct (negb (valid_from a =? 0) && _); [done|]; by destruct (validate_expiration _ _). }
  exists s'; split; [done|by eapply fp_verify_attestation_record].
Qed.

Lemma valid_uid_silent e s s' u : silent e s s' -> valid_uid e s' u = valid_uid e s u.
Proof. intros T; unfold valid_uid; by rewrite (read_record_silent _ _ _ _ T). Qed.

Lemma verify_loop_run l results e s :
  exists s', verify_loop l results e s = Ok (results ++ (valid_uid e s <$> l), s')
    /\ silent e s s'.
Proof.
  revert results s; induction l as [|u l IH]; intros results s; csimpl.
  - exists s; rewrite app_nil_r; split; reflexivity.
  - destruct (verify_attestation_record_run u e s) as (s1 & E1 & T1).
    rewrite (bind_run _ _ _ _ _ _ E1).
    destruct (IH (results ++ [valid_uid e s u]) s1) as (s2 & -> & T2); exists s2.
    split; [|by transitivity s1]; do 2 f_equal; rewrite <- app_assoc; f_equal; csimpl; f_equal.
    apply list_fmap_ext; intros _ v _; by apply valid_uid_silent.
Qed.

Lemma verify_all_loop_run l e s :
  exists s', verify_all_loop l e s = Ok (forallb (valid_uid e s) l, s') /\ silent e s s'.
Proof.
  revert s; induction l as [|u l IH]; intros s; simpl; [exists s; split; reflexivity|].
  destruct (verify_attestation_record_run u e s) as (s1 & E1 & T1).
  rewrite (bind_run _ _ _ _ _ _ E1); destruct (valid_uid e s u) eqn:Ev; simpl; [|by exists s1].
  destruct (IH s1) as (s2 & -> & T2); exists s2; split; [|by transitivity s1].
  do 2 f_equal; clear -T1; induction l as [|v l IHl]; simpl; [done|].
  by rewrite (valid_uid_silent _ _ _ _ T1), IHl.
Qed.

Lemma extend_instance_ttl_bind {A} (f : unit -> M SasSig X A) e s :
  exists z, mbind f extend_instance_ttl e s = f tt e (upd_inst_live z s).
Proof. eexists; reflexivity. Qed.
End verify.

(** ** Storage lifetimes *)

(** The lifetime covers the validity window, rounded up to ledgers of five
    seconds, as long as the window is at most five years. *)
Lemma compute_storage_ttl_bounds e ex :
  LEDGERS_IN_ONE_YEAR <= compute_storage_ttl e ex <= 5 * LEDGERS_IN_ONE_YEAR.
Proof.
  unfold compute_storage_ttl, LEDGERS_IN_ONE_YEAR, sat_add, as_u32, u32_max.
  destruct (ex =? 0), (ex <=? timestamp e); try lia.
  pose proof (Z.mod_pos_bound ((ex - timestamp e + 4) / 5) (2 ^ 32) ltac:(lia)); lia.
Qed.
