(* ===== verification/SasProgress.v ===== *)
(** * SAS: calls that succeed

    Conditions under which issuing and revoking succeed: the guards are down,
    the contract is not paused, the parties authorised it, the record is
    acceptable and the contracts it consults answer.  An indexer that fails
    does not stand in the way unless the admin made it mandatory. *)

From S2P Require Import Prelude Host Common TypedData Merkle SasState SasCore SasAdmin SasFees.
From S2P Require Import SasIssue SasAttest SasRevoke SasQuery SasFrame SasRecord SasIssueSpec SasLife.

Lemma wp_probe {C : Sig} {X A} (f : xcall X A) d e (s : State C X) v (Q : A -> State C X -> Prop) :
  always f e v -> (forall x, Q v (upd_ext x s)) -> wp (probe f d) e s Q.
Proof.
  intros Hf HQ; unfold wp, probe, mbind, M_bind, try_invoke.
  destruct (Hf (ext s)) as [x ->]; apply HQ.
Qed.

(** Walk through the steps that cannot fail. *)
Ltac wp_go :=
  repeat match goal with
  | |- wp (mbind _ _) _ _ _ => apply wp_bind
  | |- wp (mret ?a) _ ?s ?Q => change (Q a s); cbv beta
  | |- wp (ask ?f) ?e ?s ?Q => change (Q (f e) s); cbv beta
  | |- wp (inst_get ?k) _ ?s ?Q => change (Q (inst s k) s); cbv beta
  | |- wp (inst_set ?k ?v) _ ?s ?Q =>
      change (Q tt (upd_inst (store_update k (Some v)) s)); cbv beta
  | |- wp (publish ?ev) _ ?s ?Q => change (Q tt (upd_events (events s ++ [ev]) s)); cbv beta
  | |- wp extend_instance_ttl ?e ?s ?Q =>
      change (Q tt (upd_inst_live
        (extended e (inst_live s) LEDGERS_IN_ONE_YEAR LEDGERS_IN_ONE_YEAR) s)); cbv beta
  end.

Section progress.
Context {X : Type} `{Deps X}.
Implicit Types (s : State SasSig X) (e : Env).

(** The callback bracket adds no failure below the depth limit. *)
Lemma wp_in_callback_context {A} (m : M SasSig X A) e s (Q : A -> Prop) :
  call_depth s < u32_max ->
  (forall s1, touches guard_key (fun _ => False) e s s1 -> wp m e s1 (fun a _ => Q a)) ->
  wp (in_callback_context m) e s (fun a _ => Q a).
Proof.
  intros Hd Hm; unfold in_callback_context, enter_callback_context; wp_go.
  apply wp_panic_if; [unfold call_depth in Hd; lia|]; wp_go.
  match goal with |- wp _ _ ?st _ => set (s1 := st) end.
  assert (touches guard_key (fun _ => False) e s s1) as T1.
  { split; [|done]; intros k Hk; apply inst_upd_ne; intros <-; apply Hk; by right. }
  assert (forall s2 b, touches guard_key (fun _ => False) e s s2 ->
    wp m e s2 (fun a s3 => wp (mbind (fun _ => mret a) (exit_callback_context b)) e s3 (fun a _ => Q a)))
    as Hrest.
  { intros s2 b T2; specialize (Hm s2 T2); unfold wp in *.
    destruct (m e s2) as [[a s3]|]; [|done].
    unfold exit_callback_context, exit_reentrancy_guard, mbind, M_bind, inst_get, inst_remove,
      inst_set, mret, M_ret.
    by destruct (_ <=? 1), b. }
  destruct (default false (inst s REENTRANCY_GUARD)); simpl.
  - wp_go; by apply Hrest.
  - wp_go; apply Hrest.
    etransitivity; [exact T1|]; split; [|done].
    intros k Hk; apply inst_upd_ne; intros <-; apply Hk; by left.
Qed.

(** *** Issuing *)

(** An attestation that the common issuance path accepts. *)
Record acceptable (e : Env) (a : Attestation) s : Prop := {
  ac_fields : fields_valid e s a;
  ac_schema : exists registry schema policy max_ttl,
    inst s SCHEMA_REGISTRY = Some registry
    /\ always (registry_get_schema registry (att_schema_uid a)) e (Some schema)
    /\ always (registry_is_schema_quarantined registry (att_schema_uid a)) e false
    /\ always (registry_get_max_ttl registry (att_schema_uid a)) e max_ttl
    /\ exceeds_max_ttl e max_ttl (expiration_time a) = false
    /\ always (registry_is_authorized registry (att_schema_uid a) (attester a)) e true
    /\ always (registry_get_schema_policy registry (att_schema_uid a)) e policy
    /\ check_policy policy (revocable a) = None
    /\ forall x, resolver_on_attest (sr_resolver schema) a e x <> None;
  ac_quota : inst s RATE_LIMIT_CONFIG = None
             \/ default false (inst s (RATE_EXEMPT (attester a))) = true;
  ac_indexer : inst s INDEXER = None \/ default false (inst s INDEXER_STRICT) = false
}.

Lemma wp_write_anchor u b ttl e s (Q : unit -> State SasSig X -> Prop) :
  pget s (TimestampAnchorKey u b) = None -> (forall s', inst s' = inst s -> Q tt s') ->
  wp (write_anchor u b ttl) e s Q.
Proof.
  intros Hn HQ; unfold write_anchor; apply wp_bind; unfold pers_has, wp at 1.
  rewrite Hn; wp_go; apply wp_panic_if; [done|]; wp_go.
  destruct (put_run (TimestampAnchorKey u b) (mkTimestampAnchor (sequence e) (timestamp e)) ttl e s)
    as (s' & Hr & (Hi & _) & _).
  by eapply wp_of_run; [exact Hr|apply HQ].
Qed.

Lemma wp_notify_indexer a ix e s (Q : unit -> State SasSig X -> Prop) :
  default false (inst s INDEXER_STRICT) = false -> (forall s', Q tt s') ->
  wp (notify_indexer_of_issuance ix a) e s Q.
Proof.
  intros Hs HQ; unfold notify_indexer_of_issuance, push_to_indexer; wp_go.
  assert (forall pushed s1, inst s1 = inst s ->
    wp (if (pushed : bool) then
          (if 0 <? valid_from a then
             _ ← try_invoke (indexer_set_valid_from ix (uid a) (valid_from a)); mret tt
           else mret tt)
        else strict ← inst_get INDEXER_STRICT;
             panic_if (default false strict) IndexerUnavailable;;
             publish (EvIndexFailed (uid a))) e s1 Q) as Hrest.
  { intros [] s1 Hi; [destruct (0 <? valid_from a); wp_go; [|done]|].
    - apply wp_try_invoke; intros; wp_go; apply HQ.
    - wp_go; apply wp_panic_if; [by rewrite Hi|]; wp_go; apply HQ. }
  apply wp_try_invoke; intros; wp_go; by apply Hrest.
Qed.

Lemma wp_store_issued a e s :
  pget s (TimestampAnchorKey (uid a) false) = None ->
  inst s INDEXER = None \/ default false (inst s INDEXER_STRICT) = false ->
  wp (store_issued a) e s (fun u _ => u = uid a).
Proof.
  intros Hn Hx; unfold store_issued; wp_go.
  destruct (write_attestation_run (with_time (timestamp e) a)
    (compute_storage_ttl e (expiration_time (with_time (timestamp e) a))) e s)
    as (s1 & Hw & (Hi & _) & Hk & _).
  eapply wp_of_run; [exact Hw|]; wp_go; apply wp_write_anchor.
  { rewrite Hk; [done|]; intros [? | [? | ?]]; congruence. }
  intros s2 Hi2; wp_go; rewrite Hi2, Hi; destruct (inst s INDEXER) as [ix|]; wp_go; [|done].
  apply wp_notify_indexer; [rewrite Hi2, Hi; by destruct Hx|]; intros s3; by wp_go.
Qed.

Lemma wp_attest_body a e s :
  acceptable e a s -> pget s (TimestampAnchorKey (uid a) false) = None ->
  wp (attest_body a) e s (fun u _ => u = uid a).
Proof.
  intros [Hf (registry & schema & policy & max_ttl & Hreg & Hsch & Hq & Httl & Hmax & Hau & Hpol
    & Hchk & Hres) Hrate Hix] Hn; unfold attest_body, require_registry; wp_go.
  eapply wp_unwrap_or_panic; [exact Hreg|]; wp_go.
  eapply wp_of_run; [by apply valid_fields_accepted; destruct Hf; split|].
  unfold validate_schema_rules; wp_go.
  eapply wp_invoke; [exact Hsch|]; intros x1; wp_go.
  eapply wp_unwrap_or_panic; [done|]; wp_go.
  eapply wp_probe; [exact Hq|]; intros x2; wp_go; apply wp_panic_if; [done|]; wp_go.
  eapply wp_probe; [exact Httl|]; intros x3; wp_go; apply wp_panic_if; [done|]; wp_go.
  eapply wp_probe; [exact Hau|]; intros x4; simpl; wp_go.
  apply wp_of_run with (a := tt) (s' := upd_ext x4 (upd_ext x3 (upd_ext x2 (upd_ext x1 (upd_inst_live
    (extended e (inst_live s) LEDGERS_IN_ONE_YEAR LEDGERS_IN_ONE_YEAR) s))))).
  { unfold consume_issuance_quota; run; simpl.
    destruct Hrate as [-> |Hex]; [done|]; destruct (inst s RATE_LIMIT_CONFIG) as [[? ?]|]; [|done].
    run; simpl; by rewrite Hex. }
  wp_go; eapply wp_probe; [exact Hpol|]; intros x5; wp_go; rewrite Hchk; simpl; wp_go.
  apply wp_try_accepted; [done|]; intros v x6 Hv; wp_go; apply wp_panic_if; [done|]; wp_go.
  by apply wp_store_issued.
Qed.

(** The configuration the path reads. *)
Definition issuing_key (a : Attestation) (k : SasIKey) : Prop :=
  k ∈ [SCHEMA_REGISTRY; RATE_LIMIT_CONFIG; RATE_EXEMPT (attester a); INDEXER; INDEXER_STRICT].
Lemma acceptable_before I P e a s s1 :
  touches I P e s s1 -> (forall k, issuing_key a k -> ~ I k) -> (forall u k, record_key u k -> ~ P k) ->
  acceptable e a s -> acceptable e a s1.
Proof.
  intros T HI HP [Hf Hs Hq Hx].
  assert (forall v, read_record s1 v = read_record s v) as R
    by (intros v; eapply read_record_touch; [exact T|eauto]).
  assert (forall k, issuing_key a k -> inst s1 k = inst s k) as Ti by (intros k Hk; apply T, HI, Hk).
  split; [destruct Hf; split; rewrite ?R; done|..]; rewrite !Ti; try done; unfold issuing_key; repeat constructor.
Qed.

Lemma issuing_not_guard a k : issuing_key a k -> ~ guard_key k.
Proof. unfold issuing_key; rewrite !elem_of_cons; by intros [-> |[-> |[-> |[-> |[-> |?%not_elem_of_nil]]]]] [|]. Qed.

Lemma wp_attest_internal a e s :
  call_depth s < u32_max -> acceptable e a s ->
  pget s (TimestampAnchorKey (uid a) false) = None ->
  wp (attest_internal a) e s (fun u _ => u = uid a).
Proof.
  intros Hd Ha Hn; apply wp_in_callback_context; [done|]; intros s1 T.
  apply wp_attest_body.
  - eapply acceptable_before; [exact T|apply issuing_not_guard|tauto|done].
  - by rewrite (proj2 T) by tauto.
Qed.

Lemma attest_run a e s :
  guarded s = false -> call_depth s = 0 -> default false (inst s PAUSED) = false ->
  default 0 (inst s FEE_PER_BYTE) <= 0 -> authorized e (attester a) = true ->
  acceptable e a s -> pget s (TimestampAnchorKey (uid a) false) = None ->
  exists s', attest a e s = Ok (uid a, s').
Proof.
  intros Hg Hd Hp Hfee Hau Ha Hn.
  assert (wp (attest a) e s (fun u _ => u = uid a)) as Hw.
  { unfold attest, reject_reentrant, reject_paused, is_paused_status, require_unpaid_allowed; wp_go.
    unfold guarded, call_depth in *; apply wp_panic_if; [by rewrite Hg, Hd|]; wp_go.
    apply wp_panic_if; [done|]; wp_go.
    rewrite (proj2 (Z.ltb_ge _ _) Hfee); wp_go; apply wp_require_auth; [done|].
    by apply wp_attest_internal; [unfold call_depth; rewrite Hd|..]. }
  apply wp_run in Hw as (u & s' & Hr & ->); eauto.
Qed.

(** *** Issuing by delegation *)

(** The key and the signature of a delegate-signed message on the schema. *)
Record endorsed (e : Env) (schema : UID) (by_ : Address) (digest sg pk : bytes) s : Prop := {
  en_registry : exists registry, inst s SCHEMA_REGISTRY = Some registry
    /\ always (registry_get_schema_frost_group registry schema) e None;
  en_key : attester_matches_key e by_ pk = true;
  en_canonical : signature_scalar_is_canonical sg = true;
  en_valid : ed25519_valid e pk digest sg = true
}.
Definition nonce_only (a : Address) (k : SasIKey) : Prop := k = DelegationNonceKey a.

Lemma wp_require_delegation_policy a schema e s (Q : unit -> State SasSig X -> Prop) :
  (forall policy, pget s (DELEGATION_POLICY a) = Some policy ->
     scope_denied e (dp_permissions policy) (dp_valid_until policy) (authorized_schema_uid policy) schema = false) ->
  Q tt s -> wp (require_delegation_policy a schema) e s Q.
Proof.
  intros Hpol HQ; unfold require_delegation_policy; wp_go.
  change (wp (pers_get ?k) e ?s2 ?Q2) with (Q2 (pget s2 k) s2); cbv beta.
  destruct (pget s _) as [policy|]; wp_go; [|done]; apply wp_panic_if; [by apply Hpol|done].
Qed.
(** Steps that change no stored value. *)
Abbreviation unmoved := (touches (C := SasSig) (X := X) (fun _ => False) (fun _ => False)).
Lemma wp_require_nonce a n e s (Q : unit -> State SasSig X -> Prop) :
  nonce_replayed n (inst s (DelegationNonceKey a)) = false ->
  (forall s1, unmoved e s s1 -> Q tt s1) -> wp (require_nonce_not_replayed a n) e s Q.
Proof. intros Hn HQ; unfold require_nonce_not_replayed; wp_go; apply wp_panic_if; [done|by apply HQ]. Qed.
Lemma wp_require_delegation_key schema a digest sg pk e s (Q : option FrostGroup -> State SasSig X -> Prop) :
  endorsed e schema a digest sg pk s -> (forall s1, unmoved e s s1 -> Q None s1) ->
  wp (require_delegation_key schema a pk) e s Q.
Proof.
  intros [(registry & Hr & Hg) Hk Hc Hv] HQ; unfold require_delegation_key, schema_frost_group, require_registry.
  wp_go; eapply wp_unwrap_or_panic; [exact Hr|]; wp_go; eapply wp_probe; [exact Hg|]; intros x.
  unfold require_attester_key, registered_key_matches; wp_go.
  change (wp (pers_get ?k) e ?s2 ?Q2) with (Q2 (pget s2 k) s2); cbv beta; wp_go.
  apply wp_panic_if; [by rewrite Hk|]; wp_go; by apply HQ.
Qed.
Lemma wp_consume_nonce a n e s (Q : unit -> State SasSig X -> Prop) :
  nonce_replayed n (inst s (DelegationNonceKey a)) = false ->
  (forall s1, touches (nonce_only a) (fun _ => False) e s s1 -> Q tt s1) ->
  wp (consume_delegation_nonce a n) e s Q.
Proof.
  intros Hn HQ; unfold consume_delegation_nonce; wp_go; apply wp_panic_if; [done|]; wp_go; apply HQ.
  split; [|done]; intros k Hne.
  etransitivity; [apply (inst_upd_ne (DelegationNonceKey a) k (Some n)); by intros <-|done].
Qed.
(** A fresh nonce and a valid signature are consumed; nothing but the nonce
    changes. *)
Ltac wp_endorsement Hn Hend s1 T :=
  let T1 := fresh "T" in let T2 := fresh "T" in let T3 := fresh "T" in
  let r1 := fresh "r" in let r2 := fresh "r" in
  apply wp_require_nonce; [exact Hn|]; intros r1 T1; wp_go;
  eapply wp_require_delegation_key;
    [destruct Hend; split; try eassumption; rewrite (proj1 T1) by tauto; eassumption|]; intros r2 T2; wp_go;
  eapply wp_of_run with (a := tt); [apply verify_offchain_signature_ok; split_and!; [apply Hend..|reflexivity]|];
  wp_go; apply wp_consume_nonce; [rewrite (proj1 T2), (proj1 T1) by tauto; exact Hn|]; intros s1 T3;
  match type of T1 with touches _ _ ?e ?s _ =>
  match type of T3 with touches ?I _ _ _ _ =>
  assert (touches I (fun _ => False) e s s1) as T
    by (destruct T1 as [I1 P1], T2 as [I2 P2], T3 as [I3 P3]; split; intros k Hk;
        [by rewrite (I3 k Hk), I2, I1 by tauto|by rewrite (P3 k Hk), P2, P1 by tauto])
  end end; clear T1 T2 T3.

Lemma attest_by_delegation_run a n sg pk e s :
  guarded s = false -> call_depth s = 0 -> default false (inst s PAUSED) = false ->
  default 0 (inst s FEE_PER_BYTE) <= 0 -> revocation_time a = 0 ->
  (forall policy, pget s (DELEGATION_POLICY (attester a)) = Some policy ->
     scope_denied e (dp_permissions policy) (dp_valid_until policy) (authorized_schema_uid policy)
       (att_schema_uid a) = false) ->
  nonce_replayed n (inst s (DelegationNonceKey (attester a))) = false ->
  endorsed e (att_schema_uid a) (attester a) (hash_offchain_attestation e a (domain_of n e)) sg pk s ->
  acceptable e a s -> pget s (TimestampAnchorKey (uid a) false) = None ->
  exists s', attest_by_delegation a n sg pk e s = Ok (uid a, s').
Proof.
  intros Hg Hd Hp Hfee Hz Hpol Hn Hend Ha Hanc.
  assert (wp (attest_by_delegation a n sg pk) e s (fun u _ => u = uid a)) as Hw;
    [|by apply wp_run in Hw as (u & s' & Hr & ->); eauto].
  unfold attest_by_delegation, reject_reentrant, reject_paused, is_paused_status, authorize_delegated,
    require_unpaid_allowed; wp_go.
  unfold guarded, call_depth in *; apply wp_panic_if; [by rewrite Hg, Hd|]; wp_go.
  apply wp_panic_if; [done|]; wp_go; apply wp_panic_if; [by rewrite Hz|]; wp_go.
  rewrite (proj2 (Z.ltb_ge _ _) Hfee); wp_go; apply wp_require_delegation_policy; [done|].
  wp_go; wp_endorsement Hn Hend s1 T; apply wp_attest_internal.
  - unfold call_depth; rewrite (proj1 T) by done; by rewrite Hd.
  - eapply acceptable_before; [exact T| |tauto|done].
    intros k Hk ->; unfold issuing_key in Hk; rewrite !elem_of_cons in Hk.
    by destruct Hk as [|[|[|[|[|?%not_elem_of_nil]]]]].
  - by rewrite (proj2 T) by tauto.
Qed.

(** *** Revoking *)

(** A record that the common revocation path can revoke. *)
Record revocable_now (e : Env) (u : UID) (a : Attestation) s : Prop := {
  rn_read : read_record s u = Some a;
  rn_uid : uid a = u;
  rn_revocable : revocable a = true;
  rn_active : revocation_time a = 0;
  rn_anchor : pget s (TimestampAnchorKey u true) = None;
  rn_schema : exists registry schema, inst s SCHEMA_REGISTRY = Some registry
    /\ always (registry_get_schema registry (att_schema_uid a)) e (Some schema)
    /\ forall x, resolver_on_revoke (sr_resolver schema) (with_revocation_time (timestamp e) a) e x <> None
}.

Lemma revocable_now_before I P e u a s s1 :
  touches I P e s s1 -> ~ I SCHEMA_REGISTRY -> (forall k, ~ P k) -> revocable_now e u a s -> revocable_now e u a s1.
Proof.
  intros T HI HP [Hr Hu Hv Hz Hn Hs]; split; try done.
  - erewrite read_record_touch; [exact Hr|exact T|]; intros k _; apply HP.
  - by rewrite (proj2 T) by apply HP.
  - by rewrite (proj1 T) by done.
Qed.

Lemma wp_revoke_internal u a e s :
  call_depth s < u32_max -> revocable_now e u a s -> wp (revoke_internal u) e s (fun _ _ => True).
Proof.
  intros Hd Hrn; apply (wp_in_callback_context _ e s (fun _ => True)); [done|]; intros s1 T.
  destruct (revocable_now_before _ _ _ _ _ _ _ T ltac:(by intros [|]) ltac:(tauto) Hrn)
    as [Hread Hu Hrv Hz Hn (registry & schema & Hreg & Hsch & Hres)].
  unfold revoke_body, store_revoked; wp_go.
  change (wp (read_attestation u) e ?s2 ?Q) with (Q (read_record s2 u) s2); cbv beta; wp_go.
  change (read_record (upd_inst_live ?l s1) u) with (read_record s1 u).
  eapply wp_unwrap_or_panic; [exact Hread|]; wp_go.
  apply wp_panic_if; [by rewrite Hrv|]; wp_go; apply wp_panic_if; [by rewrite Hz|]; wp_go.
  match goal with |- wp (write_attestation ?b ?ttl) e ?s2 _ =>
    destruct (write_attestation_run b ttl e s2) as (s3 & Hw & (Hi & _) & Hk & _) end.
  eapply wp_of_run; [exact Hw|]; wp_go; apply wp_write_anchor.
  { by rewrite Hk by (simpl; rewrite Hu; intros [? | [? | ?]]; congruence). }
  intros s4 Hi4; wp_go; unfold consult_on_revocation, require_registry; wp_go.
  eapply wp_unwrap_or_panic; [simpl; rewrite Hi4, Hi; exact Hreg|].
  wp_go; eapply wp_invoke; [exact Hsch|]; intros x1; wp_go.
  eapply wp_unwrap_or_panic; [done|]; wp_go.
  apply wp_try_accepted; [done|]; intros v x2 Hv; wp_go; apply wp_panic_if; [done|]; wp_go.
  match goal with |- wp (match ?o with Some _ => _ | None => _ end) _ _ _ => destruct o end;
    wp_go; [|done]; apply wp_try_invoke; intros; by wp_go.
Qed.

Lemma revoke_run u a e s :
  guarded s = false -> call_depth s = 0 -> default false (inst s PAUSED) = false ->
  revocable_now e u a s -> authorized e (attester a) = true -> exists s', revoke u e s = Ok (tt, s').
Proof.
  intros Hg Hd Hp Hrn Hau.
  assert (wp (revoke u) e s (fun _ _ => True)) as Hw; [|by apply wp_run in Hw as ([] & s' & ? & _); eauto].
  unfold revoke, reject_reentrant, reject_paused, is_paused_status; wp_go.
  unfold guarded, call_depth in *; apply wp_panic_if; [by rewrite Hg, Hd|]; wp_go.
  apply wp_panic_if; [done|]; wp_go.
  change (wp (read_attestation u) e s ?Q) with (Q (read_record s u) s); cbv beta; wp_go.
  eapply wp_unwrap_or_panic; [apply Hrn|]; wp_go; apply wp_require_auth; [done|].
  eapply wp_revoke_internal; [unfold call_depth; by rewrite Hd|done].
Qed.
Lemma revoke_by_delegation_run u a n sg pk e s :
  guarded s = false -> call_depth s = 0 -> default false (inst s PAUSED) = false ->
  revocable_now e u a s -> nonce_replayed n (inst s (DelegationNonceKey (attester a))) = false ->
  endorsed e (att_schema_uid a) (attester a) (hash_delegated_revocation e u (attester a) (domain_of n e)) sg pk s ->
  exists s', revoke_by_delegation u n sg pk e s = Ok (tt, s').
Proof.
  intros Hg Hd Hp Hrn Hn Hend.
  assert (wp (revoke_by_delegation u n sg pk) e s (fun _ _ => True)) as Hw;
    [|by apply wp_run in Hw as ([] & s' & ? & _); eauto].
  unfold revoke_by_delegation, reject_reentrant, reject_paused, is_paused_status; wp_go.
  unfold guarded, call_depth in *; apply wp_panic_if; [by rewrite Hg, Hd|]; wp_go.
  apply wp_panic_if; [done|]; wp_go.
  change (wp (read_attestation u) e s ?Q) with (Q (read_record s u) s); cbv beta; wp_go.
  eapply wp_unwrap_or_panic; [apply Hrn|]; unfold authorize_delegated_revocation; wp_go.
  wp_endorsement Hn Hend s1 T; eapply wp_revoke_internal.
  - unfold call_depth; rewrite (proj1 T) by done; by rewrite Hd.
  - eapply revocable_now_before; [exact T|discriminate|tauto|exact Hrn].
Qed.
End progress.
