(* ===== verification/SasQuota.v ===== *)
(** * SAS: the issuance quota

    The sliding-window rate limit of [consume_issuance_quota] admits at most
    the configured number of issuances of an attester in any window of ledgers,
    although its history is kept in a temporary entry that expires. *)

From S2P Require Import Prelude Host Common SasState SasCore SasFees.
From Stdlib Require Import Sorted.

(** Issuances of [l] in the [window] ledgers that end with [n]. *)
Definition issued_in_window (window n : Z) (l : list Z) : list Z :=
  List.filter (in_window (sat_sub n (sat_sub window 1)) n) l.

Lemma filter_len_le (f g : Z -> bool) l :
  (forall x, x ∈ l -> f x = true -> g x = true) ->
  len (List.filter f l) <= len (List.filter g l).
Proof.
  unfold len; induction l as [|x l IH]; intros Hfg; simpl; [lia|].
  pose proof (IH (fun y Hy => Hfg y (list_elem_of_further _ _ _ Hy))).
  pose proof (Hfg x (list_elem_of_here _ _)).
  destruct (f x), (g x); simpl; try lia; by discriminate H0.
Qed.

Lemma filter_filter_le (f g : Z -> bool) l :
  (forall x, x ∈ l -> f x = true -> g x = true) ->
  List.filter f (List.filter g l) = List.filter f l.
Proof.
  induction l as [|x l IH]; intros Hfg; simpl; [done|].
  pose proof (Hfg x (list_elem_of_here _ _)) as Hx.
  specialize (IH (fun y Hy => Hfg y (list_elem_of_further _ _ _ Hy))).
  destruct (g x); simpl; [by rewrite IH|].
  destruct (f x); [by discriminate Hx|done].
Qed.

Section quota.
Context {X : Type} (who : Address) (max_issuances window : Z).
Implicit Types (s : State SasSig X) (e : Env).

(** The quota applies to [who]. *)
Definition limited s : Prop :=
  inst s RATE_LIMIT_CONFIG = Some (max_issuances, window)
  /\ default false (inst s (RATE_EXEMPT who)) = false.

(** One attempt to issue, and a sequence of them: the ledgers of the
    admitted ones. *)
Definition attempt (e : Env) s : option (State SasSig X) :=
  match consume_issuance_quota who e s with
  | Ok (_, s') => Some s'
  | Err _ => None
  end.
Fixpoint attempts (es : list Env) s (admitted : list Z) : list Z * State SasSig X :=
  match es with
  | [] => (admitted, s)
  | e :: es' => match attempt e s with
                | Some s' => attempts es' s' (admitted ++ [sequence e])
                | None => attempts es' s admitted
                end
  end.

(** The history the contract still sees at ledger [n] agrees with the
    admitted issuances on every window. *)
Record history_ok (last : Z) s (admitted : list Z) : Prop := {
  ho_limited : limited s;
  ho_past : Forall (fun x => x <= last) admitted;
  ho_seen : forall e, last <= sequence e ->
    issued_in_window window (sequence e) (default [] (fst <$> temp_live e s (RATE_HISTORY who)))
    = issued_in_window window (sequence e) admitted;
  ho_bound : forall n, len (issued_in_window window n admitted) <= max_issuances
}.

Lemma extended_covers e l :
  max_live e >= sequence e + window ->
  sequence e + window <= extended e l window window.
Proof.
  intros Hm; unfold extended; rewrite Z.min_l by lia.
  destruct (l <? sequence e + window) eqn:E1, (l - sequence e <=? window) eqn:E2;
    simpl; bool_facts; lia.
Qed.

Lemma consume_issuance_quota_ok e s u s' :
  limited s -> consume_issuance_quota who e s = Ok (u, s') ->
  let recent := issued_in_window window (sequence e)
                  (default [] (fst <$> temp_live e s (RATE_HISTORY who))) in
  len recent < max_issuances /\ inst s' = inst s
  /\ exists l, temp s' (RATE_HISTORY who) = Some (recent ++ [sequence e], l)
       /\ sequence e + window <= l.
Proof.
  intros [Hc Hx] Hr; unfold consume_issuance_quota in Hr; run_inv.
  rewrite Hc in Hr; run_inv; rewrite Hx in Hr; run_inv.
  bool_facts.
  match goal with H1 : temp_set _ _ _ _ = Ok _ |- _ => unfold temp_set in H1; inj_run H1 end.
  unfold temp_extend_ttl in Hr; rewrite Z.ltb_irrefl in Hr.
  destruct (_ <? _) eqn:Em in Hr; [done|]; bool_facts.
  destruct (temp_live e _ _) as [[v l]|] eqn:Et in Hr; [|done]; inj_run Hr.
  unfold temp_live in Et; simpl in Et; rewrite store_update_eq in Et.
  destruct (_ <=? _) in Et; [|done]; injection Et as <- <-.
  split_and!; [assumption|done|]; simpl; rewrite store_update_eq.
  eexists; split; [done|]; apply extended_covers; lia.
Qed.

Lemma in_window_mono n n' last x :
  x <= last -> last <= n -> n <= n' ->
  in_window (sat_sub n' (sat_sub window 1)) n' x = true ->
  in_window (sat_sub n (sat_sub window 1)) n x = true.
Proof. unfold in_window, sat_sub; intros; bool_facts; apply andb_true_iff; lia. Qed.

Lemma issued_in_window_app n l1 l2 :
  issued_in_window window n (l1 ++ l2)
  = issued_in_window window n l1 ++ issued_in_window window n l2.
Proof. unfold issued_in_window; by rewrite List.filter_app. Qed.

Lemma issued_in_window_past n last l :
  0 < window -> Forall (fun x => x <= last) l -> last + window < n ->
  issued_in_window window n l = [].
Proof.
  intros Hw Hl Hn; induction Hl as [|x l Hx Hl IH]; [done|].
  unfold issued_in_window in *; simpl; rewrite IH.
  destruct (in_window _ n x) eqn:E; [|done]; unfold in_window, sat_sub in E; bool_facts; lia.
Qed.

Lemma history_admit last e s u s' admitted :
  0 < window -> history_ok last s admitted -> last <= sequence e ->
  consume_issuance_quota who e s = Ok (u, s') ->
  history_ok (sequence e) s' (admitted ++ [sequence e]).
Proof.
  intros Hw [Hlim Hpast Hseen Hbound] Hle Hr.
  apply consume_issuance_quota_ok in Hr as (Hmax & Hi & l & Ht & Hlive); [|done].
  rewrite Hseen in Hmax, Ht by done; clear Hseen.
  assert (forall n', sequence e <= n' -> forall x, x ∈ admitted ->
    in_window (sat_sub n' (sat_sub window 1)) n' x = true ->
    in_window (sat_sub (sequence e) (sat_sub window 1)) (sequence e) x = true) as Hmono.
  { intros n' Hn' x Hx; eapply (in_window_mono _ _ last); try done.
    rewrite Forall_forall in Hpast; auto. }
  assert (Forall (fun x => x <= sequence e) (admitted ++ [sequence e])) as Hp'.
  { apply Forall_app; split; [|by constructor].
    eapply Forall_impl; [exact Hpast|]; simpl; lia. }
  split; [by unfold limited; rewrite Hi|done| |].
  - intros e' Hle'; unfold temp_live; rewrite Ht.
    destruct (sequence e' <=? l) eqn:El; simpl; bool_facts.
    + rewrite !issued_in_window_app; f_equal; exact (filter_filter_le _ _ _ (Hmono _ Hle')).
    + symmetry; apply (issued_in_window_past _ (sequence e)); auto; lia.
  - intros n; rewrite issued_in_window_app; unfold len; rewrite length_app; simpl.
    destruct (in_window _ n (sequence e)) eqn:En; simpl; [|specialize (Hbound n); unfold len in *; lia].
    assert (sequence e <= n) as Hn by (unfold in_window in En; bool_facts; lia).
    pose proof (filter_len_le _ _ admitted (Hmono n Hn)) as Hc; unfold len, issued_in_window in *.
    lia.
Qed.

Lemma history_later last last' s admitted :
  last <= last' -> history_ok last s admitted -> history_ok last' s admitted.
Proof.
  intros Hle [Hlim Hpast Hseen Hbound]; split; [done| | |done].
  - eapply Forall_impl; [exact Hpast|]; simpl; lia.
  - intros e He; apply Hseen; lia.
Qed.

Lemma attempts_ok last es s admitted :
  0 < window -> history_ok last s admitted ->
  Sorted Z.le (last :: (sequence <$> es)) ->
  exists last', history_ok last' (attempts es s admitted).2 (attempts es s admitted).1.
Proof.
  intros Hw; revert last s admitted; induction es as [|e es IH]; intros last s admitted Ho Hs;
    csimpl; [by exists last|].
  csimpl in Hs; apply Sorted_inv in Hs as [Hs Hh]; apply HdRel_inv in Hh.
  unfold attempt; destruct (consume_issuance_quota who e s) as [[u s']|err] eqn:Hr.
  - by eapply IH; [eapply history_admit|].
  - by eapply IH; [eapply history_later|].
Qed.

(** An attester that has not issued yet. *)
Lemma history_fresh s :
  limited s -> 0 <= max_issuances -> temp s (RATE_HISTORY who) = None ->
  history_ok 0 s [].
Proof.
  intros Hl Hm Ht; split; [done|done| |done].
  intros e _; unfold temp_live; by rewrite Ht.
Qed.
End quota.
