(* ===== verification/SasConfig.v ===== *)
(** * SAS: configuration, keys, nullifiers and guards

    Who can change the contract's configuration and its admin, how an
    attester's registered key evolves, and that a proof nullifier is used at
    most once, for every entry point; that every entry point releases the
    guards it takes. *)

From S2P Require Import Prelude Host Common TypedData Merkle SasState SasCore SasAdmin SasFees.
From S2P Require Import SasIssue SasAttest SasRevoke SasQuery SasCalls SasFrame SasRecord.
From S2P Require Import SasIssueSpec SasLife SasAuthority.

(** ** Configuration *)

(** Every instance entry but nonces, guards and the admin itself. *)
Definition config_key (k : SasIKey) : Prop :=
  match k with
  | DelegationNonceKey _ | RecipientConsentNonceKey _ | REENTRANCY_GUARD | CALL_DEPTH
  | SAS_ADMIN | PENDING_ADMIN => False
  | _ => True
  end.

Section config.
Context {X : Type} `{Deps X}.
Implicit Types (s : State SasSig X) (e : Env).

(** The admin signed the invocation, or there is none yet. *)
Definition admin_acts (e : Env) s : Prop :=
  match inst s SAS_ADMIN with
  | Some admin => authorized e admin = true
  | None => True
  end.

Definition plain_key (k : SasIKey) : Prop :=
  ~ config_key k /\ k <> SAS_ADMIN /\ k <> PENDING_ADMIN.

Lemma admin_prologue_ok e s a s' :
  admin_prologue e s = Ok (a, s') ->
  inst s SAS_ADMIN = Some a /\ authorized e a = true /\ inst s' = inst s.
Proof. unfold admin_prologue; intros Hr; sas_inv; done. Qed.

(** What one successful call does to the administrative entries. *)
Definition admin_step (e : Env) s s' : Prop :=
  admin_acts e s \/
  ((forall k, config_key k -> inst s' k = inst s k)
   /\ ((inst s' SAS_ADMIN = inst s SAS_ADMIN /\ inst s' PENDING_ADMIN = inst s PENDING_ADMIN)
       \/ exists p, inst s PENDING_ADMIN = Some p /\ authorized e p = true
            /\ inst s' SAS_ADMIN = Some p /\ inst s' PENDING_ADMIN = None)).

Lemma admin_step_plain {A} (m : M SasSig X A) e s r s' :
  preserves (touches plain_key (fun _ => True)) m -> m e s = Ok (r, s') -> admin_step e s s'.
Proof.
  intros Hm [Hi _]%Hm; right; split.
  - intros k Hk; apply Hi; by intros [? _].
  - left; split; apply Hi; unfold plain_key; tauto.
Qed.
End config.

#[export] Hint Extern 1 (plain_key _) => (split_and!; [tauto|discriminate..]) : sas.

Section config_exec.
Context {X : Type} `{Deps X}.
Implicit Types (s : State SasSig X) (e : Env).

Lemma admin_checked e s a : inst s SAS_ADMIN = Some a -> authorized e a = true -> admin_acts e s.
Proof. unfold admin_acts; by intros ->. Qed.

(** The run checked the admin's authorisation. *)
Ltac by_admin :=
  left; match goal with Hr : ?m ?e ?s = Ok _ |- admin_acts ?e ?s =>
                 let h := get_head m in unfold h in Hr end;
  sas_inv;
  try match goal with Hp : admin_prologue _ _ = _ |- _ =>
    apply admin_prologue_ok in Hp as (? & ? & _) end;
  eapply admin_checked; eassumption.

Lemma admin_exec c e s r s' : exec c e s = Ok (r, s') -> admin_step e s s'.
Proof.
  intros Hr; destruct c; simpl in Hr;
    try solve [eapply admin_step_plain; [|exact Hr]; pres_open | by_admin].
  - left; unfold init in Hr; sas_inv; bool_facts; unfold admin_acts.
    match goal with Hn : ~ is_Some (inst _ SAS_ADMIN) |- _ =>
      change (~ is_Some (inst s SAS_ADMIN)) in Hn; destruct (inst s SAS_ADMIN) end;
      [exfalso; eauto|done].
  - left; unfold upgrade in Hr; sas_inv.
    match goal with Hv : match ?v with inl _ => _ | inr _ => _ end _ _ = _ |- _ =>
      destruct v; sas_inv end.
    eapply admin_checked; eassumption.
  - unfold accept_admin in Hr; sas_inv; right; split.
    + intros k Hk; change (inst (upd_events _ ?s1) k) with (inst s1 k).
      change (inst (upd_inst_live _ ?s1) k) with (inst s1 k).
      rewrite !inst_upd_ne by (intros <-; done); done.
    + right; eexists; split_and!; [eassumption..| |].
      * change (inst (upd_events _ ?s1) ?k) with (inst s1 k).
        change (inst (upd_inst_live _ ?s1) ?k) with (inst s1 k).
        by rewrite inst_upd_ne, inst_upd_eq by done.
      * exact (inst_upd_eq PENDING_ADMIN None _).
Qed.
End config_exec.

(** ** Registered keys *)

(** How an attester's key record may change in one call: first registration,
    a new key with the next version, or revocation of the current key. *)
Definition key_step (o o' : option AttesterKeyRecord) : Prop :=
  match o, o' with
  | None, Some r' => version r' = 1 /\ revoked r' = false
  | Some r, Some r' =>
      (version r' = version r + 1 /\ revoked r' = false)
      \/ (r' = mkAttesterKeyRecord (public_key r) (version r) true /\ revoked r = false)
  | _, None => False
  end.

Section keys.
Context {X : Type} `{Deps X}.
Implicit Types (s : State SasSig X) (e : Env).

Definition keys_step (e : Env) s s' : Prop :=
  forall a, pget s' (ATTESTER_KEY a) = pget s (ATTESTER_KEY a)
    \/ (authorized e a = true
        /\ key_step (pget s (ATTESTER_KEY a)) (pget s' (ATTESTER_KEY a))).

Lemma keys_step_other {A} (m : M SasSig X A) e s r s' :
  preserves (touches (fun _ => True) other_pkey) m -> m e s = Ok (r, s') -> keys_step e s s'.
Proof. intros Hm [_ Hp]%Hm a; left; apply Hp; intros Ho; by apply (Ho a). Qed.

Lemma store_key_record_step a e s r z s' :
  authorized e a = true -> key_step (pget s (ATTESTER_KEY a)) (Some r) ->
  store_key_record a r e s = Ok (z, s') -> keys_step e s s'.
Proof.
  intros Hau Hk; unfold store_key_record; intros Hr; run_inv; intros b.
  destruct (decide (b = a)) as [->|Hne].
  - right; split; [done|]; by rewrite pget_upd_eq.
  - left; by rewrite !pget_upd_ne by congruence.
Qed.

Ltac stored :=
  match goal with Hs : store_key_record ?a _ ?e ?s1 = Ok (_, ?s2) |- keys_step ?e ?s _ =>
    change (keys_step e s1 s2);
    refine (store_key_record_step a e s1 _ _ s2 _ _ Hs); [assumption|] end.

Lemma keys_step_register a pk e s r s' :
  register_attester_key a pk e s = Ok (r, s') -> keys_step e s s'.
Proof.
  unfold register_attester_key; intros Hr; sas_inv.
  change (pget (upd_inst_live _ s) ?k) with (pget s k) in *.
  destruct (pget s (ATTESTER_KEY a)) as [old|] eqn:Eo; sas_inv; stored;
    change (pget (upd_inst_live _ s) ?k) with (pget s k); rewrite Eo; simpl; auto.
Qed.
Lemma keys_step_rotate a pk e s r s' :
  rotate_attester_key a pk e s = Ok (r, s') -> keys_step e s s'.
Proof.
  unfold rotate_attester_key, require_active_key; intros Hr; sas_inv; stored.
  match goal with Hk : pget _ _ = Some _ |- _ => rewrite Hk end; simpl; auto.
Qed.
Lemma keys_step_revoke a e s r s' :
  revoke_attester_key a e s = Ok (r, s') -> keys_step e s s'.
Proof.
  unfold revoke_attester_key, require_active_key; intros Hr; sas_inv; stored.
  match goal with Hk : pget _ _ = Some _ |- _ => rewrite Hk end; simpl; auto.
Qed.

Lemma attestation_key_other u k : attestation_key u k -> other_pkey k.
Proof. by intros [[-> | [-> | ->]]|[b ->]] a. Qed.
#[local] Hint Resolve attestation_key_other : sas.

Lemma keys_exec c e s r s' : exec c e s = Ok (r, s') -> keys_step e s s'.
Proof.
  intros Hr; destruct c; simpl in Hr;
    eauto using keys_step_register, keys_step_rotate, keys_step_revoke;
    (eapply keys_step_other; [|exact Hr]; pres_open).
Qed.
End keys.

(** ** Nullifiers *)

Section nullifier.
Context {X : Type} `{Deps X}.
Implicit Types (s : State SasSig X) (e : Env).

(** No call forgets a nullifier. *)
Definition nullifiers_kept (e : Env) s s' : Prop :=
  forall n, is_Some (pget s (ZkNullifierKey n)) -> is_Some (pget s' (ZkNullifierKey n)).

#[export] Instance nullifiers_kept_preorder : PreorderE nullifiers_kept.
Proof. intros e; split; [by intros s n|]; intros s1 s2 s3 H1 H2 n Hn; auto. Qed.

Definition not_nullifier (k : SasPKey) : Prop := forall n, k <> ZkNullifierKey n.

Lemma nullifiers_touches {A} (m : M SasSig X A) :
  preserves (touches (fun _ => True) not_nullifier) m -> preserves nullifiers_kept m.
Proof.
  intros Hm e s r s' [_ Hp]%Hm n Hn; rewrite Hp; [done|]; intros Ho; by apply (Ho n).
Qed.
Lemma nullifiers_put n v ttl :
  preserves (nullifiers_kept) (pers_put (X := X) (ZkNullifierKey n) v ttl).
Proof.
  intros e s r s' Hr m Hm; run_inv; destruct (decide (m = n)) as [->|Hne].
  - rewrite pget_upd_eq; eauto.
  - by rewrite !pget_upd_ne by congruence.
Qed.
Lemma attestation_key_not_nullifier u k : attestation_key u k -> not_nullifier k.
Proof. by intros [[-> | [-> | ->]]|[b ->]] a. Qed.
#[local] Hint Resolve nullifiers_put attestation_key_not_nullifier : sas.
#[local] Hint Extern 5 (preserves nullifiers_kept _) => apply nullifiers_touches : sas.
#[local] Hint Extern 1 (not_nullifier _) =>
  first [ intros ?; discriminate
        | match goal with H : record_key _ _ |- _ => by destruct H as [-> | [-> | ->]] end ] : sas.

Lemma nullifiers_exec c : preserves nullifiers_kept (exec c).
Proof. destruct c; simpl; pres_open. Qed.

Lemma nullifiers_history h s n :
  is_Some (pget s (ZkNullifierKey n)) -> is_Some (pget (run_history h s) (ZkNullifierKey n)).
Proof.
  revert s; induction h as [|[e c] h IH]; intros s Hs; simpl; [done|]; apply IH.
  destruct (transact_run e c s) as [(s' & Hr & ->)|(err & _ & ->)]; [|done].
  by eapply nullifiers_exec.
Qed.

Lemma attest_with_zk_marks a p n e s r s' :
  attest_with_zk a p n e s = Ok (r, s') ->
  pget s (ZkNullifierKey n) = None /\ is_Some (pget s' (ZkNullifierKey n)).
Proof.
  unfold attest_with_zk; intros Hr; sas_inv; bool_facts.
  match goal with Hu : require_unpaid_allowed _ _ _ = _ |- _ =>
    apply (fp_require_unpaid_allowed (fun _ => False) (fun _ => False)) in Hu as [_ Hp] end.
  rewrite <- (Hp (ZkNullifierKey n)) by auto.
  split; [by apply eq_None_not_Some|]; rewrite pget_upd_eq; eauto.
Qed.
End nullifier.

(** ** Reentrancy guards and the pause switch

    Every entry point leaves the guard entries as it found them, so no history
    of calls can lock the contract; while a guard is up, the entry points that
    check it fail. *)

Section guard.
Context {X : Type} `{Deps X}.
Implicit Types (s : State SasSig X) (e : Env).

Definition balanced (e : Env) s s' : Prop := 0 <= call_depth s -> guards_eq s s'.

#[export] Instance balanced_preorder : PreorderE balanced.
Proof.
  intros e; split; [done|]; unfold balanced, guards_eq.
  intros s1 s2 s3 H12 H23 Hd; destruct (H12 Hd) as [G1 D1].
  destruct H23 as [G2 D2]; [by rewrite D1|]; split; congruence.
Qed.

Definition no_guard (k : SasIKey) : Prop := ~ guard_key k.

Lemma balanced_touches {A} (m : M SasSig X A) :
  preserves (touches no_guard (fun _ => True)) m -> preserves balanced m.
Proof.
  intros Hm e s r s' [Hi _]%Hm _; unfold guards_eq, guarded, call_depth.
  by rewrite (Hi REENTRANCY_GUARD), (Hi CALL_DEPTH)
    by (unfold no_guard, guard_key; tauto).
Qed.

Lemma balanced_in_callback_context {A} (m : M SasSig X A) :
  preserves (touches no_guard (fun _ => True)) m -> preserves balanced (in_callback_context m).
Proof. intros Hm e s r s' Hr Hd; by eapply in_callback_context_guards. Qed.
End guard.

#[export] Hint Extern 5 (preserves balanced _) => apply balanced_touches : sas.
#[export] Hint Extern 1 (no_guard _) => (by intros [?|?]) : sas.

Section guard_exec.
Context {X : Type} `{Deps X}.
Implicit Types (s : State SasSig X) (e : Env).

Lemma balanced_attest_internal a : preserves balanced (attest_internal a).
Proof. apply balanced_in_callback_context; auto with sas. Qed.
Lemma balanced_revoke_internal u : preserves balanced (revoke_internal u).
Proof. apply balanced_in_callback_context; auto with sas. Qed.

(** A batch under the outer guard. *)
Lemma balanced_bracket e s s1 s2 s3 s' u1 u2 :
  enter_reentrancy_guard e s = Ok (u1, s1) -> balanced e s1 s2 ->
  touches no_guard (fun _ => True) e s2 s3 ->
  exit_reentrancy_guard e s3 = Ok (u2, s') -> balanced e s s'.
Proof.
  unfold enter_reentrancy_guard, exit_reentrancy_guard; intros H1 H2 [Hi _] H3 Hd; run_inv.
  destruct H2 as [_ Hd2]; [unfold call_depth; by rewrite inst_upd_ne|].
  unfold guards_eq, guarded, call_depth in *.
  rewrite inst_upd_eq, (inst_upd_ne _ CALL_DEPTH), (Hi CALL_DEPTH) by
    (done || unfold no_guard, guard_key; tauto).
  rewrite Hd2, inst_upd_ne by done; split; [|done]; by symmetry.
Qed.

#[local] Hint Resolve balanced_attest_internal balanced_revoke_internal : sas.

Lemma balanced_multi_attest_loop l seen uids :
  preserves balanced (multi_attest_loop l seen uids).
Proof. revert seen uids; induction l; intros; simpl; pres. Qed.
Lemma balanced_multi_attest_by_delegation_loop l ns sgs pks seen uids :
  preserves balanced (multi_attest_by_delegation_loop l ns sgs pks seen uids).
Proof. revert ns sgs pks seen uids; induction l; intros; simpl; pres. Qed.
Lemma balanced_broadcast_loop a sch rs seen d ex rv uids :
  preserves balanced (broadcast_loop a sch rs seen d ex rv uids).
Proof. revert seen uids; induction rs; intros; simpl; pres. Qed.
Lemma balanced_revoke_all l : preserves balanced (revoke_all l).
Proof. induction l; simpl; pres. Qed.
Lemma balanced_multi_revoke_by_delegation_commit l ns :
  preserves balanced (multi_revoke_by_delegation_commit l ns).
Proof. revert ns; induction l; intros; simpl; pres. Qed.
Lemma balanced_prune_loop l n : preserves (balanced (X := X)) (prune_loop l n).
Proof. revert n; induction l; intros; simpl; pres_open. Qed.
Lemma balanced_migrate_loop l n : preserves (balanced (X := X)) (migrate_loop l n).
Proof. revert n; induction l; intros; simpl; pres_open. Qed.

#[local] Hint Resolve balanced_multi_attest_loop balanced_multi_attest_by_delegation_loop
  balanced_broadcast_loop balanced_revoke_all balanced_multi_revoke_by_delegation_commit
  balanced_prune_loop balanced_migrate_loop : sas.

Ltac bracket :=
  match goal with
  | H1 : enter_reentrancy_guard ?e ?s1 = Ok (_, ?s2),
    H3 : exit_reentrancy_guard ?e ?s4 = Ok (_, ?s5) |- balanced ?e ?s ?s' =>
      transitivity s1; [chain|transitivity s5; [|chain]];
      match s4 with
      | upd_events _ ?s3 =>
          refine (balanced_bracket e s1 s2 s3 s4 s5 _ _ H1 _ _ H3); [chain|by split]
      end
  end.

Lemma balanced_multi_attest l : preserves balanced (multi_attest l).
Proof.
  intros e s r s' Hr; unfold multi_attest in Hr; sas_inv.
  match goal with Hp : (let '(_, _) := ?p in _) _ _ = Ok _ |- _ => destruct p; sas_inv end.
  bracket.
Qed.
Lemma balanced_multi_attest_by_delegation l ns sgs pks :
  preserves balanced (multi_attest_by_delegation l ns sgs pks).
Proof.
  intros e s r s' Hr; unfold multi_attest_by_delegation in Hr; sas_inv.
  match goal with Hp : (let '(_, _) := ?p in _) _ _ = Ok _ |- _ => destruct p; sas_inv end.
  bracket.
Qed.
Lemma balanced_broadcast_attest_by_attester a sch rs d ex rv :
  preserves balanced (broadcast_attest_by_attester a sch rs d ex rv).
Proof.
  intros e s r s' Hr; unfold broadcast_attest_by_attester in Hr; sas_inv; bracket.
Qed.
#[local] Hint Resolve balanced_multi_attest balanced_multi_attest_by_delegation
  balanced_broadcast_attest_by_attester : sas.

Lemma balanced_exec c : preserves balanced (exec c).
Proof. destruct c; simpl; pres_open. Qed.

(** No guard is up between invocations. *)
Definition guards_down s : Prop := guarded s = false /\ call_depth s = 0.

Lemma guards_down_history h s : guards_down s -> guards_down (run_history h s).
Proof.
  revert s; induction h as [|[e c] h IH]; intros s Hs; simpl; [done|]; apply IH.
  destruct (transact_run e c s) as [(s' & Hr & ->)|(err & _ & ->)]; [|done].
  destruct Hs as [Hg Hd]; destruct (balanced_exec c e s _ s' Hr) as [Hg' Hd']; [lia|].
  split; congruence.
Qed.

(** *** Calls made while a guard is up *)

Definition checks_guard (c : SasCall) : bool :=
  match c with
  | SetDelegationPolicy _ _ | SetFeePerByte _ | SetSchemaZeroFee _ _ | SetFeeCeilings _ _
  | SetSchemaFee _ _ _ _ _ | ClearSchemaFee _ _ | WithdrawCreatorFees _ _ _ _
  | WithdrawTreasuryFees _ _ _ _ | AttestByScopedDelegation _ _ _ _ _ | AttestWithZk _ _ _
  | SetZkVerifier _ | SetAutoPrune _ | PruneExpired _ | RevokeBySchema _ _ _
  | ReplaceByDelegationConsent _ _ _ _
  | VerifyOffchainAttestation _ _ _ _ | VerifyAttestation _ | VerifyAttestations _
  | VerifyAllAttestations _ | GetAttestation _ | GetValidFrom _ | GetIssuanceTimestamp _
  | GetRevocationTimestamp _ | VerifyTimestamp _ _ | CheckTimestamp _ _
  | VerifyMerkleLeaf _ _ _ | VerifyMerkleLeafKeccak _ _ _ | GetAttesterKey _
  | GetSchemaFee _ | ReadOnly => false
  | _ => true
  end.

(** A computation that cannot succeed while the guard is up. *)
Definition blocked {A} (m : M SasSig X A) : Prop :=
  forall e s r s', guarded s = true -> m e s <> Ok (r, s').

Lemma blocked_reject_reentrant : blocked reject_reentrant.
Proof.
  intros e s r s' Hg (Hf & _)%reject_reentrant_ok; unfold guarded in Hg; congruence.
Qed.
Lemma blocked_enter_reentrancy_guard : blocked enter_reentrancy_guard.
Proof.
  intros e s r s' Hg Hr; unfold enter_reentrancy_guard, guarded in *; run_inv; congruence.
Qed.
Lemma blocked_head {A B} (m : M SasSig X A) (f : A -> M SasSig X B) :
  blocked m -> blocked (mbind f m).
Proof. intros Hm e s r s' Hg Hr; run_inv; by eapply Hm. Qed.
Lemma blocked_later {A B} (m : M SasSig X A) (f : A -> M SasSig X B) :
  preserves (touches (fun _ => False) (fun _ => False)) m ->
  (forall a, blocked (f a)) -> blocked (mbind f m).
Proof.
  intros Hm Hf e s r s' Hg Hr; run_inv.
  match goal with Hr : m _ _ = _ |- _ => apply Hm in Hr as [Hi _] end.
  eapply Hf; [|done]; unfold guarded; rewrite (Hi REENTRANCY_GUARD) by auto; done.
Qed.

Ltac is_blocked :=
  match goal with
  | |- blocked reject_reentrant => exact blocked_reject_reentrant
  | |- blocked enter_reentrancy_guard => exact blocked_enter_reentrancy_guard
  | |- blocked (mbind _ ?m) =>
      first [ apply blocked_head; is_blocked
            | apply blocked_later; [solve [pres]|intros ?; is_blocked] ]
  | |- blocked ?m => let h := get_head m in unfold h; is_blocked
  end.

Lemma guarded_call_fails c : checks_guard c = true -> blocked (exec c).
Proof. destruct c; intros Hc; try discriminate Hc; clear Hc; simpl; is_blocked. Qed.
End guard_exec.
