(* ===== verification/SasMoney.v ===== *)
(** * SAS: fees

    Accrued balances never go negative or overflow, withdrawals debit exactly
    what they pay out, quotes are the configured linear function, and a split
    fee adds up to the fee. *)

From S2P Require Import Prelude Host Common TypedData Merkle SasState SasCore SasAdmin SasFees.
From S2P Require Import SasIssue SasAttest SasRevoke SasQuery SasCalls SasFrame SasRecord.
From S2P Require Import SasIssueSpec SasLife SasAuthority SasConfig.

(** ** Accrued balances *)

(** The keys of accrued balances, with their value. *)
Inductive balance_key := TreasuryOf (token : Address) | CreatorOf (creator token : Address).

#[export] Instance balance_key_eq_dec : EqDecision balance_key.
Proof. solve_decision. Defined.

Definition balance_of {X} (s : State SasSig X) (b : balance_key) : Z :=
  default 0 (match b with
             | TreasuryOf t => pget s (TREASURY_FEES t)
             | CreatorOf c t => pget s (CREATOR_FEES c t)
             end).

Definition balances_ok {X} (s : State SasSig X) : Prop :=
  forall b, 0 <= balance_of s b <= i128_max.

Section balances.
Context {X : Type} `{Deps X}.
Implicit Types (s : State SasSig X) (e : Env).

Definition solvent (e : Env) s s' : Prop := balances_ok s -> balances_ok s'.

#[export] Instance solvent_preorder : PreorderE solvent.
Proof. intros e; split; unfold solvent; [by intros s|intros s1 s2 s3; auto]. Qed.

Definition not_balance (k : SasPKey) : Prop :=
  match k with TREASURY_FEES _ | CREATOR_FEES _ _ => False | _ => True end.

Lemma solvent_touches {A} (m : M SasSig X A) :
  preserves (touches (fun _ => True) not_balance) m -> preserves solvent m.
Proof.
  intros Hm e s r s' [_ Hp]%Hm Hb b; specialize (Hb b).
  unfold balance_of in *; destruct b.
  - rewrite (Hp (TREASURY_FEES _)); [done|simpl; tauto].
  - rewrite (Hp (CREATOR_FEES _ _)); [done|simpl; tauto].
Qed.

(** A write of one balance leaves the others alone. *)
Definition balance_set (b : balance_key) (z : Z) s s' : Prop :=
  forall b', balance_of s' b' = if decide (b' = b) then z else balance_of s b'.

Lemma put_treasury t z ttl e s r s' :
  pers_put (C := SasSig) (TREASURY_FEES t) z ttl e s = Ok (r, s') ->
  balance_set (TreasuryOf t) z s s' /\ ext s' = ext s.
Proof.
  intros Hr; run_inv; split; [|done]; intros b; unfold balance_of; case_decide as Hb; [subst b; by rewrite pget_upd_eq|].
  destruct b; rewrite !pget_upd_ne by congruence; done.
Qed.
Lemma put_creator c t z ttl e s r s' :
  pers_put (C := SasSig) (CREATOR_FEES c t) z ttl e s = Ok (r, s') ->
  balance_set (CreatorOf c t) z s s' /\ ext s' = ext s.
Proof.
  intros Hr; run_inv; split; [|done]; intros b; unfold balance_of; case_decide as Hb; [subst b; by rewrite pget_upd_eq|].
  destruct b; rewrite !pget_upd_ne by congruence; done.
Qed.
Lemma balance_set_solvent b z e s s' :
  0 <= z <= i128_max -> balance_set b z s s' -> solvent e s s'.
Proof. intros Hz Hs Hb b'; rewrite Hs; case_decide; [done|apply Hb]. Qed.

(** Credits saturate. *)
Lemma credit_treasury_ok t z e s r s' :
  credit_treasury t z e s = Ok (r, s') ->
  balance_set (TreasuryOf t) (sat_i128 (balance_of s (TreasuryOf t) + z)) s s'.
Proof.
  unfold credit_treasury; intros (o & s1 & Hg & Hr)%bind_ok.
  unfold pers_get in Hg; inj_run Hg; by apply put_treasury in Hr as [? _].
Qed.
Lemma credit_creator_ok c t z e s r s' :
  credit_creator c t z e s = Ok (r, s') ->
  balance_set (CreatorOf c t) (sat_i128 (balance_of s (CreatorOf c t) + z)) s s'.
Proof.
  unfold credit_creator; intros (o & s1 & Hg & Hr)%bind_ok.
  unfold pers_get in Hg; inj_run Hg; by apply put_creator in Hr as [? _].
Qed.
Lemma sat_credit z y : 0 <= z <= i128_max -> 0 <= y -> 0 <= sat_i128 (z + y) <= i128_max.
Proof. unfold sat_i128, i128_max, i128_min; lia. Qed.

Lemma solvent_credit_treasury t z : 0 <= z -> preserves solvent (credit_treasury t z).
Proof.
  intros Hz e s r s' Hr Hb; apply credit_treasury_ok in Hr.
  eapply (balance_set_solvent _ _ e); [|exact Hr|exact Hb]; by apply sat_credit.
Qed.
Lemma solvent_credit_creator c t z : 0 <= z -> preserves solvent (credit_creator c t z).
Proof.
  intros Hz e s r s' Hr Hb; apply credit_creator_ok in Hr.
  eapply (balance_set_solvent _ _ e); [|exact Hr|exact Hb]; by apply sat_credit.
Qed.
End balances.

#[export] Hint Extern 5 (preserves solvent _) => apply solvent_touches : sas.
#[export] Hint Extern 1 (not_balance _) =>
  first [ exact I
        | match goal with H : record_key _ _ |- _ => by destruct H as [-> | [-> | ->]] end ] : sas.

Section withdrawals.
Context {X : Type} `{Deps X}.
Implicit Types (s : State SasSig X) (e : Env).

(** A withdrawal debits one accrued balance by a positive amount it covers
    and pays that amount out of the contract's tokens. *)
Record withdrawn (b : balance_key) (token : Address) (amount : Z) (destination : Address)
    (e : Env) s s' : Prop := {
  wd_amount : 0 < amount <= balance_of s b;
  wd_balance : balance_set b (balance_of s b - amount) s s';
  wd_paid : token_transfer token (current_contract e) destination amount e (ext s)
            = Some (Val tt, ext s')
}.

Lemma debit_and_pay_ok b amt put tok d a e s r s' :
  (forall z e s r s', put z e s = Ok (r, s') -> balance_set b z s s' /\ ext s' = ext s) ->
  0 < amt ->
  debit_and_pay (balance_of s b) amt put tok d a e s = Ok (r, s') ->
  withdrawn b tok amt d e s s'.
Proof.
  intros Hput Hamt; unfold debit_and_pay; intros Hr; sas_inv; bool_facts.
  match goal with Hp : put _ _ _ = _ |- _ => apply Hput in Hp as [Hset Hext] end.
  match goal with Hi : invoke _ _ _ = Ok (?u, _) |- _ =>
    destruct u; apply invoke_ok in Hi as (? & Hx & ->); rewrite Hext in Hx end.
  by split.
Qed.

Lemma withdraw_creator_fees_ok c t z d e s r s' :
  withdraw_creator_fees c t z d e s = Ok (r, s') ->
  authorized e c = true /\ withdrawn (CreatorOf c t) t z d e s s'.
Proof.
  unfold withdraw_creator_fees; intros Hr; sas_inv; bool_facts; split; [done|].
  change (default 0 (pget ?s1 (CREATOR_FEES c t))) with (balance_of s1 (CreatorOf c t)) in Hr.
  apply debit_and_pay_ok in Hr as [? ? ?]; [by split| |done].
  intros y e' s1 r' s2; apply put_creator.
Qed.
Lemma withdraw_treasury_fees_ok a t z d e s r s' :
  withdraw_treasury_fees a t z d e s = Ok (r, s') ->
  authorized e a = true
  /\ (inst s SAS_ADMIN = Some a \/ inst s TREASURY = Some a)
  /\ withdrawn (TreasuryOf t) t z d e s s'.
Proof.
  unfold withdraw_treasury_fees, require_treasury_authority; intros Hr; sas_inv; bool_facts.
  split_and!; [done| |].
  - match goal with Hs : inst _ SAS_ADMIN = Some ?y,
                    Hx : (negb (bool_decide (a = ?y)) && _)%bool = false |- _ =>
      change (inst s SAS_ADMIN = Some y) in Hs; apply andb_false_iff in Hx as [Hx|Hx];
      bool_facts; [subst; by left|by right] end.
  - change (default 0 (pget ?s1 (TREASURY_FEES t))) with (balance_of s1 (TreasuryOf t)) in Hr.
    apply debit_and_pay_ok in Hr as [? ? ?]; [by split| |done].
    intros y e' s1 r' s2; apply put_treasury.
Qed.

Lemma withdrawn_solvent b t z d e s s' : withdrawn b t z d e s s' -> solvent e s s'.
Proof.
  intros [Hz Hs _] Hb; pose proof (Hb b).
  eapply (balance_set_solvent _ _ e); [|exact Hs|exact Hb]; lia.
Qed.
Lemma solvent_withdraw_creator_fees c t z d :
  preserves solvent (withdraw_creator_fees c t z d).
Proof. intros e s r s' [_ Hw]%withdraw_creator_fees_ok; by eapply withdrawn_solvent. Qed.
Lemma solvent_withdraw_treasury_fees a t z d :
  preserves solvent (withdraw_treasury_fees a t z d).
Proof. intros e s r s' (_ & _ & Hw)%withdraw_treasury_fees_ok; by eapply withdrawn_solvent. Qed.

Lemma solvent_collect_fee a t v b c d : preserves solvent (collect_fee a t v b c d).
Proof.
  unfold collect_fee; pres; bool_facts;
    (apply solvent_credit_treasury || apply solvent_credit_creator); lia.
Qed.
Lemma attestation_key_not_balance u k : attestation_key u k -> not_balance k.
Proof. by intros [[-> | [-> | ->]]|[b ->]]. Qed.
#[local] Hint Resolve solvent_withdraw_creator_fees solvent_withdraw_treasury_fees
  solvent_collect_fee attestation_key_not_balance : sas.

Lemma solvent_exec c : preserves solvent (exec c).
Proof. destruct c; simpl; pres_open. Qed.

Lemma solvent_history h s : balances_ok s -> balances_ok (run_history h s).
Proof.
  revert s; induction h as [|[e c] h IH]; intros s Hs; simpl; [done|]; apply IH.
  destruct (transact_run e c s) as [(s' & Hr & ->)|(err & _ & ->)]; [|done].
  by eapply solvent_exec.
Qed.
End withdrawals.

(** ** Quotes and splits *)

Lemma checked_i128_spec z : checked_i128 z = if bool_decide (is_i128 z) then Some z else None.
Proof.
  unfold checked_i128, is_i128; destruct (_ && _) eqn:E; case_bool_decide; try done; bool_facts.
  - lia.
  - apply andb_false_iff in E as [E|E]; bool_facts; lia.
Qed.

Section quotes.
Context {X : Type} `{Deps X}.
Implicit Types (s : State SasSig X) (e : Env).

Definition base_fee s : Z :=
  match inst s FEE_CONFIG with Some (_, amount) => amount | None => 0 end.
Definition byte_fee s : Z := default 0 (inst s FEE_PER_BYTE).
Definition fee_exempt s (schema : UID) : bool := default false (pget s (ZERO_FEE_SCHEMA schema)).

(** The quote on every branch: linear in the payload size, refused when the
    payload is too large or the amount leaves [i128]. *)
Lemma fee_quote_spec schema size e s :
  fee_quote schema size e s =
    if MAX_ATTESTATION_DATA_BYTES <? size then Err (Panic PayloadTooLarge)
    else if fee_exempt s schema then Ok (0, s)
    else if bool_decide (is_i128 (byte_fee s * size))
            && bool_decide (is_i128 (base_fee s + byte_fee s * size))
         then Ok (base_fee s + byte_fee s * size, s)
         else Err (Panic InvalidValue).
Proof.
  unfold fee_quote, fee_exempt, mbind, M_bind, panic_if, pers_get, inst_get.
  destruct (MAX_ATTESTATION_DATA_BYTES <? size); [done|].
  destruct (default false (pget s (ZERO_FEE_SCHEMA schema))); [done|].
  unfold unwrap_or_panic, mbind, option_bind; fold (base_fee s) (byte_fee s).
  rewrite checked_i128_spec; destruct (bool_decide (is_i128 (byte_fee s * size))); [|done].
  change (match inst s FEE_CONFIG with Some (_, amount) => amount | None => 0 end)
    with (base_fee s); rewrite checked_i128_spec.
  by destruct (bool_decide (is_i128 (base_fee s + byte_fee s * size))).
Qed.

(** Nested calls publish no event of the caller. *)
Definition quiet (e : Env) s s' : Prop := events s' = events s.
#[local] Instance quiet_preorder : PreorderE quiet.
Proof. intros e; split; unfold quiet; congruence. Qed.
Lemma quiet_invoke {A} (f : xcall X A) : preserves quiet (invoke f).
Proof. by intros e s r s' (x & _ & ->)%invoke_ok. Qed.
Lemma quiet_try_invoke {A} (f : xcall X A) : preserves quiet (try_invoke f).
Proof.
  by intros e s [a| |] s' Hr%try_invoke_ok;
    [destruct Hr as (x & _ & ->)|destruct Hr as (x & _ & ->)|destruct Hr as [_ ->]].
Qed.
#[local] Hint Resolve quiet_invoke quiet_try_invoke : sas.

Lemma split_bounds value bps c t :
  0 <= value -> 0 <= bps <= 5000 ->
  (product ← checked_i128 (value * bps); checked_i128 (Z.quot product 10000)) = Some c ->
  checked_i128 (value - c) = Some t ->
  t + c = value /\ 0 <= c /\ 2 * c <= value.
Proof.
  intros Hv Hb Hc Ht; unfold mbind, option_bind in Hc.
  rewrite checked_i128_spec in Hc, Ht.
  destruct (bool_decide (is_i128 (value - c))); [injection Ht as <-|done].
  destruct (bool_decide (is_i128 (value * bps))); [|done]; rewrite checked_i128_spec in Hc.
  destruct (bool_decide (is_i128 _)) in Hc; [injection Hc as <-|done].
  rewrite Z.quot_div_nonneg in * by lia.
  pose proof (Z.div_mod (value * bps) 10000 ltac:(lia)).
  pose proof (Z.mod_pos_bound (value * bps) 10000 ltac:(lia)); nia.
Qed.

(** A split pays the creator at most half, rounded down, and the treasury
    the rest. *)
Lemma distribute_attestation_fee_ok schema token value e s u s' :
  0 <= value ->
  (forall registry bps, answered (ext s) (registry_get_creator_royalty registry schema) e bps -> 0 <= bps) ->
  distribute_attestation_fee schema token value e s = Ok (u, s') ->
  events s' = events s
  \/ exists treasury_amount creator_amount,
       events s' = events s ++ [EvFeeSplit schema treasury_amount creator_amount]
       /\ treasury_amount + creator_amount = value
       /\ 0 <= creator_amount /\ 2 * creator_amount <= value.
Proof.
  intros Hv Hbps; unfold distribute_attestation_fee; intros Hr; run_inv.
  destruct (inst s SCHEMA_REGISTRY) as [registry|]; run_inv; [|by left].
  match goal with Hq : try_invoke _ _ _ = Ok (?x, _) |- _ =>
    apply try_invoke_ok in Hq; destruct x as [bps| |]; simpl in Hr;
    [destruct Hq as (x1 & Hq & ->)|destruct Hq as (x1 & _ & ->)|destruct Hq as [_ ->]] end;
    run_inv; [|by left..].
  destruct (_ && _); run_inv; [by left|right].
  match goal with H1 : _ = Some ?c, H2 : checked_i128 (value - ?c) = Some ?t |- _ =>
    exists t, c; destruct (split_bounds value bps c t) as (? & ? & ?); auto;
    [split; [by eapply Hbps, answered_now|bool_facts; lia]|] end.
  split_and!; auto.
  match goal with |- events (upd_events _ ?s1) = _ =>
    change (events s1 ++ [EvFeeSplit schema x4 x2] = events s ++ [EvFeeSplit schema x4 x2]);
    assert (quiet e s s1) as -> end; [|done].
  transitivity (upd_ext x1 s); [done|chain].
Qed.
End quotes.
