(* ===== verification/RecordProps.v ===== *)
(** * Properties of attestation records

    The life of a record under any history of calls: who may change it, that
    revocation is final, what issuance, revocation, renewal, replacement and
    migration guarantee, and what the verification entry points answer. *)

From S2P Require Import Prelude Host Common TypedData Merkle SasState SasCore SasAdmin SasFees.
From S2P Require Import SasIssue SasAttest SasRevoke SasQuery SasCalls SasSample SasFrame.
From S2P Require Import SasRecord SasIssueSpec SasLife SasAuthority SasTime SasVerify.
From S2P Require Import Sample.

(** ** Facts about the concrete instance *)

Lemma sample_typed : Forall typed_step [sample_init; sample_issue; sample_revoke].
Proof. by repeat constructor. Qed.

Lemma sample_start_ok : store_ok sample_start.
Proof. apply store_ok_history; [by repeat constructor|apply store_ok_empty]. Qed.
Lemma sample_issued_ok : store_ok sample_issued.
Proof. apply store_ok_history; [by repeat constructor|apply sample_start_ok]. Qed.
Lemma sample_revoked_ok : store_ok sample_revoked.
Proof. apply store_ok_history; [by repeat constructor|apply sample_issued_ok]. Qed.

Section histories.
Context {X : Type} `{Deps X}.
Implicit Types (s : State SasSig X) (e : Env).

(** What a history may do to a revoked record: nothing, or prune it once it
    has expired; a later record of the UID is a new issuance. *)
Definition revocation_final (h : list (Env * SasCall)) (a : Attestation)
    (o : option Attestation) : Prop :=
  (exists a', o = Some a' /\ same_claim a a' /\ revocation_time a' = revocation_time a
              /\ expiration_time a' = expiration_time a)
  \/ ((exists e c, (e, c) ∈ h /\ dead e a)
      /\ forall a', o = Some a' -> exists e c, (e, c) ∈ h /\ time a' = timestamp e).

Lemma evolves_revoked R e a o :
  revocation_time a <> 0 -> evolves R e (Some a) o ->
  (exists a', o = Some a' /\ same_claim a a' /\ revocation_time a' = revocation_time a
              /\ expiration_time a' = expiration_time a)
  \/ (dead e a /\ forall a', o = Some a' -> time a' = timestamp e).
Proof.
  intros Hrv; destruct o as [a'|]; simpl; [|by right].
  intros [(Hc & V & E)|[Hd [Ht _]]]; [left|right; split; [done|by intros ? [= <-]]].
  exists a'; split_and!; [done..| |].
  - destruct V as [?|(? & _)]; done.
  - destruct E as [?|(_ & _ & _ & ? & _)]; done.
Qed.

Lemma evolves_time R e o a' :
  evolves R e o (Some a') ->
  time a' = timestamp e \/ exists a, o = Some a /\ time a' = time a.
Proof.
  destruct o as [a|]; simpl; [|intros [? _]; by left].
  intros [[(_ & _ & ? & _) _]|[_ [? _]]]; eauto.
Qed.

(** The record of a UID after a history was there before it or was issued
    during it. *)
Lemma history_time h s u a' :
  Forall typed_step h -> store_ok s -> read_record (run_history h s) u = Some a' ->
  (exists e c, (e, c) ∈ h /\ time a' = timestamp e)
  \/ exists a, read_record s u = Some a /\ time a' = time a.
Proof.
  intros Hh; revert s; induction Hh as [|[e c] h Hs Hh IH]; intros s Hok Hr; simpl in Hr; [eauto|].
  destruct (transact_life e c s Hs Hok) as [Hok' He].
  destruct (IH _ Hok' Hr) as [(e' & c' & ? & ?)|(a & Ha & Ht)].
  - left; exists e', c'; split; [by constructor|done].
  - specialize (He u); rewrite Ha in He.
    apply evolves_time in He as [He|(b & Hb & Hbt)]; [|right; exists b; split; congruence].
    left; exists e, c; split; [constructor|congruence].
Qed.

Lemma same_claim_trans a1 a2 a3 : same_claim a1 a2 -> same_claim a2 a3 -> same_claim a1 a3.
Proof. unfold same_claim; intros; destruct_and!; split_and!; congruence. Qed.

Lemma history_revoked h s u a :
  Forall typed_step h -> store_ok s -> read_record s u = Some a -> revocation_time a <> 0 ->
  revocation_final h a (read_record (run_history h s) u).
Proof.
  intros Hh; revert s a; induction Hh as [|[e c] h Hs Hh IH]; intros s a Hok Ha Hrv; simpl.
  { left; exists a; split_and!; [done|by split_and!|done..]. }
  destruct (transact_life e c s Hs Hok) as [Hok' He]; specialize (He u); rewrite Ha in He.
  apply evolves_revoked in He as [(a' & Ha' & Hc & Hr' & Hx)|[Hd Hnew]]; [| |done].
  - destruct (IH _ _ Hok' Ha') as [(b & Hb & Hcb & Hrb & Hxb)|[(e' & c' & ? & Hd) Hn]];
      [congruence|left|right].
    + exists b; split_and!; [done|by eapply same_claim_trans|congruence..].
    + split; [exists e', c'; split; [by constructor|unfold dead in *; by rewrite <- Hx]|].
      intros b (e2 & c2 & ? & ?)%Hn; exists e2, c2; split; [by constructor|done].
  - right; split; [exists e, c; split; [constructor|done]|].
    intros b Hb; apply history_time in Hb as [(e2 & c2 & ? & ?)|(b2 & Hb2 & Ht)]; [| |done..].
    + exists e2, c2; split; [by constructor|done].
    + exists e, c; split; [constructor|]; rewrite Ht; by apply Hnew.
Qed.
End histories.

(** ** Properties *)

Section properties.
Context {X : Type} `{Deps X}.
Implicit Types (s : State SasSig X) (e : Env).


(** C2: revocation is final.  After any history of calls, a revoked record is
    still there with the same claim, revocation time and expiry; unless an
    expired record was pruned in between, and then any record now stored
    under the UID was issued during that history. *)
Theorem revocation_is_final h s u a :
  Forall typed_step h -> store_ok s -> read_record s u = Some a -> revocation_time a <> 0 ->
  revocation_final h a (read_record (run_history h s) u).
Proof. apply history_revoked. Qed.

End properties.


Lemma revocation_is_final_witness :
  revocation_final
    [(sample_env 3000 [alice], RenewAttestation (sample_uid [1; 2; 3]) 9000);
     (sample_env 4000 [alice], Revoke (sample_uid [1; 2; 3]))]
    (with_revocation_time 2000 (with_time 1000 (sample_att [1; 2; 3] 5000)))
    (read_record (run_history
       [(sample_env 3000 [alice], RenewAttestation (sample_uid [1; 2; 3]) 9000);
        (sample_env 4000 [alice], Revoke (sample_uid [1; 2; 3]))] sample_revoked)
       (sample_uid [1; 2; 3])).
Proof.
  apply revocation_is_final.
  - by repeat constructor.
  - apply sample_revoked_ok.
  - vm_compute; reflexivity.
  - discriminate.
Defined.

