(* ===== verification/LifeProps.v ===== *)
(** * Properties of the operations on records

    When issuing and revoking succeed, what revoking, renewing, replacing,
    pruning and migrating do, what the verification entry points answer, and
    what timestamps prove. *)

From S2P Require Import Prelude Host Common TypedData Merkle SasState SasCore SasAdmin SasFees.
From S2P Require Import SasIssue SasAttest SasRevoke SasQuery SasCalls SasSample SasFrame SasRecord.
From S2P Require Import SasIssueSpec SasLife SasAuthority SasTime SasVerify SasProgress.
From S2P Require Import Sample.

(** ** Replacement and pruning *)

Section operations.
Context {X : Type} `{Deps X}.
Implicit Types (s : State SasSig X) (e : Env).

(** A replacement of the attestation [old_uid], which is [old], by [a]. *)
Record replaced (e : Env) (old_uid : UID) (old a : Attestation) s s' : Prop := {
  rp_old : read_record s old_uid = Some old;
  rp_revocable : revocable old = true /\ revocation_time old = 0;
  rp_live : live_at e (expiration_time old);
  rp_parties : attester a = attester old /\ recipient a = recipient old;
  rp_expiry : expiration_time old = 0 \/ expiration_time a = 0
              \/ expiration_time old <= expiration_time a;
  rp_revoked : read_record s' old_uid = Some (with_revocation_time (timestamp e) old);
  rp_distinct : uid a <> old_uid;
  rp_new : read_record s' (uid a) = Some (with_time (timestamp e) (with_ref_uid old_uid a));
  rp_others : forall v, v <> old_uid -> v <> uid a -> read_record s' v = read_record s v
}.

Lemma shortens_cases ex ex' : shortens ex ex' = false -> ex = 0 \/ ex' = 0 \/ ex <= ex'.
Proof.
  unfold shortens; intros Hs.
  destruct (ex =? 0) eqn:E1, (ex' =? 0) eqn:E2; simpl in *; bool_facts; lia.
Qed.

(** Both halves of a replacement. *)
Lemma replace_internal_ok old_uid a old e s u s' :
  att_typed a -> is_u64 (timestamp e) -> records_ok s -> read_record s old_uid = Some old ->
  replace_internal old_uid a old e s = Ok (u, s') ->
  u = uid a /\ replaced e old_uid old a s s'.
Proof.
  intros Hty Hts Hok Hold; unfold replace_internal; intros Hr; sas_inv.
  match goal with Hv : revoke_internal _ _ s = Ok (_, ?s3), Hi : attest_internal _ _ ?s3 = Ok (_, ?s4),
                  Hn : match inst ?s4 INDEXER with Some _ => _ | None => _ end _ _ = Ok (_, ?s5) |- _ =>
    apply revoke_internal_ok in Hv as [(b & _ & _ & _ & Hb & _ & _ & Hb' & _) _ _ Hoth _]; [|done..];
    apply attest_internal_ok in Hi as [-> [Hf _ Hrec _ _ Ho]]; [|done..];
    assert (forall v, read_record s5 v = read_record s4 v) as R1;
    [intros v; destruct (inst s4 INDEXER); sas_inv; [|done]; eapply read_record_silent;
     by eapply fp_try_invoke|] end.
  rewrite Hold in Hb; injection Hb as <-; bool_facts.
  assert (uid a <> old_uid) as Hne.
  { intros Hu; pose proof (fv_fresh _ _ _ Hf) as Hfr; simpl in Hfr; by rewrite Hu, Hb' in Hfr. }
  split; [done|]; split; auto using shortens_cases.
  - apply validate_expiration_None, eq_None_not_Some; assumption.
  - rewrite R1, Ho by (simpl; congruence); done.
  - by rewrite R1.
  - intros v Hv1 Hv2; rewrite R1, Ho, Hoth by (simpl; congruence); done.
Qed.

Lemma replaced_before e old_uid old a s0 s s' :
  (forall v, read_record s v = read_record s0 v) ->
  replaced e old_uid old a s s' -> replaced e old_uid old a s0 s'.
Proof. intros R [? ? ? ? ? ? ? ? Ho]; split; auto; [by rewrite <- R|]; intros; rewrite <- R; auto. Qed.

Lemma replace_attestation_ok old_uid a e s u s' :
  att_typed a -> is_u64 (timestamp e) -> records_ok s ->
  replace_attestation old_uid a e s = Ok (u, s') ->
  u = uid a /\ exists old, authorized e (attester old) = true /\ replaced e old_uid old a s s'.
Proof.
  intros Hty Hts Hok; unfold replace_attestation; intros Hr; sas_inv.
  match goal with Hq : require_unpaid_allowed _ _ _ = Ok (_, ?s1) |- _ =>
    apply (fp_require_unpaid_allowed (fun _ => False) (fun _ => False)) in Hq;
    assert (forall v, read_record s1 v = read_record s v) as R0
      by (intros v; apply (read_record_silent _ _ _ _ Hq)) end.
  apply replace_internal_ok in Hr as [-> Hrp]; [|done|done| |by symmetry].
  - split; [done|]; eexists; split; [eassumption|]; eapply replaced_before; [|exact Hrp]; exact R0.
  - intros w y; change (read_record (upd_inst_live ?l ?s1) w) with (read_record s1 w).
    rewrite R0; apply Hok.
Qed.

(** Pruning removes exactly the listed records that have expired. *)
Definition after_prune (e : Env) (l : list UID) (u : UID) (o : option Attestation)
    : option Attestation :=
  match o with
  | Some a => if bool_decide (u ∈ l) && prunable e a then None else Some a
  | None => None
  end.

Lemma after_prune_other e l v u o : u <> v -> after_prune e (v :: l) u o = after_prune e l u o.
Proof.
  intros Hne; destruct o as [a|]; simpl; [|done].
  by rewrite (bool_decide_ext (u ∈ v :: l) (u ∈ l)) by (rewrite elem_of_cons; tauto).
Qed.
Lemma after_prune_kept e l v o :
  (forall a, o = Some a -> prunable e a = false) -> after_prune e (v :: l) v o = after_prune e l v o.
Proof.
  intros Hp; destruct o as [a|]; simpl; [|done]; by rewrite (Hp a), !andb_false_r.
Qed.

Lemma prune_loop_ok l n e s r s' :
  prune_loop l n e s = Ok (r, s') ->
  forall u, read_record s' u = after_prune e l u (read_record s u).
Proof.
  revert n s; induction l as [|v l IH]; intros n s Hr u; simpl in Hr.
  { sas_inv; by destruct (read_record _ u). }
  sas_inv; destruct (match read_record s v with Some a => prunable e a | None => false end) eqn:Hc.
  - destruct (read_record s v) as [a|] eqn:Hv; [rename Hc into Hp|done]. sas_inv.
    rewrite Hp in Hr; sas_inv; rewrite (IH _ _ Hr u).
    match goal with Hm : remove_attestation _ _ _ = _ |- _ =>
      apply remove_attestation_ok in Hm as (Hn & _ & Hk) end.
    destruct (decide (u = v)) as [->|Hne].
    + change (read_record (upd_events ?ev ?s1) v) with (read_record s1 v).
      rewrite Hn, Hv; simpl; by rewrite Hp, bool_decide_eq_true_2 by constructor.
    + rewrite after_prune_other by done; f_equal.
      eapply (read_record_touch (fun _ => True) (attestation_key v) e); [split; [tauto|exact Hk]|].
      intros k [-> | [-> | ->]] [[? | [? | ?]]|[? ?]]; congruence.
  - assert (prune_loop l n e s = Ok (r, s')) as Hr'.
    { destruct (read_record s v) as [a|]; [|done]; sas_inv.
      by rewrite Hc in Hr. }
    rewrite (IH _ _ Hr' u); symmetry; destruct (decide (u = v)) as [->|Hne];
      [apply after_prune_kept|by apply after_prune_other].
    by intros a Ha; rewrite Ha in Hc.
Qed.
End operations.

(** ** Timestamps *)

(** A claim the anchors of a UID support. *)
Definition supported (e : Env) (issuance revocation : option TimestampAnchor)
    (claim : TimestampAnchor) : Prop :=
  (issuance = Some claim \/ revocation = Some claim)
  /\ ledger_sequence claim <= sequence e /\ ledger_timestamp claim <= timestamp e
  /\ forall x y, issuance = Some x -> revocation = Some y ->
       ledger_sequence x <= ledger_sequence y /\ ledger_timestamp x <= ledger_timestamp y.

Lemma verdict_tail e (i r : option TimestampAnchor) c :
  (if (sequence e <? ledger_sequence c) || (timestamp e <? ledger_timestamp c)
   then Some InvalidTimestamp
   else if bool_decide (i = Some c) then None
   else if bool_decide (r = Some c) then None else Some InvalidTimestamp) = None
  <-> (i = Some c \/ r = Some c)
      /\ ledger_sequence c <= sequence e /\ ledger_timestamp c <= timestamp e.
Proof.
  destruct (sequence e <? ledger_sequence c) eqn:E1, (timestamp e <? ledger_timestamp c) eqn:E2;
    simpl; bool_facts; try (split; [done|]; intros (_ & ? & ?); lia).
  repeat case_bool_decide; split; try done; try tauto; intros _; split_and!; auto.
Qed.

Lemma claim_verdict_None e i r c : claim_verdict e i r c = None <-> supported e i r c.
Proof.
  unfold claim_verdict, supported; destruct i as [x|], r as [y|]; cbv zeta.
  - destruct ((ledger_sequence y <? ledger_sequence x)
              || (ledger_timestamp y <? ledger_timestamp x)) eqn:Em.
    + split; [done|]; intros (_ & _ & _ & Ho); destruct (Ho x y); [done..|].
      apply orb_true_iff in Em as [Em|Em]; bool_facts; lia.
    + rewrite verdict_tail; bool_facts; split; [|tauto]; intros (? & ? & ?); split_and!; [done..|].
      by intros x' y' [= <-] [= <-].
  - rewrite verdict_tail; split; [|tauto]; intros (? & ? & ?); by split_and!.
  - rewrite verdict_tail; split; [|tauto]; intros (? & ? & ?); by split_and!.
  - by split; [|intros [[|] _]].
Qed.

Section timestamps.
Context {X : Type} `{Deps X}.
Implicit Types (s : State SasSig X) (e : Env).

Lemma anchors_history h s :
  Forall typed_step h -> store_ok s -> anchors_ok s -> anchors_ok (run_history h s).
Proof.
  intros Hh; revert s; induction Hh as [|[e c] h Ht Hh IH]; intros s Hok Ha; simpl; [done|].
  destruct (transact_run e c s) as [(s' & Hr & ->)|(err & _ & ->)]; [|by apply IH].
  destruct Ht as [Hts Hc].
  destruct (anchored_exec c Hc e s _ s' Hr Hts Hok Ha) as [Hok' Ha']; by apply IH.
Qed.

Lemma check_claim_run u claim e s :
  check_claim u claim e s
  = Ok (claim_verdict e (pget s (TimestampAnchorKey u false)) (pget s (TimestampAnchorKey u true)) claim, s).
Proof. done. Qed.

Lemma verify_timestamp_run u claim e s :
  exists s', verify_timestamp u claim e s
    = Ok (bool_decide (claim_verdict e (pget s (TimestampAnchorKey u false))
            (pget s (TimestampAnchorKey u true)) claim = None), s').
Proof. eexists; reflexivity. Qed.
End timestamps.

(** ** Properties *)

Section properties.
Context {X : Type} `{Deps X}.
Implicit Types (s : State SasSig X) (e : Env).

(** C4: issuing succeeds.  On an unpaused contract with no guard up and no
    per-byte fee, [attest] of an acceptable attestation that its attester
    authorised returns its UID: the fields are valid, the registry and resolver
    answer, and the quota does not apply.  The indexer cannot prevent it unless
    the admin made it mandatory. *)
Theorem attest_succeeds_if a e s :
  guarded s = false -> call_depth s = 0 -> unpaused s ->
  default 0 (inst s FEE_PER_BYTE) <= 0 -> authorized e (attester a) = true ->
  anchors_ok s -> acceptable e a s ->
  exists s', attest a e s = Ok (uid a, s').
Proof.
  intros Hg Hd Hp Hf Hau Ha Hac; apply attest_run; try done.
  destruct (pget s (TimestampAnchorKey (uid a) false)) as [x|] eqn:Hx; [|done].
  apply Ha in Hx as (b & Hb & _); by rewrite (fv_fresh _ _ _ (ac_fields _ _ _ Hac)) in Hb.
Qed.


(** revoking succeeds: the attester of a revocable, unrevoked record can
    revoke it whenever the contract is unpaused, no guard is up, the registry
    knows the schema and its resolver does not reject; whatever the indexer
    does. *)
Theorem revoke_succeeds_if u a registry schema e s :
  guarded s = false -> call_depth s = 0 -> unpaused s -> store_ok s ->
  read_record s u = Some a -> authorized e (attester a) = true ->
  revocable a = true -> revocation_time a = 0 -> pget s (TimestampAnchorKey u true) = None ->
  inst s SCHEMA_REGISTRY = Some registry ->
  always (registry_get_schema registry (att_schema_uid a)) e (Some schema) ->
  (forall x, resolver_on_revoke (sr_resolver schema) (with_revocation_time (timestamp e) a) e x
             <> None) ->
  exists s', revoke u e s = Ok (tt, s').
Proof.
  intros Hg Hd Hp [Hok _] Ha; destruct (Hok _ _ Ha) as [Hu _]; intros.
  eapply revoke_run; [done..| |done]; split; eauto 10.
Qed.

(** C9: a successful [replace_attestation], authorised by the attester,
    revokes a live, revocable attestation and issues in its place one by the
    same attester about the same recipient that does not expire earlier and
    refers back to it; every other record is as it was. *)
Theorem replacement_links_records old_uid a e s u s' :
  att_typed a -> is_u64 (timestamp e) -> store_ok s ->
  replace_attestation old_uid a e s = Ok (u, s') ->
  u = uid a /\ exists old, authorized e (attester old) = true /\ replaced e old_uid old a s s'.
Proof. intros Hty Hts [Hok _]; by apply replace_attestation_ok. Qed.

(** a successful [renew_attestation], authorised by the attester, changes
    the expiry of a live, revocable, unrevoked record and nothing else; it never
    shortens the validity and a perpetual record stays perpetual. *)
Theorem renewal_extends u ex e s r s' :
  is_u64 ex -> store_ok s -> renew_attestation u ex e s = Ok (r, s') ->
  exists a, read_record s u = Some a
    /\ authorized e (attester a) = true
    /\ revocable a = true /\ revocation_time a = 0
    /\ live_at e (expiration_time a) /\ live_at e ex
    /\ (expiration_time a = 0 -> ex = 0)
    /\ (expiration_time a <> 0 -> ex = 0 \/ expiration_time a <= ex)
    /\ read_record s' u = Some (with_expiration_time ex a)
    /\ (forall v, v <> u -> read_record s' v = read_record s v).
Proof. intros Hex [Hok _]; by apply renew_attestation_ok. Qed.

(** a successful [prune_expired] needs the admin's switch and at most
    the batch limit of UIDs, and removes exactly the listed records that have
    expired: every other record, listed or not, is as it was. *)
Theorem pruning_is_exact l e s n s' :
  prune_expired l e s = Ok (n, s') ->
  inst s AUTO_PRUNE = Some true /\ len l <= MAX_PRUNE_BATCH
  /\ forall u, read_record s' u = after_prune e l u (read_record s u).
Proof.
  unfold prune_expired; intros Hr; sas_inv; bool_facts.
  change (inst (upd_inst_live ?z s) AUTO_PRUNE) with (inst s AUTO_PRUNE) in *.
  split_and!; [by destruct (inst s AUTO_PRUNE) as [[]|]|done|].
  exact (prune_loop_ok _ _ _ _ _ _ Hr).
Qed.

(** migrating a legacy record to the compact layout changes how it is
    stored, not what any reader sees, and reports whether there was one. *)
Theorem migration_preserves_reads u e s b s' :
  store_ok s -> migrate_attestation u e s = Ok (b, s') ->
  (forall v, read_record s' v = read_record s v)
  /\ (b = true <-> exists a, pget s (UidKey u) = Some (StoredLegacy a)).
Proof. intros [Hok Hl] (_ & ? & ?)%migrate_attestation_ok; done. Qed.

(** C10: the verification entry points always answer, and the answer is
    whether the UID has a record that is not revoked, has started and has not
    expired; [verify_attestation] and its read-only view agree, and neither
    changes a record. *)
Theorem verification_answers_validity u e s :
  (exists s', verify_attestation u e s = Ok (valid_uid e s u, s')
     /\ forall v, read_record s' v = read_record s v)
  /\ verify_attestation_view u e s = Ok (valid_uid e s u, s).
Proof.
  split.
  - unfold verify_attestation; destruct (extend_instance_ttl_bind
      (fun _ => verify_attestation_record u) e s) as [z ->].
    destruct (verify_attestation_record_run u e (upd_inst_live z s)) as (s' & -> & T).
    exists s'; split; [done|]; intros v; apply (read_record_silent _ _ _ _ T).
  - unfold verify_attestation_view, valid_uid, mbind, M_bind, read_attestation, ask, mret, M_ret.
    destruct (read_record s u) as [a|]; [|done]; by rewrite valid_now_spec.
Qed.

(** batch verification is the pointwise verification: [verify_attestations]
    returns the validity of each UID in order and [verify_all_attestations]
    their conjunction, for up to the batch limit; a larger batch is refused. *)
Theorem batch_verification_is_pointwise l e s :
  if len l <=? MAX_VERIFY_BATCH
  then (exists s', verify_attestations l e s = Ok (valid_uid e s <$> l, s'))
       /\ (exists s', verify_all_attestations l e s = Ok (forallb (valid_uid e s) l, s'))
  else verify_attestations l e s = Err (Panic BatchTooLarge)
       /\ verify_all_attestations l e s = Err (Panic BatchTooLarge).
Proof.
  unfold verify_attestations, verify_all_attestations; rewrite Z.leb_antisym.
  destruct (extend_instance_ttl_bind (fun _ => panic_if (MAX_VERIFY_BATCH <? len l) BatchTooLarge;;
    verify_loop l []) e s) as [z1 ->].
  destruct (extend_instance_ttl_bind (fun _ => panic_if (MAX_VERIFY_BATCH <? len l) BatchTooLarge;;
    verify_all_loop l) e s) as [z2 ->].
  destruct (MAX_VERIFY_BATCH <? len l); simpl; [done|]; split.
  - destruct (verify_loop_run l [] e (upd_inst_live z1 s)) as (s' & Hr & _); by exists s'.
  - destruct (verify_all_loop_run l e (upd_inst_live z2 s)) as (s' & Hr & _); by exists s'.
Qed.

(** C11: timestamp proofs.  After any history, [verify_timestamp] answers
    whether the claim equals the issuance or revocation anchor of the UID, is
    not in the future and the two anchors are in order; and a claim it accepts
    states the issuance or revocation time of the stored record. *)
Theorem timestamp_claims_are_sound h s u claim e :
  Forall typed_step h -> store_ok s -> anchors_ok s ->
  exists b s', verify_timestamp u claim e (run_history h s) = Ok (b, s')
    /\ (b = true <-> supported e (pget (run_history h s) (TimestampAnchorKey u false))
                       (pget (run_history h s) (TimestampAnchorKey u true)) claim)
    /\ (b = true -> exists a, read_record (run_history h s) u = Some a
          /\ (ledger_timestamp claim = time a \/ ledger_timestamp claim = revocation_time a)).
Proof.
  intros Hh Hok Ha; pose proof (anchors_history h s Hh Hok Ha) as Ha'.
  destruct (verify_timestamp_run u claim e (run_history h s)) as [s' Hr].
  eexists _, s'; split; [exact Hr|]; rewrite bool_decide_eq_true, claim_verdict_None.
  split; [done|]; intros [[Hi|Hi] _]; apply Ha' in Hi as (a & Hra & Ht); eauto.
Qed.
End properties.

(** ** Instances *)

Lemma start_store_ok : store_ok sample_start.
Proof. apply store_ok_history; [by repeat constructor|apply store_ok_empty]. Qed.
Lemma start_anchors_ok : anchors_ok sample_start.
Proof. apply anchors_history; [by repeat constructor|apply store_ok_empty|done]. Qed.
Lemma issued_store_ok : store_ok sample_issued.
Proof. apply store_ok_history; [by repeat constructor|apply start_store_ok]. Qed.

Lemma attest_succeeds_if_witness :
  exists s', attest (sample_att [1; 2; 3] 5000) (sample_env 1000 [alice]) sample_start
             = Ok (sample_uid [1; 2; 3], s').
Proof.
  apply (attest_succeeds_if (sample_att [1; 2; 3] 5000)).
  - vm_compute; reflexivity.
  - vm_compute; reflexivity.
  - vm_compute; reflexivity.
  - vm_compute; discriminate.
  - vm_compute; reflexivity.
  - exact start_anchors_ok.
  - split.
    + refine (proj1 (validate_fields_valid (sample_att [1; 2; 3] 5000) (sample_env 1000 [alice])
        sample_start tt _ (run_final _ _ _ tt _))); vm_compute; reflexivity.
    + exists registry_id, sample_schema, Permissive, 0.
      split_and!; [vm_compute; reflexivity|..]; first [reflexivity|by intros x; exists x|done].
    + left; vm_compute; reflexivity.
    + left; vm_compute; reflexivity.
Defined.


Lemma revoke_succeeds_if_witness :
  exists s', revoke (sample_uid [1; 2; 3]) (sample_env 2000 [alice]) sample_issued = Ok (tt, s').
Proof.
  apply (revoke_succeeds_if (sample_uid [1; 2; 3])
    (with_time 1000 (sample_att [1; 2; 3] 5000)) registry_id sample_schema).
  - vm_compute; reflexivity.
  - vm_compute; reflexivity.
  - vm_compute; reflexivity.
  - exact issued_store_ok.
  - vm_compute; reflexivity.
  - vm_compute; reflexivity.
  - reflexivity.
  - reflexivity.
  - vm_compute; reflexivity.
  - vm_compute; reflexivity.
  - by intros x; exists x.
  - done.
Defined.

Lemma replacement_links_records_witness :
  uid (sample_att [7] 6000) = sample_uid [7]
  /\ exists old, authorized (sample_env 2000 [alice]) (attester old) = true
     /\ replaced (sample_env 2000 [alice]) (sample_uid [1; 2; 3]) old (sample_att [7] 6000) sample_issued
          (final (replace_attestation (sample_uid [1; 2; 3]) (sample_att [7] 6000))
             (sample_env 2000 [alice]) sample_issued).
Proof.
  refine (conj eq_refl (proj2 (replacement_links_records (sample_uid [1; 2; 3]) (sample_att [7] 6000)
    (sample_env 2000 [alice]) sample_issued (sample_uid [7]) _ _ _ _ _))).
  - by split_and!.
  - by split_and!.
  - exact issued_store_ok.
  - apply run_final; vm_compute; reflexivity.
Defined.

Lemma renewal_extends_witness :
  exists a, read_record sample_issued (sample_uid [1; 2; 3]) = Some a
    /\ authorized (sample_env 2000 [alice]) (attester a) = true.
Proof.
  destruct (renewal_extends (sample_uid [1; 2; 3]) 9000 (sample_env 2000 [alice]) sample_issued
    (sample_uid [1; 2; 3]) (final (renew_attestation (sample_uid [1; 2; 3]) 9000)
      (sample_env 2000 [alice]) sample_issued)) as (a & Ha & Hau & _).
  - by split_and!.
  - exact issued_store_ok.
  - apply run_final; vm_compute; reflexivity.
  - exists a; split; [exact Ha|exact Hau].
Defined.

Definition pruning_on : State SasSig World :=
  run_history [(sample_env 1500 [root_admin], SetAutoPrune true)] sample_issued.

Lemma pruning_is_exact_witness :
  read_record (final (prune_expired [sample_uid [1; 2; 3]]) (sample_env 6000 []) pruning_on)
    (sample_uid [1; 2; 3])
  = after_prune (sample_env 6000 []) [sample_uid [1; 2; 3]] (sample_uid [1; 2; 3])
      (read_record pruning_on (sample_uid [1; 2; 3])).
Proof.
  refine (proj2 (proj2 (pruning_is_exact [sample_uid [1; 2; 3]] (sample_env 6000 []) pruning_on 1 _ _))
    (sample_uid [1; 2; 3])).
  apply run_final; vm_compute; reflexivity.
Defined.

(** A state that still holds a record in the legacy layout. *)
Definition legacy_state : State SasSig World :=
  upd_pers (C := SasSig) (UidKey (sample_uid [1; 2; 3]))
    (Some (StoredLegacy (sample_att [1; 2; 3] 5000), 1000000)) sample_start.

Lemma legacy_read :
  read_record legacy_state (sample_uid [1; 2; 3]) = Some (sample_att [1; 2; 3] 5000).
Proof. vm_compute; reflexivity. Qed.

Lemma legacy_store_ok : store_ok legacy_state.
Proof.
  destruct start_store_ok as [Hok Hl]; split.
  - intros u a; destruct (decide (u = sample_uid [1; 2; 3])) as [->|Hne].
    + rewrite legacy_read; intros [= <-]; split; [reflexivity|by split_and!].
    + intros Ha; apply Hok; rewrite <- Ha; unfold read_record, legacy_state.
      by rewrite !(pget_upd_ne (C := SasSig)) by congruence.
  - intros u a; unfold legacy_state; destruct (decide (u = sample_uid [1; 2; 3])) as [->|Hne].
    + intros _; split; vm_compute; reflexivity.
    + rewrite !(pget_upd_ne (C := SasSig)) by congruence; apply Hl.
Qed.

Lemma migration_preserves_reads_witness :
  read_record (final (migrate_attestation (sample_uid [1; 2; 3])) (sample_env 2000 []) legacy_state)
    (sample_uid [1; 2; 3])
  = read_record legacy_state (sample_uid [1; 2; 3]).
Proof.
  refine (proj1 (migration_preserves_reads (sample_uid [1; 2; 3]) (sample_env 2000 []) legacy_state
    true _ _ _) (sample_uid [1; 2; 3])).
  - exact legacy_store_ok.
  - apply run_final; vm_compute; reflexivity.
Defined.

Lemma timestamp_claims_are_sound_witness :
  exists b s', verify_timestamp (sample_uid [1; 2; 3]) (mkTimestampAnchor 200 1000)
      (sample_env 3000 []) (run_history [sample_issue] sample_start) = Ok (b, s').
Proof.
  destruct (timestamp_claims_are_sound [sample_issue] sample_start (sample_uid [1; 2; 3])
    (mkTimestampAnchor 200 1000) (sample_env 3000 [])) as (b & s' & Hr & _).
  - by repeat constructor.
  - exact start_store_ok.
  - exact start_anchors_ok.
  - exists b, s'; exact Hr.
Defined.
