(* ===== verification/AccessProps.v ===== *)
(** * Properties of access control

    Replay protection of delegated calls, the reentrancy guards, the pause
    switch, the administrator, registered keys and proof nullifiers, over
    every entry point and any history of calls. *)

From S2P Require Import Prelude Host Common TypedData Merkle SasState SasCore SasAdmin SasFees.
From S2P Require Import SasIssue SasAttest SasRevoke SasQuery SasCalls SasSample SasFrame SasRecord.
From S2P Require Import SasIssueSpec SasLife SasAuthority SasNonce SasConfig.
From S2P Require Import Sample.

(** ** The pause switch over a history *)

Section pause.
Context {X : Type} `{Deps X}.
Implicit Types (s : State SasSig X) (e : Env).

(** What the pause switch forbids: only [unpause] may clear it. *)
Definition stays_paused (e : Env) s s' : Prop :=
  inst s PAUSED = Some true -> inst s' PAUSED = Some true.

#[export] Instance stays_paused_preorder : PreorderE stays_paused.
Proof. intros e; split; unfold stays_paused; [by intros s|intros s1 s2 s3; auto]. Qed.

Definition not_paused_key (k : SasIKey) : Prop := k <> PAUSED.

Lemma stays_paused_touches {A} (m : M SasSig X A) :
  preserves (touches not_paused_key (fun _ => True)) m -> preserves stays_paused m.
Proof.
  intros Hm e s r s' [Hi _]%Hm Hp; rewrite (Hi PAUSED); [done|]; by intros Hk; apply Hk.
Qed.
Lemma stays_paused_set : preserves stays_paused (inst_set (C := SasSig) (X := X) PAUSED true).
Proof. intros e s r s' Hr _; run_inv; by rewrite inst_upd_eq. Qed.
#[local] Hint Resolve stays_paused_set : sas.
#[local] Hint Extern 5 (preserves stays_paused _) => apply stays_paused_touches : sas.
#[local] Hint Extern 1 (not_paused_key _) => discriminate : sas.

Lemma stays_paused_exec c : c <> Unpause -> preserves stays_paused (exec c).
Proof. destruct c; intros Hc; simpl; try done; clear Hc; pres_open. Qed.

(** A frozen record: unchanged, or removed after its expiry. *)
Definition frozen (h : list (Env * SasCall)) (o o' : option Attestation) : Prop :=
  o' = o \/ (o' = None /\ exists a e c, o = Some a /\ (e, c) ∈ h /\ dead e a).

Lemma evolves_paused e s o o' :
  inst s PAUSED = Some true -> evolves (rights_at e s) e o o' ->
  (o' = o \/ o' = None /\ exists a, o = Some a /\ dead e a).
Proof.
  intros Hp; unfold evolves, newly_issued, updated, revocation_step, expiry_step, same_claim,
    rights_at, unpaused; simpl; rewrite Hp; simpl.
  destruct o as [a|], o' as [a'|]; simpl; [|eauto|by intros (_ & [? _])|by left].
  intros [(Hc & Hr & He)|(_ & _ & [? _])]; [|done].
  left; destruct Hr as [Hr|(_ & _ & _ & [? _])]; [|done].
  destruct He as [He|(_ & _ & _ & _ & _ & [? _])]; [|done].
  destruct a, a'; simpl in *; by destruct_and!; subst.
Qed.

Lemma history_paused h s u :
  Forall typed_step h -> Forall (fun st => st.2 <> Unpause) h -> store_ok s ->
  inst s PAUSED = Some true ->
  frozen h (read_record s u) (read_record (run_history h s) u).
Proof.
  intros Hh; revert s; induction Hh as [|[e c] h Ht Hh IH]; intros s Hu Hok Hp; simpl; [by left|].
  apply Forall_cons in Hu as [Hc Hu]; simpl in Hc.
  destruct (transact_life e c s Ht Hok) as [Hok' He]; specialize (He u).
  assert (inst (transact e c s) PAUSED = Some true) as Hp'.
  { destruct (transact_run e c s) as [(s' & Hr & ->)|(err & _ & ->)]; [|done].
    by eapply (stays_paused_exec c Hc). }
  specialize (IH _ Hu Hok' Hp'); apply evolves_paused in He; [|done].
  unfold frozen in *; destruct He as [He|(He & a & Ha & Hd)]; rewrite He in IH.
  - destruct IH as [IH|(IH & a & e' & c' & Ha & Hin & Hd)]; [by left|right; split; [done|]].
    exists a, e', c'; split_and!; [done|by constructor|done].
  - destruct IH as [IH|(IH & a' & _ & _ & Ha' & _)]; [|done].
    right; split; [done|]; exists a, e, c; split_and!; [done|constructor|done].
Qed.
End pause.

(** ** Replay *)

Section replay.
Context {X : Type} `{Deps X}.
Implicit Types (s : State SasSig X) (e : Env).

Lemma no_second_use h s e1 c1 r1 s1 a n m e2 c2 r2 s2 :
  typed_step (e1, c1) -> Forall typed_step h -> is_u64 (timestamp e2) -> store_ok s ->
  presents_nonce s c1 a n -> exec c1 e1 s = Ok (r1, s1) ->
  presents_nonce (run_history h s1) c2 a m -> m <= n ->
  exec c2 e2 (run_history h s1) = Ok (r2, s2) -> False.
Proof.
  intros Ht Hh Hts Hok Hp1 Hr1 Hp2 Hmn Hr2.
  assert (store_ok s1) as Hok1.
  { destruct (transact_life e1 c1 s Ht Hok) as [Hok1 _]; unfold transact in Hok1.
    by rewrite Hr1 in Hok1. }
  destruct (spends_exec c1 a n e1 s r1 s1) as [_ Hs1]; [apply Ht|done..|].
  destruct (spends_exec c2 a m e2 (run_history h s1) r2 s2) as [Hs2 _];
    [done|by apply store_ok_history|done..|].
  apply Hs2; eapply spent_mono; [exact Hmn|apply grow_history|exact Hs1].
Qed.
End replay.

(** ** Initialisation *)

Section initialised.
Context {X : Type} `{Deps X}.
Implicit Types (s : State SasSig X) (e : Env).

Definition initialised s : Prop := is_Some (inst s SAS_ADMIN).

(** An initialised contract stays so and keeps its registry. *)
Definition stays_bound (e : Env) s s' : Prop :=
  initialised s -> initialised s' /\ inst s' SCHEMA_REGISTRY = inst s SCHEMA_REGISTRY.

#[export] Instance stays_bound_preorder : PreorderE stays_bound.
Proof.
  intros e; split; unfold stays_bound; [by intros s|].
  intros s1 s2 s3 H12 H23 Hi; destruct (H12 Hi) as [Hi2 R2]; destruct (H23 Hi2); split; congruence.
Qed.

Definition unbound_key (k : SasIKey) : Prop := k <> SAS_ADMIN /\ k <> SCHEMA_REGISTRY.

Lemma stays_bound_touches {A} (m : M SasSig X A) :
  preserves (touches unbound_key (fun _ => True)) m -> preserves stays_bound m.
Proof.
  intros Hm e s r s' [Hi _]%Hm Hs; unfold initialised.
  rewrite (Hi SAS_ADMIN), (Hi SCHEMA_REGISTRY) by (by intros [? ?]); done.
Qed.
Lemma stays_bound_set_admin a : preserves stays_bound (inst_set (C := SasSig) (X := X) SAS_ADMIN a).
Proof.
  intros e s r s' Hr _; run_inv; unfold initialised; rewrite inst_upd_eq, inst_upd_ne by done.
  split; [by eexists|done].
Qed.
#[local] Hint Resolve stays_bound_set_admin : sas.
#[local] Hint Extern 5 (preserves stays_bound _) => apply stays_bound_touches : sas.
#[local] Hint Extern 1 (unbound_key _) => (split; discriminate) : sas.

Lemma init_refused admin registry e s r s' :
  initialised s -> init admin registry e s = Ok (r, s') -> False.
Proof.
  intros Hi; unfold init; intros Hr; sas_inv; bool_facts.
  match goal with Hn : ~ is_Some _ |- _ => by apply Hn end.
Qed.

Lemma stays_bound_exec c : preserves stays_bound (exec c).
Proof.
  destruct c; simpl; [|pres_open..].
  intros e s r s' Hr Hi; by apply init_refused in Hr.
Qed.

Lemma stays_bound_history h s :
  initialised s ->
  initialised (run_history h s)
  /\ inst (run_history h s) SCHEMA_REGISTRY = inst s SCHEMA_REGISTRY.
Proof.
  revert s; induction h as [|[e c] h IH]; intros s Hs; simpl; [done|].
  assert (stays_bound e s (transact e c s)) as Hb.
  { destruct (transact_run e c s) as [(s' & Hr & ->)|(err & _ & ->)]; [|done].
    by eapply stays_bound_exec. }
  destruct (Hb Hs) as [Hs' <-]; by apply IH.
Qed.
End initialised.

(** ** Properties *)

Section properties.
Context {X : Type} `{Deps X}.
Implicit Types (s : State SasSig X) (e : Env).

(** C6: a nonce is accepted once.  After a successful call that presented a
    signature of an attester under nonce [n] (issuing, revoking, replacing or
    invalidating nonces, alone or in a batch), and after any further history,
    no call that presents a signature of that attester under a nonce [m] up to
    [n] succeeds, with any signature, key or ledger header. *)
Theorem nonce_accepted_once h s e1 c1 r1 s1 a n m e2 c2 r2 s2 :
  typed_step (e1, c1) -> Forall typed_step h -> is_u64 (timestamp e2) -> store_ok s ->
  presents_nonce s c1 a n -> exec c1 e1 s = Ok (r1, s1) ->
  presents_nonce (run_history h s1) c2 a m -> m <= n ->
  exec c2 e2 (run_history h s1) <> Ok (r2, s2).
Proof. intros; intros Hr; by eapply no_second_use. Qed.

(** The nonce watermark of an attester never decreases and is never
    forgotten, whatever history of calls is run. *)
Theorem watermarks_only_grow h s a :
  watermark_le (watermark s a) (watermark (run_history h s) a).
Proof. apply grow_history. Qed.


(** the guards are down between invocations: no history of calls,
    failing or not, leaves the reentrancy guard up or the call depth off zero,
    so the contract cannot be locked. *)
Theorem guards_always_released h s :
  guards_down s -> guards_down (run_history h s).
Proof. apply guards_down_history. Qed.

(** while the guard of a batch is up, so in any callback of a resolver
    or indexer, every guard-checking entry point fails. *)
Theorem reentrant_calls_fail c e s :
  checks_guard c = true -> guarded s = true -> exists err, exec c e s = Err err.
Proof.
  intros Hc Hg; destruct (exec c e s) as [[r s']|err] eqn:Hr; [|eauto].
  by apply guarded_call_fails in Hr.
Qed.

(** C12: the circuit breaker stops every issuance, revocation, renewal and
    replacement: from a paused state, after any history without an [unpause],
    every record is as it was, or was removed after it had expired, and no
    record was added.  The removal is what the code allows and its comment
    does not: [prune_expired] does not look at the pause flag
    ([Findings.pruned_while_paused]). *)
Theorem paused_records_frozen h s u :
  Forall typed_step h -> Forall (fun st => st.2 <> Unpause) h -> store_ok s ->
  inst s PAUSED = Some true ->
  frozen h (read_record s u) (read_record (run_history h s) u).
Proof. apply history_paused. Qed.

(** C13: without the authorisation of the admin no call changes the
    configuration; the only change to the admin entries is the pending admin
    accepting, with their own authorisation. *)
Theorem admin_controls_configuration c e s r s' :
  exec c e s = Ok (r, s') -> admin_step e s s'.
Proof. apply admin_exec. Qed.

(** initialisation is final: after any history an initialised contract
    still has an admin and the same schema registry, and refuses [init]. *)
Theorem initialisation_is_final h s e admin registry r s' :
  initialised s ->
  initialised (run_history h s)
  /\ inst (run_history h s) SCHEMA_REGISTRY = inst s SCHEMA_REGISTRY
  /\ exec (Init admin registry) e (run_history h s) <> Ok (r, s').
Proof.
  intros Hi; destruct (stays_bound_history h s Hi) as [Hi' Hr]; split_and!; [done..|].
  intros Hx; by eapply init_refused.
Qed.

(** An attester's registered key changes only with the attester's
    authorisation: first registered with version one, then replaced by a new
    key with the next version, or revoked in place; it is never forgotten. *)
Theorem attester_keys_evolve c e s r s' :
  exec c e s = Ok (r, s') -> keys_step e s s'.
Proof. apply keys_exec. Qed.

(** a proof nullifier is accepted once: it was unused before a
    successful [attest_with_zk], and after any further history no
    [attest_with_zk] with it succeeds. *)
Theorem nullifier_accepted_once h a p n e s r s' a2 p2 e2 r2 s2 :
  attest_with_zk a p n e s = Ok (r, s') ->
  pget s (ZkNullifierKey n) = None
  /\ attest_with_zk a2 p2 n e2 (run_history h s') <> Ok (r2, s2).
Proof.
  intros [Hn Hs]%attest_with_zk_marks; split; [done|].
  intros [Hn2 _]%attest_with_zk_marks.
  by destruct (nullifiers_history h s' n Hs) as [x Hx]; rewrite Hx in Hn2.
Qed.
End properties.

(** ** Instances *)

(** alice's attestation, relayed by anyone with alice's signature. *)
Definition relay_env : Env := sample_env 1000 [].
Definition relayed (payload : bytes) (n : Z) : SasCall :=
  AttestByDelegation (sample_att payload 5000) n
    (toy_sign (key_of 1)
       (hash_offchain_attestation relay_env (sample_att payload 5000) (domain_of n relay_env)))
    (key_of 1).
Definition relayed_state : State SasSig World := final (exec (relayed [1; 2; 3] 5)) relay_env sample_start.

Lemma sample_start_store_ok : store_ok sample_start.
Proof. apply store_ok_history; [by repeat constructor|apply store_ok_empty]. Qed.

Lemma nonce_accepted_once_witness :
  exec (relayed [7] 4) relay_env
    (run_history [(sample_env 2000 [alice], Revoke (sample_uid [1; 2; 3]))] relayed_state)
  <> Ok (tt, relayed_state).
Proof.
  refine (nonce_accepted_once [(sample_env 2000 [alice], Revoke (sample_uid [1; 2; 3]))]
    sample_start relay_env (relayed [1; 2; 3] 5) tt relayed_state alice 5 4 relay_env
    (relayed [7] 4) tt relayed_state _ _ _ _ _ _ _ _).
  - by split_and!.
  - by repeat constructor.
  - by split_and!.
  - exact sample_start_store_ok.
  - by split.
  - unfold relayed_state; apply run_final; vm_compute; reflexivity.
  - by split.
  - lia.
Defined.


Lemma guards_always_released_witness : guards_down (run_history [sample_issue; sample_revoke] sample_start).
Proof. apply guards_always_released; split; vm_compute; reflexivity. Defined.

(** A state in which a batch is running. *)
Definition in_batch : State SasSig World := final enter_reentrancy_guard (sample_env 1000 []) sample_start.

Lemma reentrant_calls_fail_witness :
  exists err, exec (Attest (sample_att [1; 2; 3] 5000)) (sample_env 1000 [alice]) in_batch = Err err.
Proof. apply reentrant_calls_fail; vm_compute; reflexivity. Defined.

Definition sample_paused : State SasSig World := run_history [(sample_env 1500 [root_admin], Pause)] sample_start.

Lemma paused_records_frozen_witness :
  frozen [sample_issue; sample_revoke] (read_record sample_paused (sample_uid [1; 2; 3]))
    (read_record (run_history [sample_issue; sample_revoke] sample_paused) (sample_uid [1; 2; 3])).
Proof.
  apply paused_records_frozen.
  - by repeat constructor.
  - by repeat constructor.
  - apply store_ok_history; [by repeat constructor|apply sample_start_store_ok].
  - vm_compute; reflexivity.
Defined.

Lemma admin_controls_configuration_witness :
  admin_step (sample_env 1500 [root_admin]) sample_start
    (final (exec Pause) (sample_env 1500 [root_admin]) sample_start).
Proof.
  apply (admin_controls_configuration Pause _ _ tt); apply run_final; vm_compute; reflexivity.
Defined.

Lemma initialisation_is_final_witness :
  initialised (run_history [sample_issue; sample_revoke] sample_start).
Proof.
  refine (proj1 (initialisation_is_final [sample_issue; sample_revoke] sample_start
    (sample_env 3000 [bob]) bob registry_id tt sample_start _)).
  vm_compute; by eexists.
Defined.

Lemma attester_keys_evolve_witness :
  keys_step (sample_env 1500 [alice]) sample_start
    (final (exec (RegisterAttesterKey alice (key_of 77))) (sample_env 1500 [alice]) sample_start).
Proof.
  apply (attester_keys_evolve (RegisterAttesterKey alice (key_of 77)) _ _ tt).
  apply run_final; vm_compute; reflexivity.
Defined.

Definition sample_zk : State SasSig World :=
  run_history [(sample_env 500 [root_admin], SetZkVerifier resolver_id)] sample_start.
Lemma nullifier_accepted_once_witness :
  attest_with_zk (sample_att [9] 0) [2] (key_of 20) (sample_env 2000 [alice])
    (run_history [sample_revoke]
       (final (attest_with_zk (sample_att [1; 2; 3] 5000) [1] (key_of 20))
          (sample_env 1000 [alice]) sample_zk))
  <> Ok (sample_uid [9], sample_zk).
Proof.
  refine (proj2 (nullifier_accepted_once [sample_revoke] (sample_att [1; 2; 3] 5000) [1] (key_of 20)
    (sample_env 1000 [alice]) sample_zk (sample_uid [1; 2; 3])
    (final (attest_with_zk (sample_att [1; 2; 3] 5000) [1] (key_of 20))
       (sample_env 1000 [alice]) sample_zk) (sample_att [9] 0) [2]
    (sample_env 2000 [alice]) (sample_uid [9]) sample_zk _)).
  apply run_final; vm_compute; reflexivity.
Defined.
