(* ===== verification/CryptoProps.v ===== *)
(** * Properties of encodings, signatures and proofs

    What a signature binds, what a Merkle disclosure proves, the compact record
    layout with its entry for [valid_from], and the storage lifetimes. *)

From S2P Require Import Prelude Host Common TypedData Merkle SignedData SasState SasCore SasAdmin.
From S2P Require Import SasFees SasIssue SasAttest SasRevoke SasQuery SasCalls SasSample SasFrame.
From S2P Require Import SasRecord SasIssueSpec SasVerify.
From S2P Require Import Sample.

(** ** Disclosure through the contract *)

Section disclosure.
Context {X : Type}.
Implicit Types (s : State SasSig X) (e : Env).

Lemma verify_leaf_true u leaf proof algo e s s' :
  verify_leaf u leaf proof algo e s = Ok (true, s') ->
  exists a, read_record s u = Some a /\ valid_now e a = true
    /\ fold_left (node_hash_with e algo) proof (leaf_hash_with e algo leaf) = data a.
Proof.
  unfold verify_leaf; intros Hr; destruct (_ || _); [by sas_inv|]; sas_inv.
  destruct (read_record s u) as [a|] eqn:Ha; [|by sas_inv].
  destruct (negb _) in Hr; [by sas_inv|]; sas_inv.
  destruct (verify_attestation_record_run u e s) as (s2 & Hv & _).
  match goal with Hx : verify_attestation_record u e s = _ |- _ => rewrite Hv in Hx; injection Hx as <- <- end.
  unfold valid_uid in Hr; rewrite Ha in Hr.
  destruct (valid_now e a) eqn:En; simpl in Hr; sas_inv; [|done].
  exists a; split_and!; [done..|]; unfold verify_proof_with in *.
  destruct (_ <? _); [done|]; by apply (bool_decide_eq_true_1 _).
Qed.
End disclosure.

(** ** Properties *)

Section properties.
Context {X : Type}.
Implicit Types (s : State SasSig X) (e : Env).

(** C8: a signature authorises one message.  Two well-sized messages
    (attestation, scoped attestation, revocation, replacement consent, nonce
    invalidation) with the same signed digest agree in their kind and in every
    signed field, domain and nonce included, or two of the strings hashed for
    them collide under SHA-256.  The revocation time and [valid_from] are not signed.  SHA-256
    returns 32 bytes and XDR addresses are self-delimiting. *)
Theorem signature_binds_message e m m' :
  (forall x, length (sha256 e x) = 32%nat) ->
  (forall a b x y, xdr_address e a ++ x = xdr_address e b ++ y -> a = b /\ x = y) ->
  message_sized m -> message_sized m' -> message_digest e m = message_digest e m' ->
  signed_content m = signed_content m' \/ collides (sha256 e) (hashed e m) (hashed e m').
Proof. intros Hlen Hxdr; by apply message_digest_inj. Qed.

(** C14: selective disclosure is sound.  When [verify_merkle_leaf] accepts a
    leaf for an attestation whose payload is the root of a tree, the attestation
    is currently valid and the leaf is one of the tree's, or two of the strings
    hashed for the proof and for the tree collide under SHA-256; an inner node is never taken for a leaf. *)
Theorem disclosed_leaf_was_committed u leaf proof t e s s' :
  (forall x, length (sha256 e x) = 32%nat) ->
  Forall (fun b => length b = 32%nat) proof ->
  (forall a, read_record s u = Some a -> data a = root_of e Sha256 t) ->
  verify_merkle_leaf u leaf proof e s = Ok (true, s') ->
  valid_uid e s u = true
  /\ (leaf ∈ leaves_of t
      \/ collides (sha256 e) (proof_hashed e Sha256 leaf proof) (tree_hashed e Sha256 t)).
Proof.
  intros Hlen Hp Hroot; unfold verify_merkle_leaf.
  destruct (extend_instance_ttl_bind (fun _ => verify_leaf u leaf proof Sha256) e s) as [z ->].
  intros (a & Ha & Hv & Hc)%verify_leaf_true.
  change (read_record (upd_inst_live z s) u) with (read_record s u) in Ha.
  rewrite (Hroot a Ha) in Hc; split; [unfold valid_uid; by rewrite Ha|].
  by eapply climb_sound.
Qed.

(** every committed leaf can be disclosed: the root that [merkle_root]
    computes over up to 2^32 leaves has, for each of them, a proof within the
    depth limit that the verifier accepts; the loop that builds it terminates
    with a root for every non-empty list. *)
Theorem committed_leaf_can_be_disclosed e leaves leaf :
  leaves <> [] -> len leaves <= 2 ^ 32 -> leaf ∈ leaves ->
  exists root proof, merkle_root e leaves = Some root
    /\ len proof <= MAX_MERKLE_PROOF_DEPTH
    /\ verify_proof_with e Sha256 root leaf proof = true.
Proof.
  intros Hne Hlen Hin; destruct (merkle_root_tree e leaves Hne) as (t & Hr & Hl & Hd).
  specialize (Hd 32%nat Hlen); rewrite <- Hl in Hin.
  destruct (climb_complete e Sha256 t leaf Hin) as (proof & Hp & Hc).
  exists (root_of e Sha256 t), proof.
  assert (len proof <= MAX_MERKLE_PROOF_DEPTH) as Hmax
    by (unfold len, MAX_MERKLE_PROOF_DEPTH; lia).
  split_and!; [done..|]; unfold verify_proof_with.
  rewrite (proj2 (Z.ltb_ge _ _) Hmax); by apply bool_decide_eq_true_2.
Qed.

(** C15: the compact layout holds every field but [valid_from], which unpacking
    sets to zero and which has a storage entry of its own: unpacking a packed
    attestation gives it back with [valid_from] zero, the in-place setters of
    the packed times change their field and no other, and what is written to
    storage, in whatever state, is read back as it was, [valid_from] included. *)
Theorem compact_round_trip a t ttl e s :
  att_typed a -> is_u64 t ->
  to_attestation (from_attestation a) (uid a) = with_valid_from 0 a
  /\ length (packed_meta (from_attestation a)) = 25%nat
  /\ to_attestation (set_revocation_time t (from_attestation a)) (uid a)
     = with_valid_from 0 (with_revocation_time t a)
  /\ to_attestation (set_time t (from_attestation a)) (uid a) = with_valid_from 0 (with_time t a)
  /\ exists s', write_attestation a ttl e s = Ok (tt, s') /\ read_attestation (uid a) e s' = Ok (Some a, s').
Proof.
  intros Ha Ht; split_and!;
    [by apply to_from_attestation|done|by apply set_revocation_time_spec|by apply set_time_spec|].
  destruct (write_attestation_run a ttl e s) as (s' & Hw & _ & _ & Hr); exists s'; split; [done|].
  unfold read_attestation; by rewrite Hr.
Qed.

(** the lifetime of a stored record is between one and five years of
    ledgers whatever the expiry, and covers the remaining validity, rounded up
    to ledgers of five seconds, as long as that is at most five years. *)
Theorem storage_lifetime_bounds e ex :
  is_u64 (timestamp e) -> is_u64 ex ->
  LEDGERS_IN_ONE_YEAR <= compute_storage_ttl e ex <= 5 * LEDGERS_IN_ONE_YEAR
  /\ (0 < ex - timestamp e <= 25 * LEDGERS_IN_ONE_YEAR ->
      ex - timestamp e <= 5 * compute_storage_ttl e ex).
Proof.
  intros Ht Hx; split; [apply compute_storage_ttl_bounds|]; intros Hw.
  unfold compute_storage_ttl, LEDGERS_IN_ONE_YEAR, sat_add, as_u32, u32_max, is_u64, u64_max in *.
  destruct (ex =? 0) eqn:E1, (ex <=? timestamp e) eqn:E2; bool_facts; simpl; try lia.
  rewrite Z.mod_small by (split; [apply Z.div_pos; lia|apply Z.div_lt_upper_bound; lia]).
  pose proof (Z.div_mod (ex - timestamp e + 4) 5 ltac:(lia)).
  pose proof (Z.mod_pos_bound (ex - timestamp e + 4) 5 ltac:(lia)); lia.
Qed.
End properties.

(** ** Instances *)

(** A host whose address encoding is self-delimiting for keys of any size. *)
Definition delimited (a : Address) : bytes :=
  match a with
  | Account k => replicate (length k) 1 ++ 0 :: 0 :: k
  | Contract k => replicate (length k) 1 ++ 0 :: 1 :: k
  end.
Definition crypto_env : Env := {|
  timestamp := 1000; sequence := 200; network_id := key_of 9; current_contract := sas_id;
  authorized := fun _ => false; max_entry_ttl := 2 ^ 31; min_persistent_ttl := 4096;
  min_temp_ttl := 16; sha256 := toy_digest; keccak256 := toy_digest;
  ed25519_valid := fun _ _ _ => false; xdr_address := delimited;
  xdr_bytes := id; xdr_string := id; xdr_uid := id
|}.

Lemma ones_inj n m (x y : bytes) :
  replicate n 1 ++ 0 :: x = replicate m 1 ++ 0 :: y -> n = m /\ x = y.
Proof.
  revert m; induction n as [|n IH]; intros [|m]; simpl; intros [= He]; [done|].
  apply IH in He as [-> ->]; done.
Qed.
Lemma delimited_prefix_free a b x y : delimited a ++ x = delimited b ++ y -> a = b /\ x = y.
Proof.
  destruct a as [k|k], b as [k'|k']; simpl; rewrite <- !app_assoc; simpl;
    intros [Hl He]%ones_inj; try discriminate He; injection He as He;
    apply app_inj_1 in He as [-> ->]; auto.
Qed.
Lemma toy_digest_length x : length (toy_digest x) = 32%nat.
Proof. apply length_to_be_bytes. Qed.

Definition sample_message (nonce : Z) : message :=
  Revokes (sample_uid [1]) alice (mkAttestationDomain (key_of 9) sas_id nonce).
Lemma signature_binds_message_witness :
  let m := sample_message 4 in
  signed_content m = signed_content m \/ collides (sha256 crypto_env) (hashed crypto_env m) (hashed crypto_env m).
Proof.
  apply (signature_binds_message crypto_env (sample_message 4) (sample_message 4)).
  - exact toy_digest_length.
  - exact delimited_prefix_free.
  - repeat split; vm_compute; congruence.
  - repeat split; vm_compute; congruence.
  - reflexivity.
Defined.

(** An attestation over the root of a tree with three leaves. *)
Definition sample_tree : tree := Node (Node (Leaf [1]) (Leaf [2])) (Leaf [3]).
Definition sample_root : bytes := root_of (sample_env 0 []) Sha256 sample_tree.
Definition root_state : State SasSig World :=
  run_history [(sample_env 1000 [alice], Attest (sample_att sample_root 0))] sample_start.

Lemma disclosed_leaf_was_committed_witness :
  valid_uid (sample_env 2000 []) root_state (sample_uid sample_root) = true
  /\ ([2] ∈ leaves_of sample_tree
      \/ collides toy_digest
           (proof_hashed (sample_env 2000 []) Sha256 [2]
              [leaf_hash (sample_env 0 []) [1]; leaf_hash (sample_env 0 []) [3]])
           (tree_hashed (sample_env 2000 []) Sha256 sample_tree)).
Proof.
  apply (disclosed_leaf_was_committed (sample_uid sample_root) [2]
    [leaf_hash (sample_env 0 []) [1]; leaf_hash (sample_env 0 []) [3]] sample_tree
    (sample_env 2000 []) root_state
    (final (verify_merkle_leaf (sample_uid sample_root) [2]
       [leaf_hash (sample_env 0 []) [1]; leaf_hash (sample_env 0 []) [3]])
       (sample_env 2000 []) root_state)).
  - exact toy_digest_length.
  - vm_compute; repeat constructor.
  - intros a Ha; vm_compute in Ha; injection Ha as <-; vm_compute; reflexivity.
  - apply run_final; vm_compute; reflexivity.
Defined.

Lemma committed_leaf_can_be_disclosed_witness :
  exists root proof, merkle_root (sample_env 0 []) [[1]; [2]; [3]] = Some root
    /\ len proof <= MAX_MERKLE_PROOF_DEPTH
    /\ verify_proof_with (sample_env 0 []) Sha256 root [3] proof = true.
Proof.
  apply committed_leaf_can_be_disclosed; [done|vm_compute; discriminate|].
  apply list_elem_of_In; simpl; auto.
Defined.

(** An attestation with a time lock. *)
Definition locked_att : Attestation := with_valid_from 3000 (sample_att [1; 2; 3] 5000).
Lemma compact_round_trip_witness :
  to_attestation (from_attestation locked_att) (sample_uid [1; 2; 3]) = sample_att [1; 2; 3] 5000
  /\ exists s', write_attestation locked_att 100 (sample_env 1000 []) sample_start = Ok (tt, s')
       /\ read_attestation (uid locked_att) (sample_env 1000 []) s' = Ok (Some locked_att, s').
Proof.
  destruct (compact_round_trip locked_att 77 100 (sample_env 1000 []) sample_start) as (Hp & _ & _ & _ & Hs);
    [by split_and!|by split_and!|split; [exact Hp|exact Hs]].
Defined.

Lemma storage_lifetime_bounds_witness :
  LEDGERS_IN_ONE_YEAR <= compute_storage_ttl (sample_env 1000 []) 900000 <= 5 * LEDGERS_IN_ONE_YEAR.
Proof. refine (proj1 (storage_lifetime_bounds (sample_env 1000 []) 900000 _ _)); by split_and!. Defined.
