(* ===== verification/FeeProps.v ===== *)
(** * Properties of fees and quotas

    Accrued balances, withdrawals, quotes, the creator's share and the
    issuance quota. *)

From S2P Require Import Prelude Host Common TypedData Merkle SasState SasCore SasAdmin SasFees.
From S2P Require Import SasIssue SasAttest SasRevoke SasQuery SasCalls SasSample SasFrame SasRecord.
From S2P Require Import SasIssueSpec SasLife SasAuthority SasQuota SasMoney.
From S2P Require Import Sample.
From Stdlib Require Import Sorted.

(** ** Properties *)

Section properties.
Context {X : Type} `{Deps X}.
Implicit Types (s : State SasSig X) (e : Env).

(** the accrued balances of the treasury and of every creator are
    between zero and the largest [i128] after any history of calls: credits
    saturate and no withdrawal overdraws. *)
Theorem accrued_balances_in_range h s :
  balances_ok s -> balances_ok (run_history h s).
Proof. apply solvent_history. Qed.

(** a successful [withdraw_creator_fees] was authorised by the creator,
    takes a positive amount that the creator's accrued balance covers, debits
    that balance by exactly this amount and no other, and has the token
    contract pay exactly this amount to the destination. *)
Theorem creator_withdrawal c t z d e s r s' :
  withdraw_creator_fees c t z d e s = Ok (r, s') ->
  authorized e c = true /\ withdrawn (CreatorOf c t) t z d e s s'.
Proof. apply withdraw_creator_fees_ok. Qed.

(** A successful [withdraw_treasury_fees] was authorised by the admin or
    the treasury and debits and pays like a creator's withdrawal. *)
Theorem treasury_withdrawal a t z d e s r s' :
  withdraw_treasury_fees a t z d e s = Ok (r, s') ->
  authorized e a = true
  /\ (inst s SAS_ADMIN = Some a \/ inst s TREASURY = Some a)
  /\ withdrawn (TreasuryOf t) t z d e s s'.
Proof. apply withdraw_treasury_fees_ok. Qed.

(** the fee quote on every branch: an oversized payload is refused, an
    exempt schema costs nothing, and otherwise the fee is the base fee plus the
    per-byte rate times the payload size, refused when a product or sum leaves
    the 128-bit range; no state changes. *)
Theorem fee_quote_is_linear schema size e s :
  fee_quote schema size e s =
    if MAX_ATTESTATION_DATA_BYTES <? size then Err (Panic PayloadTooLarge)
    else if fee_exempt s schema then Ok (0, s)
    else if bool_decide (is_i128 (byte_fee s * size))
            && bool_decide (is_i128 (base_fee s + byte_fee s * size))
         then Ok (base_fee s + byte_fee s * size, s)
         else Err (Panic InvalidValue).
Proof. apply fee_quote_spec. Qed.

(** the split of a fee that [distribute_attestation_fee] announces adds
    up to the fee, and the creator's share is at most half of it.  The registry
    answers a royalty as a [u32]. *)
Theorem fee_split_adds_up schema token value e s u s' :
  0 <= value ->
  (forall registry bps, answered (ext s) (registry_get_creator_royalty registry schema) e bps -> 0 <= bps) ->
  distribute_attestation_fee schema token value e s = Ok (u, s') ->
  events s' = events s
  \/ exists treasury_amount creator_amount,
       events s' = events s ++ [EvFeeSplit schema treasury_amount creator_amount]
       /\ treasury_amount + creator_amount = value
       /\ 0 <= creator_amount /\ 2 * creator_amount <= value.
Proof. apply distribute_attestation_fee_ok. Qed.

(** C16: the issuance quota is a sliding-window bound: of any sequence of
    attempts of a limited attester on a non-decreasing sequence of ledgers, in
    every window of the configured length at most the configured number is
    admitted, although the history lives in a temporary entry that may expire
    between attempts. *)
Theorem issuance_quota_bound who max_issuances window es s n :
  limited who max_issuances window s -> 0 < window -> 0 <= max_issuances ->
  temp s (RATE_HISTORY who) = None -> Sorted Z.le (0 :: (sequence <$> es)) ->
  len (issued_in_window window n (attempts who es s []).1) <= max_issuances.
Proof.
  intros Hl Hw Hm Ht Hs.
  destruct (attempts_ok who max_issuances window 0 es s [] Hw) as [last Ho]; [|done|].
  - by apply history_fresh.
  - apply Ho.
Qed.
End properties.

(** ** Instances *)

Definition fee_state : State SasSig World :=
  run_history [(sample_env 200 [root_admin], SetFee gold 10);
               (sample_env 200 [root_admin], SetTreasury treasury_id);
               (sample_env 200 [root_admin], SetFeeCeilings 100 1000);
               (sample_env 200 [alice], SetSchemaFee sample_schema_uid alice 1 7 0)]
    sample_start.
Definition paid_state : State SasSig World :=
  run_history [(sample_env 1000 [alice], AttestWithValue (sample_att [1; 2; 3] 5000) gold 17)]
    (upd_ext [(alice, 1000); (sas_id, 500)] fee_state).

Lemma accrued_balances_in_range_witness : balances_ok paid_state.
Proof.
  apply accrued_balances_in_range.
  intros [t|c t]; vm_compute; split; discriminate.
Defined.

Lemma creator_withdrawal_witness :
  0 < 5 <= balance_of paid_state (CreatorOf alice gold).
Proof.
  refine (wd_amount _ _ _ _ _ _ _ (proj2 (creator_withdrawal alice gold 5 bob (sample_env 2000 [alice])
    paid_state tt (final (withdraw_creator_fees alice gold 5 bob) (sample_env 2000 [alice]) paid_state) _))).
  apply run_final; vm_compute; reflexivity.
Defined.

Lemma treasury_withdrawal_witness :
  inst paid_state SAS_ADMIN = Some treasury_id \/ inst paid_state TREASURY = Some treasury_id.
Proof.
  refine (proj1 (proj2 (treasury_withdrawal treasury_id gold 5 bob (sample_env 2000 [treasury_id])
    paid_state tt
    (final (withdraw_treasury_fees treasury_id gold 5 bob) (sample_env 2000 [treasury_id]) paid_state) _))).
  apply run_final; vm_compute; reflexivity.
Defined.

Lemma fee_split_adds_up_witness :
  events (final (distribute_attestation_fee sample_schema_uid gold 17) (sample_env 2000 []) paid_state)
  = events paid_state
  \/ exists treasury_amount creator_amount,
       events (final (distribute_attestation_fee sample_schema_uid gold 17) (sample_env 2000 []) paid_state)
       = events paid_state ++ [EvFeeSplit sample_schema_uid treasury_amount creator_amount]
       /\ treasury_amount + creator_amount = 17
       /\ 0 <= creator_amount /\ 2 * creator_amount <= 17.
Proof.
  apply (fee_split_adds_up sample_schema_uid gold 17 (sample_env 2000 []) paid_state tt).
  - lia.
  - intros registry bps (x & x' & _ & Hx); by injection Hx as <- _.
  - apply run_final; vm_compute; reflexivity.
Defined.

Definition limited_state : State SasSig World :=
  run_history [(sample_env 200 [root_admin], SetIssuanceRateLimit 2 100)] sample_start.

Lemma issuance_quota_bound_witness :
  len (issued_in_window 100 210 (attempts alice (sample_env 1000 [] :: replicate 5 (sample_env 1005 []))
    limited_state []).1) <= 2.
Proof.
  apply issuance_quota_bound.
  - split; vm_compute; reflexivity.
  - lia.
  - lia.
  - vm_compute; reflexivity.
  - vm_compute; repeat constructor; discriminate.
Defined.
