(* ===== verification/RegState.v ===== *)
(** * Schema registry: state

    The storage layout of [src/contracts/schema-registry/src/storage.rs], the
    records and events of the registry, and the token contract it calls. *)

From S2P Require Import Prelude Host Common TypedData Validation.

(** ** Values *)

Record OwnerSet := mkOwnerSet {
  owners : list Address;
  os_threshold : Z;
  os_version : Z
}.

Record PendingOwnershipTransfer := mkPendingOwnershipTransfer {
  owner_set_version : Z;
  po_new_owner : Address;
  approvals : list Address;
  created_at : Z
}.

Record OwnershipTransferStatus := mkOwnershipTransferStatus {
  ts_new_owner : Address;
  ts_approvals : Z;
  ts_threshold : Z;
  executed : bool
}.

Record SchemaLineage := mkSchemaLineage {
  sl_schema_uid : UID;
  sl_parent : option UID;
  sl_root : UID;
  sl_depth : Z;
  sl_ancestors : list UID
}.

Record DelegatesStatus := mkDelegatesStatus {
  active : list Address;
  expired : list Address
}.

Record SchemaBatchItem := mkSchemaBatchItem {
  bi_owner : Address;
  bi_schema : bytes;
  bi_resolver : Address;
  bi_revocable : bool
}.

(** ** Storage keys *)

Inductive RegIKey :=
  | REGISTRY_ADMIN | SCHEMA_FEE | TREASURY | CURRENT_WASM_HASH | REGISTRY_VERSION.

Definition reg_ival (k : RegIKey) : Type :=
  match k with
  | REGISTRY_ADMIN | TREASURY => Address
  | SCHEMA_FEE => (Address * Z)%type
  | CURRENT_WASM_HASH => bytes
  | REGISTRY_VERSION => Z
  end.

(** A record is stored under its UID, the enumeration under its [u32] index. *)
Inductive RegPKey :=
  | SchemaKey (u : UID)
  | IndexKey (i : Z)
  | SCHEMA_COUNT
  | DEPRECATED (u : UID)
  | SCHEMA_CREATOR (u : UID)
  | SCHEMA_MAX_TTL (u : UID)
  | AUTHORIZED_DELEGATES (u : UID) (delegate : Address)
  | SCHEMA_ACL (u : UID) (attester : Address)
  | SCHEMA_ACL_COUNT (u : UID)
  | DELEGATE_EXPIRY (u : UID) (delegate : Address)
  | SCHEMA_DELEGATES (u : UID)
  | SCHEMA_OWNERS (u : UID)
  | PENDING_SCHEMA_OWNER (u : UID)
  | SCHEMA_POLICY (u : UID)
  | SCHEMA_ROYALTY (u : UID)
  | SCHEMA_QUARANTINE (u : UID)
  | SCHEMA_QUARANTINE_URI (u : UID)
  | FROST_GROUP (u : UID)
  | MERKLE_ROOT (u : UID)
  | PENDING_OWNERSHIP (u : UID)
  | SCHEMA_METADATA_URI (u : UID)
  | CATEGORY_COUNT (category : bytes)
  | CATEGORY_INDEX (category : bytes) (offset : Z)
  | SCHEMA_CATEGORY (u : UID)
  | SCHEMA_PREDECESSOR (u : UID).

Definition reg_pval (k : RegPKey) : Type :=
  match k with
  | SchemaKey _ => SchemaRecord
  | IndexKey _ | CATEGORY_INDEX _ _ | SCHEMA_PREDECESSOR _ => UID
  | SCHEMA_COUNT | SCHEMA_MAX_TTL _ | SCHEMA_ACL_COUNT _ | DELEGATE_EXPIRY _ _
  | SCHEMA_ROYALTY _ | CATEGORY_COUNT _ => Z
  | DEPRECATED _ | AUTHORIZED_DELEGATES _ _ | SCHEMA_ACL _ _ | SCHEMA_QUARANTINE _ => bool
  | SCHEMA_CREATOR _ | PENDING_SCHEMA_OWNER _ => Address
  | SCHEMA_DELEGATES _ => list Address
  | SCHEMA_OWNERS _ => OwnerSet
  | SCHEMA_POLICY _ => RevocationPolicy
  | SCHEMA_QUARANTINE_URI _ | MERKLE_ROOT _ | SCHEMA_METADATA_URI _ | SCHEMA_CATEGORY _ => bytes
  | FROST_GROUP _ => FrostGroup
  | PENDING_OWNERSHIP _ => PendingOwnershipTransfer
  end.

#[export] Instance RegIKey_eq_dec : EqDecision RegIKey.
Proof. solve_decision. Defined.
#[export] Instance RegPKey_eq_dec : EqDecision RegPKey.
Proof. solve_decision. Defined.

(** The registry has no temporary entries. *)
Definition reg_tval (k : Empty_set) : Type := match k with end.

(** ** Events *)

Inductive RegEvent :=
  | EvUpgrade (old_version new_version : Z) (wasm_hash : bytes)
  | EvRegContractUpgraded (old new : bytes) (authorizer : Address)
  | EvSchemaFeeUpdated (old : option (Address * Z)) (token : Address) (amount : Z)
      (authorizer : Address)
  | EvTreasuryUpdated (old : option Address) (new authorizer : Address)
  | EvSchemaDeprecated (u : UID) (deprecated_by : Address)
  | EvDelegateAdded (u : UID) (delegate authorizer : Address)
  | EvDelegateRemoved (u : UID) (delegate authorizer : Address)
  | EvAttesterAdded (u : UID) (attester authorizer : Address)
  | EvAttesterRemoved (u : UID) (attester authorizer : Address)
  | EvOwnershipTransferred (u : UID) (old_owner new_owner : Address)
  | EvOwnershipProposed (u : UID) (current_owner proposed_owner : Address)
  | EvTransferCancelled (u : UID) (by_owner : Address)
  | EvOwnerSetUpdated (u : UID) (authorizer : Address) (set : OwnerSet)
  | EvOwnerProposed (u : UID) (proposer : Address) (pending : PendingOwnershipTransfer)
  | EvOwnerApproved (u : UID) (approver : Address) (count : Z)
  | EvSchemaQuarantined (u : UID) (quarantined : bool) (uri : bytes)
  | EvFrostGroupUpdated (u : UID) (authorizer : Address) (group : option FrostGroup)
  | EvMerkleRootUpdated (u : UID) (authorizer : Address) (root : option bytes)
  | EvMetadataUpdated (u : UID) (uri : bytes) (authorizer : Address)
  | EvSchemaRegistered (u : UID) (owner : Address).

Canonical Structure RegSig : Sig :=
  mkSig RegIKey reg_ival _ RegPKey reg_pval _ Empty_set reg_tval _ RegEvent SASError.

(** ** The contracts the registry calls *)

Class RegDeps (X : Type) := {
  fee_token_transfer : Address -> Address -> Address -> Z -> xcall X unit
}.

(** [if let Err(error) = r { panic_with_error!(env, error) }] *)
Definition panic_on {X} (r : option SASError) : M RegSig X unit :=
  match r with
  | Some err => panic err
  | None => mret tt
  end.

Lemma panic_on_ok {X} r e (s : State RegSig X) u s' :
  panic_on r e s = Ok (u, s') <-> r = None /\ s' = s.
Proof.
  destruct u, r; unfold panic_on; split; try done; [by intros [? _]| |].
  - intros H; run_inv; done.
  - by intros [_ ->].
Qed.

(** ** Shared helpers *)

Definition MAX_OWNER_SET : Z := 10.
Definition MAX_METADATA_URI_LENGTH : Z := 256.
Definition MAX_CREATOR_ROYALTY_BPS : Z := 5000.
Definition MAX_SCHEMA_LINEAGE_DEPTH : nat := 32.
Definition MAX_SCHEMA_HISTORY_DEPTH : nat := 64.

Section helpers.
Context {X : Type}.
Abbreviation MR := (M RegSig X).
Abbreviation St := (State RegSig X).

Definition extend_instance_ttl : MR unit :=
  inst_extend_ttl LEDGERS_IN_ONE_YEAR LEDGERS_IN_ONE_YEAR.

(** [extend_ttl(key, LEDGERS_IN_ONE_YEAR, LEDGERS_IN_ONE_YEAR)] *)
Definition renew (k : RegPKey) : MR unit :=
  pers_extend_ttl (C := RegSig) k LEDGERS_IN_ONE_YEAR LEDGERS_IN_ONE_YEAR.

(** A write followed by its renewal. *)
Definition put (k : RegPKey) (v : reg_pval k) : MR unit :=
  pers_put (C := RegSig) k v LEDGERS_IN_ONE_YEAR.

Definition renew_schema_record (u : UID) : MR unit :=
  renew (SchemaKey u);;
  has ← pers_has (SCHEMA_METADATA_URI u);
  if (has : bool) then renew (SCHEMA_METADATA_URI u) else mret tt.

Definition validate_metadata_uri (uri : bytes) : MR unit :=
  panic_if (MAX_METADATA_URI_LENGTH <? len uri) InvalidValue.

Definition registry_admin (s : St) : SASError + Address :=
  match inst s REGISTRY_ADMIN with Some admin => inr admin | None => inl NotInitialized end.

Definition require_registry_admin : MR Address :=
  r ← read_state registry_admin;
  match r with inr admin => mret admin | inl error => panic error end.

(** [get(&(DEPRECATED, uid)).unwrap_or(false)] *)
Definition is_deprecated (s : St) (u : UID) : bool := default false (pget s (DEPRECATED u)).

Definition has_schema (u : UID) : MR bool := pers_has (SchemaKey u).
Definition require_schema (u : UID) (err : SASError) : MR unit :=
  has ← has_schema u; panic_if (negb has) err.

(** *** Ownership *)

Definition owner_set (s : St) (u : UID) : option OwnerSet := pget s (SCHEMA_OWNERS u).
Definition schema_creator (s : St) (u : UID) : option Address := pget s (SCHEMA_CREATOR u).

Fixpoint members_contain (members : list Address) (needle : Address) : bool :=
  match members with
  | [] => false
  | m :: rest => if bool_decide (m = needle) then true else members_contain rest needle
  end.

Definition effective_owner_set (s : St) (u : UID) : option OwnerSet * Z :=
  match owner_set s u with
  | Some set => (Some set, os_threshold set)
  | None => (None, 1)
  end.

Definition is_owner_address (s : St) (u : UID) (who : Address) : bool :=
  if match owner_set s u with
     | Some set => members_contain (owners set) who
     | None => false
     end then true
  else if match schema_creator s u with
          | Some creator => bool_decide (creator = who)
          | None => false
          end then true
  else match inst s REGISTRY_ADMIN with
       | Some admin => bool_decide (admin = who)
       | None => false
       end.

Definition require_owner (u : UID) (who : Address) : MR unit :=
  b ← read_state (fun s => is_owner_address s u who); panic_if (negb b) Unauthorized.

Definition require_creator_auth (u : UID) : MR Address :=
  require_schema u SchemaNotFound;;
  creator ← pers_get (SCHEMA_CREATOR u);
  owner ← unwrap_or_panic creator SchemaNotFound;
  require_auth owner;;
  mret owner.

Definition require_transferable_schema (u : UID) : MR unit :=
  require_schema u SchemaNotFound;;
  d ← read_state (fun s => is_deprecated s u);
  panic_if d InvalidSchema.

Definition acl_count (s : St) (u : UID) : Z := default 0 (pget s (SCHEMA_ACL_COUNT u)).

(** *** Reading a schema *)

Definition get_schema (u : UID) : MR (option SchemaRecord) :=
  extend_instance_ttl;;
  d ← read_state (fun s => is_deprecated s u);
  if (d : bool) then mret None else
  record ← pers_get (SchemaKey u);
  (if bool_decide (is_Some record) then renew_schema_record u else mret tt);;
  mret record.

Definition is_schema_quarantined (u : UID) : MR bool :=
  extend_instance_ttl;;
  q ← pers_get (SCHEMA_QUARANTINE u); mret (default false q).

Definition get_creator (u : UID) : MR (option Address) :=
  extend_instance_ttl;;
  creator ← pers_get (SCHEMA_CREATOR u);
  (if bool_decide (is_Some creator) then renew (SCHEMA_CREATOR u) else mret tt);;
  mret creator.
End helpers.
