(* ===== verification/RegAdmin.v ===== *)
(** * Schema registry: administration and access lists

    Initialisation, upgrade, fee and treasury, deprecation and quarantine, the
    delegates and the attester list of a schema, its royalty, signing group
    and Merkle root ([src/contracts/schema-registry/src/lib.rs]). *)

From S2P Require Import Prelude Host Common TypedData Validation RegState.

Definition MAX_KNOWN_VERSION : Z := 2.
Definition MAX_EXPLANATION_URI_LEN : Z := 256.

Section admin.
Context {X : Type}.
Abbreviation MR := (M RegSig X).
Abbreviation St := (State RegSig X).

(** *** Initialisation and upgrade *)

Definition sasreg : MR bool := mret true.

Definition init (admin : Address) : MR unit :=
  extend_instance_ttl;;
  has ← inst_has REGISTRY_ADMIN;
  panic_if has AlreadyInitialized;;
  require_auth admin;;
  inst_set REGISTRY_ADMIN admin;;
  extend_instance_ttl;;
  has_version ← inst_has REGISTRY_VERSION;
  if negb has_version then inst_set REGISTRY_VERSION 1 else mret tt.

Definition get_version : MR Z :=
  extend_instance_ttl;;
  v ← inst_get REGISTRY_VERSION; mret (default 1 v).

Definition validate_upgrade (s : St) (new_wasm_hash : bytes) (new_version : Z)
    : SASError + Address :=
  match registry_admin s with
  | inl err => inl err
  | inr admin =>
    let old_version := default 1 (inst s REGISTRY_VERSION) in
    if MAX_KNOWN_VERSION <? new_version then inl IncompatibleDependency
    else if negb (new_version =? sat_add u32_max old_version 1) then inl InvalidValue
    else if bool_decide (new_wasm_hash = zero_bytes32) then inl InvalidValue
    else inr admin
  end.

Definition commit_upgrade (admin : Address) (new_wasm_hash : bytes) (new_version : Z) : MR unit :=
  v ← inst_get REGISTRY_VERSION;
  let old_version := default 1 v in
  old ← inst_get CURRENT_WASM_HASH;
  inst_set REGISTRY_VERSION new_version;;
  inst_set CURRENT_WASM_HASH new_wasm_hash;;
  extend_instance_ttl;;
  publish (EvUpgrade old_version new_version new_wasm_hash);;
  publish (EvRegContractUpgraded (default zero_bytes32 old) new_wasm_hash admin).

(** The host swaps the executable after this invocation; the storage it
    leaves behind is what is modelled. *)
Definition upgrade (new_wasm_hash : bytes) (new_version : Z) : MR unit :=
  extend_instance_ttl;;
  v ← read_state (fun s => validate_upgrade s new_wasm_hash new_version);
  match v with
  | inl error => panic error
  | inr layout_admin =>
    admin ← require_registry_admin;
    panic_if (negb (bool_decide (admin = layout_admin))) IncompatibleDependency;;
    require_auth admin;;
    extend_instance_ttl;;
    commit_upgrade admin new_wasm_hash new_version
  end.

(** *** Fee and treasury *)

Definition set_fee (token : Address) (amount : Z) : MR unit :=
  extend_instance_ttl;;
  admin ← require_registry_admin;
  require_auth admin;;
  panic_if (amount <=? 0) InvalidValue;;
  old_fee ← inst_get SCHEMA_FEE;
  inst_set SCHEMA_FEE (token, amount);;
  extend_instance_ttl;;
  publish (EvSchemaFeeUpdated old_fee token amount admin).

Definition clear_fee : MR unit :=
  extend_instance_ttl;;
  admin ← require_registry_admin;
  require_auth admin;;
  inst_remove SCHEMA_FEE;;
  extend_instance_ttl.

Definition get_fee : MR (option (Address * Z)) := extend_instance_ttl;; inst_get SCHEMA_FEE.
Definition get_treasury : MR (option Address) := extend_instance_ttl;; inst_get TREASURY.

Definition set_treasury (treasury : Address) : MR unit :=
  extend_instance_ttl;;
  admin ← require_registry_admin;
  require_auth admin;;
  old_treasury ← inst_get TREASURY;
  inst_set TREASURY treasury;;
  extend_instance_ttl;;
  publish (EvTreasuryUpdated old_treasury treasury admin).

(** The transfer is still a comment in the source. *)
Definition withdraw_fees (amount : Z) : MR unit :=
  extend_instance_ttl;;
  admin ← require_registry_admin;
  require_auth admin;;
  extend_instance_ttl.

(** *** Deprecation and quarantine *)

Definition deprecate (u : UID) (authorizer : Address) : MR unit :=
  extend_instance_ttl;;
  admin ← require_registry_admin;
  require_schema u SchemaNotFound;;
  require_auth authorizer;;
  creator ← pers_get (SCHEMA_CREATOR u);
  panic_if (negb (bool_decide (authorizer = admin))
            && negb (bool_decide (creator = Some authorizer))) Unauthorized;;
  d ← read_state (fun s => is_deprecated s u);
  if (d : bool) then mret tt else
  put (DEPRECATED u) true;;
  publish (EvSchemaDeprecated u authorizer);;
  extend_instance_ttl.

Definition with_deprecated (r : SchemaRecord) : SchemaRecord :=
  mkSchemaRecord (sr_uid r) (sr_resolver r) (sr_revocable r) (sr_schema r) true (sr_parent r).

Definition deprecate_schema (sender : Address) (u : UID) : MR unit :=
  require_auth sender;;
  extend_instance_ttl;;
  o ← get_schema u;
  record ← unwrap_or_panic o SchemaNotFound;
  require_owner u sender;;
  pers_set (SchemaKey u) (with_deprecated record);;
  publish (EvSchemaDeprecated u sender).

Definition set_schema_quarantine (u : UID) (quarantined : bool) (explanation_uri : bytes) : MR unit :=
  admin ← require_registry_admin;
  require_auth admin;;
  require_schema u SchemaNotFound;;
  panic_if ((len explanation_uri =? 0) || (MAX_EXPLANATION_URI_LEN <? len explanation_uri))
    InvalidValue;;
  put (SCHEMA_QUARANTINE u) quarantined;;
  put (SCHEMA_QUARANTINE_URI u) explanation_uri;;
  publish (EvSchemaQuarantined u quarantined explanation_uri).

(** *** Delegates *)

Definition add_to_delegate_list (u : UID) (delegate : Address) : MR unit :=
  o ← pers_get (SCHEMA_DELEGATES u);
  let list := default [] o in
  if negb (members_contain list delegate) then put (SCHEMA_DELEGATES u) (list ++ [delegate])
  else mret tt.

Definition remove_from_delegate_list (u : UID) (delegate : Address) : MR unit :=
  o ← pers_get (SCHEMA_DELEGATES u);
  match o with
  | None => mret tt
  | Some list =>
    let new_list := filter (fun m => m <> delegate) list in
    match new_list with
    | [] => pers_remove (SCHEMA_DELEGATES u)
    | _ => put (SCHEMA_DELEGATES u) new_list
    end
  end.

Definition add_delegate (u : UID) (delegate : Address) : MR unit :=
  extend_instance_ttl;;
  owner ← require_creator_auth u;
  put (AUTHORIZED_DELEGATES u delegate) true;;
  pers_remove (DELEGATE_EXPIRY u delegate);;
  add_to_delegate_list u delegate;;
  publish (EvDelegateAdded u delegate owner);;
  extend_instance_ttl.

Definition add_delegate_with_expiry (u : UID) (delegate : Address) (expiry_timestamp : Z) : MR unit :=
  extend_instance_ttl;;
  owner ← require_creator_auth u;
  put (AUTHORIZED_DELEGATES u delegate) true;;
  put (DELEGATE_EXPIRY u delegate) expiry_timestamp;;
  add_to_delegate_list u delegate;;
  publish (EvDelegateAdded u delegate owner);;
  extend_instance_ttl.

Definition remove_delegate (u : UID) (delegate : Address) : MR unit :=
  extend_instance_ttl;;
  owner ← require_creator_auth u;
  pers_remove (AUTHORIZED_DELEGATES u delegate);;
  pers_remove (DELEGATE_EXPIRY u delegate);;
  remove_from_delegate_list u delegate;;
  publish (EvDelegateRemoved u delegate owner);;
  extend_instance_ttl.

Definition self_revoke_delegate (u : UID) (delegate : Address) : MR unit :=
  extend_instance_ttl;;
  require_schema u SchemaNotFound;;
  require_auth delegate;;
  pers_remove (AUTHORIZED_DELEGATES u delegate);;
  pers_remove (DELEGATE_EXPIRY u delegate);;
  remove_from_delegate_list u delegate;;
  publish (EvDelegateRemoved u delegate delegate);;
  extend_instance_ttl.
Definition revoke_delegate (u : UID) (delegate : Address) : MR unit := self_revoke_delegate u delegate.
Definition self_revoke (u : UID) (delegate : Address) : MR unit := self_revoke_delegate u delegate.

(** *** Attester access control list *)

Definition add_authorized_attester (u : UID) (attester : Address) : MR unit :=
  extend_instance_ttl;;
  owner ← require_creator_auth u;
  o ← pers_get (SCHEMA_ACL u attester);
  (if negb (default false o) then
     c ← read_state (fun s => acl_count s u);
     put (SCHEMA_ACL_COUNT u) (sat_add u32_max c 1);;
     put (SCHEMA_ACL u attester) true;;
     publish (EvAttesterAdded u attester owner)
   else mret tt);;
  extend_instance_ttl.

Definition remove_authorized_attester (u : UID) (attester : Address) : MR unit :=
  extend_instance_ttl;;
  owner ← require_creator_auth u;
  has ← pers_has (SCHEMA_ACL u attester);
  (if (has : bool) then
     pers_remove (SCHEMA_ACL u attester);;
     c ← read_state (fun s => acl_count s u);
     let count := sat_sub c 1 in
     (if count =? 0 then pers_remove (SCHEMA_ACL_COUNT u)
      else put (SCHEMA_ACL_COUNT u) count);;
     publish (EvAttesterRemoved u attester owner)
   else mret tt);;
  extend_instance_ttl.

(** *** Royalty, signing group and Merkle root *)

Definition set_creator_royalty (caller : Address) (u : UID) (royalty_bps : Z) : MR unit :=
  panic_if (MAX_CREATOR_ROYALTY_BPS <? royalty_bps) InvalidValue;;
  require_auth caller;;
  o ← get_creator u;
  creator ← unwrap_or_panic o SchemaNotFound;
  admin ← require_registry_admin;
  panic_if (negb (bool_decide (caller = creator)) && negb (bool_decide (caller = admin)))
    Unauthorized;;
  put (SCHEMA_ROYALTY u) royalty_bps.

(** The guard the four setters below share. *)
Definition require_owner_of_active (authorizer : Address) (u : UID) : MR unit :=
  extend_instance_ttl;;
  require_auth authorizer;;
  o ← get_schema u;
  panic_if (bool_decide (o = None)) SchemaNotFound;;
  require_owner u authorizer.

Definition set_schema_frost_group (authorizer : Address) (u : UID) (group : FrostGroup) : MR unit :=
  require_owner_of_active authorizer u;;
  panic_on (validate_frost_group group);;
  put (FROST_GROUP u) group;;
  publish (EvFrostGroupUpdated u authorizer (Some group));;
  extend_instance_ttl.

Definition clear_schema_frost_group (authorizer : Address) (u : UID) : MR unit :=
  require_owner_of_active authorizer u;;
  pers_remove (FROST_GROUP u);;
  publish (EvFrostGroupUpdated u authorizer None);;
  extend_instance_ttl.

Definition set_schema_merkle_root (authorizer : Address) (u : UID) (merkle_root : bytes) : MR unit :=
  require_owner_of_active authorizer u;;
  put (MERKLE_ROOT u) merkle_root;;
  publish (EvMerkleRootUpdated u authorizer (Some merkle_root));;
  extend_instance_ttl.

Definition clear_schema_merkle_root (authorizer : Address) (u : UID) : MR unit :=
  require_owner_of_active authorizer u;;
  pers_remove (MERKLE_ROOT u);;
  publish (EvMerkleRootUpdated u authorizer None);;
  extend_instance_ttl.

(** *** Metadata *)

Definition update_schema_metadata (u : UID) (authorizer : Address) (metadata_uri : bytes) : MR unit :=
  extend_instance_ttl;;
  require_transferable_schema u;;
  require_auth authorizer;;
  require_owner u authorizer;;
  validate_metadata_uri metadata_uri;;
  put (SCHEMA_METADATA_URI u) metadata_uri;;
  renew_schema_record u;;
  publish (EvMetadataUpdated u metadata_uri authorizer);;
  extend_instance_ttl.
End admin.
