(* ===== verification/RegOwners.v ===== *)
(** * Schema registry: ownership

    Single-signature transfers, the two-step transfer, owner sets and the
    approval of transfers by a threshold of owners
    ([src/contracts/schema-registry/src/lib.rs]). *)

From S2P Require Import Prelude Host Common TypedData Validation RegState.

Section owners.
Context {X : Type}.
Abbreviation MR := (M RegSig X).
Abbreviation St := (State RegSig X).

(** *** Helpers *)

(** The loop of [validate_owner_set] over the owners not [seen] before. *)
Fixpoint distinct_owners (seen rest : list Address) : MR unit :=
  match rest with
  | [] => mret tt
  | owner :: rest' =>
    panic_if (members_contain seen owner) InvalidValue;;
    distinct_owners (seen ++ [owner]) rest'
  end.

Definition validate_owner_set (owners : list Address) (threshold : Z) : MR unit :=
  let length := len owners in
  panic_if ((length =? 0) || (MAX_OWNER_SET <? length)) LimitExceeded;;
  panic_if ((threshold =? 0) || (length <? threshold)) InvalidValue;;
  distinct_owners [] owners.

Definition finalize_ownership_transfer (u : UID) (old_owner new_owner : Address) : MR unit :=
  put (SCHEMA_CREATOR u) new_owner;;
  pers_remove (PENDING_OWNERSHIP u);;
  renew_schema_record u;;
  publish (EvOwnershipTransferred u old_owner new_owner);;
  extend_instance_ttl.

Definition reject_single_sig_transfer_for_multisig (u : UID) : MR unit :=
  p ← read_state (fun s => effective_owner_set s u);
  panic_if (1 <? p.2) Unauthorized.

Definition set_version_of (o : option OwnerSet) : Z :=
  match o with Some set => os_version set | None => 0 end.

Definition with_approval (approver : Address) (p : PendingOwnershipTransfer)
    : PendingOwnershipTransfer :=
  mkPendingOwnershipTransfer (owner_set_version p) (po_new_owner p)
    (approvals p ++ [approver]) (created_at p).

Definition record_approval (u : UID) (approver : Address) : MR PendingOwnershipTransfer :=
  o ← pers_get (PENDING_OWNERSHIP u);
  pending ← unwrap_or_panic o SchemaNotFound;
  p ← read_state (fun s => effective_owner_set s u);
  let expected_version := set_version_of p.1 in
  panic_if (negb (owner_set_version pending =? expected_version)) Unauthorized;;
  require_owner u approver;;
  panic_if (members_contain (approvals pending) approver) InvalidValue;;
  let pending := with_approval approver pending in
  put (PENDING_OWNERSHIP u) pending;;
  publish (EvOwnerApproved u approver (len (approvals pending)));;
  mret pending.

(** *** Single-signature transfer *)

Definition transfer_schema_ownership (u : UID) (new_owner : Address) : MR unit :=
  extend_instance_ttl;;
  require_transferable_schema u;;
  reject_single_sig_transfer_for_multisig u;;
  creator ← pers_get (SCHEMA_CREATOR u);
  old_owner ← unwrap_or_panic creator SchemaNotFound;
  require_auth old_owner;;
  put (SCHEMA_CREATOR u) new_owner;;
  renew_schema_record u;;
  publish (EvOwnershipTransferred u old_owner new_owner);;
  extend_instance_ttl.

Definition transfer_ownership (sender : Address) (u : UID) (new_owner : Address) : MR unit :=
  require_auth sender;;
  extend_instance_ttl;;
  o ← get_schema u;
  _ ← unwrap_or_panic o SchemaNotFound;
  reject_single_sig_transfer_for_multisig u;;
  creator ← pers_get (SCHEMA_CREATOR u);
  admin ← inst_get REGISTRY_ADMIN;
  let authorized := if bool_decide (creator = Some sender) then true
                    else bool_decide (admin = Some sender) in
  panic_if (negb authorized) Unauthorized;;
  pers_set (SCHEMA_CREATOR u) new_owner;;
  publish (EvOwnershipTransferred u sender new_owner).

(** *** Two-step transfer *)

Definition propose_schema_owner (u : UID) (new_owner : Address) : MR unit :=
  extend_instance_ttl;;
  require_transferable_schema u;;
  o ← read_state (fun s => schema_creator s u);
  current_owner ← unwrap_or_panic o SchemaNotFound;
  require_auth current_owner;;
  panic_if (bool_decide (current_owner = new_owner)) InvalidValue;;
  put (PENDING_SCHEMA_OWNER u) new_owner;;
  publish (EvOwnershipProposed u current_owner new_owner).

Definition claim_schema_ownership (u : UID) : MR unit :=
  extend_instance_ttl;;
  require_transferable_schema u;;
  o ← pers_get (PENDING_SCHEMA_OWNER u);
  proposed_owner ← unwrap_or_panic o Unauthorized;
  require_auth proposed_owner;;
  c ← read_state (fun s => schema_creator s u);
  old_owner ← unwrap_or_panic c SchemaNotFound;
  put (SCHEMA_CREATOR u) proposed_owner;;
  pers_remove (PENDING_SCHEMA_OWNER u);;
  renew_schema_record u;;
  publish (EvOwnershipTransferred u old_owner proposed_owner).

Definition cancel_schema_ownership_transfer (u : UID) : MR unit :=
  extend_instance_ttl;;
  require_transferable_schema u;;
  o ← read_state (fun s => schema_creator s u);
  current_owner ← unwrap_or_panic o SchemaNotFound;
  require_auth current_owner;;
  has ← pers_has (PENDING_SCHEMA_OWNER u);
  panic_if (negb has) SchemaNotFound;;
  pers_remove (PENDING_SCHEMA_OWNER u);;
  publish (EvTransferCancelled u current_owner).

Definition get_pending_schema_owner (u : UID) : MR (option Address) :=
  extend_instance_ttl;; pers_get (PENDING_SCHEMA_OWNER u).

(** *** Owner sets *)

Definition configure_owner_set (u : UID) (authorizer : Address) (owners : list Address)
    (threshold : Z) : MR OwnerSet :=
  extend_instance_ttl;;
  require_transferable_schema u;;
  require_auth authorizer;;
  require_owner u authorizer;;
  validate_owner_set owners threshold;;
  o ← read_state (fun s => owner_set s u);
  let version := match o with
                 | Some existing => sat_add u32_max (os_version existing) 1
                 | None => 1
                 end in
  let set := mkOwnerSet owners threshold version in
  put (SCHEMA_OWNERS u) set;;
  pers_remove (PENDING_OWNERSHIP u);;
  publish (EvOwnerSetUpdated u authorizer set);;
  extend_instance_ttl;;
  mret set.

Definition get_owner_set (u : UID) : MR (option OwnerSet) :=
  extend_instance_ttl;; read_state (fun s => owner_set s u).

Definition is_schema_owner (u : UID) (who : Address) : MR bool :=
  extend_instance_ttl;;
  has ← has_schema u;
  if negb has then mret false else read_state (fun s => is_owner_address s u who).

Definition get_pending_ownership_transfer (u : UID) : MR (option PendingOwnershipTransfer) :=
  extend_instance_ttl;; pers_get (PENDING_OWNERSHIP u).

(** *** Threshold approval *)

Definition propose_ownership_transfer (u : UID) (proposer new_owner : Address)
    : MR OwnershipTransferStatus :=
  extend_instance_ttl;;
  require_transferable_schema u;;
  require_auth proposer;;
  require_owner u proposer;;
  o ← read_state (fun s => schema_creator s u);
  current_owner ← unwrap_or_panic o SchemaNotFound;
  panic_if (bool_decide (current_owner = new_owner)) InvalidValue;;
  p ← read_state (fun s => effective_owner_set s u);
  let threshold := p.2 in
  now ← ask timestamp;
  let pending := mkPendingOwnershipTransfer (set_version_of p.1) new_owner [proposer] now in
  if threshold <=? 1 then
    finalize_ownership_transfer u current_owner new_owner;;
    mret (mkOwnershipTransferStatus new_owner 1 threshold true)
  else
    put (PENDING_OWNERSHIP u) pending;;
    publish (EvOwnerProposed u proposer pending);;
    extend_instance_ttl;;
    mret (mkOwnershipTransferStatus new_owner 1 threshold false).

Definition approve_ownership_transfer (u : UID) (approver : Address) : MR OwnershipTransferStatus :=
  extend_instance_ttl;;
  require_transferable_schema u;;
  require_auth approver;;
  pending ← record_approval u approver;
  p ← read_state (fun s => effective_owner_set s u);
  let threshold := p.2 in
  let collected := len (approvals pending) in
  if collected <? threshold then
    extend_instance_ttl;;
    mret (mkOwnershipTransferStatus (po_new_owner pending) collected threshold false)
  else
    o ← read_state (fun s => schema_creator s u);
    old_owner ← unwrap_or_panic o SchemaNotFound;
    finalize_ownership_transfer u old_owner (po_new_owner pending);;
    mret (mkOwnershipTransferStatus (po_new_owner pending) collected threshold true).

Definition cancel_ownership_transfer (u : UID) (canceller : Address) : MR unit :=
  extend_instance_ttl;;
  require_transferable_schema u;;
  require_auth canceller;;
  require_owner u canceller;;
  has ← pers_has (PENDING_OWNERSHIP u);
  panic_if (negb has) SchemaNotFound;;
  pers_remove (PENDING_OWNERSHIP u);;
  publish (EvTransferCancelled u canceller);;
  extend_instance_ttl.
End owners.
