(* ===== verification/RegSchemas.v ===== *)
(** * Schema registry: registration

    Every registering entry point, the lineage of a schema through parent and
    predecessor links, and categories
    ([src/contracts/schema-registry/src/lib.rs]). *)

From S2P Require Import Prelude Host Common TypedData Validation RegState.

Definition MAX_SCHEMA_BATCH_SIZE : Z := 50.
Definition MAX_CATEGORY_BYTES : Z := 32.

(** [new_buf[..old_len] == old_buf[..old_len] && new_buf[old_len] == b','] *)
Definition is_append_only_schema (predecessor successor : bytes) : bool :=
  let old_len := length predecessor in
  let new_len := length successor in
  if (new_len <=? old_len)%nat || (1024 <? Z.of_nat old_len) || (1024 <? Z.of_nat new_len)
  then false
  else bool_decide (firstn old_len successor = predecessor) && byte_at successor old_len 44.

Section schemas.
Context {X : Type} `{RegDeps X}.
Abbreviation MR := (M RegSig X).
Abbreviation St := (State RegSig X).

(** *** Predecessor links *)

(** [fuel] is how many entries [history] may still take. *)
Fixpoint history_loop (fuel : nat) (current : UID) (history : list UID) : MR (list UID) :=
  match fuel with
  | O => panic InvalidSchemaDefinition
  | S fuel' =>
    require_schema current SchemaNotFound;;
    renew_schema_record current;;
    let history := history ++ [current] in
    parent ← pers_get (SCHEMA_PREDECESSOR current);
    match parent with
    | None => mret history
    | Some parent =>
      renew (SCHEMA_PREDECESSOR current);;
      history_loop fuel' parent history
    end
  end.
Definition schema_history (u : UID) : MR (list UID) :=
  history_loop MAX_SCHEMA_HISTORY_DEPTH u [].

(** *** Parent links *)

Definition parent_of (s : St) (u : UID) : option UID :=
  match pget s (SchemaKey u) with Some r => sr_parent r | None => None end.

(** [fuel] is how many more records the loop may read; [None] is
    [LimitExceeded]. *)
Fixpoint lineage_walk (s : St) (fuel : nat) (current : UID) (hops : Z) : option (UID * Z) :=
  match fuel with
  | O => None
  | S fuel' =>
    match parent_of s current with
    | Some parent => lineage_walk s fuel' parent (sat_add u32_max hops 1)
    | None => Some (current, hops)
    end
  end.
Definition lineage_root (u : UID) : MR (UID * Z) :=
  r ← read_state (fun s => lineage_walk s (S MAX_SCHEMA_LINEAGE_DEPTH) u 0);
  unwrap_or_panic r LimitExceeded.

Definition validate_parent_schema (owner : Address) (parent : UID) : MR unit :=
  require_schema parent InvalidSchema;;
  require_owner parent owner;;
  r ← lineage_root parent;
  panic_if (Z.of_nat MAX_SCHEMA_LINEAGE_DEPTH <=? r.2) LimitExceeded.

(** *** Categories *)

Definition validate_category (category : bytes) : MR unit :=
  panic_if (MAX_CATEGORY_BYTES <? len category) InvalidValue;;
  panic_if (existsb (fun b => negb (is_ascii_alphanumeric b) && negb (b =? 45)) category)
    InvalidValue.

Definition index_category (u : UID) (category : bytes) : MR unit :=
  c ← pers_get (CATEGORY_COUNT category);
  count ← (match c with
           | Some count => mret count
           | None =>
             has0 ← pers_has (CATEGORY_INDEX category 0);
             if (has0 : bool) then panic CountMetadataExpired else mret 0
           end : MR Z);
  panic_if (u32_max <? count + 1) LimitExceeded;;
  let next := count + 1 in
  pers_set (SCHEMA_CATEGORY u) category;;
  pers_set (CATEGORY_INDEX category count) u;;
  pers_set (CATEGORY_COUNT category) next;;
  renew (SCHEMA_CATEGORY u);;
  renew (CATEGORY_INDEX category count);;
  renew (CATEGORY_COUNT category).

(** *** The common path *)

Definition put_if_positive (u : UID) (max_ttl : Z) : MR unit :=
  if 0 <? max_ttl then put (SCHEMA_MAX_TTL u) max_ttl else mret tt.

Definition put_default_policy (u : UID) (revocable : bool) : MR unit :=
  has ← pers_has (SCHEMA_POLICY u);
  if negb has then put (SCHEMA_POLICY u) (policy_from_bool revocable) else mret tt.

Definition put_metadata (u : UID) (metadata_uri : option bytes) : MR unit :=
  match metadata_uri with
  | Some uri => validate_metadata_uri uri;; put (SCHEMA_METADATA_URI u) uri
  | None => mret tt
  end.

(** Append the UID to the enumeration. *)
Definition append_to_index (u : UID) : MR unit :=
  c ← pers_get SCHEMA_COUNT;
  count ← (match c with
           | Some c => renew SCHEMA_COUNT;; mret c
           | None =>
             has0 ← pers_has (IndexKey 0);
             if (has0 : bool) then panic CountMetadataExpired else mret 0
           end : MR Z);
  put (IndexKey count) u;;
  count ← checked u32_max (count + 1);
  put SCHEMA_COUNT count.

(** The writes of a registration. *)
Definition write_schema (u : UID) (owner : Address) (record : SchemaRecord) (max_ttl : Z)
    (metadata_uri : option bytes) : MR unit :=
  put (SchemaKey u) record;;
  put_if_positive u max_ttl;;
  put (SCHEMA_CREATOR u) owner;;
  put_default_policy u (sr_revocable record);;
  put_metadata u metadata_uri;;
  append_to_index u;;
  publish (EvSchemaRegistered u owner);;
  extend_instance_ttl.

Definition register_internal (owner : Address) (schema : bytes) (resolver : Address)
    (revocable : bool) (max_ttl : Z) (parent_schema_uid : option UID)
    (metadata_uri : option bytes) : MR UID :=
  extend_instance_ttl;;
  panic_on (validate_schema_lexical schema);;
  panic_on (validate_schema_syntax schema);;
  (match parent_schema_uid with
   | Some parent => validate_parent_schema owner parent
   | None => mret tt
   end);;
  u ← ask (fun e => schema_uid e schema resolver revocable);
  has ← has_schema u;
  panic_if has SchemaAlreadyExists;;
  write_schema u owner (mkSchemaRecord u resolver revocable schema false parent_schema_uid)
    max_ttl metadata_uri;;
  mret u.

(** *** Entry points *)

Definition register (owner : Address) (schema : bytes) (resolver : Address) (revocable : bool)
    : MR UID :=
  require_auth owner;;
  register_internal owner schema resolver revocable 0 None None.

Definition register_with_parent (owner : Address) (schema : bytes) (resolver : Address)
    (revocable : bool) (parent_schema_uid : option UID) : MR UID :=
  require_auth owner;;
  register_internal owner schema resolver revocable 0 parent_schema_uid None.

Definition register_with_ttl (owner : Address) (schema : bytes) (resolver : Address)
    (revocable : bool) (max_ttl : Z) : MR UID :=
  require_auth owner;;
  register_internal owner schema resolver revocable max_ttl None None.
Definition register_with_max_ttl (owner : Address) (schema : bytes) (resolver : Address)
    (revocable : bool) (max_ttl : Z) : MR UID :=
  register_with_ttl owner schema resolver revocable max_ttl.

Definition register_with_policy (owner : Address) (schema : bytes) (resolver : Address)
    (policy : RevocationPolicy) : MR UID :=
  require_auth owner;;
  let revocable := negb (bool_decide (policy = IrrevocableOnly)) in
  u ← register_internal owner schema resolver revocable 0 None None;
  put (SCHEMA_POLICY u) policy;;
  mret u.

Definition register_with_royalty (owner : Address) (schema : bytes) (resolver : Address)
    (revocable : bool) (royalty_bps : Z) : MR UID :=
  panic_if (MAX_CREATOR_ROYALTY_BPS <? royalty_bps) InvalidValue;;
  u ← register owner schema resolver revocable;
  put (SCHEMA_ROYALTY u) royalty_bps;;
  mret u.

Definition register_with_predecessor (owner : Address) (schema : bytes) (resolver : Address)
    (revocable : bool) (predecessor_uid : UID) : MR UID :=
  panic_on (validate_schema_syntax schema);;
  o ← pers_get (SchemaKey predecessor_uid);
  predecessor ← unwrap_or_panic (o : option SchemaRecord) SchemaNotFound;
  c ← read_state (fun s => schema_creator s predecessor_uid);
  predecessor_owner ← unwrap_or_panic c SchemaNotFound;
  panic_on (validate_schema_syntax (sr_schema predecessor));;
  panic_if (negb (is_append_only_schema (sr_schema predecessor) schema)) InvalidSchemaDefinition;;
  require_auth predecessor_owner;;
  require_auth owner;;
  history ← schema_history predecessor_uid;
  panic_if (MAX_SCHEMA_HISTORY_DEPTH <=? length history)%nat InvalidSchemaDefinition;;
  u ← register_internal owner schema resolver revocable 0 None None;
  put (SCHEMA_PREDECESSOR u) predecessor_uid;;
  mret u.

(** Fee payment: the declared token and value are the configured ones. *)
Definition fee_declared (configured : option (Address * Z)) (token : Address) (value : Z) : bool :=
  match configured with
  | Some (fee_token, fee_amount) => bool_decide (token = fee_token) && (value =? fee_amount)
  | None => value =? 0
  end.

Definition pay_registration_fee (owner token : Address) (value : Z) : MR unit :=
  panic_if (value <? 0) InvalidValue;;
  configured ← inst_get SCHEMA_FEE;
  panic_if (negb (fee_declared configured token value)) FeeMismatch;;
  require_auth owner;;
  if 0 <? value then
    o ← inst_get TREASURY;
    treasury ← unwrap_or_panic (o : option Address) TreasuryNotSet;
    invoke (fee_token_transfer token owner treasury value)
  else mret tt.

Definition register_with_value_and_ttl (owner : Address) (schema : bytes) (resolver : Address)
    (revocable : bool) (token : Address) (value max_ttl : Z) : MR UID :=
  pay_registration_fee owner token value;;
  register_internal owner schema resolver revocable max_ttl None None.
Definition register_with_value (owner : Address) (schema : bytes) (resolver : Address)
    (revocable : bool) (token : Address) (value : Z) : MR UID :=
  register_with_value_and_ttl owner schema resolver revocable token value 0.

Definition register_schema (owner : Address) (schema : bytes) (resolver : Address)
    (revocable : bool) (metadata_uri : option bytes) : MR UID :=
  require_auth owner;;
  register_internal owner schema resolver revocable 0 None metadata_uri.

Definition register_schema_with_value (owner : Address) (schema : bytes) (resolver : Address)
    (revocable : bool) (token : Address) (value : Z) (metadata_uri : option bytes) : MR UID :=
  pay_registration_fee owner token value;;
  register_internal owner schema resolver revocable 0 None metadata_uri.

Definition register_with_metadata (owner : Address) (schema : bytes) (resolver : Address)
    (revocable : bool) (metadata_uri : bytes) : MR UID :=
  require_auth owner;;
  register_internal owner schema resolver revocable 0 None (Some metadata_uri).

(** The loop of [register_schemas_batch]; [authorized_owners] is its map. *)
Fixpoint register_batch_loop (items : list SchemaBatchItem) (authorized_owners : list Address)
    (uids : list UID) : MR (list UID) :=
  match items with
  | [] => mret uids
  | item :: rest =>
    let known := bool_decide (bi_owner item ∈ authorized_owners) in
    (if negb known then require_auth (bi_owner item) else mret tt);;
    let authorized_owners :=
      if known then authorized_owners else bi_owner item :: authorized_owners in
    u ← register_internal (bi_owner item) (bi_schema item) (bi_resolver item)
          (bi_revocable item) 0 None None;
    register_batch_loop rest authorized_owners (uids ++ [u])
  end.

Definition register_schemas_batch (schemas_vec : list SchemaBatchItem) : MR (list UID) :=
  extend_instance_ttl;;
  panic_if (MAX_SCHEMA_BATCH_SIZE <? len schemas_vec) BatchTooLarge;;
  panic_if (len schemas_vec =? 0) InvalidValue;;
  uids ← register_batch_loop schemas_vec [] [];
  extend_instance_ttl;;
  mret uids.

Definition register_with_category (owner : Address) (schema : bytes) (resolver : Address)
    (revocable : bool) (category : option bytes) : MR UID :=
  require_auth owner;;
  (match category with Some name => validate_category name | None => mret tt end);;
  u ← register_internal owner schema resolver revocable 0 None None;
  (match category with
   | Some name => if negb (len name =? 0) then index_category u name else mret tt
   | None => mret tt
   end);;
  mret u.
End schemas.
