(* ===== verification/RegQuery.v ===== *)
(** * Schema registry: queries

    What SAS and off-chain readers ask: schemas and their settings,
    authorisation of issuers, lineage, and the paginated enumerations
    ([src/contracts/schema-registry/src/lib.rs]). *)

From S2P Require Import Prelude Host Common TypedData Validation RegState RegSchemas.

Definition MAX_SCAN_BUDGET : nat := 100.

Section query.
Context {X : Type}.
Abbreviation MR := (M RegSig X).
Abbreviation St := (State RegSig X).

(** [if o.is_some() { extend_ttl(key) }] *)
Definition renew_if_some {A} (o : option A) (k : RegPKey) : MR unit :=
  if bool_decide (is_Some o) then renew k else mret tt.

(** *** Issuers *)

Definition is_attester_authorized (u : UID) (attester : Address) : MR bool :=
  extend_instance_ttl;;
  d ← read_state (fun s => is_deprecated s u);
  if (d : bool) then mret false else
  o ← pers_get (SCHEMA_ACL u attester);
  if default false o then renew (SCHEMA_ACL u attester);; mret true else mret false.

Definition is_schema_restricted (u : UID) : MR bool :=
  extend_instance_ttl;;
  c ← read_state (fun s => acl_count s u); mret (0 <? c).

Definition get_authorized_attester_count (u : UID) : MR Z :=
  extend_instance_ttl;; read_state (fun s => acl_count s u).

Definition is_delegate (u : UID) (delegate : Address) : MR bool :=
  extend_instance_ttl;;
  o ← pers_get (AUTHORIZED_DELEGATES u delegate);
  if negb (default false o) then mret false else
  x ← pers_get (DELEGATE_EXPIRY u delegate);
  now ← ask timestamp;
  match x with
  | Some expiry =>
    if negb (expiry =? 0) && (expiry <=? now) then mret false
    else renew (DELEGATE_EXPIRY u delegate);; renew (AUTHORIZED_DELEGATES u delegate);; mret true
  | None => renew (AUTHORIZED_DELEGATES u delegate);; mret true
  end.

Definition is_authorized (u : UID) (attester : Address) : MR bool :=
  extend_instance_ttl;;
  d ← read_state (fun s => is_deprecated s u);
  if (d : bool) then mret false else
  c ← pers_get (SCHEMA_CREATOR u);
  match c with
  | Some creator =>
    if bool_decide (creator = attester) then renew (SCHEMA_CREATOR u);; mret true
    else is_delegate u attester
  | None => mret false
  end.

(** The loop of [get_delegates]. *)
Fixpoint classify_delegates (s : St) (now : Z) (u : UID) (l : list Address)
    (active expired : list Address) : DelegatesStatus :=
  match l with
  | [] => mkDelegatesStatus active expired
  | delegate :: rest =>
    if default false (pget s (AUTHORIZED_DELEGATES u delegate)) then
      match pget s (DELEGATE_EXPIRY u delegate) with
      | Some exp =>
        if negb (exp =? 0) && (exp <=? now)
        then classify_delegates s now u rest active (expired ++ [delegate])
        else classify_delegates s now u rest (active ++ [delegate]) expired
      | None => classify_delegates s now u rest (active ++ [delegate]) expired
      end
    else classify_delegates s now u rest active expired
  end.

Definition get_delegates (u : UID) : MR DelegatesStatus :=
  extend_instance_ttl;;
  o ← pers_get (SCHEMA_DELEGATES u);
  match o with
  | None => mret (mkDelegatesStatus [] [])
  | Some delegates =>
    renew (SCHEMA_DELEGATES u);;
    now ← ask timestamp;
    read_state (fun s => classify_delegates s now u delegates [] [])
  end.
Definition get_delegates_by_status (u : UID) : MR DelegatesStatus := get_delegates u.
Definition get_active_and_expired_delegates (u : UID) : MR DelegatesStatus := get_delegates u.
Definition get_delegates_tuple (u : UID) : MR (list Address * list Address) :=
  status ← get_delegates u; mret (active status, expired status).

Definition get_delegate_expiry (u : UID) (delegate : Address) : MR (option Z) :=
  extend_instance_ttl;; pers_get (DELEGATE_EXPIRY u delegate).

(** *** Settings of a schema *)

Definition validate_schema (u : UID) : MR bool :=
  extend_instance_ttl;;
  d ← read_state (fun s => is_deprecated s u);
  if (d : bool) then mret false else
  has ← has_schema u;
  if (has : bool) then renew_schema_record u;; mret true else mret false.

Definition get_schema_owner (u : UID) : MR (option Address) :=
  extend_instance_ttl;; read_state (fun s => schema_creator s u).

Definition get_max_ttl (u : UID) : MR Z :=
  extend_instance_ttl;;
  o ← pers_get (SCHEMA_MAX_TTL u);
  let max_ttl := default 0 o in
  (if 0 <? max_ttl then renew (SCHEMA_MAX_TTL u) else mret tt);;
  mret max_ttl.
Definition get_schema_max_ttl (u : UID) : MR Z := get_max_ttl u.

Definition get_schema_by_content (schema : bytes) (resolver : Address) (revocable : bool)
    : MR (option SchemaRecord) :=
  panic_on (validate_schema_syntax schema);;
  u ← ask (fun e => schema_uid e schema resolver revocable);
  get_schema u.

Definition get_schema_status (u : UID) : MR SchemaStatus :=
  extend_instance_ttl;;
  require_schema u SchemaNotFound;;
  q ← is_schema_quarantined u;
  if (q : bool) then mret Quarantined else
  d ← read_state (fun s => is_deprecated s u);
  mret (if (d : bool) then Deprecated else Active).

Definition get_quarantine_uri (u : UID) : MR (option bytes) :=
  extend_instance_ttl;; pers_get (SCHEMA_QUARANTINE_URI u).

Definition get_schema_policy (u : UID) : MR RevocationPolicy :=
  extend_instance_ttl;;
  o ← pers_get (SCHEMA_POLICY u);
  match o with
  | Some policy => mret policy
  | None =>
    r ← pers_get (SchemaKey u);
    mret (match r with Some record => policy_from_bool (sr_revocable record) | None => Permissive end)
  end.
Definition get_revocation_policy (u : UID) : MR RevocationPolicy := get_schema_policy u.

Definition get_creator_royalty (u : UID) : MR Z :=
  extend_instance_ttl;;
  o ← pers_get (SCHEMA_ROYALTY u);
  let bps := default 0 o in
  (if 0 <? bps then renew (SCHEMA_ROYALTY u) else mret tt);;
  mret bps.

Definition get_schema_frost_group (u : UID) : MR (option FrostGroup) :=
  extend_instance_ttl;;
  o ← pers_get (FROST_GROUP u);
  renew_if_some o (FROST_GROUP u);;
  mret o.

Definition get_schema_merkle_root (u : UID) : MR (option bytes) :=
  extend_instance_ttl;;
  o ← pers_get (MERKLE_ROOT u);
  renew_if_some o (MERKLE_ROOT u);;
  mret o.

Definition get_schema_metadata (u : UID) : MR (option bytes) :=
  extend_instance_ttl;;
  d ← read_state (fun s => is_deprecated s u);
  if (d : bool) then mret None else
  uri ← pers_get (SCHEMA_METADATA_URI u);
  (if bool_decide (is_Some uri)
   then renew (SCHEMA_METADATA_URI u);; renew_schema_record u else mret tt);;
  mret uri.
Definition get_schema_metadata_uri (u : UID) : MR (option bytes) := get_schema_metadata u.

Definition get_schema_with_metadata (u : UID) : MR (option (SchemaRecord * option bytes)) :=
  o ← get_schema u;
  match o with
  | None => mret None
  | Some record => metadata ← get_schema_metadata u; mret (Some (record, metadata))
  end.

Definition get_schema_category (u : UID) : MR (option bytes) :=
  extend_instance_ttl;;
  has ← has_schema u;
  if negb has then mret None else
  category ← pers_get (SCHEMA_CATEGORY u);
  renew_if_some category (SCHEMA_CATEGORY u);;
  mret category.

(** *** Lineage *)

(** [fuel] is how many entries [ancestors] may still take. *)
Fixpoint ancestors_loop (fuel : nat) (next : option UID) (root : UID) (ancestors : list UID)
    : MR (UID * list UID) :=
  match next with
  | None => mret (root, ancestors)
  | Some ancestor =>
    match fuel with
    | O => panic LimitExceeded
    | S fuel' =>
      ancestor_record ← pers_get (SchemaKey ancestor);
      (if bool_decide (is_Some ancestor_record) then renew_schema_record ancestor else mret tt);;
      ancestors_loop fuel'
        (match ancestor_record with Some r => sr_parent r | None => None end)
        ancestor (ancestors ++ [ancestor])
    end
  end.

Definition get_schema_lineage (u : UID) : MR SchemaLineage :=
  extend_instance_ttl;;
  o ← pers_get (SchemaKey u);
  record ← unwrap_or_panic (o : option SchemaRecord) SchemaNotFound;
  renew_schema_record u;;
  p ← ancestors_loop MAX_SCHEMA_LINEAGE_DEPTH (sr_parent record) u [];
  mret (mkSchemaLineage u (sr_parent record) p.1 (len p.2) p.2).

Definition get_schema_history (u : UID) : MR (list UID) :=
  extend_instance_ttl;; schema_history u.

Definition get_schema_predecessor (u : UID) : MR (option UID) :=
  extend_instance_ttl;;
  require_schema u SchemaNotFound;;
  result ← pers_get (SCHEMA_PREDECESSOR u);
  renew_if_some result (SCHEMA_PREDECESSOR u);;
  mret result.

(** *** Enumeration *)

(** One entry of a page: the record, if the schema is active. *)
Definition page_entry (index : Z) (schemas : list SchemaRecord) : MR (list SchemaRecord) :=
  o ← pers_get (IndexKey index);
  match o with
  | Some u =>
    renew (IndexKey index);;
    d ← read_state (fun s => is_deprecated s u);
    if (d : bool) then mret schemas else
    r ← pers_get (SchemaKey u);
    match r with
    | Some record => renew (SchemaKey u);; mret (schemas ++ [record])
    | None => mret schemas
    end
  | None => mret schemas
  end.

(** The page loop of [get_schemas] and [get_schemas_paginated]: [budget] is
    [MAX_SCAN_BUDGET - scanned]. *)
Fixpoint page_loop (budget : nat) (count limit index : Z) (schemas : list SchemaRecord)
    : MR (list SchemaRecord * Z) :=
  match budget with
  | O => mret (schemas, index)
  | S budget' =>
    if (index <? count) && (len schemas <? limit) then
      schemas ← page_entry index schemas;
      page_loop budget' count limit (sat_add u32_max index 1) schemas
    else mret (schemas, index)
  end.

Definition schema_count : MR Z :=
  o ← pers_get SCHEMA_COUNT;
  let count := default 0 o in
  (if 0 <? count then renew SCHEMA_COUNT else mret tt);;
  mret count.

Definition get_schemas (start limit : Z) : MR (list SchemaRecord) :=
  extend_instance_ttl;;
  if limit =? 0 then mret [] else
  count ← schema_count;
  if count <=? start then mret [] else
  p ← page_loop MAX_SCAN_BUDGET count limit start [];
  mret p.1.

Definition get_schemas_paginated (start limit : Z) : MR (list SchemaRecord * Z) :=
  extend_instance_ttl;;
  count ← schema_count;
  if (limit =? 0) || (count <=? start)
  then mret ([], if count <=? start then count else start)
  else page_loop MAX_SCAN_BUDGET count limit start [].

Definition category_entry (category : bytes) (current : Z) (items : list SchemaRecord)
    : MR (list SchemaRecord) :=
  o ← pers_get (CATEGORY_INDEX category current);
  match o with
  | Some u =>
    renew (CATEGORY_INDEX category current);;
    d ← read_state (fun s => is_deprecated s u);
    if (d : bool) then mret items else
    r ← pers_get (SchemaKey u);
    match r with
    | Some record => renew_schema_record u;; mret (items ++ [record])
    | None => mret items
    end
  | None => mret items
  end.

(** The loop of [get_schemas_by_category]. *)
Fixpoint category_loop (budget : nat) (category : bytes) (count limit current : Z)
    (items : list SchemaRecord) : MR (list SchemaRecord * Z) :=
  match budget with
  | O => mret (items, current)
  | S budget' =>
    if (current <? count) && (len items <? limit) then
      items ← category_entry category current items;
      current ← checked u32_max (current + 1);
      category_loop budget' category count limit current items
    else mret (items, current)
  end.

Definition get_schemas_by_category (category : bytes) (cursor limit : Z)
    : MR (list SchemaRecord * Z) :=
  validate_category category;;
  extend_instance_ttl;;
  o ← pers_get (CATEGORY_COUNT category);
  let count := default 0 o in
  (if 0 <? count then renew (CATEGORY_COUNT category) else mret tt);;
  if (limit =? 0) || (count <=? cursor) then mret ([], Z.min cursor count)
  else category_loop MAX_SCAN_BUDGET category count limit cursor [].
End query.
