(* ===== verification/RegCalls.v ===== *)
(** * Schema registry: the contract's interface

    The entry points of the registry as one data type of calls, their
    execution, and histories of invocations in which a failed one is rolled
    back.  Aliases are listed once; [ReadOnly] stands for the getters that only
    renew the instance. *)

From S2P Require Import Prelude Host Common TypedData Validation RegState RegAdmin RegOwners.
From S2P Require Import RegSchemas RegQuery.

Inductive RegCall :=
  | RegInit (admin : Address)
  | RegUpgrade (wasm : bytes) (version : Z)
  | RegSetFee (token : Address) (amount : Z)
  | RegClearFee
  | RegSetTreasury (treasury : Address)
  | RegWithdrawFees (amount : Z)
  | RegDeprecate (u : UID) (authorizer : Address)
  | RegDeprecateSchema (sender : Address) (u : UID)
  | RegSetSchemaQuarantine (u : UID) (quarantined : bool) (uri : bytes)
  | RegAddDelegate (u : UID) (delegate : Address)
  | RegAddDelegateWithExpiry (u : UID) (delegate : Address) (expiry : Z)
  | RegRemoveDelegate (u : UID) (delegate : Address)
  | RegSelfRevokeDelegate (u : UID) (delegate : Address)
  | RegAddAuthorizedAttester (u : UID) (attester : Address)
  | RegRemoveAuthorizedAttester (u : UID) (attester : Address)
  | RegSetCreatorRoyalty (caller : Address) (u : UID) (bps : Z)
  | RegSetSchemaFrostGroup (authorizer : Address) (u : UID) (group : FrostGroup)
  | RegClearSchemaFrostGroup (authorizer : Address) (u : UID)
  | RegSetSchemaMerkleRoot (authorizer : Address) (u : UID) (root : bytes)
  | RegClearSchemaMerkleRoot (authorizer : Address) (u : UID)
  | RegUpdateSchemaMetadata (u : UID) (authorizer : Address) (uri : bytes)
  | RegTransferSchemaOwnership (u : UID) (new_owner : Address)
  | RegTransferOwnership (sender : Address) (u : UID) (new_owner : Address)
  | RegProposeSchemaOwner (u : UID) (new_owner : Address)
  | RegClaimSchemaOwnership (u : UID)
  | RegCancelSchemaOwnershipTransfer (u : UID)
  | RegConfigureOwnerSet (u : UID) (authorizer : Address) (owners : list Address) (threshold : Z)
  | RegProposeOwnershipTransfer (u : UID) (proposer new_owner : Address)
  | RegApproveOwnershipTransfer (u : UID) (approver : Address)
  | RegCancelOwnershipTransfer (u : UID) (canceller : Address)
  | RegRegister (owner : Address) (schema : bytes) (resolver : Address) (rev : bool)
  | RegRegisterWithParent (owner : Address) (schema : bytes) (resolver : Address) (rev : bool)
      (parent : option UID)
  | RegRegisterWithTtl (owner : Address) (schema : bytes) (resolver : Address) (rev : bool)
      (max_ttl : Z)
  | RegRegisterWithPolicy (owner : Address) (schema : bytes) (resolver : Address)
      (policy : RevocationPolicy)
  | RegRegisterWithRoyalty (owner : Address) (schema : bytes) (resolver : Address)
      (rev : bool) (bps : Z)
  | RegRegisterWithPredecessor (owner : Address) (schema : bytes) (resolver : Address)
      (rev : bool) (predecessor : UID)
  | RegRegisterWithValueAndTtl (owner : Address) (schema : bytes) (resolver : Address)
      (rev : bool) (token : Address) (value max_ttl : Z)
  | RegRegisterSchema (owner : Address) (schema : bytes) (resolver : Address) (rev : bool)
      (metadata : option bytes)
  | RegRegisterSchemaWithValue (owner : Address) (schema : bytes) (resolver : Address)
      (rev : bool) (token : Address) (value : Z) (metadata : option bytes)
  | RegRegisterWithMetadata (owner : Address) (schema : bytes) (resolver : Address)
      (rev : bool) (metadata : bytes)
  | RegRegisterSchemasBatch (items : list SchemaBatchItem)
  | RegRegisterWithCategory (owner : Address) (schema : bytes) (resolver : Address)
      (rev : bool) (category : option bytes)
  | RegGetSchema (u : UID)
  | RegIsSchemaQuarantined (u : UID)
  | RegGetCreator (u : UID)
  | RegIsAttesterAuthorized (u : UID) (attester : Address)
  | RegIsSchemaRestricted (u : UID)
  | RegGetAuthorizedAttesterCount (u : UID)
  | RegIsDelegate (u : UID) (delegate : Address)
  | RegIsAuthorized (u : UID) (attester : Address)
  | RegGetDelegates (u : UID)
  | RegValidateSchema (u : UID)
  | RegGetMaxTtl (u : UID)
  | RegGetSchemaByContent (schema : bytes) (resolver : Address) (rev : bool)
  | RegGetSchemaStatus (u : UID)
  | RegGetSchemaPolicy (u : UID)
  | RegGetCreatorRoyalty (u : UID)
  | RegGetSchemaFrostGroup (u : UID)
  | RegGetSchemaMerkleRoot (u : UID)
  | RegGetSchemaMetadata (u : UID)
  | RegGetSchemaWithMetadata (u : UID)
  | RegGetSchemaCategory (u : UID)
  | RegGetSchemaLineage (u : UID)
  | RegGetSchemaHistory (u : UID)
  | RegGetSchemaPredecessor (u : UID)
  | RegGetSchemas (start limit : Z)
  | RegGetSchemasPaginated (start limit : Z)
  | RegGetSchemasByCategory (category : bytes) (cursor limit : Z)
  | RegReadOnly.

Section calls.
Context {X : Type} `{RegDeps X}.
Abbreviation MR := (M RegSig X).

Definition void {A} (m : MR A) : MR unit := _ ← m; mret tt.

Definition exec (c : RegCall) : MR unit :=
  match c with
  | RegInit admin => init admin
  | RegUpgrade wasm version => upgrade wasm version
  | RegSetFee token amount => set_fee token amount
  | RegClearFee => clear_fee
  | RegSetTreasury treasury => set_treasury treasury
  | RegWithdrawFees amount => withdraw_fees amount
  | RegDeprecate u authorizer => deprecate u authorizer
  | RegDeprecateSchema sender u => deprecate_schema sender u
  | RegSetSchemaQuarantine u quarantined uri => set_schema_quarantine u quarantined uri
  | RegAddDelegate u delegate => add_delegate u delegate
  | RegAddDelegateWithExpiry u delegate expiry => add_delegate_with_expiry u delegate expiry
  | RegRemoveDelegate u delegate => remove_delegate u delegate
  | RegSelfRevokeDelegate u delegate => self_revoke_delegate u delegate
  | RegAddAuthorizedAttester u attester => add_authorized_attester u attester
  | RegRemoveAuthorizedAttester u attester => remove_authorized_attester u attester
  | RegSetCreatorRoyalty caller u bps => set_creator_royalty caller u bps
  | RegSetSchemaFrostGroup authorizer u group => set_schema_frost_group authorizer u group
  | RegClearSchemaFrostGroup authorizer u => clear_schema_frost_group authorizer u
  | RegSetSchemaMerkleRoot authorizer u root => set_schema_merkle_root authorizer u root
  | RegClearSchemaMerkleRoot authorizer u => clear_schema_merkle_root authorizer u
  | RegUpdateSchemaMetadata u authorizer uri => update_schema_metadata u authorizer uri
  | RegTransferSchemaOwnership u new_owner => transfer_schema_ownership u new_owner
  | RegTransferOwnership sender u new_owner => transfer_ownership sender u new_owner
  | RegProposeSchemaOwner u new_owner => propose_schema_owner u new_owner
  | RegClaimSchemaOwnership u => claim_schema_ownership u
  | RegCancelSchemaOwnershipTransfer u => cancel_schema_ownership_transfer u
  | RegConfigureOwnerSet u authorizer owners threshold =>
      void (configure_owner_set u authorizer owners threshold)
  | RegProposeOwnershipTransfer u proposer new_owner =>
      void (propose_ownership_transfer u proposer new_owner)
  | RegApproveOwnershipTransfer u approver => void (approve_ownership_transfer u approver)
  | RegCancelOwnershipTransfer u canceller => cancel_ownership_transfer u canceller
  | RegRegister owner schema resolver rev => void (register owner schema resolver rev)
  | RegRegisterWithParent owner schema resolver rev parent =>
      void (register_with_parent owner schema resolver rev parent)
  | RegRegisterWithTtl owner schema resolver rev max_ttl =>
      void (register_with_ttl owner schema resolver rev max_ttl)
  | RegRegisterWithPolicy owner schema resolver policy =>
      void (register_with_policy owner schema resolver policy)
  | RegRegisterWithRoyalty owner schema resolver rev bps =>
      void (register_with_royalty owner schema resolver rev bps)
  | RegRegisterWithPredecessor owner schema resolver rev predecessor =>
      void (register_with_predecessor owner schema resolver rev predecessor)
  | RegRegisterWithValueAndTtl owner schema resolver rev token value max_ttl =>
      void (register_with_value_and_ttl owner schema resolver rev token value max_ttl)
  | RegRegisterSchema owner schema resolver rev metadata =>
      void (register_schema owner schema resolver rev metadata)
  | RegRegisterSchemaWithValue owner schema resolver rev token value metadata =>
      void (register_schema_with_value owner schema resolver rev token value metadata)
  | RegRegisterWithMetadata owner schema resolver rev metadata =>
      void (register_with_metadata owner schema resolver rev metadata)
  | RegRegisterSchemasBatch items => void (register_schemas_batch items)
  | RegRegisterWithCategory owner schema resolver rev category =>
      void (register_with_category owner schema resolver rev category)
  | RegGetSchema u => void (get_schema u)
  | RegIsSchemaQuarantined u => void (is_schema_quarantined u)
  | RegGetCreator u => void (get_creator u)
  | RegIsAttesterAuthorized u attester => void (is_attester_authorized u attester)
  | RegIsSchemaRestricted u => void (is_schema_restricted u)
  | RegGetAuthorizedAttesterCount u => void (get_authorized_attester_count u)
  | RegIsDelegate u delegate => void (is_delegate u delegate)
  | RegIsAuthorized u attester => void (is_authorized u attester)
  | RegGetDelegates u => void (get_delegates u)
  | RegValidateSchema u => void (validate_schema u)
  | RegGetMaxTtl u => void (get_max_ttl u)
  | RegGetSchemaByContent schema resolver rev =>
      void (get_schema_by_content schema resolver rev)
  | RegGetSchemaStatus u => void (get_schema_status u)
  | RegGetSchemaPolicy u => void (get_schema_policy u)
  | RegGetCreatorRoyalty u => void (get_creator_royalty u)
  | RegGetSchemaFrostGroup u => void (get_schema_frost_group u)
  | RegGetSchemaMerkleRoot u => void (get_schema_merkle_root u)
  | RegGetSchemaMetadata u => void (get_schema_metadata u)
  | RegGetSchemaWithMetadata u => void (get_schema_with_metadata u)
  | RegGetSchemaCategory u => void (get_schema_category u)
  | RegGetSchemaLineage u => void (get_schema_lineage u)
  | RegGetSchemaHistory u => void (get_schema_history u)
  | RegGetSchemaPredecessor u => void (get_schema_predecessor u)
  | RegGetSchemas start limit => void (get_schemas start limit)
  | RegGetSchemasPaginated start limit => void (get_schemas_paginated start limit)
  | RegGetSchemasByCategory category cursor limit =>
      void (get_schemas_by_category category cursor limit)
  | RegReadOnly => extend_instance_ttl
  end.

(** One transaction: a failed call leaves the state as it was. *)
Definition transact (e : Env) (c : RegCall) (s : State RegSig X) : State RegSig X :=
  match exec c e s with
  | Ok (_, s') => s'
  | Err _ => s
  end.

Fixpoint run_history (h : list (Env * RegCall)) (s : State RegSig X) : State RegSig X :=
  match h with
  | [] => s
  | (e, c) :: h' => run_history h' (transact e c s)
  end.
End calls.
