(* ===== verification/RegSample.v ===== *)
(** * Schema registry: a concrete instance

    A registry on the concrete host with a toy fee token, and a few histories
    of it.  Used by witnesses only. *)

From S2P Require Import Prelude Host Common Sample TypedData Validation RegState RegAdmin.
From S2P Require Import RegOwners RegSchemas RegQuery RegCalls.

(** A token whose transfers always succeed. *)
Definition open_token : RegDeps unit := {|
  fee_token_transfer _ _ _ _ := fun _ x => Some (Val tt, x)
|}.
#[export] Existing Instance open_token.

Definition carol : Address := Account (key_of 11).
Definition score : bytes := bytes_of_string "score u64".
Definition score_comment : bytes := bytes_of_string "score u64, comment string".

Definition score_uid : UID := schema_uid (sample_env 0 []) score resolver_id true.
Definition comment_uid : UID := schema_uid (sample_env 0 []) score_comment resolver_id true.

(** A registry with an admin ... *)
Definition reg_empty : State RegSig unit := empty_state RegSig tt.
Definition reg_init : Env * RegCall := (sample_env 100 [root_admin], RegInit root_admin).
Definition reg_start : State RegSig unit := run_history [reg_init] reg_empty.

(** ... alice's schema and a child of it ... *)
Definition reg_register : Env * RegCall :=
  (sample_env 200 [alice], RegRegister alice score resolver_id true).
Definition reg_child : Env * RegCall :=
  (sample_env 300 [alice], RegRegisterWithParent alice score_comment resolver_id true (Some score_uid)).
Definition reg_schemas : State RegSig unit := run_history [reg_register; reg_child] reg_start.

(** ... owned by three, two of whom approve a transfer to carol. *)
Definition reg_owners : Env * RegCall :=
  (sample_env 400 [alice], RegConfigureOwnerSet score_uid alice [alice; bob; root_admin] 2).
Definition reg_propose : Env * RegCall :=
  (sample_env 500 [alice], RegProposeOwnershipTransfer score_uid alice carol).
Definition reg_approve : Env * RegCall :=
  (sample_env 600 [bob], RegApproveOwnershipTransfer score_uid bob).
Definition reg_proposed : State RegSig unit := run_history [reg_owners; reg_propose] reg_schemas.
