(* ===== verification/RegFrame.v ===== *)
(** * Schema registry: frames

    Reads renew lifetimes and change no value; the tactics that invert the
    runs of registry operations. *)

From S2P Require Import Prelude Host Values Common TypedData Validation RegState RegAdmin.
From S2P Require Import RegOwners RegSchemas RegQuery RegCalls.

(** ** Renewal changes no value *)

Section quiet.
Context {X : Type}.
Implicit Types (s : State RegSig X) (e : Env).

(** What is computed from the values alone does not see renewals. *)
#[export] Instance is_deprecated_proper : Proper (same_values (C := RegSig) ==> eq ==> eq) (is_deprecated (X := X)).
Proof. intros s s' Hs u ? <-; unfold is_deprecated; by rewrite (sv_pget _ _ Hs). Qed.
#[export] Instance is_owner_address_proper :
  Proper (same_values (C := RegSig) ==> eq ==> eq ==> eq) (is_owner_address (X := X)).
Proof.
  intros s s' Hs u ? <- who ? <-; unfold is_owner_address, owner_set, schema_creator.
  by rewrite !(sv_pget _ _ Hs), (sv_inst _ _ Hs).
Qed.
#[export] Instance effective_owner_set_proper :
  Proper (same_values (C := RegSig) ==> eq ==> eq) (effective_owner_set (X := X)).
Proof.
  intros s s' Hs u ? <-; unfold effective_owner_set, owner_set; by rewrite (sv_pget _ _ Hs).
Qed.
#[export] Instance lineage_walk_proper :
  Proper (same_values (C := RegSig) ==> eq ==> eq ==> eq ==> eq) (lineage_walk (X := X)).
Proof.
  intros s s' Hs n ? <-; induction n as [|n IH]; intros u ? <- z ? <-; simpl; [done|].
  unfold parent_of; rewrite (sv_pget _ _ Hs (SchemaKey u)).
  destruct (pget s (SchemaKey u)) as [r|]; [|done].
  destruct (sr_parent r); [by apply IH|done].
Qed.

Lemma quiet_extend_instance_ttl : preserves (quiet (C := RegSig) (X := X)) extend_instance_ttl.
Proof. apply quiet_inst_extend_ttl. Qed.
Lemma quiet_renew k : preserves (quiet (C := RegSig) (X := X)) (renew k).
Proof. apply (quiet_pers_extend_ttl (C := RegSig)). Qed.
End quiet.

#[export] Hint Resolve quiet_extend_instance_ttl quiet_renew : sas.

Section quiet_ops.
Context {X : Type}.
Implicit Types (s : State RegSig X) (e : Env).
Abbreviation Q := (quiet (C := RegSig) (X := X)).

Lemma quiet_renew_schema_record u : preserves Q (renew_schema_record u).
Proof. pres_open. Qed.
#[local] Hint Resolve quiet_renew_schema_record : sas.
Lemma quiet_get_schema u : preserves Q (get_schema u).
Proof. pres_open. Qed.
Lemma quiet_get_creator u : preserves Q (get_creator u).
Proof. pres_open. Qed.
#[local] Hint Resolve quiet_get_schema quiet_get_creator : sas.

Lemma quiet_history_loop fuel u l : preserves Q (history_loop fuel u l).
Proof. revert u l; induction fuel; intros u l; simpl; pres_open. Qed.
Lemma quiet_ancestors_loop fuel n r l : preserves Q (ancestors_loop fuel n r l).
Proof. revert n r l; induction fuel; intros n r l; simpl; pres_open. Qed.
Lemma quiet_page_loop b c lim i l : preserves Q (page_loop b c lim i l).
Proof. revert i l; induction b; intros i l; simpl; pres_open. Qed.
Lemma quiet_category_loop b cat c lim i l : preserves Q (category_loop b cat c lim i l).
Proof. revert i l; induction b; intros i l; simpl; pres_open. Qed.
Lemma quiet_distinct_owners seen l : preserves Q (distinct_owners seen l).
Proof. revert seen; induction l; intros seen; simpl; pres_open. Qed.
End quiet_ops.

#[export] Hint Resolve quiet_renew_schema_record quiet_get_schema quiet_get_creator
  quiet_history_loop quiet_ancestors_loop quiet_page_loop quiet_category_loop
  quiet_distinct_owners : sas.

(** ** Inversion *)

Section inversion.
Context {X : Type}.
Implicit Types (s : State RegSig X) (e : Env).

Lemma extend_ttl_ok e s u s' : extend_instance_ttl e s = Ok (u, s') -> same_values s s'.
Proof. apply quiet_extend_instance_ttl. Qed.
Lemma renew_ok k e s u s' : renew k e s = Ok (u, s') -> same_values s s'.
Proof. apply quiet_renew. Qed.
Lemma renew_schema_record_ok v e s u s' :
  renew_schema_record v e s = Ok (u, s') -> same_values s s'.
Proof. apply quiet_renew_schema_record. Qed.

Lemma put_ok k v e s u s' : put k v e s = Ok (u, s') -> wrote (C := RegSig) k (Some v) s s'.
Proof. apply (pers_put_wrote (C := RegSig)). Qed.

Lemma require_schema_ok v err e s u s' :
  require_schema v err e s = Ok (u, s') -> is_Some (pget s (SchemaKey v)) /\ s' = s.
Proof. unfold require_schema, has_schema; intros Hr; run_inv; bool_facts; done. Qed.

Lemma require_registry_admin_ok e s a s' :
  require_registry_admin e s = Ok (a, s') -> inst s REGISTRY_ADMIN = Some a /\ s' = s.
Proof.
  unfold require_registry_admin; intros Hr; run_inv; unfold registry_admin in *.
  destruct (inst s REGISTRY_ADMIN); run_inv; done.
Qed.

Lemma require_owner_ok v who e s u s' :
  require_owner v who e s = Ok (u, s') -> is_owner_address s v who = true /\ s' = s.
Proof. unfold require_owner; intros Hr; run_inv; bool_facts; done. Qed.

Lemma require_creator_auth_ok v e s a s' :
  require_creator_auth v e s = Ok (a, s') ->
  is_Some (pget s (SchemaKey v)) /\ pget s (SCHEMA_CREATOR v) = Some a
  /\ authorized e a = true /\ s' = s.
Proof.
  unfold require_creator_auth; intros Hr; run_inv.
  match goal with Hs : require_schema _ _ _ _ = _ |- _ => apply require_schema_ok in Hs as [? ->] end.
  done.
Qed.

Lemma require_transferable_ok v e s u s' :
  require_transferable_schema v e s = Ok (u, s') ->
  is_Some (pget s (SchemaKey v)) /\ is_deprecated s v = false /\ s' = s.
Proof.
  unfold require_transferable_schema; intros Hr; run_inv.
  match goal with Hs : require_schema _ _ _ _ = _ |- _ => apply require_schema_ok in Hs as [? ->] end.
  done.
Qed.

Definition visible s v : option SchemaRecord :=
  if is_deprecated s v then None else pget s (SchemaKey v).

Lemma get_schema_ok v e s o s' :
  get_schema v e s = Ok (o, s') -> o = visible s v /\ same_values s s'.
Proof.
  intros Hr; split; [|by eapply quiet_get_schema in Hr].
  unfold get_schema in Hr; run_inv.
  match goal with Hq : extend_instance_ttl _ _ = _ |- _ => apply extend_ttl_ok in Hq as Hs end.
  rewrite <- (is_deprecated_proper _ _ Hs v v eq_refl) in Hr; unfold visible.
  destruct (is_deprecated s v); run_inv; [done|].
  exact (sv_pget _ _ Hs (SchemaKey v)).
Qed.
End inversion.

Ltac reg_inv_step :=
  first
  [ match goal with
    | H : pers_set _ _ _ _ = Ok _ |- _ => apply set_ok in H
    | H : pers_remove _ _ _ = Ok _ |- _ => apply remove_ok in H
    | H : publish _ _ _ = Ok _ |- _ => apply publish_ok in H as (? & ? & ?)
    end
  | run_inv_step
  | match goal with
    | H : put _ _ _ _ = Ok _ |- _ => apply put_ok in H
    | H : renew _ _ _ = Ok _ |- _ => apply renew_ok in H
    | H : renew_schema_record _ _ _ = Ok _ |- _ => apply renew_schema_record_ok in H
    | H : extend_instance_ttl _ _ = Ok _ |- _ => apply extend_ttl_ok in H
    | H : require_schema _ _ _ _ = Ok _ |- _ => apply require_schema_ok in H as [? ->]
    | H : require_registry_admin _ _ = Ok _ |- _ => apply require_registry_admin_ok in H as [? ->]
    | H : require_owner _ _ _ _ = Ok _ |- _ => apply require_owner_ok in H as [? ->]
    | H : require_creator_auth _ _ _ = Ok _ |- _ =>
        apply require_creator_auth_ok in H as (? & ? & ? & ->)
    | H : require_transferable_schema _ _ _ = Ok _ |- _ =>
        apply require_transferable_ok in H as (? & ? & ->)
    | H : panic_on _ _ _ = Ok _ |- _ => apply panic_on_ok in H as [? ->]
    | H : get_schema _ _ _ = Ok _ |- _ => apply get_schema_ok in H as [? ?]; subst
    end ].
Ltac reg_inv := repeat reg_inv_step.

(** A successful call changed the state, a failed one did not. *)
Lemma reg_transact_run {X} `{RegDeps X} e c (s : State RegSig X) :
  (exists s', exec c e s = Ok (tt, s') /\ transact e c s = s')
  \/ (exists err, exec c e s = Err err /\ transact e c s = s).
Proof.
  unfold transact; destruct (exec c e s) as [[[] s']|err] eqn:E; [left|right]; eauto.
Qed.

(** An invariant of every call is an invariant of every history. *)
Lemma reg_history_inv {X} `{RegDeps X} (P : State RegSig X -> Prop) :
  (forall c e s s', exec c e s = Ok (tt, s') -> P s -> P s') ->
  forall h s, P s -> P (run_history h s).
Proof.
  intros Hstep h; induction h as [|[e c] h IH]; intros s Hs; simpl; [done|]; apply IH.
  destruct (reg_transact_run e c s) as [(s' & Hr & ->)|(err & _ & ->)]; eauto.
Qed.
