(* ===== verification/RegRecord.v ===== *)
(** * Schema registry: records

    What a registration writes, and how the records of schemas evolve under
    every entry point. *)

From S2P Require Import Values.
From S2P Require Import Prelude Host Common TypedData Validation RegState RegAdmin RegOwners.
From S2P Require Import RegSchemas RegQuery RegCalls RegFrame.

(** ** Registration *)

(** The keys a registration of [u] may write. *)
Definition registration_key (u : UID) (k : RegPKey) : Prop :=
  match k with
  | SchemaKey v | SCHEMA_MAX_TTL v | SCHEMA_CREATOR v | SCHEMA_POLICY v
  | SCHEMA_METADATA_URI v => u = v
  | IndexKey _ | SCHEMA_COUNT => True
  | _ => False
  end.
#[export] Hint Extern 1 (registration_key _ _) => (cbn; reflexivity || exact Logic.I) : sas.

Section registration.
Context {X : Type} `{RegDeps X}.
Implicit Types (s : State RegSig X) (e : Env).

Lemma write_schema_frame u owner r t m e s v s' :
  write_schema u owner r t m e s = Ok (v, s') ->
  forall k, ~ registration_key u k -> pget s' k = pget s k.
Proof.
  assert (Hf : preserves (touches (C := RegSig) (X := X) (fun _ => False) (registration_key u))
                 (write_schema u owner r t m)) by pres_open.
  intros [_ Hp]%Hf; exact Hp.
Qed.

Definition next_index s : Z := default 0 (pget s SCHEMA_COUNT).

(** What the enumeration is before and after appending [u]. *)
Record appended (u : UID) s s' : Prop := {
  ap_inst : inst s' = inst s;
  ap_room : next_index s + 1 <= u32_max;
  ap_entry : pget s' (IndexKey (next_index s)) = Some u;
  ap_count : pget s' SCHEMA_COUNT = Some (next_index s + 1);
  ap_others : forall k, k <> SCHEMA_COUNT -> k <> IndexKey (next_index s) -> pget s' k = pget s k
}.

Lemma append_to_index_ok u e s v s' : append_to_index u e s = Ok (v, s') -> appended u s s'.
Proof.
  unfold append_to_index; intros Hr; reg_inv.
  match goal with
    Hc : match pget s SCHEMA_COUNT with Some _ => _ | None => _ end _ _ = Ok (?n, ?s1) |- _ =>
      assert (Hn : n = next_index s /\ same_values s s1);
        [unfold next_index; destruct (pget s SCHEMA_COUNT); reg_inv; [done|]|] end.
  { match goal with Hb : (if ?b then _ else _) _ _ = Ok _ |- _ => destruct b; reg_inv end.
    split; [done|by split]. }
  destruct Hn as [-> Hs]; split; [by settle|lia|by settle..|].
  intros k Hk Hi; by settle.
Qed.

Lemma put_if_positive_ok u t e s v s' :
  put_if_positive u t e s = Ok (v, s') ->
  wrote (SCHEMA_MAX_TTL u) (if 0 <? t then Some t else pget s (SCHEMA_MAX_TTL u)) s s'.
Proof. unfold put_if_positive; destruct (0 <? t); intros Hr; reg_inv; [done|apply wrote_same]. Qed.
Lemma put_default_policy_ok u b e s v s' :
  put_default_policy u b e s = Ok (v, s') ->
  wrote (SCHEMA_POLICY u) (Some (default (policy_from_bool b) (pget s (SCHEMA_POLICY u)))) s s'.
Proof.
  unfold put_default_policy; intros Hr; reg_inv.
  destruct (pget s (SCHEMA_POLICY u)) eqn:Ep; simpl in Hr; reg_inv; [|done].
  split; [done|exact Ep|done].
Qed.
Lemma put_metadata_ok u m e s v s' :
  put_metadata u m e s = Ok (v, s') ->
  wrote (SCHEMA_METADATA_URI u) (match m with Some _ => m | None => pget s (SCHEMA_METADATA_URI u) end)
    s s'
  /\ (forall uri, m = Some uri -> len uri <= MAX_METADATA_URI_LENGTH).
Proof.
  unfold put_metadata, validate_metadata_uri; destruct m; intros Hr; reg_inv.
  - split; [done|intros ? [= ->]; bool_facts; lia].
  - split; [apply wrote_same|done].
Qed.

(** What the registration of [u] leaves in the store. *)
Record written (u : UID) (owner : Address) (r : SchemaRecord) (max_ttl : Z) (m : option bytes)
    s s' : Prop := {
  wr_inst : inst s' = inst s;
  wr_record : pget s' (SchemaKey u) = Some r;
  wr_creator : pget s' (SCHEMA_CREATOR u) = Some owner;
  wr_policy : pget s' (SCHEMA_POLICY u)
              = Some (default (policy_from_bool (sr_revocable r)) (pget s (SCHEMA_POLICY u)));
  wr_max_ttl : pget s' (SCHEMA_MAX_TTL u)
               = if 0 <? max_ttl then Some max_ttl else pget s (SCHEMA_MAX_TTL u);
  wr_metadata : pget s' (SCHEMA_METADATA_URI u)
                = match m with Some _ => m | None => pget s (SCHEMA_METADATA_URI u) end;
  wr_metadata_short : forall uri, m = Some uri -> len uri <= MAX_METADATA_URI_LENGTH;
  wr_room : next_index s + 1 <= u32_max;
  wr_entry : pget s' (IndexKey (next_index s)) = Some u;
  wr_count : pget s' SCHEMA_COUNT = Some (next_index s + 1);
  wr_index : forall i, i <> next_index s -> pget s' (IndexKey i) = pget s (IndexKey i);
  wr_others : forall k, ~ registration_key u k -> pget s' k = pget s k
}.

Lemma write_schema_ok u owner r t m e s v s' :
  write_schema u owner r t m e s = Ok (v, s') -> written u owner r t m s s'.
Proof.
  intros Hr; pose proof (write_schema_frame _ _ _ _ _ _ _ _ _ Hr) as Hf.
  unfold write_schema in Hr; reg_inv.
  match goal with Hq : put_if_positive _ _ _ _ = _ |- _ => apply put_if_positive_ok in Hq end.
  match goal with Hq : put_default_policy _ _ _ _ = _ |- _ => apply put_default_policy_ok in Hq end.
  match goal with Hq : put_metadata _ _ _ _ = _ |- _ => apply put_metadata_ok in Hq as [Hq Hm] end.
  match goal with Hq : append_to_index _ _ _ = _ |- _ => apply append_to_index_ok in Hq as Ha;
    match type of Hq with _ _ _ ?s4 = _ =>
      assert (Hn : next_index s4 = next_index s) by (unfold next_index; by settle) end end.
  destruct Ha as [Hi Hroom He Hc Ho]; rewrite Hn in *.
  split; try done; intros; settle; try (rewrite Ho by congruence; settle); done.
Qed.

Lemma written_same u owner r t m s s1 s' :
  same_values s s1 -> written u owner r t m s1 s' -> written u owner r t m s s'.
Proof.
  intros Hs [? ? ? Hp Ht Hm ? ? ? ? Hi Ho].
  assert (Hn : next_index s1 = next_index s) by (unfold next_index; by settle).
  rewrite Hn in *; split; settle; try done.
  - by rewrite Hp, (sv_pget _ _ Hs (SCHEMA_POLICY u)).
  - by rewrite Ht, (sv_pget _ _ Hs (SCHEMA_MAX_TTL u)).
  - by rewrite Hm, (sv_pget _ _ Hs (SCHEMA_METADATA_URI u)).
  - intros i Hne; rewrite Hi by done; by settle.
  - intros k Hk; rewrite Ho by done; by settle.
Qed.

(** The guard on a parent link. *)
Definition parent_allowed s (owner : Address) (parent : UID) : Prop :=
  is_Some (pget s (SchemaKey parent)) /\ is_owner_address s parent owner = true
  /\ exists root depth, lineage_walk s (S MAX_SCHEMA_LINEAGE_DEPTH) parent 0 = Some (root, depth)
       /\ depth < Z.of_nat MAX_SCHEMA_LINEAGE_DEPTH.

Lemma parent_allowed_same s s1 owner p :
  same_values s s1 -> parent_allowed s1 owner p -> parent_allowed s owner p.
Proof.
  intros Hs (Hk & Ho & root & depth & Hl & Hd); rewrite (sv_pget _ _ Hs) in Hk.
  rewrite <- Hs in Ho, Hl; split_and!; eauto.
Qed.

Lemma validate_parent_ok owner parent e s v s' :
  validate_parent_schema owner parent e s = Ok (v, s') -> parent_allowed s owner parent /\ s' = s.
Proof.
  unfold validate_parent_schema, lineage_root; intros Hr; reg_inv.
  match goal with Hr : (_ <=? (?p).2) = false |- _ => destruct p as [root depth] end.
  split; [|done]; split_and!; [done..|]; exists root, depth; bool_facts; auto.
Qed.

(** A successful registration. *)
Record registered e (owner : Address) (schema : bytes) (resolver : Address) (rev : bool)
    (max_ttl : Z) (parent : option UID) (m : option bytes) s (u : UID) s' : Prop := {
  rg_uid : u = schema_uid e schema resolver rev;
  rg_lexical : validate_schema_lexical schema = None;
  rg_syntax : validate_schema_syntax schema = None;
  rg_parent : forall p, parent = Some p -> parent_allowed s owner p;
  rg_fresh : pget s (SchemaKey u) = None;
  rg_written : written u owner (mkSchemaRecord u resolver rev schema false parent) max_ttl m s s'
}.

Lemma register_internal_ok owner schema resolver rev t parent m e s u s' :
  register_internal owner schema resolver rev t parent m e s = Ok (u, s') ->
  registered e owner schema resolver rev t parent m s u s'.
Proof.
  unfold register_internal, has_schema; intros Hr; reg_inv.
  match goal with Hw : write_schema _ _ _ _ _ _ _ = _ |- _ => apply write_schema_ok in Hw end.
  match goal with Hq : match parent with Some _ => _ | None => _ end _ ?s1 = Ok (_, ?s2) |- _ =>
    assert (Hp : (forall p, parent = Some p -> parent_allowed s1 owner p) /\ s2 = s1) end.
  { destruct parent as [p|]; [|reg_inv; done].
    match goal with Hq : validate_parent_schema _ _ _ _ = _ |- _ =>
      apply validate_parent_ok in Hq as [? ->] end.
    split; [by intros ? [= <-]|done]. }
  destruct Hp as [Hp ->]; bool_facts.
  match goal with Hs : same_values s ?s1 |- _ => rename Hs into Hsame end.
  split; try done.
  - intros p Hq; by eapply parent_allowed_same, Hp.
  - rewrite <- (sv_pget _ _ Hsame).
    match goal with Hn : ~ is_Some ?o |- _ = _ => destruct o; [exfalso; eauto|done] end.
  - by eapply written_same.
Qed.
End registration.

(** ** Evolution of records *)

(** A record keeps its identity; it may become deprecated. *)
Definition later_record (r r' : SchemaRecord) : Prop :=
  r' = r \/ r' = with_deprecated r.

(** A record as [register] writes it, possibly deprecated in the same call. *)
Definition content_addressed (e : Env) (u : UID) (r : SchemaRecord) : Prop :=
  sr_uid r = u /\ u = schema_uid e (sr_schema r) (sr_resolver r) (sr_revocable r)
  /\ validate_schema_lexical (sr_schema r) = None /\ validate_schema_syntax (sr_schema r) = None.

Section evolution.
Context {X : Type}.
Implicit Types (s : State RegSig X) (e : Env).

Definition record_step (e : Env) (u : UID) (o o' : option SchemaRecord) : Prop :=
  match o, o' with
  | Some r, Some r' => later_record r r'
  | None, Some r' => content_addressed e u r'
  | Some _, None => False
  | None, None => True
  end.
Definition records_step (e : Env) s s' : Prop :=
  forall u, record_step e u (pget s (SchemaKey u)) (pget s' (SchemaKey u)).

#[export] Instance records_step_preorder : PreorderE records_step.
Proof.
  intros e; split.
  - intros s u; unfold record_step, later_record; destruct (pget s (SchemaKey u)); auto.
  - intros s1 s2 s3 H1 H2 u; specialize (H1 u); specialize (H2 u); unfold record_step in *.
    destruct (pget s1 (SchemaKey u)), (pget s2 (SchemaKey u)), (pget s3 (SchemaKey u));
      try done; unfold later_record in *.
    + destruct H1 as [-> | ->], H2 as [-> | ->]; auto.
    + destruct H2 as [-> | ->]; done.
Qed.

#[export] Instance records_on_values : OnValues records_step.
Proof.
  intros e s s' Hs u; rewrite (sv_pget _ _ Hs (SchemaKey u)).
  unfold record_step, later_record; destruct (pget s (SchemaKey u)); auto.
Qed.

Definition not_record (k : RegPKey) : Prop :=
  match k with SchemaKey _ => False | _ => True end.

Lemma records_touches {A} (m : M RegSig X A) :
  preserves (touches (fun _ => True) not_record) m -> preserves records_step m.
Proof.
  intros Hm; apply (pres_via_touches _ _ _ _ Hm); intros e s s' [_ Hp] u.
  unfold record_step; rewrite (Hp (SchemaKey u)) by auto.
  unfold later_record; destruct (pget s (SchemaKey u)); auto.
Qed.
End evolution.

#[export] Hint Extern 5 (preserves records_step _) => (apply records_touches) : sas.
#[export] Hint Extern 1 (not_record _) => exact Logic.I : sas.

Section evolution_exec.
Context {X : Type} `{RegDeps X}.
Implicit Types (s : State RegSig X) (e : Env).
Abbreviation R := (records_step (X := X)).

Lemma records_register_internal owner schema resolver rev t parent m :
  preserves R (register_internal owner schema resolver rev t parent m).
Proof.
  intros e s u s' [Hu Hl Hy _ Hn Hw]%register_internal_ok v; unfold record_step.
  destruct (decide (u = v)) as [<-|Hne].
  - rewrite Hn, (wr_record _ _ _ _ _ _ _ Hw); unfold content_addressed; simpl; auto.
  - rewrite (wr_others _ _ _ _ _ _ _ Hw (SchemaKey v)) by auto.
    unfold later_record; destruct (pget s (SchemaKey v)); auto.
Qed.
#[local] Hint Resolve records_register_internal : sas.

Lemma records_register_batch_loop items auth uids : preserves R (register_batch_loop items auth uids).
Proof. revert auth uids; induction items; intros auth uids; simpl; pres_open. Qed.

Lemma deprecate_schema_ok sender u e s x s' :
  deprecate_schema sender u e s = Ok (x, s') ->
  exists r, visible s u = Some r /\ is_owner_address s u sender = true
    /\ authorized e sender = true /\ wrote (SchemaKey u) (Some (with_deprecated r)) s s'.
Proof.
  unfold deprecate_schema; intros Hr; reg_inv.
  match goal with Hv : Some ?r = visible ?s1 u, Hs : same_values s ?s1, Hs2 : same_values ?s1 ?s2 |- _ =>
    exists r; split_and!; [unfold visible in *; by rewrite Hs, <- (sv_pget _ _ Hs (SchemaKey u))
                          |by rewrite Hs, Hs2|done|] end.
  split; intros; by settle.
Qed.
Lemma records_deprecate_schema sender u : preserves R (deprecate_schema sender u).
Proof.
  intros e s x s' (r & Hv & _ & _ & Hw)%deprecate_schema_ok v.
  unfold record_step, later_record; destruct (decide (u = v)) as [<-|Hne]; settle.
  - unfold visible in Hv; destruct (is_deprecated s u); [done|]; rewrite Hv; auto.
  - destruct (pget s (SchemaKey v)); auto.
Qed.
#[local] Hint Resolve records_register_batch_loop records_deprecate_schema : sas.

Lemma records_exec c : preserves R (exec c).
Proof. destruct c; simpl; pres_open. Qed.

(** Over any history a schema is never removed and keeps everything but its
    deprecation flag. *)
Lemma record_kept h s u r :
  pget s (SchemaKey u) = Some r ->
  exists r', pget (run_history h s) (SchemaKey u) = Some r' /\ later_record r r'.
Proof.
  revert s r; induction h as [|[e c] h IH]; intros s r Hs; simpl; [by exists r; split; [|left]|].
  destruct (reg_transact_run e c s) as [(s' & Hr & ->)|(err & _ & ->)]; [|by apply IH].
  pose proof (records_exec c e s tt s' Hr u) as Hu; rewrite Hs in Hu; simpl in Hu.
  destruct (pget s' (SchemaKey u)) as [r1|] eqn:E1; [|done].
  destruct (IH s' r1 E1) as (r2 & H2 & Hl); exists r2; split; [done|].
  unfold later_record in *; destruct Hu as [-> | ->], Hl as [-> | ->]; auto.
Qed.
End evolution_exec.
