(* ===== verification/RegIndex.v ===== *)
(** * Schema registry: enumeration

    The registration index refines a list: the UIDs of all schemas in the
    order of registration, without repetition.  The paginated queries walk it. *)

From S2P Require Import Values.
From S2P Require Import Prelude Host Common TypedData Validation RegState RegAdmin RegOwners.
From S2P Require Import RegSchemas RegQuery RegCalls RegFrame RegRecord.

(** ** The list behind the index *)

Section enumeration.
Context {X : Type}.
Implicit Types (s : State RegSig X) (e : Env) (l : list UID).

(** [l] is the list of registered UIDs, oldest first. *)
Record enumerated l s : Prop := {
  en_count : next_index s = len l;
  en_entry : forall i : nat, (pget s (IndexKey (Z.of_nat i)) : option UID) = l !! i;
  en_nodup : NoDup l;
  en_records : forall u, is_Some (pget s (SchemaKey u)) <-> u ∈ l;
  en_width : len l <= u32_max
}.

(** A call only appends. *)
Definition appends (e : Env) s s' : Prop :=
  forall l, enumerated l s -> exists l', enumerated (l ++ l') s'.

#[export] Instance appends_preorder : PreorderE appends.
Proof.
  intros e; split.
  - intros s l Hl; exists []; by rewrite app_nil_r.
  - intros s1 s2 s3 H1 H2 l Hl; destruct (H1 l Hl) as [l1 Hl1], (H2 _ Hl1) as [l2 Hl2].
    exists (l1 ++ l2); by rewrite app_assoc.
Qed.

(** What the enumeration depends on. *)
Lemma enumerated_values l s s' :
  enumerated l s -> pget s' SCHEMA_COUNT = pget s SCHEMA_COUNT ->
  (forall i, pget s' (IndexKey i) = pget s (IndexKey i)) ->
  (forall u, is_Some (pget s' (SchemaKey u)) <-> is_Some (pget s (SchemaKey u))) ->
  enumerated l s'.
Proof.
  intros [Hc He Hd Hr Hw] Hcount Hi Hs; split; [| |done| |done].
  - unfold next_index in *; by rewrite Hcount.
  - intros i; rewrite Hi; apply He.
  - intros u; by rewrite Hs.
Qed.

Lemma enumerated_same l s s' : same_values s s' -> enumerated l s -> enumerated l s'.
Proof.
  intros Hs Hl; eapply enumerated_values; [done|apply Hs|intros; apply Hs|].
  intros u; by rewrite (sv_pget _ _ Hs (SchemaKey u)).
Qed.
#[export] Instance appends_on_values : OnValues appends.
Proof. intros e s s' Hs l Hl; exists []; rewrite app_nil_r; by eapply enumerated_same. Qed.

Definition not_indexed (k : RegPKey) : Prop :=
  match k with SchemaKey _ | IndexKey _ | SCHEMA_COUNT => False | _ => True end.

Lemma appends_touches {A} (m : M RegSig X A) :
  preserves (touches (fun _ => True) not_indexed) m -> preserves appends m.
Proof.
  intros Hm; apply (pres_via_touches _ _ _ _ Hm); intros e s s' [_ Hp] l Hl.
  exists []; rewrite app_nil_r; eapply enumerated_values; [done|apply Hp; auto|intros; apply Hp; auto|].
  intros u; by rewrite (Hp (SchemaKey u)) by auto.
Qed.

Lemma enumerated_written u owner r t m s s' l :
  pget s (SchemaKey u) = None -> written u owner r t m s s' ->
  enumerated l s -> enumerated (l ++ [u]) s'.
Proof.
  intros Hn Hw [Hc He Hd Hr Hwd]; split.
  - unfold next_index; rewrite (wr_count _ _ _ _ _ _ _ Hw), Hc; simpl.
    unfold len; rewrite length_app; simpl; lia.
  - intros i; destruct (decide (i = length l)) as [->|Hi].
    + rewrite list_lookup_middle by done; change (Z.of_nat (length l)) with (len l).
      rewrite <- Hc; apply Hw.
    + rewrite (wr_index _ _ _ _ _ _ _ Hw (Z.of_nat i)) by (rewrite Hc; unfold len; lia).
      rewrite He; destruct (decide (i < length l)%nat); [by rewrite lookup_app_l|].
      rewrite !lookup_ge_None_2; [done|rewrite length_app; simpl; lia|lia].
  - apply NoDup_app; split_and!; [done| |apply NoDup_singleton].
    intros v Hv ->%list_elem_of_singleton; apply Hr in Hv as [r' Hv]; congruence.
  - intros v; rewrite elem_of_app, list_elem_of_singleton, <- Hr.
    destruct (decide (u = v)) as [<-|Hne].
    + rewrite (wr_record _ _ _ _ _ _ _ Hw); split; [by right|eauto].
    + rewrite (wr_others _ _ _ _ _ _ _ Hw (SchemaKey v)) by auto.
      split; [by left|by intros [?| ->]].
  - unfold len in *; rewrite length_app; simpl; pose proof (wr_room _ _ _ _ _ _ _ Hw); lia.
Qed.
End enumeration.

#[export] Hint Extern 5 (preserves appends _) => (apply appends_touches) : sas.
#[export] Hint Extern 1 (not_indexed _) => exact Logic.I : sas.

Section enumeration_exec.
Context {X : Type} `{RegDeps X}.
Implicit Types (s : State RegSig X) (e : Env).
Abbreviation R := (appends (X := X)).

Lemma appends_register_internal owner schema resolver rev t parent m :
  preserves R (register_internal owner schema resolver rev t parent m).
Proof.
  intros e s u s' [_ _ _ _ Hn Hw]%register_internal_ok l Hl; exists [u].
  by eapply enumerated_written.
Qed.
#[local] Hint Resolve appends_register_internal : sas.

Lemma appends_register_batch_loop items auth uids : preserves R (register_batch_loop items auth uids).
Proof. revert auth uids; induction items; intros auth uids; simpl; pres_open. Qed.

Lemma appends_deprecate_schema sender u : preserves R (deprecate_schema sender u).
Proof.
  intros e s x s' (r & Hv & _ & _ & Hw)%deprecate_schema_ok l Hl; exists []; rewrite app_nil_r.
  eapply enumerated_values; [done|intros; by settle..|].
  intros v; destruct (decide (u = v)) as [<-|Hne]; settle; [|done].
  unfold visible in Hv; destruct (is_deprecated s u); [done|]; rewrite Hv; by split; eauto.
Qed.
#[local] Hint Resolve appends_register_batch_loop appends_deprecate_schema : sas.

Lemma appends_exec c : preserves R (exec c).
Proof. destruct c; simpl; pres_open. Qed.

Lemma enumerated_history h s l :
  enumerated l s -> exists l', enumerated (l ++ l') (run_history h s).
Proof.
  intros Hl; apply (reg_history_inv (fun s' => exists l', enumerated (l ++ l') s')).
  - intros c e s1 s2 Hr [l1 H1]; destruct (appends_exec c e s1 tt s2 Hr _ H1) as [l2 H2].
    exists (l1 ++ l2); by rewrite app_assoc.
  - exists []; by rewrite app_nil_r.
Qed.

(** A new registry has no schemas. *)
Lemma enumerated_empty (x : X) : enumerated [] (empty_state RegSig x).
Proof.
  split; [done|done|apply NoDup_nil_2| |done].
  intros u; split; [by intros [? ?]|by intros ?%elem_of_nil].
Qed.
End enumeration_exec.

(** ** Pages *)

Section pages.
Context {X : Type}.
Implicit Types (s : State RegSig X) (e : Env) (l : list UID).

Lemma extend_ttl_run e s : exists s', extend_instance_ttl e s = Ok (tt, s') /\ same_values s s'.
Proof.
  unfold extend_instance_ttl, inst_extend_ttl; rewrite Z.ltb_irrefl; eexists; split; [done|].
  by split.
Qed.
Lemma renew_run k e s :
  is_Some (pget s k) -> exists s', renew k e s = Ok (tt, s') /\ same_values s s'.
Proof.
  intros [v Hv]; destruct (pers_extend_run (C := RegSig) k v LEDGERS_IN_ONE_YEAR e s Hv) as [z Hr].
  eexists; split; [exact Hr|]; by eapply quiet_renew.
Qed.

#[export] Instance visible_proper : Proper (same_values ==> eq ==> eq) (visible (X := X)).
Proof.
  intros s s' Hs u ? <-; unfold visible; rewrite Hs; by rewrite (sv_pget _ _ Hs (SchemaKey u)).
Qed.

(** The active schemas among the UIDs from position [i] to [j]. *)
Definition active_between s l (i j : nat) : list SchemaRecord :=
  omap (visible s) (take (j - i) (drop i l)).

Lemma page_entry_run index acc u e s :
  pget s (IndexKey index) = Some u ->
  exists s', page_entry index acc e s = Ok (acc ++ option_list (visible s u), s')
    /\ same_values s s'.
Proof.
  intros Hu; unfold page_entry; rewrite (bind_run _ _ _ _ (Some u) s) by (unfold pers_get; by rewrite Hu).
  destruct (renew_run (IndexKey index) e s) as (s1 & H1 & Hs1); [rewrite Hu; eauto|].
  cbn beta iota; rewrite (bind_run _ _ _ _ _ _ H1).
  unfold visible; rewrite (is_deprecated_proper _ _ Hs1 u u eq_refl).
  rewrite <- (sv_pget _ _ Hs1 (SchemaKey u)).
  change (mbind ?f (read_state ?g) e s1) with (f (g s1) e s1); cbn beta.
  destruct (is_deprecated s1 u); [exists s1; by rewrite app_nil_r|].
  change (mbind ?f (pers_get (SchemaKey u)) e s1) with (f (pget s1 (SchemaKey u)) e s1); cbn beta.
  destruct (pget s1 (SchemaKey u)) as [r|] eqn:Er; [|exists s1; by rewrite app_nil_r].
  destruct (renew_run (SchemaKey u) e s1) as (s2 & H2 & Hs2); [rewrite Er; eauto|].
  exists s2; split; [by rewrite (bind_run _ _ _ _ _ _ H2)|by transitivity s1].
Qed.

Lemma active_between_step s l i j u :
  l !! i = Some u -> (i < j)%nat ->
  active_between s l i j = option_list (visible s u) ++ active_between s l (S i) j.
Proof.
  intros Hu Hij; unfold active_between.
  rewrite (drop_S l u i Hu); replace (j - i)%nat with (S (j - S i)) by lia; simpl.
  by destruct (visible s u).
Qed.
Lemma active_between_nil s l i : active_between s l i i = [].
Proof. unfold active_between; by rewrite Nat.sub_diag. Qed.
Lemma active_between_same s s' l i j :
  same_values s s' -> active_between s' l i j = active_between s l i j.
Proof.
  intros Hs; unfold active_between; apply list_omap_ext, Forall2_same_length_lookup_2; [done|].
  intros k u ? -> [= ->]; by rewrite Hs.
Qed.

(** A page from position [i] ends at [j] with [found]: within the budget and
    the limit, and not before the end of the list unless one is exhausted. *)
Definition page_ends (budget : nat) (limit : Z) l (i j : nat) (found : list SchemaRecord) : Prop :=
  (i <= j <= length l)%nat /\ (j - i <= budget)%nat /\ len found <= limit
  /\ (j = length l \/ (j - i)%nat = budget \/ len found = limit).

Lemma page_loop_run b limit l i acc e s :
  enumerated l s -> (i <= length l)%nat -> len acc <= limit ->
  exists j s', page_loop b (len l) limit (Z.of_nat i) acc e s
               = Ok ((acc ++ active_between s l i j, Z.of_nat j), s')
    /\ same_values s s' /\ page_ends b limit l i j (acc ++ active_between s l i j).
Proof.
  unfold page_ends.
  revert i acc s; induction b as [|b IH]; intros i acc s Hl Hi Ha; simpl.
  { exists i, s; rewrite active_between_nil, app_nil_r; split_and!; [done|done|lia..]. }
  destruct (Z.ltb_spec (Z.of_nat i) (len l)) as [Hlt|Hge]; simpl.
  2: { exists i, s; rewrite active_between_nil, app_nil_r; unfold len in *.
       split_and!; [done|done|lia..]. }
  destruct (Z.ltb_spec (len acc) limit) as [Hlim|Hlim].
  2: { exists i, s; rewrite active_between_nil, app_nil_r; split_and!; [done|done|lia..]. }
  destruct (lookup_lt_is_Some_2 l i) as [u Hu]; [unfold len in Hlt; lia|].
  destruct (page_entry_run (Z.of_nat i) acc u e s) as (s1 & H1 & Hs1);
    [by rewrite (en_entry _ _ Hl i)|].
  rewrite (bind_run _ _ _ _ _ _ H1).
  replace (sat_add u32_max (Z.of_nat i) 1) with (Z.of_nat (S i))
    by (pose proof (en_width _ _ Hl); unfold sat_add, len in *; lia).
  destruct (IH (S i) (acc ++ option_list (visible s u)) s1) as (j & s2 & H2 & Hs2 & Hj & Hb & Hlen & Hend).
  - by eapply enumerated_same.
  - unfold len in Hlt; lia.
  - unfold len in *; rewrite length_app; destruct (visible s u); simpl; lia.
  - rewrite (active_between_same _ _ _ _ _ Hs1), <- app_assoc in *.
    rewrite <- (active_between_step s l i j u Hu) in * by lia.
    exists j, s2; split_and!; [done|by transitivity s1|lia..|].
    destruct Hend as [?|[?|?]]; [by left|right; left; lia|by right; right].
Qed.

Lemma schema_count_run e s :
  exists s', schema_count e s = Ok (next_index s, s') /\ same_values s s'.
Proof.
  unfold schema_count, next_index.
  change (mbind ?f (pers_get SCHEMA_COUNT) e s) with (f (pget s SCHEMA_COUNT) e s); cbn beta zeta.
  destruct (pget s SCHEMA_COUNT) as [n|] eqn:En; [cbn [default from_option id]|by exists s].
  destruct (0 <? n); [|by exists s].
  destruct (renew_run SCHEMA_COUNT e s) as (s1 & H1 & Hs1); [rewrite En; eauto|].
  exists s1; split; [by rewrite (bind_run _ _ _ _ _ _ H1)|done].
Qed.

(** [get_schemas_paginated] returns a page and the position after it. *)
Lemma paginated_run start limit l e s :
  enumerated l s -> (start <= length l)%nat -> 0 < limit ->
  exists j s', get_schemas_paginated (Z.of_nat start) limit e s
               = Ok ((active_between s l start j, Z.of_nat j), s')
    /\ same_values s s' /\ page_ends MAX_SCAN_BUDGET limit l start j (active_between s l start j).
Proof.
  intros Hl Hstart Hlim; unfold get_schemas_paginated.
  destruct (extend_ttl_run e s) as (s1 & H1 & Hs1); rewrite (bind_run _ _ _ _ _ _ H1).
  destruct (schema_count_run e s1) as (s2 & H2 & Hs2); rewrite (bind_run _ _ _ _ _ _ H2).
  assert (Hs : same_values s s2) by (by transitivity s1).
  rewrite (en_count l s1) by (by eapply enumerated_same).
  rewrite (proj2 (Z.eqb_neq limit 0)) by lia; cbn [orb].
  destruct (Z.leb_spec (len l) (Z.of_nat start)) as [Hge|Hlt].
  - exists start, s2; rewrite active_between_nil; unfold page_ends, len in *.
    replace (length l) with start by lia; split_and!; [done|done|simpl; lia..].
  - destruct (page_loop_run MAX_SCAN_BUDGET limit l start [] e s2) as (j & s3 & H3 & Hs3 & Hend);
      [by eapply enumerated_same|done|unfold len; simpl; lia|].
    cbn [app] in *; rewrite !(active_between_same _ _ _ _ _ Hs) in *.
    exists j, s3; split_and!; [done|by transitivity s2|done].
Qed.

(** A client that follows the cursor to the end. *)
Fixpoint all_schemas (fuel : nat) (start limit : Z) : M RegSig X (list SchemaRecord) :=
  match fuel with
  | O => mret []
  | S fuel' =>
    p ← get_schemas_paginated start limit;
    if p.2 =? start then mret p.1
    else rest ← all_schemas fuel' p.2 limit; mret (p.1 ++ rest)
  end.

Lemma active_between_app s l i j k :
  (i <= j <= k)%nat -> (k <= length l)%nat ->
  active_between s l i j ++ active_between s l j k = active_between s l i k.
Proof.
  intros Hij Hk; remember (j - i)%nat as d eqn:Hd; revert i Hij Hd.
  induction d as [|d IH]; intros i Hij Hd.
  - replace j with i by lia; by rewrite active_between_nil.
  - destruct (lookup_lt_is_Some_2 l i) as [u Hu]; [lia|].
    rewrite !(active_between_step s l i _ u Hu), <- app_assoc by lia.
    by rewrite IH by lia.
Qed.

Lemma all_schemas_run fuel start limit l e s :
  enumerated l s -> (start <= length l)%nat -> 0 < limit -> (length l - start < fuel)%nat ->
  exists s', all_schemas fuel (Z.of_nat start) limit e s
             = Ok (active_between s l start (length l), s') /\ same_values s s'.
Proof.
  revert start s; induction fuel as [|fuel IH]; intros start s Hl Hstart Hlim Hf; [lia|]; simpl.
  destruct (paginated_run start limit l e s Hl Hstart Hlim)
    as (j & s1 & H1 & Hs1 & Hj & Hb & Hlen & Hend).
  rewrite (bind_run _ _ _ _ _ _ H1); simpl.
  destruct (Z.eqb_spec (Z.of_nat j) (Z.of_nat start)) as [Heq|Hne].
  - exists s1; split; [|done].
    assert (j = start) by lia; subst j; rewrite active_between_nil in *.
    assert (start = length l) as ->; [|by rewrite active_between_nil].
    destruct Hend as [?|[Hx|Hx]]; [done|unfold MAX_SCAN_BUDGET in Hx; lia|].
    unfold len in Hx; simpl in Hx; lia.
  - destruct (IH j s1) as (s2 & H2 & Hs2); [by eapply enumerated_same|lia|done|lia|].
    rewrite (bind_run _ _ _ _ _ _ H2), (active_between_same _ _ _ _ _ Hs1).
    exists s2; split; [|by transitivity s1].
    by rewrite active_between_app by lia.
Qed.

Lemma active_between_all s l : active_between s l 0 (length l) = omap (visible s) l.
Proof. unfold active_between; by rewrite Nat.sub_0_r, drop_0, firstn_all. Qed.
End pages.

(** ** The attester list of a schema

    The entries and the counter of an access control list refine a finite set
    of attesters; what the issuer queries answer. *)

Section acl.
Context {X : Type}.
Implicit Types (s : State RegSig X) (e : Env) (l : list Address).

(** [l] is the set of attesters listed for [u]. *)
Record lists s (u : UID) l : Prop := {
  ls_entry : forall a, (pget s (SCHEMA_ACL u a) : option bool)
                       = if bool_decide (a ∈ l) then Some true else None;
  ls_count : acl_count s u = len l;
  ls_nodup : NoDup l
}.

(** Every list is a set of at most [n] attesters. *)
Definition acl_ok (n : Z) s : Prop := forall u, exists l, lists s u l /\ len l <= n.

Lemma lists_frame s s' u l :
  (forall a, pget s' (SCHEMA_ACL u a) = pget s (SCHEMA_ACL u a)) ->
  pget s' (SCHEMA_ACL_COUNT u) = pget s (SCHEMA_ACL_COUNT u) ->
  lists s u l -> lists s' u l.
Proof.
  intros Ha Hc [He Hn Hd]; split; [|unfold acl_count in *; by rewrite Hc|done].
  intros a; etrans; [apply Ha|apply He].
Qed.

Lemma lists_same s s' u l : same_values s s' -> lists s u l -> lists s' u l.
Proof. intros Hs; apply lists_frame; intros; apply Hs. Qed.

(** The entry of [a] and the counter of [u] changed. *)
Lemma lists_update s s' u l l' a :
  pget s' (SCHEMA_ACL u a) = (if bool_decide (a ∈ l') then Some true else None) ->
  (forall c, a <> c -> pget s' (SCHEMA_ACL u c) = pget s (SCHEMA_ACL u c)) ->
  acl_count s' u = len l' -> NoDup l' -> (forall c, a <> c -> c ∈ l <-> c ∈ l') ->
  lists s u l -> lists s' u l'.
Proof.
  intros Ha Hc Hn Hd Hl [He _ _]; split; [|done..].
  intros c; destruct (decide (a = c)) as [<-|Hne]; [exact Ha|].
  etrans; [by apply Hc|]; etrans; [apply He|].
  by rewrite (bool_decide_ext _ _ (Hl c Hne)).
Qed.

Definition with_attester (a : Address) l : list Address := if decide (a ∈ l) then l else a :: l.
Definition without_attester (a : Address) l : list Address := filter (fun c => c <> a) l.

Lemma elem_with a c l : c ∈ with_attester a l <-> c = a \/ c ∈ l.
Proof.
  unfold with_attester; destruct (decide (a ∈ l)); [|by rewrite elem_of_cons].
  split; [by right|by intros [->|]].
Qed.
Lemma elem_without a c l : c ∈ without_attester a l <-> c <> a /\ c ∈ l.
Proof. unfold without_attester; by rewrite list_elem_of_filter. Qed.
Lemma without_absent a l : a ∉ l -> without_attester a l = l.
Proof.
  unfold without_attester; induction l as [|b l IH]; [done|]; intros [Hb Hl]%not_elem_of_cons.
  by rewrite filter_cons_True, IH by auto.
Qed.
Lemma len_without a l : NoDup l -> a ∈ l -> len l = len (without_attester a l) + 1.
Proof.
  unfold len; induction 1 as [|b l Hb Hd IH]; [by intros ?%elem_of_nil|].
  intros [->|Ha]%elem_of_cons; unfold without_attester in *.
  - rewrite filter_cons_False by (by intros ?); simpl.
    pose proof (without_absent b l Hb) as Hf; unfold without_attester in Hf; rewrite Hf; lia.
  - rewrite filter_cons_True by (intros ->; done); simpl length.
    specialize (IH Ha); lia.
Qed.

(** Adding and removing are the set operations, authorised by the creator;
    the lists of other schemas are as they were. *)
Definition acl_changed e s s' (u : UID) l l' : Prop :=
  (exists owner, pget s (SCHEMA_CREATOR u) = Some owner /\ authorized e owner = true)
  /\ lists s' u l' /\ forall v k, u <> v -> lists s v k -> lists s' v k.

Lemma acl_changed_same e s s1 s2 s' u l l' :
  same_values s s1 -> same_values s2 s' -> acl_changed e s1 s2 u l l' -> acl_changed e s s' u l l'.
Proof.
  intros H1 H2 ((owner & Ho & Ha) & Hl & Hothers); split_and!.
  - exists owner; split; [by rewrite <- (sv_pget _ _ H1 (SCHEMA_CREATOR u))|done].
  - by eapply lists_same.
  - intros v k Hv Hk; eapply lists_same, Hothers, lists_same; eauto.
Qed.

Lemma add_attester_ok u a e s x s' l :
  lists s u l -> len l < u32_max ->
  add_authorized_attester u a e s = Ok (x, s') -> acl_changed e s s' u l (with_attester a l).
Proof.
  intros Hl Hw Hr; unfold add_authorized_attester in Hr; reg_inv.
  match goal with H1 : same_values s ?s1, H2 : same_values ?s2 s' |- _ =>
    apply (acl_changed_same e s s1 s2 s' u l _ H1 H2); apply (lists_same s s1) in Hl; [|done] end.
  match goal with Hc : pget ?s1 (SCHEMA_CREATOR u) = Some ?o |- acl_changed _ ?s1 _ _ _ _ =>
    split; [by exists o|] end.
  pose proof (ls_entry _ u l Hl a) as He; rewrite He in *; unfold with_attester.
  destruct (decide (a ∈ l)) as [Hin|Hin].
  - rewrite bool_decide_true in * by done; simpl in *; reg_inv; done.
  - rewrite bool_decide_false in * by done; simpl in *; reg_inv.
    pose proof (ls_nodup _ _ _ Hl) as Hd; pose proof (ls_count _ _ _ Hl) as Hn; split.
    + eapply (lists_update _ _ u l _ a); [..|exact Hl].
      * settle; by rewrite bool_decide_true by (by left).
      * intros c Hc; by settle.
      * unfold acl_count at 1; settle; unfold sat_add; rewrite Hn; unfold len in *; simpl; lia.
      * by constructor.
      * intros c Hc; rewrite elem_of_cons; split; [by right|by intros [->|]].
    + intros v k Hv; apply lists_frame; intros; by settle.
Qed.

Lemma remove_attester_ok u a e s x s' l :
  lists s u l -> remove_authorized_attester u a e s = Ok (x, s') ->
  acl_changed e s s' u l (without_attester a l).
Proof.
  intros Hl Hr; unfold remove_authorized_attester in Hr; reg_inv.
  match goal with H1 : same_values s ?s1, H2 : same_values ?s2 s' |- _ =>
    apply (acl_changed_same e s s1 s2 s' u l _ H1 H2); apply (lists_same s s1) in Hl; [|done] end.
  match goal with Hc : pget ?s1 (SCHEMA_CREATOR u) = Some ?o |- acl_changed _ ?s1 _ _ _ _ =>
    split; [by exists o|] end.
  pose proof (ls_entry _ u l Hl a) as He; rewrite He in *.
  destruct (decide (a ∈ l)) as [Hin|Hin].
  - rewrite (bool_decide_true (a ∈ l)) in * by done; simpl in *; reg_inv.
    pose proof (ls_nodup _ _ _ Hl) as Hd; pose proof (ls_count _ _ _ Hl) as Hn.
    pose proof (len_without a l Hd Hin) as Hlen.
    match goal with Hq : (if ?b then _ else _) _ ?s1 = Ok (_, ?s2) |- _ =>
      assert (Hcount : exists o, wrote (SCHEMA_ACL_COUNT u) o s1 s2
                                 /\ default 0 o = len (without_attester a l)) end.
    { match goal with Hq : (if sat_sub (acl_count ?s1 u) 1 =? 0 then _ else _) _ _ = _ |- _ =>
        assert (Hc1 : acl_count s1 u = len l) by (rewrite <- Hn; unfold acl_count; by settle) end.
      replace (sat_sub _ 1) with (len (without_attester a l)) in *
        by (rewrite Hc1; unfold sat_sub, len in *; lia).
      destruct (Z.eqb_spec (len (without_attester a l)) 0); reg_inv; eexists; split; eauto. }
    destruct Hcount as (o & Hw & Ho); split.
    + eapply (lists_update _ _ u l _ a); [..|exact Hl].
      * settle; rewrite bool_decide_false; [done|]; rewrite elem_without; tauto.
      * intros c Hc; by settle.
      * unfold acl_count; by settle.
      * by apply NoDup_filter.
      * intros c Hc; rewrite elem_without; split; [by split; [congruence|]|tauto].
    + intros v k Hv; apply lists_frame; intros; by settle.
  - rewrite (bool_decide_false (a ∈ l)) in * by done; simpl in *; reg_inv.
    by rewrite without_absent.
Qed.

Definition not_acl (k : RegPKey) : Prop :=
  match k with SCHEMA_ACL _ _ | SCHEMA_ACL_COUNT _ => False | _ => True end.

(** No other call touches a list. *)
Definition acl_kept (e : Env) s s' : Prop := forall u l, lists s u l -> lists s' u l.
#[export] Instance acl_kept_preorder : PreorderE acl_kept.
Proof. intros e; split; [by intros s u l|]; intros s1 s2 s3 H1 H2 u l Hl; auto. Qed.
#[export] Instance acl_on_values : OnValues acl_kept.
Proof. intros e s s' Hs u l; by apply lists_same. Qed.
Lemma acl_touches {A} (m : M RegSig X A) :
  preserves (touches (fun _ => True) not_acl) m -> preserves acl_kept m.
Proof.
  intros Hm; apply (pres_via_touches _ _ _ _ Hm); intros e s s' [_ Hp] u l.
  apply lists_frame; intros; apply Hp; simpl; tauto.
Qed.
End acl.

#[export] Hint Extern 5 (preserves acl_kept _) => (apply acl_touches) : sas.
#[export] Hint Extern 1 (not_acl _) => exact Logic.I : sas.

Section acl_exec.
Context {X : Type} `{RegDeps X}.
Implicit Types (s : State RegSig X) (e : Env) (l : list Address).

Lemma acl_register_batch_loop items auth uids :
  preserves (acl_kept (X := X)) (register_batch_loop items auth uids).
Proof. revert auth uids; induction items; intros auth uids; simpl; pres_open. Qed.
#[local] Hint Resolve acl_register_batch_loop : sas.

(** The set a call leaves for a schema. *)
Definition acl_after (c : RegCall) (u : UID) l : list Address :=
  match c with
  | RegAddAuthorizedAttester v a => if decide (v = u) then with_attester a l else l
  | RegRemoveAuthorizedAttester v a => if decide (v = u) then without_attester a l else l
  | _ => l
  end.

Lemma lists_len s u l l0 : lists s u l -> lists s u l0 -> len l = len l0.
Proof. intros [_ <- _] [_ Hc _]; done. Qed.

(** Every call is the operation on sets. *)
Lemma acl_exec n c e s s' :
  n < u32_max -> acl_ok n s -> exec c e s = Ok (tt, s') ->
  forall u l, lists s u l -> lists s' u (acl_after c u l).
Proof.
  intros Hn Hok Hr u l Hl; destruct c; simpl in *;
    try (refine (_ (_ : preserves (acl_kept (X := X)) _));
         [intros Hk; exact (Hk _ _ _ _ Hr u l Hl)|pres_open]);
    match type of Hr with _ ?v _ _ _ = _ => destruct (Hok v) as (l0 & Hl0 & Hlen) end;
    destruct (decide _) as [->|Hne].
  - pose proof (lists_len _ _ _ _ Hl Hl0).
    by destruct (add_attester_ok _ _ _ _ _ _ l Hl ltac:(lia) Hr) as (_ & ? & _).
  - destruct (add_attester_ok _ _ _ _ _ _ l0 Hl0 ltac:(lia) Hr) as (_ & _ & Ho); by apply Ho.
  - by destruct (remove_attester_ok _ _ _ _ _ _ l Hl Hr) as (_ & ? & _).
  - destruct (remove_attester_ok _ _ _ _ _ _ l0 Hl0 Hr) as (_ & _ & Ho); by apply Ho.
Qed.

Lemma acl_after_len c u l : len (acl_after c u l) <= len l + 1.
Proof.
  unfold len; destruct c; simpl; try lia; destruct (decide _); try lia.
  - unfold with_attester; destruct (decide _); simpl; lia.
  - unfold without_attester; pose proof (length_filter (fun c => c <> attester) l); lia.
Qed.

Lemma acl_ok_history h n s :
  acl_ok n s -> n + len h <= u32_max -> acl_ok (n + len h) (run_history h s).
Proof.
  revert n s; induction h as [|[e c] h IH]; intros n s Hs Hn.
  { by replace (n + len []) with n by (unfold len; simpl; lia). }
  replace (n + len ((e, c) :: h)) with (n + 1 + len h) in * by (unfold len; simpl; lia).
  pose proof (Zle_0_nat (length h)); apply IH; [|done].
  destruct (reg_transact_run e c s) as [(s' & Hr & ->)|(err & _ & ->)]; intros u;
    destruct (Hs u) as (l & Hl & Hlen); [|exists l; split; [done|lia]].
  exists (acl_after c u l); split; [|pose proof (acl_after_len c u l); lia].
  eapply (acl_exec n); [unfold len in *; lia|done..].
Qed.

Lemma acl_ok_empty (x : X) : acl_ok 0 (empty_state RegSig x).
Proof.
  intros u; exists []; split; [|done]; split; [|done|apply NoDup_nil_2].
  intros a; by rewrite bool_decide_false by apply not_elem_of_nil.
Qed.

(** *** What the queries answer *)

Lemma is_attester_authorized_run u a l e s :
  lists s u l ->
  exists s', is_attester_authorized u a e s
             = Ok (negb (is_deprecated s u) && bool_decide (a ∈ l), s') /\ same_values s s'.
Proof.
  intros Hl; unfold is_attester_authorized.
  destruct (extend_ttl_run e s) as (s1 & H1 & Hs1); rewrite (bind_run _ _ _ _ _ _ H1).
  change (mbind ?f (read_state ?g) e s1) with (f (g s1) e s1); cbn beta.
  rewrite (is_deprecated_proper _ _ Hs1 u u eq_refl).
  destruct (is_deprecated s1 u); [by exists s1|].
  change (mbind ?f (pers_get (SCHEMA_ACL u a)) e s1) with (f (pget s1 (SCHEMA_ACL u a)) e s1).
  cbn beta; pose proof (ls_entry s1 u l (lists_same _ _ _ _ Hs1 Hl) a) as He; rewrite He.
  destruct (decide (a ∈ l)) as [Hin|Hin].
  - rewrite !bool_decide_true in * by done; simpl.
    destruct (renew_run (SCHEMA_ACL u a) e s1) as (s2 & H2 & Hs2); [rewrite He; eauto|].
    exists s2; split; [by rewrite (bind_run _ _ _ _ _ _ H2)|by transitivity s1].
  - rewrite !bool_decide_false in * by done; by exists s1.
Qed.

Lemma attester_count_run u l e s :
  lists s u l ->
  exists s', get_authorized_attester_count u e s = Ok (len l, s') /\ same_values s s'.
Proof.
  intros Hl; destruct (extend_ttl_run e s) as (s1 & H1 & Hs1); exists s1; split; [|done].
  unfold get_authorized_attester_count; rewrite (bind_run _ _ _ _ _ _ H1).
  unfold read_state; by rewrite (ls_count s1 u l (lists_same _ _ _ _ Hs1 Hl)).
Qed.
Lemma is_schema_restricted_run u l e s :
  lists s u l ->
  exists s', is_schema_restricted u e s = Ok (bool_decide (l <> []), s') /\ same_values s s'.
Proof.
  intros Hl; destruct (extend_ttl_run e s) as (s1 & H1 & Hs1); exists s1; split; [|done].
  unfold is_schema_restricted; rewrite (bind_run _ _ _ _ _ _ H1).
  unfold mbind, M_bind, read_state, mret, M_ret.
  rewrite (ls_count s1 u l (lists_same _ _ _ _ Hs1 Hl)); by destruct l.
Qed.
End acl_exec.
