(* ===== verification/RegLineage.v ===== *)
(** * Schema registry: lineage and the issuer's queries

    Parent links form trees of bounded depth: every lineage walk terminates
    at a root within the limit, whatever was registered.  The queries SAS makes
    while issuing answer from the registry's stored values. *)

From S2P Require Import Values.
From S2P Require Import Prelude Host Common TypedData Validation RegState RegAdmin RegOwners.
From S2P Require Import RegSchemas RegQuery RegCalls RegFrame RegRecord RegIndex.

Section lineage.
Context {X : Type} `{RegDeps X}.
Implicit Types (s : State RegSig X) (e : Env).

(** [l] are the ancestors of the registered schema [u], parent first. *)
Inductive ancestry s : UID -> list UID -> Prop :=
  | ancestry_root u r :
      pget s (SchemaKey u) = Some r -> sr_parent r = None -> ancestry s u []
  | ancestry_child u r p l :
      pget s (SchemaKey u) = Some r -> sr_parent r = Some p -> ancestry s p l ->
      ancestry s u (p :: l).

Definition rooted s : Prop :=
  forall u r, pget s (SchemaKey u) = Some r ->
  exists l, ancestry s u l /\ (length l <= MAX_SCHEMA_LINEAGE_DEPTH)%nat.

Lemma later_parent r r' : later_record r r' -> sr_parent r' = sr_parent r.
Proof. by intros [-> | ->]. Qed.

Lemma ancestry_step e s s' u l : records_step e s s' -> ancestry s u l -> ancestry s' u l.
Proof.
  intros Hs; induction 1 as [u r Hr Hp|u r p l Hr Hp Hl IH];
    pose proof (Hs u) as Hu; rewrite Hr in Hu; simpl in Hu;
    destruct (pget s' (SchemaKey u)) as [r'|] eqn:Er; try done.
  - eapply ancestry_root; [done|by rewrite (later_parent _ _ Hu)].
  - eapply ancestry_child; [done|by rewrite (later_parent _ _ Hu)|done].
Qed.

(** [lineage_root] computes the depth. *)
Lemma walk_depth s u l fuel hops root depth :
  ancestry s u l -> 0 <= hops -> hops + Z.of_nat fuel <= u32_max ->
  lineage_walk s fuel u hops = Some (root, depth) -> depth = hops + len l.
Proof.
  intros Hl; revert fuel hops; induction Hl as [u r Hr Hp|u r p l Hr Hp Hl IH];
    intros [|fuel] hops H0 Hb Hw; simpl in Hw; try done; unfold parent_of in Hw;
    rewrite Hr, Hp in Hw.
  - injection Hw as <- <-; unfold len; simpl; lia.
  - apply IH in Hw; unfold sat_add, len in *; simpl; lia.
Qed.

(** Every call keeps the bound. *)
Definition stays_rooted (e : Env) s s' : Prop := rooted s -> rooted s'.
#[export] Instance stays_rooted_preorder : PreorderE stays_rooted.
Proof. intros e; split; [by intros s Hs|]; intros s1 s2 s3 H1 H2 Hs; auto. Qed.

Lemma rooted_step e s s' :
  records_step e s s' ->
  (forall u, is_Some (pget s' (SchemaKey u)) -> is_Some (pget s (SchemaKey u))) ->
  rooted s -> rooted s'.
Proof.
  intros Hs Hd Hr u r' Hu; destruct (Hd u) as [r Hur]; [by eexists|].
  destruct (Hr u r Hur) as (l & Hl & Hlen); exists l; split; [by eapply ancestry_step|done].
Qed.

#[export] Instance rooted_on_values : OnValues stays_rooted.
Proof.
  intros e s s' Hs; refine (rooted_step e s s' _ _); [by apply records_on_values|].
  intros u; by rewrite (sv_pget _ _ Hs (SchemaKey u)).
Qed.

Lemma rooted_touches {A} (m : M RegSig X A) :
  preserves (touches (fun _ => True) not_record) m -> preserves stays_rooted m.
Proof.
  intros Hm e s a s' Hr; pose proof (records_touches m Hm e s a s' Hr) as Hs.
  apply Hm in Hr as [_ Hp]; refine (rooted_step e s s' Hs _).
  intros u; by rewrite (Hp (SchemaKey u)) by auto.
Qed.

Lemma rooted_deprecate_schema sender u : preserves stays_rooted (deprecate_schema sender u).
Proof.
  intros e s x s' Hr; pose proof (records_deprecate_schema sender u e s x s' Hr) as Hs.
  apply deprecate_schema_ok in Hr as (r & Hv & _ & _ & Hw); refine (rooted_step e s s' Hs _).
  intros v; destruct (decide (u = v)) as [<-|Hne]; settle; [|done].
  unfold visible in Hv; destruct (is_deprecated s u); [done|]; rewrite Hv; eauto.
Qed.

Lemma rooted_register_internal owner schema resolver rev t parent m :
  preserves stays_rooted (register_internal owner schema resolver rev t parent m).
Proof.
  intros e s u s' Hr; pose proof (records_register_internal _ _ _ _ _ _ _ e s u s' Hr) as Hs.
  apply register_internal_ok in Hr as [_ _ _ Hp Hn Hw]; intros Hroot v r Hv.
  destruct (decide (u = v)) as [<-|Hne].
  - rewrite (wr_record _ _ _ _ _ _ _ Hw) in Hv; injection Hv as <-.
    destruct parent as [p|].
    + destruct (Hp p eq_refl) as ([rp Hrp] & _ & root & d & Hwalk & Hd).
      destruct (Hroot p rp Hrp) as (l & Hl & _); exists (p :: l); split.
      * eapply ancestry_child; [apply Hw|done|by eapply ancestry_step].
      * apply (walk_depth s p l) in Hwalk; [|done|lia|done].
        unfold len, MAX_SCHEMA_LINEAGE_DEPTH in *; simpl; lia.
    + exists []; split; [eapply ancestry_root; [apply Hw|done]|simpl; lia].
  - rewrite (wr_others _ _ _ _ _ _ _ Hw (SchemaKey v)) in Hv by auto.
    destruct (Hroot v r Hv) as (l & Hl & Hlen); exists l; split; [by eapply ancestry_step|done].
Qed.
End lineage.

#[export] Hint Extern 5 (preserves stays_rooted _) => (apply rooted_touches) : sas.
#[export] Hint Resolve rooted_register_internal rooted_deprecate_schema : sas.

Section lineage_exec.
Context {X : Type} `{RegDeps X}.
Implicit Types (s : State RegSig X) (e : Env).

Lemma rooted_register_batch_loop items auth uids :
  preserves (stays_rooted (X := X)) (register_batch_loop items auth uids).
Proof. revert auth uids; induction items; intros auth uids; simpl; pres_open. Qed.
#[local] Hint Resolve rooted_register_batch_loop : sas.

Lemma rooted_exec c : preserves (stays_rooted (X := X)) (exec c).
Proof. destruct c; simpl; pres_open. Qed.

Lemma rooted_history h s : rooted s -> rooted (run_history h s).
Proof. apply reg_history_inv; intros c e s1 s2 Hr; by apply (rooted_exec c e s1 tt). Qed.

Lemma rooted_empty (x : X) : rooted (empty_state RegSig x).
Proof. by intros u r. Qed.

(** *** The lineage query *)

Lemma renew_schema_record_run u e s :
  is_Some (pget s (SchemaKey u)) ->
  exists s', renew_schema_record u e s = Ok (tt, s') /\ same_values s s'.
Proof.
  intros Hu; unfold renew_schema_record.
  destruct (renew_run (SchemaKey u) e s Hu) as (s1 & H1 & Hs1).
  rewrite (bind_run _ _ _ _ _ _ H1).
  change (mbind ?f (pers_has ?k) e s1) with (f (bool_decide (is_Some (pget s1 k))) e s1); cbn beta.
  case_bool_decide as Hm; [|by exists s1].
  destruct (renew_run _ e s1 Hm) as (s2 & H2 & Hs2); exists s2; split; [done|by transitivity s1].
Qed.

Lemma ancestry_same e s s' u l : same_values s s' -> ancestry s u l -> ancestry s' u l.
Proof. intros Hs; apply (ancestry_step e); by apply records_on_values. Qed.

Lemma last_default {A} (l : list A) (a b : A) : List.last (a :: l) b = List.last l a.
Proof. revert a b; induction l as [|c l IH]; intros a b; [done|]; simpl in *; by rewrite (IH c a), (IH c b). Qed.

(** From the record of [u] the loop collects exactly the ancestors. *)
Lemma ancestors_loop_run l u r fuel acc e s :
  pget s (SchemaKey u) = Some r -> ancestry s u l -> (length l <= fuel)%nat ->
  exists s', ancestors_loop fuel (sr_parent r) u acc e s = Ok ((List.last l u, acc ++ l), s')
    /\ same_values s s'.
Proof.
  revert u r fuel acc s; induction l as [|p l IH]; intros u r fuel acc s Hr Hl Hf; inversion Hl; subst;
    match goal with Hr' : pget s (SchemaKey u) = Some ?r' |- _ =>
      assert (r' = r) as -> by congruence end;
    match goal with Hp : sr_parent r = _ |- _ => rewrite Hp end.
  - exists s; rewrite app_nil_r; split; [by destruct fuel|done].
  - destruct fuel as [|fuel]; [simpl in Hf; lia|]; simpl ancestors_loop.
    rename select (ancestry s p l) into Ha.
    assert (exists rp, pget s (SchemaKey p) = Some rp) as [rp Hrp] by (inversion Ha; eauto).
    change (mbind ?f (pers_get (SchemaKey p)) e s) with (f (pget s (SchemaKey p)) e s); cbn beta.
    rewrite Hrp, bool_decide_true by eauto.
    destruct (renew_schema_record_run p e s) as (s1 & Hq1 & Hs1); [by rewrite Hrp; eauto|].
    rewrite (bind_run _ _ _ _ _ _ Hq1).
    destruct (IH p rp fuel (acc ++ [p]) s1) as (s2 & Hq2 & Hs2).
    + by rewrite (sv_pget _ _ Hs1 (SchemaKey p)).
    + by eapply ancestry_same.
    + simpl in Hf; lia.
    + exists s2; split; [|by transitivity s1].
      rewrite <- app_assoc in Hq2; rewrite Hq2; by rewrite last_default.
Qed.

Lemma get_schema_lineage_run u r l e s :
  pget s (SchemaKey u) = Some r -> ancestry s u l ->
  (length l <= MAX_SCHEMA_LINEAGE_DEPTH)%nat ->
  exists s', get_schema_lineage u e s
             = Ok (mkSchemaLineage u (sr_parent r) (List.last l u) (len l) l, s')
    /\ same_values s s'.
Proof.
  intros Hr Hl Hlen; unfold get_schema_lineage.
  destruct (extend_ttl_run e s) as (s1 & H1 & Hs1); rewrite (bind_run _ _ _ _ _ _ H1).
  change (mbind ?f (pers_get (SchemaKey u)) e s1) with (f (pget s1 (SchemaKey u)) e s1); cbn beta.
  assert (Hr1 : pget s1 (SchemaKey u) = Some r) by (by rewrite (sv_pget _ _ Hs1 (SchemaKey u))).
  rewrite Hr1, (bind_unwrap _ r) by done.
  destruct (renew_schema_record_run u e s1) as (s2 & H2 & Hs2); [by rewrite Hr1; eauto|].
  rewrite (bind_run _ _ _ _ _ _ H2); assert (Hs : same_values s s2) by (by transitivity s1).
  destruct (ancestors_loop_run l u r MAX_SCHEMA_LINEAGE_DEPTH [] e s2) as (s3 & H3 & Hs3);
    [by rewrite (sv_pget _ _ Hs (SchemaKey u))|by eapply ancestry_same|done|].
  rewrite (bind_run _ _ _ _ _ _ H3); exists s3; split; [done|by transitivity s2].
Qed.

Lemma get_schema_lineage_missing u e s :
  pget s (SchemaKey u) = None -> get_schema_lineage u e s = Err (Panic SchemaNotFound).
Proof.
  intros Hn; unfold get_schema_lineage.
  destruct (extend_ttl_run e s) as (s1 & H1 & Hs1); rewrite (bind_run _ _ _ _ _ _ H1).
  change (mbind ?f (pers_get (SchemaKey u)) e s1) with (f (pget s1 (SchemaKey u)) e s1); cbn beta.
  apply bind_unwrap_none; by rewrite (sv_pget _ _ Hs1 (SchemaKey u)).
Qed.
End lineage_exec.

(** ** What SAS is told

    The answers of the queries SAS makes while issuing, as functions of the
    registry's stored values. *)

Section issuer.
Context {X : Type}.
Implicit Types (s : State RegSig X) (e : Env).

(** A delegate whose grant has not expired. *)
Definition active_delegate (e : Env) s (u : UID) (a : Address) : bool :=
  default false (pget s (AUTHORIZED_DELEGATES u a))
  && match pget s (DELEGATE_EXPIRY u a) with
     | Some expiry => (expiry =? 0) || (timestamp e <? expiry)
     | None => true
     end.

(** The creator or an active delegate of a schema that is not deprecated. *)
Definition authorised_issuer (e : Env) s (u : UID) (a : Address) : bool :=
  negb (is_deprecated s u)
  && match pget s (SCHEMA_CREATOR u) with
     | Some creator => bool_decide (creator = a) || active_delegate e s u a
     | None => false
     end.

Definition listed s (u : UID) (a : Address) : bool :=
  negb (is_deprecated s u) && default false (pget s (SCHEMA_ACL u a)).

Definition policy_of s (u : UID) : RevocationPolicy :=
  match pget s (SCHEMA_POLICY u) with
  | Some policy => policy
  | None => match pget s (SchemaKey u) with
            | Some r => policy_from_bool (sr_revocable r)
            | None => Permissive
            end
  end.

Lemma answers_renew {A} k (f : unit -> M RegSig X A) e s v :
  is_Some (pget s k) -> (forall s1, same_values s s1 -> answers (f tt) e s1 v) ->
  answers (mbind f (renew k)) e s v.
Proof. intros Hk; apply answers_bind, renew_run, Hk. Qed.
Lemma answers_extend {A} (f : unit -> M RegSig X A) e s v :
  (forall s1, same_values s s1 -> answers (f tt) e s1 v) ->
  answers (mbind f extend_instance_ttl) e s v.
Proof. apply answers_bind, extend_ttl_run. Qed.
End issuer.

Section queries.
Context {X : Type}.
Implicit Types (s : State RegSig X) (e : Env).

Lemma active_delegate_same e s s' u a :
  same_values s s' -> active_delegate e s' u a = active_delegate e s u a.
Proof.
  intros Hs; unfold active_delegate.
  by rewrite (sv_pget _ _ Hs (AUTHORIZED_DELEGATES u a)), (sv_pget _ _ Hs (DELEGATE_EXPIRY u a)).
Qed.

Lemma is_delegate_answers u a e s : answers (is_delegate u a) e s (active_delegate e s u a).
Proof.
  unfold is_delegate; apply answers_extend; intros s1 Hs1.
  rewrite <- (active_delegate_same _ _ _ _ _ Hs1); unfold active_delegate; ans.
  destruct (pget s1 (AUTHORIZED_DELEGATES u a)) as [[]|] eqn:Ea; simpl; [ans|by apply answers_ret..].
  destruct (pget s1 (DELEGATE_EXPIRY u a)) as [x|] eqn:Ex.
  - destruct (Z.eqb_spec x 0) as [->|Hx]; simpl.
    + apply answers_renew; [by rewrite Ex; eauto|]; intros s2 Hs2.
      apply answers_renew; [by rewrite (sv_pget _ _ Hs2 (AUTHORIZED_DELEGATES u a)), Ea; eauto|].
      intros; apply answers_ret.
    + destruct (Z.leb_spec x (timestamp e)), (Z.ltb_spec (timestamp e) x); try lia; [apply answers_ret|].
      apply answers_renew; [by rewrite Ex; eauto|]; intros s2 Hs2.
      apply answers_renew; [by rewrite (sv_pget _ _ Hs2 (AUTHORIZED_DELEGATES u a)), Ea; eauto|].
      intros; apply answers_ret.
  - apply answers_renew; [by rewrite Ea; eauto|]; intros; apply answers_ret.
Qed.

Lemma is_authorized_answers u a e s : answers (is_authorized u a) e s (authorised_issuer e s u a).
Proof.
  unfold is_authorized; apply answers_extend; intros s1 Hs1; ans.
  unfold authorised_issuer.
  rewrite (is_deprecated_proper _ _ Hs1 u u eq_refl), <- (sv_pget _ _ Hs1 (SCHEMA_CREATOR u)).
  rewrite <- (active_delegate_same _ _ _ _ _ Hs1).
  destruct (is_deprecated s1 u); [apply answers_ret|]; ans.
  destruct (pget s1 (SCHEMA_CREATOR u)) as [c|] eqn:Ec; [|apply answers_ret]; simpl in c |- *.
  destruct (bool_decide (c = a)); [|apply is_delegate_answers].
  apply answers_renew; [by rewrite Ec; eauto|]; intros; apply answers_ret.
Qed.

Lemma is_attester_authorized_answers u a e s :
  answers (is_attester_authorized u a) e s (listed s u a).
Proof.
  unfold is_attester_authorized, listed; apply answers_extend; intros s1 Hs1; ans.
  rewrite (is_deprecated_proper _ _ Hs1 u u eq_refl), <- (sv_pget _ _ Hs1 (SCHEMA_ACL u a)).
  destruct (is_deprecated s1 u); [apply answers_ret|]; ans.
  destruct (pget s1 (SCHEMA_ACL u a)) as [[]|] eqn:Ea; simpl; [|by apply answers_ret..].
  apply answers_renew; [by rewrite Ea; eauto|]; intros; apply answers_ret.
Qed.

Lemma get_schema_answers u e s : answers (get_schema u) e s (visible s u).
Proof.
  unfold get_schema, visible; apply answers_extend; intros s1 Hs1; ans.
  rewrite (is_deprecated_proper _ _ Hs1 u u eq_refl), <- (sv_pget _ _ Hs1 (SchemaKey u)).
  destruct (is_deprecated s1 u); [apply answers_ret|]; ans.
  case_bool_decide as Hk; [|apply (answers_bind _ _ _ _ tt); [apply answers_ret|intros; apply answers_ret]].
  apply (answers_bind _ _ _ _ tt); [by apply renew_schema_record_run|intros; apply answers_ret].
Qed.

Lemma is_schema_quarantined_answers u e s :
  answers (is_schema_quarantined u) e s (default false (pget s (SCHEMA_QUARANTINE u))).
Proof.
  unfold is_schema_quarantined; apply answers_extend; intros s1 Hs1; ans.
  rewrite <- (sv_pget _ _ Hs1 (SCHEMA_QUARANTINE u)); apply answers_ret.
Qed.

Lemma get_max_ttl_answers u e s :
  answers (get_max_ttl u) e s (default 0 (pget s (SCHEMA_MAX_TTL u))).
Proof.
  unfold get_max_ttl; apply answers_extend; intros s1 Hs1; ans; cbv zeta.
  rewrite <- (sv_pget _ _ Hs1 (SCHEMA_MAX_TTL u)).
  destruct (0 <? _) eqn:E; [|apply (answers_bind _ _ _ _ tt); [apply answers_ret|intros; apply answers_ret]].
  apply answers_renew; [|intros; apply answers_ret].
  destruct (pget s1 (SCHEMA_MAX_TTL u)) eqn:Ep; [eauto|]; discriminate E.
Qed.

Lemma policy_of_same s s' u : same_values s s' -> policy_of s' u = policy_of s u.
Proof.
  intros Hs; unfold policy_of.
  by rewrite (sv_pget _ _ Hs (SCHEMA_POLICY u)), (sv_pget _ _ Hs (SchemaKey u)).
Qed.
Lemma get_schema_policy_answers u e s : answers (get_schema_policy u) e s (policy_of s u).
Proof.
  unfold get_schema_policy; apply answers_extend; intros s1 Hs1.
  rewrite <- (policy_of_same _ _ u Hs1); unfold policy_of; ans.
  destruct (pget s1 (SCHEMA_POLICY u)); ans.
Qed.
End queries.
