(* ===== verification/RegQuorum.v ===== *)
(** * Schema registry: changes of ownership

    Which call can change the creator of a registered schema and on whose
    authority, and that a transfer by approval has a quorum behind it. *)

From S2P Require Import Values.
From S2P Require Import Prelude Host Common TypedData Validation RegState RegAdmin RegOwners.
From S2P Require Import RegSchemas RegQuery RegCalls RegFrame RegRecord RegIndex.

Lemma members_contain_spec l a : members_contain l a = bool_decide (a ∈ l).
Proof.
  induction l as [|b l IH]; [by rewrite bool_decide_false by apply not_elem_of_nil|]; simpl.
  rewrite IH; destruct (bool_decide (b = a)) eqn:Hb; bool_facts; symmetry.
  - apply bool_decide_eq_true_2; subst; by left.
  - apply bool_decide_ext; rewrite elem_of_cons; split; [by intros [->|]|by right].
Qed.

Section quorum.
Context {X : Type}.
Implicit Types (s : State RegSig X) (e : Env).

(** The number of approvals an ownership transfer of [u] needs. *)
Definition threshold_of s (u : UID) : Z := (effective_owner_set s u).2.

#[export] Instance threshold_of_proper : Proper (same_values ==> eq ==> eq) threshold_of.
Proof. intros s s' Hs u ? <-; unfold threshold_of; by rewrite Hs. Qed.

(** [a] acts as an owner of [u]. *)
Definition acts_for e s (u : UID) (a : Address) : Prop :=
  authorized e a = true /\ is_owner_address s u a = true.

Lemma acts_for_same e s s' u a : same_values s s' -> acts_for e s' u a -> acts_for e s u a.
Proof. intros Hs [Ha Ho]; split; [done|by rewrite Hs]. Qed.

Lemma finalize_ok u old new e s x s' :
  finalize_ownership_transfer u old new e s = Ok (x, s') ->
  pget s' (SCHEMA_CREATOR u) = Some new /\ pget s' (PENDING_OWNERSHIP u) = None
  /\ forall k, k <> SCHEMA_CREATOR u -> k <> PENDING_OWNERSHIP u -> pget s' k = pget s k.
Proof.
  unfold finalize_ownership_transfer; intros Hr; reg_inv; split_and!; intros; by settle.
Qed.

(** One approval. *)
Lemma record_approval_ok u a e s p' s' :
  record_approval u a e s = Ok (p', s') ->
  exists p, pget s (PENDING_OWNERSHIP u) = Some p /\ p' = with_approval a p
    /\ (a ∉ approvals p) /\ is_owner_address s u a = true
    /\ owner_set_version p = set_version_of (effective_owner_set s u).1
    /\ wrote (PENDING_OWNERSHIP u) (Some p') s s'.
Proof.
  unfold record_approval; intros Hr; reg_inv.
  match goal with Hp : pget s (PENDING_OWNERSHIP u) = Some ?p |- _ => exists p end.
  rewrite members_contain_spec in *; bool_facts; split_and!; try done.
  split; intros; by settle.
Qed.

(** What [approve_ownership_transfer] does. *)
Record approved e (u : UID) (a : Address) s (st : OwnershipTransferStatus) s'
    (p : PendingOwnershipTransfer) : Prop := {
  av_pending : pget s (PENDING_OWNERSHIP u) = Some p;
  av_owner : acts_for e s u a;
  av_distinct : a ∉ approvals p;
  av_version : owner_set_version p = set_version_of (effective_owner_set s u).1;
  av_status : st = mkOwnershipTransferStatus (po_new_owner p) (len (approvals p ++ [a]))
                     (threshold_of s u) (threshold_of s u <=? len (approvals p ++ [a]));
  av_after : pget s' (PENDING_OWNERSHIP u)
             = if executed st then None else Some (with_approval a p);
  av_creator : pget s' (SCHEMA_CREATOR u)
               = if executed st then Some (po_new_owner p) else pget s (SCHEMA_CREATOR u);
  av_others : forall k, k <> PENDING_OWNERSHIP u -> k <> SCHEMA_CREATOR u -> pget s' k = pget s k
}.

Lemma approve_ok u a e s st s' :
  approve_ownership_transfer u a e s = Ok (st, s') -> exists p, approved e u a s st s' p.
Proof.
  unfold approve_ownership_transfer; intros Hr; reg_inv.
  match goal with Hq : record_approval _ _ _ _ = _ |- _ =>
    apply record_approval_ok in Hq as (p & Hp & -> & Hd & Ho & Hv & Hw) end.
  match type of Hw with wrote _ _ ?s1 ?s2 =>
    assert (Hes : effective_owner_set s2 u = effective_owner_set s u)
      by (unfold effective_owner_set, owner_set; by settle) end.
  rewrite Hes in Hr; fold (threshold_of s u) in Hr.
  change (approvals (with_approval a p)) with (approvals p ++ [a]) in Hr.
  change (po_new_owner (with_approval a p)) with (po_new_owner p) in Hr.
  exists p; rename select (same_values s _) into Hs.
  assert (Hown : acts_for e s u a) by (split; [done|by rewrite Hs]).
  assert (Hver : owner_set_version p = set_version_of (effective_owner_set s u).1) by (by rewrite Hs).
  destruct (Z.ltb_spec (len (approvals p ++ [a])) (threshold_of s u)) as [Hlt|Hge]; reg_inv.
  - split; simpl; try done; try (intros; by settle).
    + by rewrite <- (sv_pget _ _ Hs (PENDING_OWNERSHIP u)).
    + by rewrite (proj2 (Z.leb_gt _ _) Hlt).
  - match goal with Hq : finalize_ownership_transfer _ _ _ _ _ = _ |- _ =>
      apply finalize_ok in Hq as (Hc & Hn & Hothers) end.
    split; simpl; try done.
    + by rewrite <- (sv_pget _ _ Hs (PENDING_OWNERSHIP u)).
    + by rewrite (proj2 (Z.leb_le _ _) Hge).
    + intros k Hk1 Hk2; rewrite Hothers by done; by settle.
Qed.

(** What [propose_ownership_transfer] does. *)
Record proposed e (u : UID) (a new : Address) s s' : Prop := {
  pp_owner : acts_for e s u a;
  pp_after : pget s' (PENDING_OWNERSHIP u)
             = if threshold_of s u <=? 1 then None
               else Some (mkPendingOwnershipTransfer (set_version_of (effective_owner_set s u).1)
                            new [a] (timestamp e));
  pp_creator : pget s' (SCHEMA_CREATOR u)
               = if threshold_of s u <=? 1 then Some new else pget s (SCHEMA_CREATOR u);
  pp_others : forall k, k <> PENDING_OWNERSHIP u -> k <> SCHEMA_CREATOR u -> pget s' k = pget s k
}.

Lemma propose_ok u a new e s st s' :
  propose_ownership_transfer u a new e s = Ok (st, s') -> proposed e u a new s s'.
Proof.
  unfold propose_ownership_transfer; intros Hr; reg_inv.
  rename select (same_values s _) into Hs.
  rewrite <- (effective_owner_set_proper _ _ Hs u u eq_refl) in *; fold (threshold_of s u) in *.
  assert (Hown : acts_for e s u a) by (split; [done|by rewrite Hs]).
  destruct (threshold_of s u <=? 1) eqn:Ht; reg_inv.
  - match goal with Hq : finalize_ownership_transfer _ _ _ _ _ = _ |- _ =>
      apply finalize_ok in Hq as (Hc & Hn & Hothers) end.
    split; rewrite ?Ht; try done; intros k Hk1 Hk2; rewrite Hothers by done; by settle.
  - split; rewrite ?Ht; try done; intros; by settle.
Qed.

(** *** Pending transfers *)

Definition not_pending (k : RegPKey) : Prop :=
  match k with PENDING_OWNERSHIP _ => False | _ => True end.

(** Nothing but the two calls that approve adds to a pending transfer. *)
Definition pending_kept (e : Env) s s' : Prop :=
  forall u p, pget s' (PENDING_OWNERSHIP u) = Some p -> pget s (PENDING_OWNERSHIP u) = Some p.
#[export] Instance pending_kept_preorder : PreorderE pending_kept.
Proof. intros e; split; [by intros s u p|]; intros s1 s2 s3 H1 H2 u p Hp; auto. Qed.
#[export] Instance pending_on_values : OnValues pending_kept.
Proof. intros e s s' Hs u p; by rewrite (sv_pget _ _ Hs (PENDING_OWNERSHIP u)). Qed.
Lemma pending_touches {A} (m : M RegSig X A) :
  preserves (touches (fun _ => True) not_pending) m -> preserves pending_kept m.
Proof.
  intros Hm; apply (pres_via_touches _ _ _ _ Hm); intros e s s' [_ Hp] u p.
  by rewrite (Hp (PENDING_OWNERSHIP u)) by auto.
Qed.
Lemma pending_remove u : preserves pending_kept (pers_remove (PENDING_OWNERSHIP u)).
Proof.
  intros e s x s' Hw%remove_ok v p; destruct (decide (u = v)) as [<-|Hne]; by settle.
Qed.
End quorum.

#[export] Hint Extern 5 (preserves pending_kept _) => (apply pending_touches) : sas.
#[export] Hint Extern 4 (preserves pending_kept (pers_remove _)) => (apply pending_remove) : sas.
#[export] Hint Extern 1 (not_pending _) => exact Logic.I : sas.

Section quorum_exec.
Context {X : Type} `{RegDeps X}.
Implicit Types (s : State RegSig X) (e : Env) (h : list (Env * RegCall)).

Lemma pending_register_batch_loop items auth uids :
  preserves (pending_kept (X := X)) (register_batch_loop items auth uids).
Proof. revert auth uids; induction items; intros auth uids; simpl; pres_open. Qed.
#[local] Hint Resolve pending_register_batch_loop : sas.

(** A call in which [a] approves the transfer of [u] to [new]. *)
Definition approving s (u : UID) (new a : Address) (c : RegCall) : Prop :=
  (c = RegApproveOwnershipTransfer u a
   /\ exists q, pget s (PENDING_OWNERSHIP u) = Some q /\ po_new_owner q = new)
  \/ c = RegProposeOwnershipTransfer u a new.

(** Where an approval comes from. *)
Definition pending_from c e s (u : UID) (p : PendingOwnershipTransfer) : Prop :=
  pget s (PENDING_OWNERSHIP u) = Some p
  \/ exists a rest, approvals p = rest ++ [a] /\ approving s u (po_new_owner p) a c
       /\ acts_for e s u a
       /\ (rest = [] \/ exists q, pget s (PENDING_OWNERSHIP u) = Some q
                                 /\ po_new_owner q = po_new_owner p /\ approvals q = rest
                                 /\ (a ∉ rest)).

Lemma pending_exec c e s s' u p :
  exec c e s = Ok (tt, s') -> pget s' (PENDING_OWNERSHIP u) = Some p -> pending_from c e s u p.
Proof.
  intros Hr Hp; destruct c; simpl in *;
    try (left; refine ((_ : preserves (pending_kept (X := X)) _) _ _ _ _ Hr u p Hp); pres_open; fail).
  - unfold void in Hr; reg_inv.
    match goal with Hq : propose_ownership_transfer ?v _ _ _ _ = _ |- _ =>
      apply propose_ok in Hq as [Ho Ha _ Hothers]; destruct (decide (v = u)) as [->|Hne] end.
    + rewrite Ha in Hp; destruct (_ <=? 1); [done|]; injection Hp as <-; right.
      exists proposer, []; simpl; unfold approving; eauto 10.
    + left; by rewrite <- (Hothers (PENDING_OWNERSHIP u)) by congruence.
  - unfold void in Hr; reg_inv.
    match goal with Hq : approve_ownership_transfer ?v _ _ _ = _ |- _ =>
      apply approve_ok in Hq as (q & [Hq Ho Hd _ _ Ha _ Hothers]); destruct (decide (v = u)) as [->|Hne] end.
    + rewrite Ha in Hp; destruct (executed _); [done|]; injection Hp as <-; right.
      exists approver, (approvals q); simpl; unfold approving; eauto 15.
    + left; by rewrite <- (Hothers (PENDING_OWNERSHIP u)) by congruence.
Qed.

(** Somewhere in the history [a], then an owner of [u], approved its transfer
    to [new]. *)
Definition approved_in h s (u : UID) (new a : Address) : Prop :=
  exists h1 e c h2, h = h1 ++ (e, c) :: h2 /\ approving (run_history h1 s) u new a c
    /\ acts_for e (run_history h1 s) u a.

Definition quorum_ok h s : Prop :=
  forall u p, pget (run_history h s) (PENDING_OWNERSHIP u) = Some p ->
  NoDup (approvals p) /\ Forall (approved_in h s u (po_new_owner p)) (approvals p).

Lemma reg_history_app h1 h2 s : run_history (h1 ++ h2) s = run_history h2 (run_history h1 s).
Proof. revert s; induction h1 as [|[e c] h1 IH]; intros s; simpl; [done|apply IH]. Qed.

Lemma approved_in_app h h' s u new a :
  approved_in h s u new a -> approved_in (h ++ h') s u new a.
Proof.
  intros (h1 & e & c & h2 & -> & Hc & Ha); exists h1, e, c, (h2 ++ h'); by rewrite <- app_assoc.
Qed.

Lemma quorum_history h s :
  (forall u, pget s (PENDING_OWNERSHIP u) = None) -> quorum_ok h s.
Proof.
  intros Hn; induction h as [|[e c] h IH] using rev_ind; [intros u p; simpl; by rewrite Hn|].
  intros u p; rewrite reg_history_app; simpl; intros Hp.
  assert (Hf : pending_from c e (run_history h s) u p).
  { destruct (reg_transact_run e c (run_history h s)) as [(s' & Hr & Hs)|(err & _ & Hs)];
      rewrite Hs in Hp; [by eapply pending_exec|by left]. }
  destruct Hf as [Hold|(a & rest & Hap & Hc & Ha & Hrest)].
  - destruct (IH u p Hold) as [Hd Hall]; split; [done|].
    eapply Forall_impl; [exact Hall|]; intros a; apply approved_in_app.
  - assert (Hnow : approved_in (h ++ [(e, c)]) s u (po_new_owner p) a) by (exists h, e, c, []; auto).
    rewrite Hap; destruct Hrest as [->|(q & Hq & Hnew & <- & Hnot)].
    + split; [apply NoDup_singleton|by repeat constructor].
    + destruct (IH u q Hq) as [Hd Hall]; rewrite Hnew in Hall; split.
      * apply NoDup_app; split_and!; [done|by intros b Hb ->%list_elem_of_singleton|apply NoDup_singleton].
      * apply Forall_app; split; [|by repeat constructor].
        eapply Forall_impl; [exact Hall|]; intros b; apply approved_in_app.
Qed.

(** *** Two-step proposals *)

(** Somewhere in the history the then creator of [u] proposed [new]. *)
Definition offered_in h s (u : UID) (new : Address) : Prop :=
  exists h1 e h2 owner, h = h1 ++ (e, RegProposeSchemaOwner u new) :: h2
    /\ pget (run_history h1 s) (SCHEMA_CREATOR u) = Some owner /\ authorized e owner = true.
End quorum_exec.

Section offers.
Context {X : Type}.
Implicit Types (s : State RegSig X) (e : Env).

Definition not_offer (k : RegPKey) : Prop :=
  match k with PENDING_SCHEMA_OWNER _ => False | _ => True end.

Definition offers_kept (e : Env) s s' : Prop :=
  forall u a, pget s' (PENDING_SCHEMA_OWNER u) = Some a -> pget s (PENDING_SCHEMA_OWNER u) = Some a.
#[export] Instance offers_kept_preorder : PreorderE offers_kept.
Proof. intros e; split; [by intros s u a|]; intros s1 s2 s3 H1 H2 u a Ha; auto. Qed.
#[export] Instance offers_on_values : OnValues offers_kept.
Proof. intros e s s' Hs u a; by rewrite (sv_pget _ _ Hs (PENDING_SCHEMA_OWNER u)). Qed.
Lemma offers_touches {A} (m : M RegSig X A) :
  preserves (touches (fun _ => True) not_offer) m -> preserves offers_kept m.
Proof.
  intros Hm; apply (pres_via_touches _ _ _ _ Hm); intros e s s' [_ Hp] u a.
  by rewrite (Hp (PENDING_SCHEMA_OWNER u)) by auto.
Qed.
Lemma offers_remove u : preserves offers_kept (pers_remove (PENDING_SCHEMA_OWNER u)).
Proof.
  intros e s x s' Hw%remove_ok v a; destruct (decide (u = v)) as [<-|Hne]; by settle.
Qed.

Lemma offer_ok u new e s x s' :
  propose_schema_owner u new e s = Ok (x, s') ->
  exists owner, pget s (SCHEMA_CREATOR u) = Some owner /\ authorized e owner = true
    /\ wrote (PENDING_SCHEMA_OWNER u) (Some new) s s'.
Proof.
  unfold propose_schema_owner, schema_creator; intros Hr; reg_inv.
  match goal with Ho : pget ?s1 (SCHEMA_CREATOR u) = Some ?o |- _ => exists o end.
  rename select (same_values s _) into Hs; rewrite <- (sv_pget _ _ Hs (SCHEMA_CREATOR u)).
  split_and!; [done..|split; intros; by settle].
Qed.
End offers.

#[export] Hint Extern 5 (preserves offers_kept _) => (apply offers_touches) : sas.
#[export] Hint Extern 4 (preserves offers_kept (pers_remove _)) => (apply offers_remove) : sas.
#[export] Hint Extern 1 (not_offer _) => exact Logic.I : sas.

Section offers_exec.
Context {X : Type} `{RegDeps X}.
Implicit Types (s : State RegSig X) (e : Env) (h : list (Env * RegCall)).

Lemma offers_register_batch_loop items auth uids :
  preserves (offers_kept (X := X)) (register_batch_loop items auth uids).
Proof. revert auth uids; induction items; intros auth uids; simpl; pres_open. Qed.
#[local] Hint Resolve offers_register_batch_loop : sas.

Lemma offers_exec c e s s' u a :
  exec c e s = Ok (tt, s') -> pget s' (PENDING_SCHEMA_OWNER u) = Some a ->
  pget s (PENDING_SCHEMA_OWNER u) = Some a
  \/ c = RegProposeSchemaOwner u a
     /\ exists owner, pget s (SCHEMA_CREATOR u) = Some owner /\ authorized e owner = true.
Proof.
  intros Hr Ha; destruct c; simpl in *;
    try (left; refine ((_ : preserves (offers_kept (X := X)) _) _ _ _ _ Hr u a Ha); pres_open; fail).
  match type of Hr with propose_schema_owner ?v _ _ _ = _ => destruct (decide (v = u)) as [->|Hne] end;
    apply offer_ok in Hr as (owner & Ho & Hau & Hw).
  - right; rewrite (w_value _ _ _ _ Hw) in Ha; injection Ha as ->; eauto.
  - left; by rewrite (w_others _ _ _ _ Hw) in Ha by congruence.
Qed.

Lemma offered_history h s u a :
  (forall v, pget s (PENDING_SCHEMA_OWNER v) = None) ->
  pget (run_history h s) (PENDING_SCHEMA_OWNER u) = Some a -> offered_in h s u a.
Proof.
  intros Hn; induction h as [|[e c] h IH] using rev_ind; [simpl; by rewrite Hn|].
  rewrite reg_history_app; simpl; intros Hp.
  assert (Hk : offered_in h s u a -> offered_in (h ++ [(e, c)]) s u a).
  { intros (h1 & e1 & h2 & o & -> & ?); exists h1, e1, (h2 ++ [(e, c)]), o; by rewrite <- app_assoc. }
  destruct (reg_transact_run e c (run_history h s)) as [(s' & Hr & Hs)|(err & _ & Hs)];
    rewrite Hs in Hp; [|auto].
  destruct (offers_exec c e _ s' u a Hr Hp) as [?|(-> & owner & ?)]; [auto|].
  exists h, e, [], owner; auto.
Qed.
End offers_exec.

(** ** Creators *)

Section creators.
Context {X : Type}.
Implicit Types (s : State RegSig X) (e : Env).

(** Registered schemas stay registered and keep their creator. *)
Definition creators_kept (e : Env) s s' : Prop :=
  forall u, is_Some (pget s (SchemaKey u)) ->
  is_Some (pget s' (SchemaKey u)) /\ pget s' (SCHEMA_CREATOR u) = pget s (SCHEMA_CREATOR u).
#[export] Instance creators_kept_preorder : PreorderE creators_kept.
Proof.
  intros e; split; [by intros s u|]; intros s1 s2 s3 H1 H2 u Hu.
  destruct (H1 u Hu) as [Hu2 <-]; by apply H2.
Qed.
#[export] Instance creators_on_values : OnValues creators_kept.
Proof.
  intros e s s' Hs u; rewrite (sv_pget _ _ Hs (SchemaKey u)), (sv_pget _ _ Hs (SCHEMA_CREATOR u)); done.
Qed.

Definition not_creator (k : RegPKey) : Prop :=
  match k with SchemaKey _ | SCHEMA_CREATOR _ => False | _ => True end.
Lemma creators_touches {A} (m : M RegSig X A) :
  preserves (touches (fun _ => True) not_creator) m -> preserves creators_kept m.
Proof.
  intros Hm; apply (pres_via_touches _ _ _ _ Hm); intros e s s' [_ Hp] u.
  by rewrite (Hp (SchemaKey u)), (Hp (SCHEMA_CREATOR u)) by auto.
Qed.
Lemma creators_deprecate_schema sender u : preserves creators_kept (deprecate_schema sender u).
Proof.
  intros e s x s' (r & Hv & _ & _ & Hw)%deprecate_schema_ok v Hr.
  split; [|by settle]; destruct (decide (u = v)) as [<-|Hne]; settle; eauto.
Qed.
Lemma creators_register_internal `{RegDeps X} owner schema resolver rev t parent m :
  preserves creators_kept (register_internal owner schema resolver rev t parent m).
Proof.
  intros e s u s' [_ _ _ _ Hn Hw]%register_internal_ok v Hv.
  assert (Hne : u <> v) by (intros <-; rewrite Hn in Hv; by destruct Hv).
  by rewrite !(wr_others _ _ _ _ _ _ _ Hw) by (simpl; congruence).
Qed.
End creators.

#[export] Hint Extern 5 (preserves creators_kept _) => (apply creators_touches) : sas.
#[export] Hint Extern 1 (not_creator _) => exact Logic.I : sas.
#[export] Hint Resolve creators_deprecate_schema creators_register_internal : sas.

Section creators_exec.
Context {X : Type} `{RegDeps X}.
Implicit Types (s : State RegSig X) (e : Env).

Lemma creators_register_batch_loop items auth uids :
  preserves (creators_kept (X := X)) (register_batch_loop items auth uids).
Proof. revert auth uids; induction items; intros auth uids; simpl; pres_open. Qed.
#[local] Hint Resolve creators_register_batch_loop : sas.

(** The authority behind a change of creator to [new]. *)
Inductive transfer_authority c e s (u : UID) (new : Address) : Prop :=
  | by_single_owner a : acts_for e s u a -> threshold_of s u <= 1 -> transfer_authority c e s u new
  | by_accepted_proposal :
      pget s (PENDING_SCHEMA_OWNER u) = Some new -> authorized e new = true ->
      transfer_authority c e s u new
  | by_quorum a p :
      c = RegApproveOwnershipTransfer u a ->
      pget s (PENDING_OWNERSHIP u) = Some p -> po_new_owner p = new -> acts_for e s u a ->
      a ∉ approvals p -> owner_set_version p = set_version_of (effective_owner_set s u).1 ->
      threshold_of s u <= len (approvals p ++ [a]) -> transfer_authority c e s u new.

Lemma creator_acts e s u a :
  pget s (SCHEMA_CREATOR u) = Some a -> authorized e a = true -> acts_for e s u a.
Proof.
  intros Hc Ha; split; [done|]; unfold is_owner_address, schema_creator; rewrite Hc.
  rewrite (bool_decide_true (a = a)) by done; by repeat case_match.
Qed.
Lemma admin_acts_for e s u a :
  inst s REGISTRY_ADMIN = Some a -> authorized e a = true -> acts_for e s u a.
Proof.
  intros Hc Ha; split; [done|]; unfold is_owner_address; rewrite Hc.
  rewrite (bool_decide_true (a = a)) by done; by repeat case_match.
Qed.

Lemma single_sig_ok u e s x s' :
  reject_single_sig_transfer_for_multisig u e s = Ok (x, s') -> threshold_of s u <= 1 /\ s' = s.
Proof.
  unfold reject_single_sig_transfer_for_multisig; intros Hr; reg_inv; bool_facts.
  split; [unfold threshold_of; lia|done].
Qed.

(** The five operations that write a creator. *)
Lemma transfer_schema_ownership_ok u new e s x s' :
  transfer_schema_ownership u new e s = Ok (x, s') ->
  (exists a, acts_for e s u a) /\ threshold_of s u <= 1
  /\ wrote (SCHEMA_CREATOR u) (Some new) s s'.
Proof.
  unfold transfer_schema_ownership; intros Hr; reg_inv.
  match goal with Hq : reject_single_sig_transfer_for_multisig _ _ _ = _ |- _ =>
    apply single_sig_ok in Hq as [Ht ->] end.
  rename select (same_values s _) into Hs.
  split_and!; [|by rewrite Hs|split; intros; by settle].
  match goal with Hc : pget _ (SCHEMA_CREATOR u) = Some ?a |- _ => exists a end.
  eapply acts_for_same; [exact Hs|]; by apply creator_acts.
Qed.

Lemma transfer_ownership_ok sender u new e s x s' :
  transfer_ownership sender u new e s = Ok (x, s') ->
  acts_for e s u sender /\ threshold_of s u <= 1 /\ wrote (SCHEMA_CREATOR u) (Some new) s s'.
Proof.
  unfold transfer_ownership; intros Hr; reg_inv.
  match goal with Hq : reject_single_sig_transfer_for_multisig _ _ _ = _ |- _ =>
    apply single_sig_ok in Hq as [Ht ->] end.
  match goal with H1 : same_values s ?s1, H2 : same_values ?s1 ?s2 |- _ =>
    assert (Hs : same_values s s2) by (by transitivity s1) end.
  split_and!; [|by rewrite Hs|split; intros; by settle].
  eapply acts_for_same; [exact Hs|].
  match goal with Hb : negb (if bool_decide ?p then true else _) = false |- _ =>
    destruct (bool_decide p) eqn:Ep; simpl in Hb; bool_facts end;
    [by apply creator_acts|by apply admin_acts_for].
Qed.

Lemma claim_ok u e s x s' :
  claim_schema_ownership u e s = Ok (x, s') ->
  exists new, pget s (PENDING_SCHEMA_OWNER u) = Some new /\ authorized e new = true
    /\ pget s' (SCHEMA_CREATOR u) = Some new
    /\ forall k, k <> SCHEMA_CREATOR u -> k <> PENDING_SCHEMA_OWNER u -> pget s' k = pget s k.
Proof.
  unfold claim_schema_ownership; intros Hr; reg_inv.
  match goal with Hp : pget _ (PENDING_SCHEMA_OWNER u) = Some ?a |- _ => exists a end.
  rename select (same_values s _) into Hs; rewrite <- (sv_pget _ _ Hs (PENDING_SCHEMA_OWNER u)).
  split_and!; [done..| |]; intros; by settle.
Qed.

(** A change of the creator of a registered schema. *)
Lemma creator_exec c e s s' u old new :
  exec c e s = Ok (tt, s') -> is_Some (pget s (SchemaKey u)) ->
  pget s (SCHEMA_CREATOR u) = Some old -> pget s' (SCHEMA_CREATOR u) = Some new -> new <> old ->
  transfer_authority c e s u new.
Proof.
  intros Hr Hu Ho Hn Hne; destruct c; simpl in *;
    try (exfalso; refine (_ ((_ : preserves (creators_kept (X := X)) _) _ _ _ _ Hr u Hu));
         [intros [_ Heq]; congruence|pres_open; fail]).
  - apply transfer_schema_ownership_ok in Hr as ([a Ha] & Ht & Hw).
    match type of Hw with wrote (SCHEMA_CREATOR ?v) _ _ _ => destruct (decide (v = u)) as [->|] end;
      [by eapply by_single_owner|rewrite (w_others _ _ _ _ Hw) in Hn; congruence].
  - apply transfer_ownership_ok in Hr as (Ha & Ht & Hw).
    match type of Hw with wrote (SCHEMA_CREATOR ?v) _ _ _ => destruct (decide (v = u)) as [->|] end;
      [by eapply by_single_owner|rewrite (w_others _ _ _ _ Hw) in Hn; congruence].
  - apply claim_ok in Hr as (n & Hp & Ha & Hc & Hothers).
    match type of Hp with pget _ (PENDING_SCHEMA_OWNER ?v) = _ => destruct (decide (v = u)) as [->|] end.
    + apply by_accepted_proposal; congruence.
    + rewrite Hothers in Hn; congruence.
  - unfold void in Hr; reg_inv.
    match goal with Hq : propose_ownership_transfer ?v _ _ _ _ = _ |- _ =>
      apply propose_ok in Hq as [Ha _ Hc Hothers]; destruct (decide (v = u)) as [->|] end.
    + rewrite Hc in Hn; destruct (Z.leb_spec (threshold_of s u) 1); [|congruence].
      by eapply by_single_owner.
    + rewrite Hothers in Hn; congruence.
  - unfold void in Hr; reg_inv.
    match goal with Hq : approve_ownership_transfer ?v _ _ _ = _ |- _ =>
      apply approve_ok in Hq as (p & [Hp Ha Hd Hv -> _ Hc Hothers]);
      destruct (decide (v = u)) as [->|] end.
    + rewrite Hc in Hn; simpl in Hn; destruct (Z.leb_spec (threshold_of s u) (len (approvals p ++ [approver])));
        [|congruence].
      eapply by_quorum; eauto; congruence.
    + rewrite Hothers in Hn; congruence.
Qed.
End creators_exec.
