(* ===== verification/RegProps.v ===== *)
(** * Properties of the schema registry

    Schemas are well formed, content addressed and permanent, the enumeration
    and the pages over it are complete, attester lists behave as sets, lineages
    are short trees, and a schema changes hands only with the authority of its
    owners. *)

From S2P Require Import Values.
From S2P Require Import Prelude Host Common Sample TypedData Validation SchemaGrammar RegState.
From S2P Require Import RegAdmin RegOwners RegSchemas RegQuery RegCalls RegSample RegFrame.
From S2P Require Import RegRecord RegIndex RegLineage RegQuorum.

(** ** Registrations that succeed *)

Section progress.
Context {X : Type} `{RegDeps X}.
Implicit Types (s : State RegSig X) (e : Env).

Lemma wp_put k v e s (Q : unit -> State RegSig X -> Prop) :
  (forall s', wrote k (Some v) s s' -> Q tt s') -> wp (put k v) e s Q.
Proof.
  intros HQ; destruct (pers_put_run (C := RegSig) k v LEDGERS_IN_ONE_YEAR e s) as (l1 & l2 & Hr).
  eapply wp_of_run; [exact Hr|]; apply HQ; by eapply put_ok.
Qed.
Lemma wp_extend e s (Q : unit -> State RegSig X -> Prop) :
  (forall s', same_values s s' -> Q tt s') -> wp extend_instance_ttl e s Q.
Proof.
  intros HQ; destruct (extend_ttl_run e s) as (s' & Hr & Hs); eapply wp_of_run; eauto.
Qed.
Lemma wp_renew k e s (Q : unit -> State RegSig X -> Prop) :
  is_Some (pget s k) -> (forall s', same_values s s' -> Q tt s') -> wp (renew k) e s Q.
Proof.
  intros Hk HQ; destruct (renew_run k e s Hk) as (s' & Hr & Hs); eapply wp_of_run; eauto.
Qed.

(** The next position of the index is free to use. *)
Definition index_open s : Prop :=
  0 <= next_index s < u32_max /\ (pget s SCHEMA_COUNT = None -> pget s (IndexKey 0) = None).

Lemma wp_append u e s (Q : unit -> State RegSig X -> Prop) :
  index_open s -> (forall s', Q tt s') -> wp (append_to_index u) e s Q.
Proof.
  intros [Hn H0] HQ; unfold append_to_index, next_index in *; apply wp_bind.
  change (wp ?m e s ?R) with (R (pget s SCHEMA_COUNT) s); cbv beta; apply wp_bind.
  assert (Hgo : forall s1 n, 0 <= n < u32_max ->
    wp (put (IndexKey n) u;; (count ← checked u32_max (n + 1); put SCHEMA_COUNT count)) e s1 Q).
  { intros s1 n Hlt; apply wp_bind, wp_put; intros s2 _; apply wp_bind.
    apply wp_of_run with (n + 1) s2; [|by apply wp_put; auto].
    unfold checked; by rewrite (proj2 (Z.leb_le 0 _)), (proj2 (Z.leb_le _ u32_max)) by lia. }
  destruct (pget s SCHEMA_COUNT) as [n|] eqn:En; simpl in Hn.
  - apply wp_bind, wp_renew; [by rewrite En|]; intros s1 _; by apply Hgo.
  - apply wp_bind; apply wp_of_run with false s; [unfold pers_has; by rewrite H0|].
    by apply (Hgo s 0).
Qed.

(** The conditions of [register]. *)
Record registrable e s (schema : bytes) (resolver : Address) (rev : bool) : Prop := {
  rb_lexical : validate_schema_lexical schema = None;
  rb_syntax : validate_schema_syntax schema = None;
  rb_fresh : pget s (SchemaKey (schema_uid e schema resolver rev)) = None;
  rb_index : index_open s
}.

Lemma index_open_frame s s' :
  pget s' SCHEMA_COUNT = pget s SCHEMA_COUNT -> pget s' (IndexKey 0) = pget s (IndexKey 0) ->
  index_open s -> index_open s'.
Proof. by unfold index_open, next_index; intros -> ->. Qed.

Lemma wp_write u owner r e s (Q : unit -> State RegSig X -> Prop) :
  index_open s -> (forall s', Q tt s') -> wp (write_schema u owner r 0 None) e s Q.
Proof.
  intros Hi HQ; unfold write_schema, put_if_positive, put_default_policy, put_metadata; simpl.
  apply wp_bind, wp_put; intros s1 H1; apply wp_bind.
  apply wp_of_run with tt s1; [done|]; apply wp_bind, wp_put; intros s2 H2; do 2 apply wp_bind.
  assert (Hrest : forall s3, index_open s3 ->
    wp (append_to_index u;; (publish (EvSchemaRegistered u owner);; extend_instance_ttl)) e s3 Q).
  { intros s3 H3; apply wp_bind, wp_append; [done|]; intros s4.
    apply wp_bind; eapply wp_of_run; [reflexivity|]; apply wp_extend; auto. }
  assert (H2' : index_open s2) by (eapply index_open_frame; [..|exact Hi]; by settle).
  eapply wp_of_run; [reflexivity|]; destruct (negb _).
  - apply wp_put; intros s3 H3; apply wp_bind; eapply wp_of_run; [reflexivity|]; apply Hrest.
    eapply index_open_frame; [..|exact H2']; by settle.
  - eapply wp_of_run; [reflexivity|]; apply wp_bind; eapply wp_of_run; [reflexivity|]; by apply Hrest.
Qed.

Lemma register_run owner schema resolver rev e s :
  authorized e owner = true -> registrable e s schema resolver rev ->
  exists s', register owner schema resolver rev e s
             = Ok (schema_uid e schema resolver rev, s').
Proof.
  intros Hau [Hl Hy Hf Hi].
  assert (Hw : wp (register owner schema resolver rev) e s
                 (fun u _ => u = schema_uid e schema resolver rev)).
  { unfold register, register_internal, has_schema; rewrite Hl, Hy.
    apply wp_bind, wp_require_auth; [done|]; apply wp_bind, wp_extend; intros s1 Hs1.
    do 3 (apply wp_bind; eapply wp_of_run; [reflexivity|]); apply wp_bind; eapply wp_of_run; [reflexivity|].
    apply wp_bind; eapply wp_of_run; [reflexivity|]; apply wp_bind, wp_panic_if; [by rewrite (sv_pget _ _ Hs1 (SchemaKey _)), Hf|].
    apply wp_bind, wp_write; [|by intros s2; eapply wp_of_run].
    eapply index_open_frame; [..|exact Hi]; by settle. }
  by apply wp_run in Hw as (u & s' & Hr & ->); eauto.
Qed.

(** A registry that was only ever used through its calls has an open index
    until it is full. *)
Lemma enumerated_open l s : enumerated l s -> len l < u32_max -> index_open s.
Proof.
  intros [Hc He _ _ _] Hlt; split; [rewrite Hc; unfold len in *; lia|]; intros Hn.
  unfold next_index in Hc; rewrite Hn in Hc; change (pget s (IndexKey (Z.of_nat 0)) = None).
  rewrite He; by destruct l.
Qed.
End progress.

(** ** Properties *)

Section properties.
Context {X : Type} `{RegDeps X}.
Implicit Types (s : State RegSig X) (e : Env) (h : list (Env * RegCall)).

(** C17: [validate_schema_syntax] accepts a byte string exactly when it is a
    schema of the grammar: up to 64 comma-separated [name type] fields with
    well-formed names and types, names distinct up to case, surrounded by
    spaces, within the length limit. *)
Theorem syntax_check_decides_grammar (schema : bytes) :
  validate_schema_syntax schema = None <-> schema_grammar schema.
Proof. apply validate_schema_syntax_iff. Qed.

(** C18: [register] on a registry that enumerates the schemas [l] succeeds
    exactly when the owner authorised the call, the schema passes the lexical
    rules and the grammar, its UID is not yet registered and the index is not
    full; it then returns the content hash as UID, writes the record with its
    creator, and appends the UID to the enumeration. *)
Theorem register_succeeds_iff l owner schema resolver rev e s :
  enumerated l s ->
  ((exists u s', register owner schema resolver rev e s = Ok (u, s'))
   <-> authorized e owner = true /\ validate_schema_lexical schema = None
       /\ schema_grammar schema /\ (schema_uid e schema resolver rev ∉ l) /\ len l < u32_max)
  /\ forall u s', register owner schema resolver rev e s = Ok (u, s') ->
     u = schema_uid e schema resolver rev
     /\ written u owner (mkSchemaRecord u resolver rev schema false None) 0 None s s'
     /\ enumerated (l ++ [u]) s'.
Proof.
  intros Hl.
  assert (Hok : forall u s', register owner schema resolver rev e s = Ok (u, s') ->
    authorized e owner = true /\ registered e owner schema resolver rev 0 None None s u s').
  { intros u s' Hr; unfold register in Hr; run_inv; split; [done|by apply register_internal_ok]. }
  split; [split|].
  - intros (u & s' & [Hau [Hu Hlex Hy _ Hf Hw]]%Hok); apply validate_schema_syntax_iff in Hy.
    split_and!; [done..| |].
    + rewrite <- (en_records _ _ Hl), <- Hu, Hf; by intros [? ?].
    + pose proof (wr_room _ _ _ _ _ _ _ Hw); rewrite (en_count _ _ Hl) in *; lia.
  - intros (Hau & Hlex & Hg & Hf & Hlt); apply validate_schema_syntax_iff in Hg.
    destruct (register_run owner schema resolver rev e s Hau) as [s' Hr]; [|eauto].
    split; [done..| |by eapply enumerated_open].
    apply eq_None_not_Some; by rewrite (en_records _ _ Hl).
  - intros u s' [_ [Hu _ _ _ Hf Hw]]%Hok; split_and!; [done..|by eapply enumerated_written].
Qed.

(** C19: A call registers a schema only under the hash of its definition and
    only when the definition is well formed, and no later history of calls
    removes the record or changes anything of it but the deprecation flag. *)
Theorem schema_records_are_permanent c e s s' h u r :
  exec c e s = Ok (tt, s') -> pget s' (SchemaKey u) = Some r ->
  (pget s (SchemaKey u) = None -> content_addressed e u r)
  /\ exists r', pget (run_history h s') (SchemaKey u) = Some r' /\ later_record r r'.
Proof.
  intros Hr Hs'; split; [|by apply record_kept].
  intros Hs; pose proof (records_exec c e s tt s' Hr u) as Hu; unfold record_step in Hu.
  by rewrite Hs, Hs' in Hu.
Qed.

(** C20: When, after any history that began without pending offers, a call
    changes the creator of a schema, then a single owner of a schema without
    multi-signature authorised it, or the new creator accepted an offer of a
    creator of the schema, or as many distinct owners as the threshold demands
    approved this very transfer, the last of them in this call. *)
Theorem ownership_changes_are_authorised h s c e s' u old new :
  (forall v, pget s (PENDING_OWNERSHIP v) = None /\ pget s (PENDING_SCHEMA_OWNER v) = None) ->
  exec c e (run_history h s) = Ok (tt, s') ->
  is_Some (pget (run_history h s) (SchemaKey u)) ->
  pget (run_history h s) (SCHEMA_CREATOR u) = Some old ->
  pget s' (SCHEMA_CREATOR u) = Some new -> new <> old ->
  (threshold_of (run_history h s) u <= 1 /\ exists a, acts_for e (run_history h s) u a)
  \/ (authorized e new = true /\ offered_in h s u new)
  \/ exists approvers, NoDup approvers /\ threshold_of (run_history h s) u <= len approvers
       /\ Forall (approved_in (h ++ [(e, c)]) s u new) approvers.
Proof.
  intros Hn Hr Hu Ho Hnew Hne.
  destruct (creator_exec c e _ s' u old new Hr Hu Ho Hnew Hne) as [a Ha Ht|Hp Ha|a p -> Hp <- Ha Hd _ Ht].
  - left; eauto.
  - right; left; split; [done|]; apply offered_history; [|done]; intros v; apply Hn.
  - right; right; exists (approvals p ++ [a]).
    destruct (quorum_history h s (fun v => proj1 (Hn v)) u p Hp) as [Hnd Hall]; split_and!; [|done|].
    + apply NoDup_app; split_and!; [done|by intros b Hb ->%list_elem_of_singleton|apply NoDup_singleton].
    + apply Forall_app; split; [eapply Forall_impl; [exact Hall|]; intros b; apply approved_in_app|].
      apply Forall_singleton; exists h, e, (RegApproveOwnershipTransfer u a), []; split_and!; [done| |done].
      left; eauto.
Qed.

(** C21: After any history the page query returns, page by page, every
    registered schema without the tombstone that [deprecate] writes, in order
    of registration, once: a client that asks for pages until the cursor stops
    ends with the whole list, whatever page size it chose.  The other way to
    deprecate a schema, [deprecate_schema], sets a flag in the record that this
    query does not look at ([Findings.deprecated_schema_in_use]). *)
Theorem pages_enumerate_all_schemas h (x : X) limit e :
  0 < limit ->
  exists l, enumerated l (run_history h (empty_state RegSig x))
    /\ forall fuel, (length l < fuel)%nat ->
       exists s', all_schemas fuel 0 limit e (run_history h (empty_state RegSig x))
                  = Ok (omap (visible (run_history h (empty_state RegSig x))) l, s')
         /\ same_values (run_history h (empty_state RegSig x)) s'.
Proof.
  intros Hlim; destruct (enumerated_history h _ [] (enumerated_empty x)) as [l Hl]; exists l.
  split; [done|]; intros fuel Hf.
  destruct (all_schemas_run fuel 0 limit l e _ Hl) as (s' & Hr & Hs); [lia..|].
  exists s'; by rewrite <- active_between_all.
Qed.

(** The attester list of every schema is a set: after any history of fewer
    than [u32::MAX] calls each list is a duplicate-free set of addresses, each
    further call acts on it as the set operation of that call (adding,
    removing, or nothing), and the three queries answer membership, size and
    non-emptiness of it. *)
Theorem attester_lists_are_sets h (x : X) c e s' :
  len h < u32_max -> exec c e (run_history h (empty_state RegSig x)) = Ok (tt, s') ->
  forall u, exists l, lists (run_history h (empty_state RegSig x)) u l
    /\ lists s' u (acl_after c u l)
    /\ answers (get_authorized_attester_count u) e s' (len (acl_after c u l))
    /\ answers (is_schema_restricted u) e s' (bool_decide (acl_after c u l <> []))
    /\ forall a, answers (is_attester_authorized u a) e s'
         (negb (is_deprecated s' u) && bool_decide (a ∈ acl_after c u l)).
Proof.
  intros Hh Hr u; pose proof (acl_ok_history h 0 _ (acl_ok_empty x)) as Hok.
  destruct (Hok ltac:(lia) u) as (l & Hl & _); exists l.
  assert (Hl' : lists s' u (acl_after c u l)) by (eapply acl_exec; [|apply Hok|..]; eauto; lia).
  split_and!; [done..|by apply attester_count_run|by apply is_schema_restricted_run|].
  intros a; by apply is_attester_authorized_run.
Qed.

(** After any history every registered schema has a finite chain of at most
    32 registered ancestors, and the lineage query returns exactly it; for a
    schema that is not registered the query fails. *)
Theorem lineage_query_is_total h (x : X) u e :
  let s := run_history h (empty_state RegSig x) in
  match pget s (SchemaKey u) with
  | Some r =>
      exists l, ancestry s u l /\ (length l <= MAX_SCHEMA_LINEAGE_DEPTH)%nat
        /\ answers (get_schema_lineage u) e s
             (mkSchemaLineage u (sr_parent r) (List.last l u) (len l) l)
  | None => get_schema_lineage u e s = Err (Panic SchemaNotFound)
  end.
Proof.
  intros s; destruct (pget s (SchemaKey u)) as [r|] eqn:Hu; [|by apply get_schema_lineage_missing].
  destruct (rooted_history h _ (rooted_empty x) u r Hu) as (l & Ha & Hl); exists l.
  split_and!; [done..|]; by apply get_schema_lineage_run.
Qed.

(** The queries SAS makes always answer, change no value, and tell exactly
    what the stored entries say: the schema unless it is deprecated, whether
    it is quarantined, its maximal lifetime and policy, and whether an address
    is the creator, an unexpired delegate or a listed attester. *)
Theorem queries_answer_the_store u a e s :
  answers (get_schema u) e s (visible s u)
  /\ answers (is_schema_quarantined u) e s (default false (pget s (SCHEMA_QUARANTINE u)))
  /\ answers (get_max_ttl u) e s (default 0 (pget s (SCHEMA_MAX_TTL u)))
  /\ answers (get_schema_policy u) e s (policy_of s u)
  /\ answers (is_delegate u a) e s (active_delegate e s u a)
  /\ answers (is_authorized u a) e s (authorised_issuer e s u a)
  /\ answers (is_attester_authorized u a) e s (listed s u a).
Proof.
  split_and!; auto using get_schema_answers, is_schema_quarantined_answers, get_max_ttl_answers,
    get_schema_policy_answers, is_delegate_answers, is_authorized_answers,
    is_attester_authorized_answers.
Qed.
End properties.

(** ** Witnesses *)

Lemma register_succeeds_iff_witness :
  exists u s', register alice score resolver_id true (sample_env 200 [alice]) reg_start = Ok (u, s').
Proof.
  destruct (enumerated_history [reg_init] _ [] (enumerated_empty tt)) as [l Hl]; cbn [app] in Hl.
  assert (Hcount : len l = 0) by (rewrite <- (en_count _ _ Hl); vm_compute; reflexivity).
  assert (Hnil : l = []) by (destruct l; [reflexivity|unfold len in Hcount; simpl in Hcount; lia]).
  apply (proj1 (register_succeeds_iff l alice score resolver_id true (sample_env 200 [alice])
    reg_start Hl)); rewrite Hnil.
  split; [|split; [|split; [|split]]].
  - vm_compute; reflexivity.
  - vm_compute; reflexivity.
  - apply validate_schema_syntax_iff; vm_compute; reflexivity.
  - by intros ?%elem_of_nil.
  - vm_compute; reflexivity.
Defined.

Lemma schema_records_are_permanent_witness :
  exists r, pget (run_history [reg_child] (final (exec (snd reg_register)) (fst reg_register) reg_start))
              (SchemaKey score_uid) = Some r.
Proof.
  destruct (schema_records_are_permanent (snd reg_register) (fst reg_register) reg_start
    (final (exec (snd reg_register)) (fst reg_register) reg_start) [reg_child] score_uid
    (mkSchemaRecord score_uid resolver_id true score false None)) as [_ (r & Hr & _)].
  - apply run_final; vm_compute; reflexivity.
  - vm_compute; reflexivity.
  - exists r; exact Hr.
Defined.

Definition transfer_history : list (Env * RegCall) := [reg_init; reg_register; reg_owners; reg_propose].

Lemma ownership_changes_are_authorised_witness :
  (threshold_of (run_history transfer_history reg_empty) score_uid <= 1
   /\ exists a, acts_for (fst reg_approve) (run_history transfer_history reg_empty) score_uid a)
  \/ (authorized (fst reg_approve) carol = true
      /\ offered_in transfer_history reg_empty score_uid carol)
  \/ exists approvers, NoDup approvers
       /\ threshold_of (run_history transfer_history reg_empty) score_uid <= len approvers
       /\ Forall (approved_in (transfer_history ++ [(fst reg_approve, snd reg_approve)])
                    reg_empty score_uid carol) approvers.
Proof.
  refine (ownership_changes_are_authorised transfer_history reg_empty
    (snd reg_approve) (fst reg_approve)
    (final (exec (snd reg_approve)) (fst reg_approve) (run_history transfer_history reg_empty))
    score_uid alice carol _ _ _ _ _ _).
  - intros v; split; reflexivity.
  - apply run_final; vm_compute; reflexivity.
  - vm_compute; eexists; reflexivity.
  - vm_compute; reflexivity.
  - vm_compute; reflexivity.
  - vm_compute; congruence.
Defined.

Lemma pages_enumerate_all_schemas_witness :
  exists l, enumerated l (run_history [reg_init; reg_register; reg_child] (empty_state RegSig tt)).
Proof.
  destruct (pages_enumerate_all_schemas [reg_init; reg_register; reg_child] tt 1 (sample_env 900 []))
    as (l & Hl & _).
  - reflexivity.
  - exists l; exact Hl.
Defined.

Definition list_bob : Env * RegCall := (sample_env 400 [alice], RegAddAuthorizedAttester score_uid bob).

Lemma attester_lists_are_sets_witness :
  exists l, lists (run_history [reg_init; reg_register] (empty_state RegSig tt)) score_uid l
    /\ lists (final (exec (snd list_bob)) (fst list_bob)
               (run_history [reg_init; reg_register] (empty_state RegSig tt))) score_uid
         (acl_after (snd list_bob) score_uid l).
Proof.
  destruct (attester_lists_are_sets [reg_init; reg_register] tt (snd list_bob) (fst list_bob)
    (final (exec (snd list_bob)) (fst list_bob)
       (run_history [reg_init; reg_register] (empty_state RegSig tt)))) with (u := score_uid)
    as (l & Hl & Hl' & _).
  - reflexivity.
  - apply run_final; vm_compute; reflexivity.
  - exists l; split; [exact Hl|exact Hl'].
Defined.
