(* ===== verification/Compose.v ===== *)
(** * SAS over the schema registry

    SAS bound to the registry of this repository: the registry's operations
    answer the calls of the interface [Deps] at the registry's address, on the
    registry's own state, which is part of the state of the other contracts.
    Resolvers, indexers, tokens and the proof verifier remain arbitrary. *)

From S2P Require Import Sample Merkle SchemaGrammar SasRevoke SasQuery RegSample.
From S2P Require Import Values.
From S2P Require Import Prelude Host Common TypedData Validation.
From S2P Require Import RegState RegAdmin RegOwners RegSchemas RegQuery RegCalls RegFrame.
From S2P Require Import RegRecord RegIndex RegLineage.
From S2P Require Import SasState SasCore SasAdmin SasFees SasIssue SasAttest SasCalls.
From S2P Require Import SasFrame SasRecord SasIssueSpec.

Section compose.
Context {Y : Type} (others : Deps (State RegSig Y)) (registry_address : Address).

(** A nested call of a registry operation: a failure is an error reply. *)
Definition call_registry {A} (m : M RegSig Y A) : xcall (State RegSig Y) A :=
  fun e rs => match m e rs with
              | Ok (a, rs') => Some (Val a, rs')
              | Err _ => None
              end.

(** The call [f] answered by [m] at the registry's address. *)
Definition at_registry {A} (m : M RegSig Y A) (f : xcall (State RegSig Y) A) (callee : Address)
    : xcall (State RegSig Y) A :=
  if bool_decide (callee = registry_address) then call_registry m else f.

(** The registry has no function [SASREG]. *)
Definition composed : Deps (State RegSig Y) := {|
  registry_SASREG a :=
    at_registry (trap CallError) (@registry_SASREG _ others a) a;
  registry_sasreg a := at_registry sasreg (@registry_sasreg _ others a) a;
  registry_get_schema a u := at_registry (get_schema u) (@registry_get_schema _ others a u) a;
  registry_is_schema_quarantined a u :=
    at_registry (is_schema_quarantined u) (@registry_is_schema_quarantined _ others a u) a;
  registry_get_max_ttl a u := at_registry (get_max_ttl u) (@registry_get_max_ttl _ others a u) a;
  registry_is_authorized a u b :=
    at_registry (is_authorized u b) (@registry_is_authorized _ others a u b) a;
  registry_is_attester_authorized a u b :=
    at_registry (is_attester_authorized u b) (@registry_is_attester_authorized _ others a u b) a;
  registry_is_schema_restricted a u :=
    at_registry (is_schema_restricted u) (@registry_is_schema_restricted _ others a u) a;
  registry_get_schema_policy a u :=
    at_registry (get_schema_policy u) (@registry_get_schema_policy _ others a u) a;
  registry_get_creator a u := at_registry (get_creator u) (@registry_get_creator _ others a u) a;
  registry_get_creator_royalty a u :=
    at_registry (get_creator_royalty u) (@registry_get_creator_royalty _ others a u) a;
  registry_get_schema_frost_group a u :=
    at_registry (get_schema_frost_group u) (@registry_get_schema_frost_group _ others a u) a;
  resolver_on_attest := @resolver_on_attest _ others;
  resolver_on_revoke := @resolver_on_revoke _ others;
  indexer_index_attestation := @indexer_index_attestation _ others;
  indexer_set_valid_from := @indexer_set_valid_from _ others;
  indexer_handle_revoke := @indexer_handle_revoke _ others;
  indexer_handle_replace := @indexer_handle_replace _ others;
  indexer_handle_renew := @indexer_handle_renew _ others;
  token_transfer := @token_transfer _ others;
  token_balance := @token_balance _ others;
  zk_verify_proof := @zk_verify_proof _ others
|}.
#[local] Existing Instance composed.

(** What the registry must hold for [b] to issue under [u]. *)
Definition may_issue (e : Env) (rs : State RegSig Y) (u : UID) (b : Address) : bool :=
  authorised_issuer e rs u b || listed rs u b.

(** *** Nested calls *)

Implicit Types (s : State SasSig (State RegSig Y)) (e : Env).

Lemma at_registry_run {A} (m : M RegSig Y A) f e rs w :
  answers m e rs w ->
  exists rs', at_registry m f registry_address e rs = Some (Val w, rs') /\ same_values rs rs'.
Proof.
  intros (rs' & Hm & Hs); exists rs'; split; [|done]; unfold at_registry, call_registry.
  by rewrite bool_decide_true, Hm by done.
Qed.

Lemma invoke_registry {A} (m : M RegSig Y A) f e s v s' w :
  answers m e (ext s) w ->
  invoke (C := SasSig) (at_registry m f registry_address) e s = Ok (v, s') ->
  v = w /\ same_values (ext s) (ext s').
Proof.
  intros (rs' & Hm & Hs)%(at_registry_run m f) (x & Hf & ->)%invoke_ok.
  rewrite Hm in Hf; by injection Hf as -> <-.
Qed.

Lemma probe_registry {A} (m : M RegSig Y A) f d e s v s' w :
  answers m e (ext s) w ->
  probe (C := SasSig) (at_registry m f registry_address) d e s = Ok (v, s') ->
  v = w /\ same_values (ext s) (ext s').
Proof.
  intros (rs' & Hm & Hs)%(at_registry_run m f) (x & -> & [Hf|[_ Hf]])%probe_ok.
  - rewrite Hm in Hf; by injection Hf as -> <-.
  - by apply Hf in Hm.
Qed.

(** *** Issuance *)

(** The conditions of the registry on an attestation. *)
Record registry_accepts e (rs : State RegSig Y) (a : Attestation) (schema : SchemaRecord) : Prop := {
  ra_schema : visible rs (att_schema_uid a) = Some schema;
  ra_quarantine : default false (pget rs (SCHEMA_QUARANTINE (att_schema_uid a))) = false;
  ra_max_ttl : exceeds_max_ttl e (default 0 (pget rs (SCHEMA_MAX_TTL (att_schema_uid a))))
                 (expiration_time a) = false;
  ra_issuer : may_issue e rs (att_schema_uid a) (attester a) = true
}.

Lemma may_issue_same e rs rs' u b :
  same_values rs rs' -> may_issue e rs' u b = may_issue e rs u b.
Proof.
  intros Hs; unfold may_issue, authorised_issuer, listed.
  rewrite <- !(is_deprecated_proper _ _ Hs _ _ eq_refl), (active_delegate_same _ _ _ _ _ Hs).
  by rewrite (sv_pget _ _ Hs (SCHEMA_CREATOR u)), (sv_pget _ _ Hs (SCHEMA_ACL u b)).
Qed.

(** Replace a registry query in the context by its answer. *)
Ltac registry_answer H Ha :=
  first [ eapply (invoke_registry _ _ _ _ _ _ _ Ha) in H
        | eapply (probe_registry _ _ _ _ _ _ _ _ Ha) in H ].

Lemma acl_composed a e s on_acl restricted s' :
  schema_attester_acl_status registry_address (att_schema_uid a) (attester a) e s
    = Ok ((on_acl, restricted), s') ->
  on_acl = true -> listed (ext s) (att_schema_uid a) (attester a) = true
                   /\ same_values (ext s) (ext s').
Proof.
  unfold schema_attester_acl_status; intros Hr ->; sas_inv.
  match goal with Hq : probe _ _ _ _ = _ |- _ =>
    registry_answer Hq (is_attester_authorized_answers (att_schema_uid a) (attester a) e (ext s)) end.
  match goal with Hq : ?b = listed _ _ _ /\ _, Hb : (if ?b then _ else _) _ _ = _ |- _ =>
    destruct Hq as [Hl Hs]; rewrite <- Hl; destruct b; sas_inv; [done|congruence] end.
Qed.

Lemma rules_composed a e s schema s' :
  validate_schema_rules registry_address a e s = Ok (schema, s') ->
  registry_accepts e (ext s) a schema /\ same_values (ext s) (ext s').
Proof.
  unfold validate_schema_rules; intros Hr; sas_inv.
  match goal with Hq : invoke (registry_get_schema _ _) _ _ = Ok (_, ?s1),
      Hq2 : probe (registry_is_schema_quarantined _ _) _ _ _ = Ok (_, ?s2),
      Hq3 : probe (registry_get_max_ttl _ _) _ _ _ = Ok (_, ?s3),
      Hq4 : probe (registry_is_authorized _ _ _) _ _ _ = Ok (?b, ?s4),
      Hi : (if negb ?b then _ else _) _ ?s4 = Ok (_, ?s5) |- _ =>
    registry_answer Hq (get_schema_answers (att_schema_uid a) e (ext s));
    registry_answer Hq2 (is_schema_quarantined_answers (att_schema_uid a) e (ext s1));
    registry_answer Hq3 (get_max_ttl_answers (att_schema_uid a) e (ext s2));
    registry_answer Hq4 (is_authorized_answers (att_schema_uid a) (attester a) e (ext s3));
    destruct Hq as [Hv Hs1], Hq2 as [Hqu Hs2], Hq3 as [-> Hs3], Hq4 as [Hau Hs4];
    assert (S2 : same_values (ext s) (ext s2)) by (by transitivity (ext s1));
    assert (S3 : same_values (ext s) (ext s3)) by (by transitivity (ext s2));
    assert (S4 : same_values (ext s) (ext s4)) by (by transitivity (ext s3));
    assert (Hiss : may_issue e (ext s) (att_schema_uid a) (attester a) = true
                   /\ same_values (ext s) (ext s5)) end.
  { match goal with Hi : (if negb ?b then _ else _) _ _ = Ok _ |- _ => destruct b; cbn [negb] in Hi; sas_inv end.
    - split; [|done]; rewrite <- (may_issue_same _ _ _ _ _ S3); unfold may_issue; by rewrite <- Hau.
    - match goal with Hq : schema_attester_acl_status _ _ _ _ _ = Ok (?p, _) |- _ => destruct p as [on_acl restricted] end.
      destruct on_acl; cbn [negb] in *; sas_inv.
      match goal with Hq : schema_attester_acl_status _ _ _ _ _ = _ |- _ =>
        apply acl_composed in Hq as [Hl Hs5]; [|done] end.
      split; [|etransitivity; [exact S4|done]].
      rewrite <- (may_issue_same _ _ _ _ _ S4); unfold may_issue; rewrite Hl; apply orb_true_r. }
  destruct Hiss as [Hiss Hs]; split; [|done]; split; [done| | |done].
  - by rewrite <- (sv_pget _ _ Hs1 (SCHEMA_QUARANTINE _)).
  - by rewrite <- (sv_pget _ _ S2 (SCHEMA_MAX_TTL _)).
Qed.

(** An attestation SAS issues satisfied the registry's conditions and the
    schema's revocation policy, as they stood when the call began. *)
Lemma attest_composed a e s u s' :
  attest a e s = Ok (u, s') -> inst s SCHEMA_REGISTRY = Some registry_address ->
  exists schema, registry_accepts e (ext s) a schema
    /\ check_policy (policy_of (ext s) (att_schema_uid a)) (revocable a) = None.
Proof.
  unfold attest; intros Hr Hreg; sas_inv.
  match goal with Hq : require_unpaid_allowed _ _ _ = Ok (_, ?s1) |- _ =>
    pose proof (fp_require_unpaid_allowed (fun _ => False) (fun _ => False) _ _ _ _ _ Hq) as [Hi1 _];
    apply (through_require_unpaid_allowed (=)) in Hq as Hx1 end.
  apply in_callback_context_body in Hr as (s2 & s3 & Hr & [Hi2 _] & _ & Hx2 & _).
  unfold attest_body in Hr; sas_inv.
  match goal with Hq : inst _ SCHEMA_REGISTRY = Some ?r, Hr2 : validate_schema_rules ?r _ _ _ = _ |- _ =>
    change (inst s2 SCHEMA_REGISTRY = Some r) in Hq;
    rewrite (Hi2 SCHEMA_REGISTRY), (Hi1 SCHEMA_REGISTRY), Hreg in Hq by (intros []; done || tauto);
    injection Hq as <- end.
  match goal with Hf : validate_fields _ _ _ = _, Hv : validate_schema_rules _ _ _ _ = Ok (?schema, ?s4),
      Hc : consume_issuance_quota _ _ _ = Ok (_, ?s5), Hp : probe _ _ _ _ = Ok (?policy, _) |- _ =>
    apply (through_validate_fields (=)) in Hf; apply rules_composed in Hv as [Hacc Hs4];
    apply (through_consume_issuance_quota (=)) in Hc;
    registry_answer Hp (get_schema_policy_answers (att_schema_uid a) e (ext s5));
    destruct Hp as [-> _]; exists schema; rename Hf into Hfields, Hc into Hquota; unfold through in * end.
  rewrite <- Hfields in *; cbn [upd_inst_live ext] in *; rewrite Hx2, <- Hx1 in *; split; [done|].
  rewrite <- (policy_of_same _ _ _ Hs4), Hquota; done.
Qed.
End compose.

(** ** What the two contracts guarantee together *)

(** C22: When SAS is configured with the registry and [attest] succeeds, the
    registry holds the schema, without a tombstone and not quarantined, the expiry
    respects the schema's maximal lifetime, the attester is its creator, an
    unexpired delegate or a listed attester, and the revocability of the
    attestation is what the schema's policy allows. *)
Theorem issuance_respects_the_registry {Y : Type} (others : Deps (State RegSig Y))
    (registry_address : Address) a e (s : State SasSig (State RegSig Y)) u s' :
  @attest _ (composed others registry_address) a e s = Ok (u, s') ->
  inst s SCHEMA_REGISTRY = Some registry_address ->
  exists schema, registry_accepts e (ext s) a schema
    /\ check_policy (policy_of (ext s) (att_schema_uid a)) (revocable a) = None.
Proof. apply attest_composed. Qed.

(** ** A concrete instance *)

Definition no_reply {A} : xcall (State RegSig unit) A := fun _ _ => None.
Definition accept : xcall (State RegSig unit) unit := fun _ rs => Some (Val tt, rs).

(** No contract but the registry and a resolver that accepts. *)
Definition only_resolver : Deps (State RegSig unit) := {|
  registry_SASREG _ := no_reply;
  registry_sasreg _ := no_reply;
  registry_get_schema _ _ := no_reply;
  registry_is_schema_quarantined _ _ := no_reply;
  registry_get_max_ttl _ _ := no_reply;
  registry_is_authorized _ _ _ := no_reply;
  registry_is_attester_authorized _ _ _ := no_reply;
  registry_is_schema_restricted _ _ := no_reply;
  registry_get_schema_policy _ _ := no_reply;
  registry_get_creator _ _ := no_reply;
  registry_get_creator_royalty _ _ := no_reply;
  registry_get_schema_frost_group _ _ := no_reply;
  resolver_on_attest _ _ := accept;
  resolver_on_revoke _ _ := accept;
  indexer_index_attestation _ _ _ _ _ _ := no_reply;
  indexer_set_valid_from _ _ _ := no_reply;
  indexer_handle_revoke _ _ := no_reply;
  indexer_handle_replace _ _ _ := no_reply;
  indexer_handle_renew _ _ _ := no_reply;
  token_transfer _ _ _ _ := no_reply;
  token_balance _ _ := no_reply;
  zk_verify_proof _ _ _ := no_reply
|}.

(** SAS initialised with the registry that holds alice's schemas. *)
Definition composed_start : State SasSig (State RegSig unit) :=
  @SasCalls.run_history _ (composed only_resolver registry_id)
    [(sample_env 400 [root_admin], Init root_admin registry_id)] (empty_state SasSig reg_schemas).

Definition composed_att : Attestation :=
  mkAttestation (attestation_uid (sample_env 0 []) score_uid bob alice [7]) score_uid 0 5000 0
    zero_uid bob alice true [7] 0.

Lemma issuance_respects_the_registry_witness :
  exists schema, registry_accepts (sample_env 1000 [alice]) (ext composed_start) composed_att schema
    /\ check_policy (policy_of (ext composed_start) (att_schema_uid composed_att))
         (revocable composed_att) = None.
Proof.
  refine (issuance_respects_the_registry only_resolver registry_id composed_att
    (sample_env 1000 [alice]) composed_start (uid composed_att)
    (final (@attest _ (composed only_resolver registry_id) composed_att) (sample_env 1000 [alice])
       composed_start) _ _).
  - apply run_final; vm_compute; reflexivity.
  - vm_compute; reflexivity.
Defined.
