(* ===== verification/IdxState.v ===== *)
(** * Indexer: state and shared helpers

    [src/contracts/indexer/src/lib.rs]: the storage layout, the per-ledger
    query limit, the chunk capacity and the reads that renew what they read.
    An index is a counter and a sequence of chunks of UIDs per lookup key.
    The recipient and the attester index have counters of their own; their
    chunks have the same keys. *)

From S2P Require Import Prelude Host Values Common.

Definition MAX_KNOWN_VERSION : Z := 2.
Definition DEFAULT_CHUNK_SIZE : Z := 100.
Definition MIN_CHUNK_SIZE : Z := 25.
Definition MAX_CHUNK_SIZE : Z := 100.
Definition UID_BYTES : Z := 36.
Definition MAX_CHUNK_BYTES : Z := 32768.
Definition MAX_QUERIES_PER_BLOCK : Z := 1000.

Inductive ExpirationStatus := Perpetual | Expiring.
Inductive IndexStatus := Active | Revoked | Replaced.

(** The prefix of a counter's key. *)
Inductive TotalSymbol := RECIPIENT_TOTAL | SCHEMA_TOTAL | ATTESTER_TOTAL | EXPIRATION_TOTAL.
Inductive Dimension := DIM_RECIPIENT | DIM_SCHEMA | DIM_ATTESTER.

(** What an index is looked up by: the first component of a chunk's key. *)
Inductive LookupKey :=
  | ByAddress (a : Address)
  | BySchema (u : UID)
  | ByExpiration (st : ExpirationStatus).

(** The quadruple a UID was first indexed with. *)
Record IndexRecord := mkIndexRecord {
  ir_recipient : Address; ir_schema : UID; ir_attester : Address; ir_expiration : Z
}.

Record ReversePage := mkReversePage { rp_uids : list UID; rp_next_cursor : option Z }.

(** ** Storage *)

Inductive IdxIKey :=
  | INDEXER_ADMIN | SAS_CONTRACT | INDEXER_VERSION | CURRENT_WASM_HASH
  | QUERY_COUNTER_SEQ | QUERY_COUNTER_COUNT | CHUNK_CAPACITY | CHUNK_TIER.
Definition idx_ival (k : IdxIKey) : Type :=
  match k with
  | INDEXER_ADMIN | SAS_CONTRACT => Address
  | CURRENT_WASM_HASH => bytes
  | INDEXER_VERSION | QUERY_COUNTER_SEQ | QUERY_COUNTER_COUNT | CHUNK_CAPACITY | CHUNK_TIER => Z
  end.

Inductive IdxPKey :=
  | Total (t : TotalSymbol) (key : LookupKey)
  | Chunk (key : LookupKey) (chunk_index : Z)
  | STATUS_KEY (u : UID)
  | VALID_FROM_KEY (u : UID)
  | INDEXED_KEY (u : UID)
  | RECIPIENT_ATTESTATION (recipient : Address) (u : UID)
  | RECIPIENT_ATTESTATION_COUNT (recipient : Address)
  | SCHEMA_ATTESTATION (schema_uid u : UID)
  | SCHEMA_ATTESTATION_COUNT (schema_uid : UID).
Definition idx_pval (k : IdxPKey) : Type :=
  match k with
  | Total _ _ | VALID_FROM_KEY _ | RECIPIENT_ATTESTATION_COUNT _ | SCHEMA_ATTESTATION_COUNT _ => Z
  | Chunk _ _ => list UID
  | STATUS_KEY _ => IndexStatus
  | INDEXED_KEY _ => IndexRecord
  | RECIPIENT_ATTESTATION _ _ | SCHEMA_ATTESTATION _ _ => bool
  end.
Definition idx_tval (k : Empty_set) : Type := match k with end.

#[export] Instance ExpirationStatus_eq_dec : EqDecision ExpirationStatus.
Proof. solve_decision. Defined.
#[export] Instance IndexStatus_eq_dec : EqDecision IndexStatus.
Proof. solve_decision. Defined.
#[export] Instance TotalSymbol_eq_dec : EqDecision TotalSymbol.
Proof. solve_decision. Defined.
#[export] Instance LookupKey_eq_dec : EqDecision LookupKey.
Proof. solve_decision. Defined.
#[export] Instance IndexRecord_eq_dec : EqDecision IndexRecord.
Proof. solve_decision. Defined.
#[export] Instance IdxIKey_eq_dec : EqDecision IdxIKey.
Proof. solve_decision. Defined.
#[export] Instance IdxPKey_eq_dec : EqDecision IdxPKey.
Proof. solve_decision. Defined.

Inductive IdxEvent :=
  | EvIdxUpgraded (old new : bytes) (authorizer : Address)
  | EvChunkAllocated (d : Dimension) (chunk_index : Z) (key : LookupKey) (sequence : Z)
  | EvChunkFull (d : Dimension) (chunk_index total_items : Z) (key : LookupKey)
  | EvIndexingProgress (recipient : Address) (u : UID)
      (recipient_total schema_total attester_total : Z).

Canonical Structure IdxSig : Sig :=
  mkSig IdxIKey idx_ival _ IdxPKey idx_pval _ Empty_set idx_tval _ IdxEvent SASError.

(** The SAS contract, as [init] probes it. *)
Class IdxDeps (X : Type) := {
  sas_SASV1 : Address -> xcall X bool;
  sas_sasv1 : Address -> xcall X bool
}.

(** ** Shared helpers *)

Section helpers.
Context {X : Type}.
Abbreviation MI := (M IdxSig X).
Abbreviation St := (State IdxSig X).

Definition extend_instance_ttl : MI unit :=
  inst_extend_ttl LEDGERS_IN_ONE_YEAR LEDGERS_IN_ONE_YEAR.

(** [extend_ttl(key, LEDGERS_IN_ONE_YEAR, LEDGERS_IN_ONE_YEAR)] *)
Definition renew (k : IdxPKey) : MI unit :=
  pers_extend_ttl (C := IdxSig) k LEDGERS_IN_ONE_YEAR LEDGERS_IN_ONE_YEAR.
(** A write followed by its renewal. *)
Definition put (k : IdxPKey) (v : idx_pval k) : MI unit :=
  pers_put (C := IdxSig) k v LEDGERS_IN_ONE_YEAR.
Definition renew_if (b : bool) (k : IdxPKey) : MI unit := if b then renew k else mret tt.

Definition check_query_limit : MI unit :=
  current_seq ← ask sequence;
  stored ← inst_get QUERY_COUNTER_SEQ;
  c ← inst_get QUERY_COUNTER_COUNT;
  let count := if current_seq =? default 0 stored then default 0 c else 0 in
  panic_if (MAX_QUERIES_PER_BLOCK <=? count) LimitExceeded;;
  inst_set QUERY_COUNTER_SEQ current_seq;;
  inst_set QUERY_COUNTER_COUNT (sat_add u32_max count 1).

(** [u32::clamp] *)
Definition clamp (lower upper z : Z) : Z := Z.min upper (Z.max lower z).
Definition capacity_upper : Z := Z.min MAX_CHUNK_SIZE (MAX_CHUNK_BYTES / UID_BYTES).
Definition capacity_lower : Z := Z.min MIN_CHUNK_SIZE capacity_upper.

Definition chunk_capacity (s : St) : Z :=
  clamp capacity_lower capacity_upper (default DEFAULT_CHUNK_SIZE (inst s CHUNK_CAPACITY)).

Definition adaptive_capacity_for_tier (tier : Z) : Z :=
  clamp capacity_lower capacity_upper
    (if tier =? 0 then MIN_CHUNK_SIZE
     else if tier =? 1 then 50
     else if tier =? 2 then 100
     else MAX_CHUNK_SIZE).

Definition index_total (t : TotalSymbol) (key : LookupKey) : MI Z :=
  count ← pers_get (Total t key);
  renew_if (bool_decide (is_Some count)) (Total t key);;
  mret (default 0 count).

Definition read_chunk (key : LookupKey) (chunk_index : Z) : MI (option (list UID)) :=
  chunk ← pers_get (Chunk key chunk_index);
  renew_if (bool_decide (is_Some chunk)) (Chunk key chunk_index);;
  mret chunk.

Definition set_index_status (u : UID) (status : IndexStatus) : MI unit := put (STATUS_KEY u) status.

Definition is_active (s : St) (u : UID) : bool :=
  match pget s (STATUS_KEY u) with
  | Some Active | None => true
  | Some _ => false
  end.

Definition require_indexer_admin : MI Address :=
  admin ← inst_get INDEXER_ADMIN; unwrap_or_panic admin NotInitialized.
End helpers.
