(* ===== verification/IdxWrite.v ===== *)
(** * Indexer: administration and indexing

    [src/contracts/indexer/src/lib.rs]: initialisation, upgrade, the chunk
    tier, and the writes of an attestation into the indexes. *)

From S2P Require Import Prelude Host Values Common IdxState.

Section write.
Context {X : Type} `{IdxDeps X}.
Abbreviation MI := (M IdxSig X).
Abbreviation St := (State IdxSig X).

(** ** Administration *)

Definition sasv1 : MI bool := mret true.

Definition init (admin sas : Address) : MI unit :=
  extend_instance_ttl;;
  has ← inst_has INDEXER_ADMIN;
  panic_if has AlreadyInitialized;;
  require_auth admin;;
  upper ← probe (sas_SASV1 sas) false;
  compatible ← (if (upper : bool) then mret true else probe (sas_sasv1 sas) false);
  panic_if (negb compatible) IncompatibleDependency;;
  inst_set INDEXER_ADMIN admin;;
  inst_set SAS_CONTRACT sas;;
  versioned ← inst_has INDEXER_VERSION;
  (if (versioned : bool) then mret tt else inst_set INDEXER_VERSION 1);;
  extend_instance_ttl.

Definition get_version : MI Z :=
  extend_instance_ttl;; v ← inst_get INDEXER_VERSION; mret (default 1 v).

Definition required_upgrade_address (s : St) (k : IdxIKey) : option (idx_ival k) := inst s k.

Definition validate_upgrade (s : St) (new_wasm_hash : bytes) (new_version : Z)
    : SASError + Address :=
  match required_upgrade_address s INDEXER_ADMIN, required_upgrade_address s SAS_CONTRACT with
  | Some admin, Some _ =>
    let old_version := default 1 (inst s INDEXER_VERSION) in
    if MAX_KNOWN_VERSION <? new_version then inl IncompatibleDependency
    else if negb (new_version =? sat_add u32_max old_version 1) then inl InvalidValue
    else if bool_decide (new_wasm_hash = replicate 32 0) then inl InvalidValue
    else inr admin
  | _, _ => inl IncompatibleDependency
  end.

Definition commit_upgrade (admin : Address) (new_wasm_hash : bytes) (new_version : Z) : MI unit :=
  old ← inst_get CURRENT_WASM_HASH;
  inst_set INDEXER_VERSION new_version;;
  inst_set CURRENT_WASM_HASH new_wasm_hash;;
  publish (EvIdxUpgraded (default (replicate 32 0) old) new_wasm_hash admin).

(** Up to the host's replacement of the contract code. *)
Definition upgrade (new_wasm_hash : bytes) (new_version : Z) : MI unit :=
  extend_instance_ttl;;
  r ← read_state (fun s => validate_upgrade s new_wasm_hash new_version);
  layout_admin ← (match r with inl err => panic err | inr admin => mret admin end : MI Address);
  admin ← require_indexer_admin;
  panic_if (negb (bool_decide (admin = layout_admin))) IncompatibleDependency;;
  require_auth admin;;
  commit_upgrade admin new_wasm_hash new_version.

Definition get_admin : MI (option Address) := extend_instance_ttl;; inst_get INDEXER_ADMIN.
Definition get_sas : MI (option Address) := extend_instance_ttl;; inst_get SAS_CONTRACT.
Definition get_chunk_capacity : MI Z := extend_instance_ttl;; read_state chunk_capacity.
Definition get_chunk_tier : MI (option Z) := extend_instance_ttl;; inst_get CHUNK_TIER.

Definition set_chunk_tier (tier : Z) : MI unit :=
  extend_instance_ttl;;
  admin ← require_indexer_admin;
  require_auth admin;;
  inst_set CHUNK_CAPACITY (adaptive_capacity_for_tier tier);;
  inst_set CHUNK_TIER tier;;
  extend_instance_ttl.

(** ** Appending to an index *)

Definition emit_chunk_allocated (d : Dimension) (key : LookupKey) (chunk_index : Z) : MI unit :=
  seq ← ask sequence; publish (EvChunkAllocated d chunk_index key seq).
Definition emit_chunk_full (d : Dimension) (key : LookupKey) (chunk_index total_items : Z) : MI unit :=
  publish (EvChunkFull d chunk_index total_items key).

Definition chunk_at (s : St) (key : LookupKey) (chunk_index : Z) : list UID :=
  default [] (pget s (Chunk key chunk_index)).

(** The chunk to append to, its index, and whether it is a new one. *)
Definition open_chunk (d : Dimension) (key : LookupKey) (capacity chunk_index : Z)
    : MI (Z * list UID * bool) :=
  chunk ← read_state (fun s => chunk_at s key chunk_index);
  if capacity <=? len chunk then
    emit_chunk_full d key chunk_index (len chunk);;
    next ← read_state (fun s => chunk_at s key (chunk_index + 1));
    mret (chunk_index + 1, next, true)
  else mret (chunk_index, chunk, bool_decide (chunk = [])).

Definition index_under (key : LookupKey) (u : UID) (t : TotalSymbol) (d : Dimension) : MI unit :=
  total ← index_total t key;
  capacity ← read_state chunk_capacity;
  p ← open_chunk d key capacity (total / capacity);
  let '(chunk_index, chunk, allocated) := p in
  let chunk := chunk ++ [u] in
  (if (allocated : bool) then emit_chunk_allocated d key chunk_index else mret tt);;
  (if len chunk =? capacity then emit_chunk_full d key chunk_index (len chunk) else mret tt);;
  put (Chunk key chunk_index) chunk;;
  total' ← checked u32_max (total + 1);
  put (Total t key) total';;
  extend_instance_ttl.

Definition index_address_uid (key : Address) (u : UID) (t : TotalSymbol) (d : Dimension) : MI unit :=
  index_under (ByAddress key) u t d.
Definition index_uid_uid (key u : UID) (t : TotalSymbol) (d : Dimension) : MI unit :=
  index_under (BySchema key) u t d.

Definition index_recipient_attestation (recipient : Address) (u : UID) : MI unit :=
  has ← pers_has (RECIPIENT_ATTESTATION recipient u);
  if (has : bool) then renew (RECIPIENT_ATTESTATION recipient u)
  else
    put (RECIPIENT_ATTESTATION recipient u) true;;
    count ← pers_get (RECIPIENT_ATTESTATION_COUNT recipient);
    put (RECIPIENT_ATTESTATION_COUNT recipient) (sat_add u32_max (default 0 count) 1);;
    extend_instance_ttl.

Definition index_schema_attestation (schema_uid u : UID) : MI unit :=
  has ← pers_has (SCHEMA_ATTESTATION schema_uid u);
  if (has : bool) then renew (SCHEMA_ATTESTATION schema_uid u)
  else
    put (SCHEMA_ATTESTATION schema_uid u) true;;
    count ← pers_get (SCHEMA_ATTESTATION_COUNT schema_uid);
    put (SCHEMA_ATTESTATION_COUNT schema_uid) (sat_add u32_max (default 0 count) 1);;
    extend_instance_ttl.

Definition index_expiration_status (st : ExpirationStatus) (u : UID) : MI unit :=
  let key := ByExpiration st in
  total ← index_total EXPIRATION_TOTAL key;
  let chunk_index := total / MAX_CHUNK_SIZE in
  chunk ← read_state (fun s => chunk_at s key chunk_index);
  p ← (if MAX_CHUNK_SIZE <=? len chunk
       then next ← read_state (fun s => chunk_at s key (chunk_index + 1)); mret (chunk_index + 1, next)
       else mret (chunk_index, chunk) : MI (Z * list UID));
  put (Chunk key p.1) (p.2 ++ [u]);;
  total' ← checked u32_max (total + 1);
  put (Total EXPIRATION_TOTAL key) total';;
  extend_instance_ttl.

(** ** The callbacks of SAS *)

Definition require_sas : MI unit :=
  sas ← inst_get SAS_CONTRACT;
  sas ← unwrap_or_panic sas Unauthorized;
  require_auth sas.

Definition expiration_status_of (expiration_time : Z) : ExpirationStatus :=
  if expiration_time =? 0 then Perpetual else Expiring.

(** The writes of a first indexing. *)
Definition index_first (u : UID) (r : IndexRecord) : MI unit :=
  put (INDEXED_KEY u) r;;
  index_address_uid (ir_recipient r) u RECIPIENT_TOTAL DIM_RECIPIENT;;
  index_recipient_attestation (ir_recipient r) u;;
  index_uid_uid (ir_schema r) u SCHEMA_TOTAL DIM_SCHEMA;;
  index_schema_attestation (ir_schema r) u;;
  index_address_uid (ir_attester r) u ATTESTER_TOTAL DIM_ATTESTER;;
  index_expiration_status (expiration_status_of (ir_expiration r)) u;;
  recipient_total ← index_total RECIPIENT_TOTAL (ByAddress (ir_recipient r));
  schema_total ← index_total SCHEMA_TOTAL (BySchema (ir_schema r));
  attester_total ← index_total ATTESTER_TOTAL (ByAddress (ir_attester r));
  publish (EvIndexingProgress (ir_recipient r) u recipient_total schema_total attester_total);;
  extend_instance_ttl.

Definition index_attestation (u : UID) (recipient : Address) (schema_uid : UID)
    (attester : Address) (expiration_time : Z) : MI unit :=
  require_sas;;
  extend_instance_ttl;;
  let record := mkIndexRecord recipient schema_uid attester expiration_time in
  o ← pers_get (INDEXED_KEY u);
  match (o : option IndexRecord) with
  | Some existing =>
    panic_if (negb (bool_decide (existing = record))) DuplicateAttestation;;
    renew (INDEXED_KEY u);;
    extend_instance_ttl
  | None => index_first u record
  end.

Definition handle_revoke (u : UID) : MI unit :=
  extend_instance_ttl;; set_index_status u Revoked.

Definition handle_replace (old_uid new_uid : UID) : MI unit :=
  extend_instance_ttl;; set_index_status old_uid Replaced.

Definition set_valid_from (u : UID) (valid_from : Z) : MI unit :=
  require_sas;;
  extend_instance_ttl;;
  put (VALID_FROM_KEY u) valid_from;;
  extend_instance_ttl.
End write.
