(* ===== verification/IdxQuery.v ===== *)
(** * Indexer: queries

    [src/contracts/indexer/src/lib.rs]: the walks over the chunks of an index,
    forwards and backwards, with and without revoked entries, and the entry
    points over them.  [Result]s of the query limit are panics of the caller. *)

From S2P Require Import Prelude Host Values Common IdxState IdxWrite.

Section query.
Context {X : Type}.
Abbreviation MI := (M IdxSig X).
Abbreviation St := (State IdxSig X).

(** ** Walks *)

(** The loop of [collect_filtered] and [collect_page]: whole runs of a chunk
    at a time, up to the position [end_]. *)
Fixpoint chunk_walk (fuel : nat) (keep : St -> UID -> bool) (capacity end_ : Z)
    (get_chunk : Z -> MI (option (list UID))) (index : Z) (out : list UID) : MI (list UID) :=
  match fuel with
  | O => mret out
  | S fuel' =>
    if index <? end_ then
      let chunk_index := index / capacity in
      let chunk_offset := index mod capacity in
      o ← get_chunk chunk_index;
      match o with
      | None => mret out
      | Some chunk =>
        if len chunk <=? chunk_offset then
          next ← checked u32_max ((chunk_index + 1) * capacity);
          chunk_walk fuel' keep capacity end_ get_chunk next out
        else
          let count := Z.min (len chunk - chunk_offset) (end_ - index) in
          picked ← read_state (fun s => filter (fun u => keep s u = true)
            (take (Z.to_nat count) (drop (Z.to_nat chunk_offset) chunk)));
          chunk_walk fuel' keep capacity end_ get_chunk (index + count) (out ++ picked)
      end
    else mret out
  end.

Definition listed_if (include_revoked : bool) (s : St) (u : UID) : bool :=
  include_revoked || is_active s u.

Definition collect_filtered (total : Z) (get_chunk : Z -> MI (option (list UID)))
    (include_revoked : bool) : MI (list UID) :=
  capacity ← read_state chunk_capacity;
  chunk_walk (Z.to_nat total) (listed_if include_revoked) capacity total get_chunk 0 [].

Definition collect_page (total cursor limit : Z) (get_chunk : Z -> MI (option (list UID)))
    : MI (list UID) :=
  if (limit =? 0) || (total <=? cursor) then mret []
  else
    let end_ := Z.min total (sat_add u32_max cursor limit) in
    capacity ← read_state chunk_capacity;
    chunk_walk (Z.to_nat total) (fun _ _ => true) capacity end_ get_chunk cursor [].

(** The chunk at hand, or the next one. *)
Definition load_chunk (get_chunk : Z -> MI (option (list UID))) (loaded : option (Z * list UID))
    (chunk_index : Z) : MI (option (list UID)) :=
  match loaded with
  | Some (i, chunk) => if i =? chunk_index then mret (Some chunk) else get_chunk chunk_index
  | None => get_chunk chunk_index
  end.

(** The page when the backward loop ends at [index]. *)
Definition reverse_done (limit index : Z) (uids : list UID) : ReversePage :=
  mkReversePage uids (if len uids =? limit then Some index else None).

Fixpoint reverse_walk (fuel : nat) (limit : Z) (include_revoked : bool)
    (get_chunk : Z -> MI (option (list UID))) (index : Z) (loaded : option (Z * list UID))
    (uids : list UID) : MI ReversePage :=
  match fuel with
  | O => mret (reverse_done limit index uids)
  | S fuel' =>
    if len uids <? limit then
      let chunk_index := index / MAX_CHUNK_SIZE in
      o ← load_chunk get_chunk loaded chunk_index;
      match o with
      | None => mret (reverse_done limit index uids)
      | Some chunk =>
        match chunk !! Z.to_nat (index mod MAX_CHUNK_SIZE) with
        | None => mret (reverse_done limit index uids)
        | Some u =>
          b ← read_state (fun s => listed_if include_revoked s u);
          let uids := if (b : bool) then uids ++ [u] else uids in
          if index =? 0 then mret (mkReversePage uids None)
          else reverse_walk fuel' limit include_revoked get_chunk (index - 1)
                 (Some (chunk_index, chunk)) uids
        end
      end
    else mret (reverse_done limit index uids)
  end.

Definition collect_reverse_page (total : Z) (cursor : option Z) (limit : Z)
    (include_revoked : bool) (get_chunk : Z -> MI (option (list UID))) : MI ReversePage :=
  if (total =? 0) || (limit =? 0) then mret (mkReversePage [] None)
  else
    let index := default (total - 1) cursor in
    if total <=? index then mret (mkReversePage [] None)
    else reverse_walk (Z.to_nat total) limit include_revoked get_chunk index None [].

(** The loop of the three filtered pages: one entry at a time. *)
Fixpoint filtered_walk (fuel : nat) (capacity total limit : Z) (include_revoked : bool)
    (get_chunk : Z -> MI (option (list UID))) (index : Z) (loaded : option (Z * list UID))
    (out : list UID) : MI (list UID) :=
  match fuel with
  | O => mret out
  | S fuel' =>
    if (index <? total) && (len out <? limit) then
      let chunk_index := index / capacity in
      let chunk_offset := index mod capacity in
      o ← load_chunk get_chunk loaded chunk_index;
      match o with
      | None => mret out
      | Some chunk =>
        if len chunk <=? chunk_offset then
          next ← checked u32_max ((chunk_index + 1) * capacity);
          filtered_walk fuel' capacity total limit include_revoked get_chunk next
            (Some (chunk_index, chunk)) out
        else
          out ← (match chunk !! Z.to_nat chunk_offset with
                 | Some u =>
                   b ← read_state (fun s => listed_if include_revoked s u);
                   mret (if (b : bool) then out ++ [u] else out)
                 | None => mret out
                 end : MI (list UID));
          if limit <=? len out then mret out
          else filtered_walk fuel' capacity total limit include_revoked get_chunk (index + 1)
                 (Some (chunk_index, chunk)) out
      end
    else mret out
  end.

(** ** Entry points: one shape per kind of query *)

Definition count_of (t : TotalSymbol) (key : LookupKey) : MI Z :=
  extend_instance_ttl;; index_total t key.

Definition history_of (t : TotalSymbol) (key : LookupKey) : MI (list UID) :=
  extend_instance_ttl;;
  total ← index_total t key;
  collect_filtered total (read_chunk key) true.

Definition page_of (t : TotalSymbol) (key : LookupKey) (cursor limit : Z) : MI (list UID) :=
  extend_instance_ttl;;
  check_query_limit;;
  total ← index_total t key;
  collect_page total cursor limit (read_chunk key).

Definition reverse_of (t : TotalSymbol) (key : LookupKey) (cursor : option Z) (limit : Z)
    (include_revoked : bool) : MI ReversePage :=
  extend_instance_ttl;;
  check_query_limit;;
  total ← index_total t key;
  collect_reverse_page total cursor limit include_revoked (read_chunk key).

Definition recent_of (t : TotalSymbol) (key : LookupKey) (limit : Z) (include_revoked : bool)
    : MI (list UID) :=
  page ← reverse_of t key None limit include_revoked; mret (rp_uids page).

Definition filtered_of (t : TotalSymbol) (key : LookupKey) (include_revoked : bool)
    : MI (list UID) :=
  check_query_limit;;
  total ← index_total t key;
  collect_filtered total (read_chunk key) include_revoked.

Definition filtered_page_of (t : TotalSymbol) (key : LookupKey) (capacity : St -> Z)
    (cursor limit : Z) (include_revoked : bool) : MI (list UID) :=
  check_query_limit;;
  if limit =? 0 then mret []
  else
    total ← index_total t key;
    if total <=? cursor then mret []
    else
      c ← read_state capacity;
      filtered_walk (Z.to_nat total) c total limit include_revoked (read_chunk key) cursor None [].

(** ** Entry points *)

Definition get_attestation_status (u : UID) : MI (option IndexStatus) :=
  extend_instance_ttl;; pers_get (STATUS_KEY u).

(** [has] with a renewal when it is there. *)
Definition present (k : IdxPKey) : MI bool :=
  extend_instance_ttl;; b ← pers_has k; renew_if b k;; mret b.

Definition is_attestation_indexed (u : UID) : MI bool := present (INDEXED_KEY u).
Definition has_recipient_attestation (recipient : Address) (u : UID) : MI bool :=
  present (RECIPIENT_ATTESTATION recipient u).
Definition has_attestation (recipient : Address) (u : UID) : MI bool :=
  present (RECIPIENT_ATTESTATION recipient u).
Definition has_schema_attestation (schema_uid u : UID) : MI bool :=
  present (SCHEMA_ATTESTATION schema_uid u).

Definition get_valid_from (u : UID) : MI Z :=
  extend_instance_ttl;; v ← pers_get (VALID_FROM_KEY u); mret (default 0 v).

Definition get_recipient_attestation_count (a : Address) : MI Z :=
  extend_instance_ttl;;
  count ← pers_get (RECIPIENT_ATTESTATION_COUNT a);
  renew_if (bool_decide (is_Some count)) (RECIPIENT_ATTESTATION_COUNT a);;
  mret (default 0 count).

Definition get_count_by_recipient (a : Address) : MI Z := count_of RECIPIENT_TOTAL (ByAddress a).
Definition get_count_by_schema (u : UID) : MI Z := count_of SCHEMA_TOTAL (BySchema u).
Definition get_count_by_attester (a : Address) : MI Z := count_of ATTESTER_TOTAL (ByAddress a).
Definition get_count_by_issuer (a : Address) : MI Z := count_of ATTESTER_TOTAL (ByAddress a).
Definition get_count_by_expiration (st : ExpirationStatus) : MI Z :=
  count_of EXPIRATION_TOTAL (ByExpiration st).

Definition get_attestations_by_recipient (a : Address) : MI (list UID) :=
  history_of RECIPIENT_TOTAL (ByAddress a).
Definition get_attestations_by_schema (u : UID) : MI (list UID) :=
  history_of SCHEMA_TOTAL (BySchema u).
Definition get_attestations_by_attester (a : Address) : MI (list UID) :=
  history_of ATTESTER_TOTAL (ByAddress a).
Definition get_attestations_by_issuer (a : Address) : MI (list UID) :=
  history_of ATTESTER_TOTAL (ByAddress a).
Definition get_attestations_by_expiration (st : ExpirationStatus) : MI (list UID) :=
  history_of EXPIRATION_TOTAL (ByExpiration st).

Definition get_atts_by_recipient_paginated (a : Address) (cursor limit : Z) : MI (list UID) :=
  page_of RECIPIENT_TOTAL (ByAddress a) cursor limit.
Definition get_atts_by_schema_paginated (u : UID) (cursor limit : Z) : MI (list UID) :=
  page_of SCHEMA_TOTAL (BySchema u) cursor limit.
Definition get_atts_by_attester_paginated (a : Address) (cursor limit : Z) : MI (list UID) :=
  page_of ATTESTER_TOTAL (ByAddress a) cursor limit.
Definition get_atts_by_issuer_paginated (a : Address) (cursor limit : Z) : MI (list UID) :=
  page_of ATTESTER_TOTAL (ByAddress a) cursor limit.
Definition get_atts_by_expiration_paginated (st : ExpirationStatus) (cursor limit : Z)
    : MI (list UID) :=
  page_of EXPIRATION_TOTAL (ByExpiration st) cursor limit.

Definition get_atts_by_recipient_reverse (a : Address) (cursor : option Z) (limit : Z)
    : MI ReversePage :=
  reverse_of RECIPIENT_TOTAL (ByAddress a) cursor limit true.
Definition get_atts_by_schema_reverse (u : UID) (cursor : option Z) (limit : Z) : MI ReversePage :=
  reverse_of SCHEMA_TOTAL (BySchema u) cursor limit true.
Definition get_atts_by_attester_reverse (a : Address) (cursor : option Z) (limit : Z)
    : MI ReversePage :=
  reverse_of ATTESTER_TOTAL (ByAddress a) cursor limit true.

Definition get_atts_by_recipient_recent (a : Address) (limit : Z) : MI (list UID) :=
  recent_of RECIPIENT_TOTAL (ByAddress a) limit true.
Definition get_atts_by_schema_recent (u : UID) (limit : Z) : MI (list UID) :=
  recent_of SCHEMA_TOTAL (BySchema u) limit true.
Definition get_atts_by_attester_recent (a : Address) (limit : Z) : MI (list UID) :=
  recent_of ATTESTER_TOTAL (ByAddress a) limit true.
Definition get_recipient_recent_filtered (a : Address) (limit : Z) (include_revoked : bool)
    : MI (list UID) :=
  recent_of RECIPIENT_TOTAL (ByAddress a) limit include_revoked.
Definition get_schema_recent_filtered (u : UID) (limit : Z) (include_revoked : bool)
    : MI (list UID) :=
  recent_of SCHEMA_TOTAL (BySchema u) limit include_revoked.
Definition get_attester_recent_filtered (a : Address) (limit : Z) (include_revoked : bool)
    : MI (list UID) :=
  recent_of ATTESTER_TOTAL (ByAddress a) limit include_revoked.

Definition get_recipient_filtered (a : Address) (include_revoked : bool) : MI (list UID) :=
  filtered_of RECIPIENT_TOTAL (ByAddress a) include_revoked.
Definition get_schema_filtered (u : UID) (include_revoked : bool) : MI (list UID) :=
  filtered_of SCHEMA_TOTAL (BySchema u) include_revoked.
Definition get_attester_filtered (a : Address) (include_revoked : bool) : MI (list UID) :=
  filtered_of ATTESTER_TOTAL (ByAddress a) include_revoked.
Definition get_issuer_filtered (a : Address) (include_revoked : bool) : MI (list UID) :=
  filtered_of ATTESTER_TOTAL (ByAddress a) include_revoked.
Definition get_expiration_filtered (st : ExpirationStatus) (include_revoked : bool)
    : MI (list UID) :=
  filtered_of EXPIRATION_TOTAL (ByExpiration st) include_revoked.

Definition get_expiration_page_filtered (st : ExpirationStatus) (cursor limit : Z)
    (include_revoked : bool) : MI (list UID) :=
  filtered_page_of EXPIRATION_TOTAL (ByExpiration st) (fun _ => MAX_CHUNK_SIZE) cursor limit
    include_revoked.
Definition get_issuer_page_filtered (a : Address) (cursor limit : Z) (include_revoked : bool)
    : MI (list UID) :=
  filtered_page_of ATTESTER_TOTAL (ByAddress a) chunk_capacity cursor limit include_revoked.
Definition get_recipient_page_filtered (a : Address) (cursor limit : Z) (include_revoked : bool)
    : MI (list UID) :=
  filtered_page_of RECIPIENT_TOTAL (ByAddress a) chunk_capacity cursor limit include_revoked.
End query.
