(* ===== verification/IdxCalls.v ===== *)
(** * Indexer: the contract's interface

    The entry points of the indexer as one data type of calls and their
    execution. *)

From S2P Require Import Prelude Host Values Common IdxState IdxWrite IdxQuery.

Inductive IdxCall :=
  | IdxInit (admin sas : Address)
  | IdxUpgrade (new_wasm_hash : bytes) (new_version : Z)
  | IdxSetChunkTier (tier : Z)
  | IdxIndexAttestation (u : UID) (recipient : Address) (schema_uid : UID) (attester : Address)
      (expiration_time : Z)
  | IdxHandleRevoke (u : UID)
  | IdxHandleReplace (old_uid new_uid : UID)
  | IdxSetValidFrom (u : UID) (valid_from : Z)
  | IdxGetVersion
  | IdxGetAdmin
  | IdxGetSas
  | IdxGetChunkCapacity
  | IdxGetChunkTier
  | IdxGetAttestationStatus (u : UID)
  | IdxIsAttestationIndexed (u : UID)
  | IdxGetValidFrom (u : UID)
  | IdxHasRecipientAttestation (a : Address) (u : UID)
  | IdxHasAttestation (a : Address) (u : UID)
  | IdxHasSchemaAttestation (schema_uid u : UID)
  | IdxGetRecipientAttestationCount (a : Address)
  | IdxGetCountByRecipient (a : Address)
  | IdxGetAttestationsByRecipient (a : Address)
  | IdxGetAttsByRecipientPaginated (a : Address) (cursor limit : Z)
  | IdxGetRecipientFiltered (a : Address) (include_revoked : bool)
  | IdxGetAttsByRecipientReverse (a : Address) (cursor : option Z) (limit : Z)
  | IdxGetAttsByRecipientRecent (a : Address) (limit : Z)
  | IdxGetRecipientRecentFiltered (a : Address) (limit : Z) (include_revoked : bool)
  | IdxGetRecipientPageFiltered (a : Address) (cursor limit : Z) (include_revoked : bool)
  | IdxGetCountBySchema (u : UID)
  | IdxGetAttestationsBySchema (u : UID)
  | IdxGetAttsBySchemaPaginated (u : UID) (cursor limit : Z)
  | IdxGetSchemaFiltered (u : UID) (include_revoked : bool)
  | IdxGetAttsBySchemaReverse (u : UID) (cursor : option Z) (limit : Z)
  | IdxGetAttsBySchemaRecent (u : UID) (limit : Z)
  | IdxGetSchemaRecentFiltered (u : UID) (limit : Z) (include_revoked : bool)
  | IdxGetCountByAttester (a : Address)
  | IdxGetAttestationsByAttester (a : Address)
  | IdxGetAttsByAttesterPaginated (a : Address) (cursor limit : Z)
  | IdxGetAttesterFiltered (a : Address) (include_revoked : bool)
  | IdxGetAttsByAttesterReverse (a : Address) (cursor : option Z) (limit : Z)
  | IdxGetAttsByAttesterRecent (a : Address) (limit : Z)
  | IdxGetAttesterRecentFiltered (a : Address) (limit : Z) (include_revoked : bool)
  | IdxGetCountByIssuer (a : Address)
  | IdxGetAttestationsByIssuer (a : Address)
  | IdxGetAttsByIssuerPaginated (a : Address) (cursor limit : Z)
  | IdxGetIssuerFiltered (a : Address) (include_revoked : bool)
  | IdxGetIssuerPageFiltered (a : Address) (cursor limit : Z) (include_revoked : bool)
  | IdxGetCountByExpiration (st : ExpirationStatus)
  | IdxGetAttestationsByExpiration (st : ExpirationStatus)
  | IdxGetAttsByExpirationPaginated (st : ExpirationStatus) (cursor limit : Z)
  | IdxGetExpirationFiltered (st : ExpirationStatus) (include_revoked : bool)
  | IdxGetExpirationPageFiltered (st : ExpirationStatus) (cursor limit : Z)
      (include_revoked : bool).

Section calls.
Context {X : Type} `{IdxDeps X}.

Definition idx_void {A} (m : M IdxSig X A) : M IdxSig X unit := m;; mret tt.

Definition idx_exec (c : IdxCall) : M IdxSig X unit :=
  match c with
  | IdxInit admin sas => init admin sas
  | IdxUpgrade new_wasm_hash new_version => upgrade new_wasm_hash new_version
  | IdxSetChunkTier tier => set_chunk_tier tier
  | IdxIndexAttestation u recipient schema_uid attester expiration_time =>
      index_attestation u recipient schema_uid attester expiration_time
  | IdxHandleRevoke u => handle_revoke u
  | IdxHandleReplace old_uid new_uid => handle_replace old_uid new_uid
  | IdxSetValidFrom u valid_from => set_valid_from u valid_from
  | IdxGetVersion => idx_void get_version
  | IdxGetAdmin => idx_void get_admin
  | IdxGetSas => idx_void get_sas
  | IdxGetChunkCapacity => idx_void get_chunk_capacity
  | IdxGetChunkTier => idx_void get_chunk_tier
  | IdxGetAttestationStatus u => idx_void (get_attestation_status u)
  | IdxIsAttestationIndexed u => idx_void (is_attestation_indexed u)
  | IdxGetValidFrom u => idx_void (get_valid_from u)
  | IdxHasRecipientAttestation a u => idx_void (has_recipient_attestation a u)
  | IdxHasAttestation a u => idx_void (has_attestation a u)
  | IdxHasSchemaAttestation schema_uid u => idx_void (has_schema_attestation schema_uid u)
  | IdxGetRecipientAttestationCount a => idx_void (get_recipient_attestation_count a)
  | IdxGetCountByRecipient a => idx_void (get_count_by_recipient a)
  | IdxGetAttestationsByRecipient a => idx_void (get_attestations_by_recipient a)
  | IdxGetAttsByRecipientPaginated a cursor limit =>
      idx_void (get_atts_by_recipient_paginated a cursor limit)
  | IdxGetRecipientFiltered a include_revoked =>
      idx_void (get_recipient_filtered a include_revoked)
  | IdxGetAttsByRecipientReverse a cursor limit =>
      idx_void (get_atts_by_recipient_reverse a cursor limit)
  | IdxGetAttsByRecipientRecent a limit => idx_void (get_atts_by_recipient_recent a limit)
  | IdxGetRecipientRecentFiltered a limit include_revoked =>
      idx_void (get_recipient_recent_filtered a limit include_revoked)
  | IdxGetRecipientPageFiltered a cursor limit include_revoked =>
      idx_void (get_recipient_page_filtered a cursor limit include_revoked)
  | IdxGetCountBySchema u => idx_void (get_count_by_schema u)
  | IdxGetAttestationsBySchema u => idx_void (get_attestations_by_schema u)
  | IdxGetAttsBySchemaPaginated u cursor limit =>
      idx_void (get_atts_by_schema_paginated u cursor limit)
  | IdxGetSchemaFiltered u include_revoked => idx_void (get_schema_filtered u include_revoked)
  | IdxGetAttsBySchemaReverse u cursor limit =>
      idx_void (get_atts_by_schema_reverse u cursor limit)
  | IdxGetAttsBySchemaRecent u limit => idx_void (get_atts_by_schema_recent u limit)
  | IdxGetSchemaRecentFiltered u limit include_revoked =>
      idx_void (get_schema_recent_filtered u limit include_revoked)
  | IdxGetCountByAttester a => idx_void (get_count_by_attester a)
  | IdxGetAttestationsByAttester a => idx_void (get_attestations_by_attester a)
  | IdxGetAttsByAttesterPaginated a cursor limit =>
      idx_void (get_atts_by_attester_paginated a cursor limit)
  | IdxGetAttesterFiltered a include_revoked => idx_void (get_attester_filtered a include_revoked)
  | IdxGetAttsByAttesterReverse a cursor limit =>
      idx_void (get_atts_by_attester_reverse a cursor limit)
  | IdxGetAttsByAttesterRecent a limit => idx_void (get_atts_by_attester_recent a limit)
  | IdxGetAttesterRecentFiltered a limit include_revoked =>
      idx_void (get_attester_recent_filtered a limit include_revoked)
  | IdxGetCountByIssuer a => idx_void (get_count_by_issuer a)
  | IdxGetAttestationsByIssuer a => idx_void (get_attestations_by_issuer a)
  | IdxGetAttsByIssuerPaginated a cursor limit =>
      idx_void (get_atts_by_issuer_paginated a cursor limit)
  | IdxGetIssuerFiltered a include_revoked => idx_void (get_issuer_filtered a include_revoked)
  | IdxGetIssuerPageFiltered a cursor limit include_revoked =>
      idx_void (get_issuer_page_filtered a cursor limit include_revoked)
  | IdxGetCountByExpiration st => idx_void (get_count_by_expiration st)
  | IdxGetAttestationsByExpiration st => idx_void (get_attestations_by_expiration st)
  | IdxGetAttsByExpirationPaginated st cursor limit =>
      idx_void (get_atts_by_expiration_paginated st cursor limit)
  | IdxGetExpirationFiltered st include_revoked =>
      idx_void (get_expiration_filtered st include_revoked)
  | IdxGetExpirationPageFiltered st cursor limit include_revoked =>
      idx_void (get_expiration_page_filtered st cursor limit include_revoked)
  end.
End calls.
