(* ===== verification/IdxChunks.v ===== *)
(** * Indexer: chunks and walks

    The chunks of an index are the slices of one list; the forward, backward
    and filtered walks over the chunks compute functions of that list. *)

From S2P Require Import Prelude Host Values Common IdxState IdxWrite IdxQuery IdxCalls.

(** ** Slices of a list *)

Section slices.
Context {A : Type}.
Implicit Types (l : list A).

Definition slice (cap i : nat) l : list A := take cap (drop (i * cap) l).

Lemma slice_length cap i l : length (slice cap i l) = Nat.min cap (length l - i * cap).
Proof. unfold slice; by rewrite length_take, length_drop. Qed.

Lemma slice_nil cap i l : (0 < cap)%nat -> slice cap i l = [] <-> (length l <= i * cap)%nat.
Proof.
  intros Hc; rewrite <- length_zero_iff_nil, slice_length; lia.
Qed.

(** Appending changes the last slice only. *)
Lemma slice_app cap i l x :
  (0 < cap)%nat ->
  slice cap i (l ++ [x])
  = if decide (i = (length l / cap)%nat) then slice cap i l ++ [x] else slice cap i l.
Proof.
  intros Hc; unfold slice.
  assert (Hdiv : i = (length l / cap)%nat <-> (i * cap <= length l < i * cap + cap)%nat).
  { split; [intros ->|intros Hi].
    - pose proof (Nat.div_mod_eq (length l) cap); pose proof (Nat.mod_upper_bound (length l) cap); lia.
    - apply (Nat.div_unique _ _ _ (length l - i * cap)); lia. }
  destruct (decide (i * cap <= length l)%nat) as [Hle|Hgt].
  - rewrite drop_app_le, firstn_app, length_drop by done.
    destruct (decide _) as [Hi%Hdiv|Hi].
    + rewrite (take_ge [x]) by (simpl; lia); done.
    + assert (cap <= length l - i * cap)%nat by (apply Nat.nlt_ge; intros ?; apply Hi, Hdiv; lia).
      replace (cap - _)%nat with O by lia; by rewrite app_nil_r.
  - rewrite !drop_ge by (rewrite ?length_app; simpl; lia).
    rewrite decide_False; [done|]; intros ?%Hdiv; lia.
Qed.

Lemma take_drop_app l (n m : nat) : (n <= m)%nat -> take m l = take n l ++ take (m - n) (drop n l).
Proof.
  intros Hle; rewrite <- (take_drop n l) at 1; rewrite firstn_app, take_take, length_take.
  rewrite Nat.min_r by lia; destruct (decide (n <= length l)%nat).
  - by rewrite Nat.min_l by lia.
  - by rewrite (drop_ge l n), !take_nil by lia.
Qed.

(** A run of a slice is a run of the list. *)
Lemma slice_run cap i off n l :
  (off + n <= cap)%nat -> take n (drop off (slice cap i l)) = take n (drop (i * cap + off) l).
Proof.
  intros Hle; unfold slice; rewrite skipn_firstn_comm, take_take, drop_drop.
  f_equal; lia.
Qed.
Lemma slice_lookup cap i off l :
  (off < cap)%nat -> slice cap i l !! off = l !! (i * cap + off)%nat.
Proof. intros Hlt; unfold slice; rewrite lookup_take_lt, lookup_drop; done. Qed.
End slices.

(** ** An index *)

Section index.
Context {X : Type}.
Implicit Types (s : State IdxSig X) (e : Env) (l : list UID) (cap : nat).

Lemma capacity_pos s : 0 < chunk_capacity s.
Proof.
  unfold chunk_capacity, clamp, capacity_lower, capacity_upper, MIN_CHUNK_SIZE, MAX_CHUNK_SIZE,
    MAX_CHUNK_BYTES, UID_BYTES; change (32768 / 36) with 910; lia.
Qed.

(** The chunks of [key] are the slices of [l]. *)
Definition chunked cap (key : LookupKey) s l : Prop :=
  forall i : nat, (pget s (Chunk key (Z.of_nat i)) : option (list UID))
    = if decide (slice cap i l = []) then None else Some (slice cap i l).

(** The index [t] of [key] holds [l]. *)
Record holds cap (t : TotalSymbol) (key : LookupKey) s l : Prop := {
  hd_total : default 0 (pget s (Total t key) : option Z) = len l;
  hd_chunks : chunked cap key s l;
  hd_width : len l <= u32_max
}.

Lemma holds_frame cap t key s s' l :
  pget s' (Total t key) = pget s (Total t key) ->
  (forall i, pget s' (Chunk key i) = pget s (Chunk key i)) ->
  holds cap t key s l -> holds cap t key s' l.
Proof.
  intros Ht Hc [H1 H2 H3]; split; [by rewrite Ht| |done].
  intros i; rewrite Hc; apply H2.
Qed.
Lemma holds_same cap t key s s' l :
  same_values s s' -> holds cap t key s l -> holds cap t key s' l.
Proof. intros Hs; apply holds_frame; [apply Hs|intros; apply Hs]. Qed.

Lemma chunk_at_slice cap key s l i :
  chunked cap key s l -> chunk_at s key (Z.of_nat i) = slice cap i l.
Proof.
  intros Hc; unfold chunk_at; rewrite Hc; destruct (decide _) as [->|]; done.
Qed.

(** Appending: the new chunk and the new counter. *)
Lemma holds_append cap t key s s' l u :
  (0 < cap)%nat -> holds cap t key s l -> len l + 1 <= u32_max ->
  pget s' (Chunk key (Z.of_nat (length l / cap))) = Some (slice cap (length l / cap) l ++ [u]) ->
  (forall i : nat, i <> (length l / cap)%nat ->
     pget s' (Chunk key (Z.of_nat i)) = pget s (Chunk key (Z.of_nat i))) ->
  pget s' (Total t key) = Some (len l + 1) ->
  holds cap t key s' (l ++ [u]).
Proof.
  intros Hcap [_ Hc _] Hw Hnew Hold Ht; split.
  - rewrite Ht; unfold len; rewrite length_app; simpl; lia.
  - intros i; rewrite slice_app by done; destruct (decide (i = _)) as [->|Hi].
    + rewrite Hnew, decide_False; [done|]; by destruct (slice cap _ l).
    + rewrite Hold by done; apply Hc.
  - unfold len in *; rewrite length_app; simpl; lia.
Qed.

(** ** Reads *)

Lemma renew_if_answers b k e s :
  (b = true -> is_Some (pget s k)) -> answers (renew_if b k) e s tt.
Proof.
  intros Hk; destruct b; [|apply answers_ret].
  apply (answers_pers_extend_ttl (C := IdxSig)); auto.
Qed.
Lemma index_total_answers t key e s :
  answers (index_total t key) e s (default 0 (pget s (Total t key) : option Z)).
Proof.
  unfold index_total; ans; eapply answers_bind; [|intros; apply answers_ret].
  apply renew_if_answers; apply bool_decide_eq_true_1.
Qed.
Lemma read_chunk_answers key i e s :
  answers (read_chunk key i) e s (pget s (Chunk key i)).
Proof.
  unfold read_chunk; ans; eapply answers_bind; [|intros; apply answers_ret].
  apply renew_if_answers; apply bool_decide_eq_true_1.
Qed.
Lemma idx_extend_answers e s : answers extend_instance_ttl e s tt.
Proof. apply (answers_inst_extend_ttl (C := IdxSig)). Qed.

(** A walk over the chunks of [l] reads its slices. *)
Lemma read_slice cap key e s l i :
  chunked cap key s l -> slice cap i l <> [] ->
  answers (read_chunk key (Z.of_nat i)) e s (Some (slice cap i l)).
Proof.
  intros Hc Hne; destruct (read_chunk_answers key (Z.of_nat i) e s) as (s' & Hr & Hs).
  exists s'; split; [|done]; by rewrite Hr, Hc, decide_False.
Qed.

(** Position [index] is at offset [index mod cap] of chunk [index / cap]. *)
Lemma position cap (index : nat) :
  (0 < cap)%nat ->
  Z.of_nat index / Z.of_nat cap = Z.of_nat (index / cap)
  /\ Z.of_nat index mod Z.of_nat cap = Z.of_nat (index mod cap)
  /\ (index / cap * cap + index mod cap = index)%nat /\ (index mod cap < cap)%nat.
Proof.
  intros Hc; rewrite <- Nat2Z.inj_div, <- Nat2Z.inj_mod; split_and!; try done.
  - pose proof (Nat.div_mod_eq index cap); lia.
  - apply Nat.mod_upper_bound; lia.
Qed.

Lemma slice_at cap l (index : nat) :
  (0 < cap)%nat -> (index < length l)%nat ->
  (index mod cap < length (slice cap (index / cap) l))%nat.
Proof.
  intros Hc Hi; destruct (position cap index Hc) as (_ & _ & Hp & Hm).
  rewrite slice_length; lia.
Qed.

(** *** Forward *)

Definition keep_proper (keep : State IdxSig X -> UID -> bool) : Prop :=
  forall s s' u, same_values s s' -> keep s' u = keep s u.
Lemma listed_if_proper b : keep_proper (listed_if b).
Proof. intros s s' u Hs; unfold listed_if, is_active; by rewrite (sv_pget _ _ Hs (STATUS_KEY u)). Qed.

Lemma filter_keep keep s s' l :
  keep_proper keep -> same_values s s' ->
  filter (fun u => keep s' u = true) l = filter (fun u => keep s u = true) l.
Proof. intros Hk Hs; apply list_filter_iff; intros u; by rewrite (Hk s s' u Hs). Qed.

Lemma filter_kept keep s l :
  (forall u, keep s u = true) -> filter (fun u => keep s u = true) l = l.
Proof. intros Hk; induction l as [|u l IH]; [done|]; by rewrite filter_cons, decide_True, IH. Qed.

Lemma chunked_same cap key s s' l : same_values s s' -> chunked cap key s l -> chunked cap key s' l.
Proof. intros Hs Hc i; rewrite (sv_pget _ _ Hs (Chunk key _)); apply Hc. Qed.

Lemma chunk_walk_answers fuel keep cap key l (index end_ : nat) out e s :
  keep_proper keep -> (0 < cap)%nat -> chunked cap key s l ->
  (index <= end_ <= length l)%nat -> (end_ - index <= fuel)%nat ->
  answers (chunk_walk fuel keep (Z.of_nat cap) (Z.of_nat end_) (read_chunk key) (Z.of_nat index) out)
    e s (out ++ filter (fun u => keep s u = true) (take (end_ - index) (drop index l))).
Proof.
  intros Hk Hcap; revert index out s; induction fuel as [|fuel IH]; intros index out s Hc Hi Hf; simpl.
  { replace (end_ - index)%nat with O by lia; rewrite take_0, app_nil_r; apply answers_ret. }
  destruct (Z.ltb_spec (Z.of_nat index) (Z.of_nat end_)) as [Hlt|Hge].
  2: { replace (end_ - index)%nat with O by lia; rewrite take_0, app_nil_r; apply answers_ret. }
  destruct (position cap index Hcap) as (-> & -> & Hp & Hm).
  pose proof (slice_at cap l index Hcap ltac:(lia)) as Hs.
  set (c := slice cap (index / cap) l) in *.
  eapply answers_bind; [apply (read_slice cap); [done|by intros Hnil; fold c in Hnil; rewrite Hnil in Hs; simpl in Hs; lia]|].
  intros s1 Hs1; fold c; cbn iota beta.
  destruct (Z.leb_spec (len c) (Z.of_nat (index mod cap))) as [?|_]; [unfold len in *; lia|]; ans.
  set (n := Nat.min (length c - index mod cap) (end_ - index)).
  replace (Z.min _ _) with (Z.of_nat n) by (unfold n, len; lia).
  assert (Hn : (index mod cap + n <= cap)%nat).
  { pose proof (slice_length cap (index / cap) l) as Hl; fold c in Hl; lia. }
  unfold c; rewrite !Nat2Z.id, slice_run, Hp, (filter_keep keep s s1) by done.
  replace (Z.of_nat index + Z.of_nat n) with (Z.of_nat (index + n)) by lia.
  eapply answers_eq; [apply IH; [by eapply chunked_same|unfold n; lia..]|].
  rewrite (filter_keep keep s s1), <- app_assoc, <- filter_app by done; do 2 f_equal.
  rewrite (take_drop_app _ n (end_ - index)), drop_drop by (unfold n; lia).
  do 2 f_equal; lia.
Qed.
(** *** One entry at a time *)

(** The chunk at hand is one of the chunks. *)
Definition at_hand cap l (loaded : option (Z * list UID)) : Prop :=
  match loaded with
  | Some (i, chunk) => exists j : nat, i = Z.of_nat j /\ chunk = slice cap j l
  | None => True
  end.

Lemma load_chunk_answers cap key e s l loaded (i : nat) :
  chunked cap key s l -> at_hand cap l loaded -> slice cap i l <> [] ->
  answers (load_chunk (read_chunk key) loaded (Z.of_nat i)) e s (Some (slice cap i l)).
Proof.
  intros Hc Hl Hne; destruct loaded as [[z c]|]; simpl; [|by apply read_slice].
  destruct Hl as (j & -> & ->); destruct (Z.eqb_spec (Z.of_nat j) (Z.of_nat i)) as [E|_].
  - apply Nat2Z.inj in E as ->; apply answers_ret.
  - by apply read_slice.
Qed.

Lemma slice_nonempty cap l (index : nat) :
  (0 < cap)%nat -> (index < length l)%nat -> slice cap (index / cap) l <> [].
Proof. intros Hc Hi Hn; pose proof (slice_at cap l index Hc Hi) as H; rewrite Hn in H; simpl in H; lia. Qed.

Lemma slice_entry cap l (index : nat) :
  (0 < cap)%nat -> slice cap (index / cap) l !! (index mod cap)%nat = l !! index.
Proof.
  intros Hc; destruct (position cap index Hc) as (_ & _ & Hp & Hm).
  by rewrite slice_lookup, Hp.
Qed.

(** The entries of [l] a query shows. *)
Definition shown s (include_revoked : bool) l : list UID :=
  filter (fun u => listed_if include_revoked s u = true) l.

Lemma shown_same s s' b l : same_values s s' -> shown s' b l = shown s b l.
Proof. apply filter_keep, listed_if_proper. Qed.
Lemma shown_nil s b : shown s b [] = [].
Proof. done. Qed.
Lemma shown_cons s b u l :
  shown s b (u :: l) = (if listed_if b s u then [u] else []) ++ shown s b l.
Proof. unfold shown; rewrite filter_cons; by destruct (listed_if b s u). Qed.

Lemma filtered_walk_answers fuel cap key l (index : nat) limit b loaded out e s :
  (0 < cap)%nat -> chunked cap key s l -> at_hand cap l loaded ->
  (index <= length l)%nat -> (length l - index <= fuel)%nat -> len out < limit ->
  answers (filtered_walk fuel (Z.of_nat cap) (len l) limit b (read_chunk key) (Z.of_nat index) loaded
             out) e s
    (out ++ take (Z.to_nat (limit - len out)) (shown s b (drop index l))).
Proof.
  intros Hcap; revert index loaded out s; induction fuel as [|fuel IH];
    intros index loaded out s Hc Hl Hi Hf Hlim; simpl.
  { rewrite drop_ge, shown_nil, take_nil, app_nil_r by lia; apply answers_ret. }
  rewrite (proj2 (Z.ltb_lt _ _) Hlim), andb_true_r.
  destruct (Z.ltb_spec (Z.of_nat index) (len l)) as [Hlt|Hge].
  2: { rewrite drop_ge, shown_nil, take_nil, app_nil_r by (unfold len in *; lia); apply answers_ret. }
  assert (Hlt' : (index < length l)%nat) by (unfold len in *; lia).
  destruct (position cap index Hcap) as (-> & -> & Hp & Hm).
  pose proof (slice_at cap l index Hcap Hlt') as Hs.
  eapply answers_bind; [by apply load_chunk_answers; [..|apply slice_nonempty]|]; intros s1 Hs1; cbn iota.
  destruct (Z.leb_spec (len (slice cap (index / cap) l)) (Z.of_nat (index mod cap))) as [?|_];
    [unfold len in *; lia|].
  rewrite Nat2Z.id, slice_entry by done.
  destruct (lookup_lt_is_Some_2 l index Hlt') as [u Hu]; rewrite Hu.
  rewrite (drop_S l u index Hu), shown_cons, <- (listed_if_proper b s s1 u Hs1).
  rewrite <- (shown_same s s1 b _ Hs1).
  eapply answers_bind; [ans|]; intros s2 Hs2.
  rewrite <- (shown_same s1 s2 b _ Hs2).
  replace (Z.of_nat index + 1) with (Z.of_nat (S index)) by lia.
  assert (Hc2 : chunked cap key s2 l) by (do 2 (eapply chunked_same; [eassumption|]); done).
  assert (Hh : at_hand cap l (Some (Z.of_nat (index / cap), slice cap (index / cap) l))) by (simpl; eauto).
  destruct (listed_if b s1 u).
  - assert (Hlen : len (out ++ [u]) = len out + 1) by (unfold len; rewrite length_app; simpl; lia).
    assert (Hn : Z.to_nat (limit - len out) = S (Z.to_nat (limit - len (out ++ [u])))) by lia.
    rewrite Hn; simpl; destruct (Z.leb_spec limit (len (out ++ [u]))) as [Hge|Hless].
    + eapply answers_eq; [apply answers_ret|]; by replace (Z.to_nat _) with O by lia.
    + eapply answers_eq; [apply IH; [done..|lia|lia|done]|]; by rewrite <- app_assoc.
  - rewrite (proj2 (Z.leb_gt _ _) Hlim); apply IH; done || lia.
Qed.

(** *** Backward *)

(** What a backward page from position [index] is: up to [limit] entries, and
    a cursor at which the rest of the way begins. *)
Definition reverse_page s b l limit (index : nat) (before : list UID) (page : ReversePage) : Prop :=
  let rest i := shown s b (reverse (take (S i) l)) in
  len (rp_uids page) <= limit
  /\ match rp_next_cursor page with
     | None => rp_uids page = before ++ rest index
     | Some z => exists j : nat, z = Z.of_nat j /\ (j < length l)%nat /\ len (rp_uids page) = limit
                   /\ rp_uids page ++ rest j = before ++ rest index
     end.

Lemma reverse_page_shown s s' b l limit index before page :
  (forall l', shown s' b l' = shown s b l') ->
  reverse_page s' b l limit index before page -> reverse_page s b l limit index before page.
Proof.
  intros Hs [Hle Hp]; split; [done|].
  destruct (rp_next_cursor page); [|by rewrite Hs in Hp].
  destruct Hp as (j & ? & ? & ? & Hp); exists j; by rewrite !Hs in Hp.
Qed.
Lemma reverse_page_same s s' b l limit index before page :
  same_values s s' -> reverse_page s' b l limit index before page -> reverse_page s b l limit index before page.
Proof. intros Hs; apply reverse_page_shown; intros l'; by apply shown_same. Qed.

(** One entry further back. *)
Definition visit s b (u : UID) (uids : list UID) : list UID := if listed_if b s u then uids ++ [u] else uids.

Lemma visit_step s b l (index : nat) u uids :
  l !! index = Some u ->
  visit s b u uids ++ shown s b (reverse (take index l)) = uids ++ shown s b (reverse (take (S index) l)).
Proof.
  intros Hu; rewrite (take_S_r l index u Hu), reverse_snoc, shown_cons; unfold visit.
  destruct (listed_if b s u); [by rewrite <- app_assoc|done].
Qed.
Lemma visit_len s b u uids limit : len uids < limit -> len (visit s b u uids) <= limit.
Proof. unfold visit, len; destruct (listed_if b s u); rewrite ?length_app; simpl; lia. Qed.

Lemma reverse_walk_answers fuel key l (index : nat) limit b loaded uids e s :
  chunked (Z.to_nat MAX_CHUNK_SIZE) key s l -> at_hand (Z.to_nat MAX_CHUNK_SIZE) l loaded ->
  (index < length l)%nat -> (index < fuel)%nat -> len uids <= limit ->
  exists page, reverse_page s b l limit index uids page
    /\ answers (reverse_walk fuel limit b (read_chunk key) (Z.of_nat index) loaded uids) e s page.
Proof.
  set (cap := Z.to_nat MAX_CHUNK_SIZE); assert (Hcap : (0 < cap)%nat) by (unfold cap, MAX_CHUNK_SIZE; lia).
  revert index loaded uids s; induction fuel as [|fuel IH];
    intros index loaded uids s Hc Hl Hi Hf Hlim; [lia|]; simpl.
  destruct (Z.ltb_spec (len uids) limit) as [Hlt|Hge].
  2: { exists (reverse_done limit (Z.of_nat index) uids); split; [|apply answers_ret].
       unfold reverse_done; split; simpl; [done|].
       rewrite (proj2 (Z.eqb_eq _ _)) by lia; exists index; split_and!; done || lia. }
  change MAX_CHUNK_SIZE with (Z.of_nat cap).
  destruct (position cap index Hcap) as (-> & -> & Hp & Hm).
  destruct (load_chunk_answers cap key e s l loaded (index / cap) Hc Hl) as (s1 & Hr & Hs1);
    [by apply slice_nonempty|].
  unfold answers; rewrite (bind_run _ _ _ _ _ _ Hr); cbn iota beta.
  rewrite Nat2Z.id, slice_entry by done.
  destruct (lookup_lt_is_Some_2 l index Hi) as [u Hu]; rewrite Hu.
  run; change ((read_state ?g ≫= ?f) e s1) with (f (g s1) e s1); cbv beta zeta.
  fold (visit s1 b u uids); pose proof (visit_len s1 b u uids limit Hlt) as Hv.
  destruct index as [|k]; simpl (_ =? _).
  - exists (mkReversePage (visit s1 b u uids) None); split; [|by exists s1].
    apply (reverse_page_same s s1 _ _ _ _ _ _ Hs1); split; [done|]; simpl.
    by rewrite <- (visit_step s1 b l 0 u uids Hu), app_nil_r.
  - replace (Z.of_nat (S k) - 1) with (Z.of_nat k) by lia.
    edestruct (IH k) as (page & Hpage & s2 & Hw & Hs2);
      [eapply chunked_same; [exact Hs1|exact Hc]| |lia|lia|exact Hv|].
    2: { exists page; split; [|exists s2; split; [exact Hw|by transitivity s1]].
         apply (reverse_page_same s s1 _ _ _ _ _ _ Hs1).
         destruct Hpage as [Hle Hn]; split; [done|].
         by rewrite (visit_step s1 b l (S k) u uids Hu) in Hn. }
    simpl; eauto.
Qed.
End index.

(** ** The writes of an indexing

    What one append to an index and one membership flag do to the state: the
    appended index holds one UID more, every other entry is as it was. *)

(** Only events and lifetimes may differ. *)
Abbreviation unchanged := (touches (C := IdxSig) (fun _ => False) (fun _ => False)).

(** Invert a run of the indexer's writes. *)
Ltac idx_inv_step :=
  first
  [ match goal with
    | H : pers_set _ _ _ _ = Ok _ |- _ => apply set_ok in H
    | H : publish _ _ _ = Ok _ |- _ => apply publish_ok in H as (? & ? & ?)
    | H : index_total _ _ _ _ = Ok _ |- _ =>
        eapply answers_inv in H as [? ?]; [|apply index_total_answers]; subst
    | H : extend_instance_ttl _ _ = Ok _ |- _ =>
        eapply answers_inv in H as [_ ?]; [|apply idx_extend_answers]
    | H : put _ _ _ _ = Ok _ |- _ => apply (pers_put_wrote (C := IdxSig)) in H
    | H : renew _ _ _ = Ok _ |- _ => apply (quiet_pers_extend_ttl (C := IdxSig)) in H; unfold quiet in H
    end
  | run_inv_step ].
Ltac idx_inv := repeat idx_inv_step.

(** ** One append *)

Section append.
Context {X : Type}.
Implicit Types (s : State IdxSig X) (e : Env).

Definition total_of s (t : TotalSymbol) (key : LookupKey) : Z :=
  default 0 (pget s (Total t key) : option Z).

(** [u] was appended to the index [t] of [key]. *)
Record appended cap (t : TotalSymbol) (key : LookupKey) (u : UID) s s' : Prop := {
  ap_inst : forall k, inst s' k = inst s k;
  ap_total : pget s' (Total t key) = Some (total_of s t key + 1);
  ap_width : 0 <= total_of s t key + 1 <= u32_max;
  ap_holds : forall l, holds cap t key s l -> holds cap t key s' (l ++ [u]);
  ap_others : forall k, k <> Total t key -> (forall i, k <> Chunk key i) -> pget s' k = pget s k
}.

Lemma unchanged_inst e s s' : unchanged e s s' -> forall k, inst s' k = inst s k.
Proof. intros [Hi _] k; auto. Qed.
Lemma unchanged_pget e s s' : unchanged e s s' -> forall k, pget s' k = pget s k.
Proof. intros [_ Hp] k; auto. Qed.

(** What is left of an append after the chunk was chosen. *)
Lemma appended_chunk cap t key u e s s1 s2 s' i chunk :
  (0 < cap)%nat -> unchanged e s s1 ->
  wrote (C := IdxSig) (Chunk key i) (Some (chunk ++ [u])) s1 s2 ->
  wrote (C := IdxSig) (Total t key) (Some (total_of s t key + 1)) s2 s' ->
  0 <= total_of s t key + 1 <= u32_max ->
  (forall l, holds cap t key s l ->
     i = total_of s t key / Z.of_nat cap /\ chunk = chunk_at s key i) ->
  appended cap t key u s s'.
Proof.
  intros Hcap Hs Hw1 Hw2 Hz Hi; pose proof (unchanged_pget _ _ _ Hs) as Hp.
  split; [intros k; settle; by apply (unchanged_inst e)|by settle|done| |].
  - intros l Hl; destruct (Hi l Hl) as [-> ->]; assert (Ht : total_of s t key = len l) by apply Hl.
    assert (Hd : total_of s t key / Z.of_nat cap = Z.of_nat (length l / cap))
      by (rewrite Ht; unfold len; by rewrite Nat2Z.inj_div).
    rewrite Hd in *; rewrite Ht in *; rewrite (chunk_at_slice cap key s l _ (hd_chunks _ _ _ _ _ Hl)) in Hw1.
    eapply holds_append; [done|exact Hl|lia|by settle| |by settle].
    intros j Hj; assert (Chunk key (Z.of_nat (length l / cap)) <> Chunk key (Z.of_nat j)) by
      (intros [= ?%Nat2Z.inj]; congruence); by settle.
  - intros k Hk1 Hk2; specialize (Hk2 i); by settle.
Qed.

Lemma appended_same cap t key u s s1 s' :
  same_values s1 s' -> appended cap t key u s s1 -> appended cap t key u s s'.
Proof.
  intros Hs [Hi Ht Hw Hh Ho]; split.
  - intros k; by rewrite (sv_inst _ _ Hs).
  - by rewrite (sv_pget _ _ Hs (Total t key)).
  - done.
  - intros l Hl; eapply holds_same; [exact Hs|auto].
  - intros k Hk1 Hk2; rewrite (sv_pget _ _ Hs k); auto.
Qed.

(** The open chunk of an index has room. *)
Lemma open_chunk_room cap t key s l :
  (0 < cap)%nat -> holds cap t key s l ->
  len (chunk_at s key (total_of s t key / Z.of_nat cap)) < Z.of_nat cap.
Proof.
  intros Hcap Hl; unfold total_of; rewrite (hd_total _ _ _ _ _ Hl); unfold len at 2.
  rewrite <- Nat2Z.inj_div, (chunk_at_slice cap key s l) by apply Hl.
  unfold len; rewrite slice_length; pose proof (Nat.div_mod_eq (length l) cap).
  pose proof (Nat.mod_upper_bound (length l) cap); lia.
Qed.

Lemma chunk_at_unchanged e s s' key i : unchanged e s s' -> chunk_at s' key i = chunk_at s key i.
Proof. intros Hs; unfold chunk_at; by rewrite (unchanged_pget _ _ _ Hs). Qed.
Lemma capacity_unchanged e s s' : unchanged e s s' -> chunk_capacity s' = chunk_capacity s.
Proof. intros Hs; unfold chunk_capacity; by rewrite (unchanged_inst _ _ _ Hs). Qed.

Lemma unchanged_index_total t key : preserves (X := X) unchanged (index_total t key).
Proof.
  apply pres_of_quiet; [apply _|]; intros e s z s' Hr.
  by eapply answers_inv in Hr as [_ ?]; [|apply index_total_answers].
Qed.
#[local] Hint Resolve unchanged_index_total : sas.

Lemma open_chunk_ok d key cap i e s j c al s' :
  open_chunk d key cap i e s = Ok ((j, c, al), s') ->
  unchanged e s s' /\ (len (chunk_at s key i) < cap -> j = i /\ c = chunk_at s key i).
Proof.
  intros Hr; split.
  - assert (Hp : preserves (X := X) unchanged (open_chunk d key cap i)) by pres_open; by eapply Hp.
  - intros Hlt; unfold open_chunk in Hr; run_inv.
    rewrite (proj2 (Z.leb_gt _ _) Hlt) in Hr; run_inv; by simplify_eq.
Qed.

Lemma index_under_ok cap key u t d e s x s' :
  chunk_capacity s = Z.of_nat cap -> (0 < cap)%nat ->
  index_under key u t d e s = Ok (x, s') -> appended cap t key u s s'.
Proof.
  intros Hcap Hpos; unfold index_under; intros Hr; idx_inv.
  match goal with Ho : open_chunk _ _ _ _ _ _ = Ok (?p, _) |- _ => destruct p as [[j c] al] end.
  idx_inv.
  match goal with H0 : same_values s ?s1, H1 : open_chunk _ _ _ _ _ _ = Ok (_, ?s2),
      H2 : _ e ?s2 = Ok (_, ?s3), H3 : _ e ?s3 = Ok (_, ?s4), H4 : same_values _ s' |- _ =>
    assert (U1 : unchanged e s s1) by (by apply on_values);
    rewrite (capacity_unchanged _ _ _ U1), Hcap in H1; apply open_chunk_ok in H1 as [U2 Hroom];
    rewrite (chunk_at_unchanged _ _ _ _ _ U1) in Hroom;
    apply (appended_same _ _ _ _ _ _ _ H4);
    assert (U3 : unchanged e s2 s3) by (refine ((_ : preserves (X := X) unchanged _) _ _ _ _ H2); pres_open);
    assert (U4 : unchanged e s3 s4) by (refine ((_ : preserves (X := X) unchanged _) _ _ _ _ H3); pres_open);
    eapply (appended_chunk _ _ _ _ e _ s4); [done| |eassumption..|] end.
  - do 3 (etransitivity; [eassumption|]); done.
  - intros l Hl; destruct Hroom as [-> ->]; [by eapply open_chunk_room|done].
Qed.

Lemma index_expiration_ok st u e s x s' :
  index_expiration_status st u e s = Ok (x, s') ->
  appended (Z.to_nat MAX_CHUNK_SIZE) EXPIRATION_TOTAL (ByExpiration st) u s s'.
Proof.
  unfold index_expiration_status; intros Hr; idx_inv.
  match goal with H0 : same_values s ?s1, H4 : same_values _ s' |- _ =>
    assert (U1 : unchanged e s s1) by (by apply on_values); apply (appended_same _ _ _ _ _ _ _ H4) end.
  match goal with Hp : (if ?b then _ else _) _ ?s1 = Ok (?p, ?s2) |- _ =>
    assert (Hc : unchanged e s1 s2 /\ (b = false -> p = (total_of s EXPIRATION_TOTAL (ByExpiration st)
      / MAX_CHUNK_SIZE, chunk_at s1 (ByExpiration st) (total_of s EXPIRATION_TOTAL (ByExpiration st)
      / MAX_CHUNK_SIZE)))) by (destruct b; idx_inv; split; simplify_eq; try done; reflexivity) end.
  destruct Hc as [U2 Hc]; eapply (appended_chunk _ _ _ _ e); [unfold MAX_CHUNK_SIZE; lia| |eassumption..|].
  - by etransitivity.
  - intros l Hl; rewrite Hc.
    + simpl; by rewrite (chunk_at_unchanged _ _ _ _ _ U1).
    + apply Z.leb_gt; fold (total_of s EXPIRATION_TOTAL (ByExpiration st)).
      rewrite (chunk_at_unchanged _ _ _ _ _ U1).
      eapply (open_chunk_room (Z.to_nat MAX_CHUNK_SIZE)); [unfold MAX_CHUNK_SIZE; lia|exact Hl].
Qed.

(** The number an entry holds. *)
Definition number_at s (k : IdxPKey) : Z :=
  match k return option (idx_pval k) -> Z with
  | Total _ _ | RECIPIENT_ATTESTATION_COUNT _ | SCHEMA_ATTESTATION_COUNT _ => default 0
  | _ => fun _ => 0
  end (pget s k).

(** A membership flag is set and counted once. *)
Record flagged (flag : IdxPKey) (count : IdxPKey) s s' : Prop := {
  fl_inst : forall k, inst s' k = inst s k;
  fl_flag : is_Some (pget s' flag);
  fl_count : pget s flag = None -> number_at s' count = sat_add u32_max (number_at s count) 1;
  fl_others : forall k, k <> flag -> k <> count -> pget s' k = pget s k
}.
Lemma recipient_flag_ok a u e s x s' :
  index_recipient_attestation a u e s = Ok (x, s') ->
  flagged (RECIPIENT_ATTESTATION a u) (RECIPIENT_ATTESTATION_COUNT a) s s'.
Proof.
  unfold index_recipient_attestation; intros Hr; idx_inv.
  match goal with Hr : (if ?b then _ else _) _ _ = _ |- _ => destruct b eqn:Hb end; idx_inv.
  - apply bool_decide_eq_true_1 in Hb; split; [by intros; settle|by settle| |by intros; settle].
    intros Hf; rewrite Hf in Hb; by destruct Hb.
  - split; [by intros; settle|by settle; eauto| |by intros; settle].
    intros _; unfold number_at; by settle.
Qed.
Lemma schema_flag_ok v u e s x s' :
  index_schema_attestation v u e s = Ok (x, s') ->
  flagged (SCHEMA_ATTESTATION v u) (SCHEMA_ATTESTATION_COUNT v) s s'.
Proof.
  unfold index_schema_attestation; intros Hr; idx_inv.
  match goal with Hr : (if ?b then _ else _) _ _ = _ |- _ => destruct b eqn:Hb end; idx_inv.
  - apply bool_decide_eq_true_1 in Hb; split; [by intros; settle|by settle| |by intros; settle].
    intros Hf; rewrite Hf in Hb; by destruct Hb.
  - split; [by intros; settle|by settle; eauto| |by intros; settle].
    intros _; unfold number_at; by settle.
Qed.
End append.
