(* ===== verification/IdxRefine.v ===== *)
(** * Indexer: the indexes refine a log

    The abstract state of the indexer is the log of the attestations indexed
    so far, oldest first.  Every index holds the UIDs of the log's entries it
    is for; an address that is a recipient of some and the attester of other
    attestations is excluded, since its two indexes share their chunks. *)

From S2P Require Import Prelude Host Values Common IdxState IdxWrite IdxQuery IdxCalls IdxChunks.

(** ** The log *)

Abbreviation IndexLog := (list (UID * IndexRecord)).

Definition uids_where (p : IndexRecord -> bool) (g : IndexLog) : list UID :=
  (filter (fun x => p x.2 = true) g).*1.
Definition by_recipient (a : Address) : IndexLog -> list UID :=
  uids_where (fun r => bool_decide (ir_recipient r = a)).
Definition by_attester (a : Address) : IndexLog -> list UID :=
  uids_where (fun r => bool_decide (ir_attester r = a)).
Definition by_schema (v : UID) : IndexLog -> list UID :=
  uids_where (fun r => bool_decide (ir_schema r = v)).
Definition by_expiration (st : ExpirationStatus) : IndexLog -> list UID :=
  uids_where (fun r => bool_decide (expiration_status_of (ir_expiration r) = st)).

Lemma uids_where_snoc p g u r :
  uids_where p (g ++ [(u, r)]) = uids_where p g ++ if p r then [u] else [].
Proof.
  unfold uids_where; rewrite filter_app, fmap_app, filter_cons; simpl.
  by destruct (p r).
Qed.
Lemma uids_where_elem p g u : u ∈ uids_where p g -> u ∈ g.*1.
Proof.
  unfold uids_where; rewrite !list_elem_of_fmap; intros (x & -> & [_ Hx]%list_elem_of_filter); eauto.
Qed.

Lemma uids_where_nil p : uids_where p [] = [].
Proof. done. Qed.
Lemma uids_where_snoc_nil p g u r :
  uids_where p (g ++ [(u, r)]) = [] -> uids_where p g = [] /\ p r = false.
Proof. rewrite uids_where_snoc; destruct (p r); [by intros [? ?]%app_eq_nil|by rewrite app_nil_r]. Qed.

(** ** The refinement relation *)

Section refines.
Context {X : Type}.
Implicit Types (s : State IdxSig X) (e : Env) (g : IndexLog).

Record refines (cap : nat) g s : Prop := {
  rf_cap : chunk_capacity s = Z.of_nat cap;
  rf_record : forall u r, pget s (INDEXED_KEY u) = Some r <-> (u, r) ∈ g;
  rf_uids : NoDup g.*1;
  rf_schema : forall v, holds cap SCHEMA_TOTAL (BySchema v) s (by_schema v g);
  rf_expiration : forall st,
    holds (Z.to_nat MAX_CHUNK_SIZE) EXPIRATION_TOTAL (ByExpiration st) s (by_expiration st g);
  rf_recipient_total : forall a, total_of s RECIPIENT_TOTAL (ByAddress a) = len (by_recipient a g);
  rf_attester_total : forall a, total_of s ATTESTER_TOTAL (ByAddress a) = len (by_attester a g);
  rf_recipient : forall a, by_attester a g = [] ->
    holds cap RECIPIENT_TOTAL (ByAddress a) s (by_recipient a g);
  rf_attester : forall a, by_recipient a g = [] ->
    holds cap ATTESTER_TOTAL (ByAddress a) s (by_attester a g);
  rf_recipient_flag : forall a u,
    is_Some (pget s (RECIPIENT_ATTESTATION a u)) <-> u ∈ by_recipient a g;
  rf_schema_flag : forall v u, is_Some (pget s (SCHEMA_ATTESTATION v u)) <-> u ∈ by_schema v g;
  rf_recipient_count : forall a,
    number_at s (RECIPIENT_ATTESTATION_COUNT a) = len (by_recipient a g);
  rf_schema_count : forall v, number_at s (SCHEMA_ATTESTATION_COUNT v) = len (by_schema v g)
}.

Lemma wrote_holds k o cap t key s s' l :
  wrote (C := IdxSig) k o s s' -> k <> Total t key -> (forall i, k <> Chunk key i) ->
  holds cap t key s l -> holds cap t key s' l.
Proof. intros Hw H1 H2; apply holds_frame; [|intros i; specialize (H2 i)]; by settle. Qed.
Lemma appended_holds cap t key u cap' t' key' s s' l :
  appended cap t key u s s' -> key <> key' -> holds cap' t' key' s l -> holds cap' t' key' s' l.
Proof. intros Ha Hk; apply holds_frame; [|intros i]; apply (ap_others _ _ _ _ _ _ Ha); congruence. Qed.
Lemma flagged_holds flag count cap t key s s' l :
  flagged flag count s s' -> flag <> Total t key -> count <> Total t key ->
  (forall i, flag <> Chunk key i) -> (forall i, count <> Chunk key i) ->
  holds cap t key s l -> holds cap t key s' l.
Proof. intros Hf ? ? ? ?; apply holds_frame; [|intros i]; by apply (fl_others _ _ _ _ Hf). Qed.
Lemma unchanged_holds cap t key e s s' l :
  unchanged e s s' -> holds cap t key s l -> holds cap t key s' l.
Proof. intros Hu; apply holds_frame; [|intros i]; apply (unchanged_pget _ _ _ Hu). Qed.
End refines.

(** Carry a fact about an index, or an entry, over the writes to others. *)
Ltac carry_holds :=
  match goal with
  | H : appended _ ?t ?key ?u ?s ?s1 |- holds _ ?t ?key ?s1 (_ ++ [?u]) => apply (ap_holds _ _ _ _ _ _ H)
  | H : unchanged _ ?s ?s1 |- holds _ _ _ ?s1 _ => apply (unchanged_holds _ _ _ _ _ _ _ H)
  | H : wrote _ _ ?s ?s1 |- holds _ _ _ ?s1 _ => apply (wrote_holds _ _ _ _ _ _ _ _ H); [congruence..|]
  | H : flagged _ _ ?s ?s1 |- holds _ _ _ ?s1 _ => apply (flagged_holds _ _ _ _ _ _ _ _ H); [congruence..|]
  | H : appended _ _ _ _ ?s ?s1 |- holds _ _ _ ?s1 _ =>
      apply (appended_holds _ _ _ _ _ _ _ _ _ _ H); [congruence|]
  end.
Ltac carry_get :=
  match goal with
  | H : unchanged _ ?s ?s1 |- context [pget ?s1 ?k] => rewrite (unchanged_pget _ _ _ H k)
  | H : flagged _ _ ?s ?s1 |- context [pget ?s1 ?k] => rewrite (fl_others _ _ _ _ H k) by congruence
  | H : appended _ _ _ _ ?s ?s1 |- context [pget ?s1 ?k] =>
      rewrite (ap_others _ _ _ _ _ _ H k) by congruence
  | H : wrote _ _ ?s ?s1 |- context [pget ?s1 ?k] => rewrite (w_others _ _ _ _ H k) by congruence
  end.
Ltac carry := repeat carry_holds; repeat carry_get.

Section steps.
Context {X : Type} `{IdxDeps X}.
Implicit Types (s : State IdxSig X) (e : Env) (g : IndexLog).

(** The writes of a first indexing, in their order. *)
Inductive indexed (cap : nat) (u : UID) (r : IndexRecord) e s s' : Prop :=
  | Indexed s1 s2 s3 s4 s5 s6 s7
      (Hrecord : wrote (C := IdxSig) (INDEXED_KEY u) (Some r) s s1)
      (Hrecipient : appended cap RECIPIENT_TOTAL (ByAddress (ir_recipient r)) u s1 s2)
      (Hrflag : flagged (RECIPIENT_ATTESTATION (ir_recipient r) u)
                  (RECIPIENT_ATTESTATION_COUNT (ir_recipient r)) s2 s3)
      (Hschema : appended cap SCHEMA_TOTAL (BySchema (ir_schema r)) u s3 s4)
      (Hsflag : flagged (SCHEMA_ATTESTATION (ir_schema r) u)
                  (SCHEMA_ATTESTATION_COUNT (ir_schema r)) s4 s5)
      (Hattester : appended cap ATTESTER_TOTAL (ByAddress (ir_attester r)) u s5 s6)
      (Hexpiration : appended (Z.to_nat MAX_CHUNK_SIZE) EXPIRATION_TOTAL
                       (ByExpiration (expiration_status_of (ir_expiration r))) u s6 s7)
      (Hrest : unchanged e s7 s').

Lemma indexed_inst cap u r e s s' k : indexed cap u r e s s' -> inst s' k = inst s k.
Proof.
  intros []; rewrite (unchanged_inst _ _ _ Hrest), (ap_inst _ _ _ _ _ _ Hexpiration),
    (ap_inst _ _ _ _ _ _ Hattester), (fl_inst _ _ _ _ Hsflag), (ap_inst _ _ _ _ _ _ Hschema),
    (fl_inst _ _ _ _ Hrflag), (ap_inst _ _ _ _ _ _ Hrecipient); by rewrite (w_inst _ _ _ _ Hrecord).
Qed.

Lemma capacity_of_inst s s' cap :
  (forall k, inst s' k = inst s k) -> chunk_capacity s = Z.of_nat cap -> chunk_capacity s' = Z.of_nat cap.
Proof. unfold chunk_capacity; by intros ->. Qed.

Lemma index_first_ok cap u r e s x s' :
  chunk_capacity s = Z.of_nat cap -> index_first u r e s = Ok (x, s') -> indexed cap u r e s s'.
Proof.
  intros Hcap; assert (Hpos : (0 < cap)%nat) by (pose proof (capacity_pos s); lia).
  unfold index_first; intros Hr; idx_inv.
  match goal with H0 : wrote _ _ s ?s1, H1 : _ e ?s1 = Ok (_, ?s2), H2 : _ e ?s2 = Ok (_, ?s3),
    H3 : _ e ?s3 = Ok (_, ?s4), H4 : _ e ?s4 = Ok (_, ?s5), H5 : _ e ?s5 = Ok (_, ?s6),
    H6 : _ e ?s6 = Ok (_, ?s7) |- _ =>
      assert (Hc1 : chunk_capacity s1 = Z.of_nat cap)
        by (apply (capacity_of_inst s); [by intros k; rewrite (w_inst _ _ _ _ H0)|done]);
      apply (index_under_ok _ _ _ _ _ _ _ _ _ Hc1 Hpos) in H1;
      apply recipient_flag_ok in H2;
      assert (Hc3 : chunk_capacity s3 = Z.of_nat cap)
        by (apply (capacity_of_inst s2 s3 _ (fl_inst _ _ _ _ H2)),
              (capacity_of_inst s1 s2 _ (ap_inst _ _ _ _ _ _ H1)); done);
      apply (index_under_ok _ _ _ _ _ _ _ _ _ Hc3 Hpos) in H3;
      apply schema_flag_ok in H4;
      assert (Hc5 : chunk_capacity s5 = Z.of_nat cap)
        by (apply (capacity_of_inst s4 s5 _ (fl_inst _ _ _ _ H4)),
              (capacity_of_inst s3 s4 _ (ap_inst _ _ _ _ _ _ H3)); done);
      apply (index_under_ok _ _ _ _ _ _ _ _ _ Hc5 Hpos) in H5;
      apply index_expiration_ok in H6;
      refine (Indexed _ _ _ _ _ _ _ _ _ _ _ _ _ H0 H1 H2 H3 H4 H5 H6 _) end.
  split; [intros k _; by settle|intros k _; by settle].
Qed.

Section first.
Context {cap : nat} {g : IndexLog} {u : UID} {r : IndexRecord} {e : Env} {s s' : State IdxSig X}.
Context (Hg : refines cap g s) (Hnew : pget s (INDEXED_KEY u) = None) (Hix : indexed cap u r e s s').

Lemma unlogged : u ∉ g.*1.
Proof.
  intros ([u' r'] & Hu' & Hin)%list_elem_of_fmap; simpl in Hu'; subst u'.
  apply (rf_record _ _ _ Hg) in Hin; congruence.
Qed.
Lemma unindexed p : u ∉ uids_where p g.
Proof. intros Hu%uids_where_elem; by apply unlogged. Qed.

Lemma first_record u' r' : pget s' (INDEXED_KEY u') = Some r' <-> (u', r') ∈ g ++ [(u, r)].
Proof.
  rewrite elem_of_app, list_elem_of_singleton, <- (rf_record _ _ _ Hg); destruct Hix.
  destruct (decide (u' = u)) as [->|Hne]; carry.
  - rewrite (w_value _ _ _ _ Hrecord), Hnew.
    split; [intros [= <-]; by right|by intros [[=]|[= <-]]].
  - split; [by left|by intros [Hu|[= <- _]]].
Qed.
Lemma first_uids : NoDup (g ++ [(u, r)]).*1.
Proof.
  rewrite fmap_app; simpl; apply NoDup_app; split; [apply (rf_uids _ _ _ Hg)|].
  split; [|apply NoDup_singleton]; intros u' Hin ->%list_elem_of_singleton.
  by apply unlogged.
Qed.

Lemma first_schema v : holds cap SCHEMA_TOTAL (BySchema v) s' (by_schema v (g ++ [(u, r)])).
Proof.
  unfold by_schema; rewrite uids_where_snoc; destruct Hix.
  case_bool_decide; [subst v|rewrite app_nil_r]; carry; apply Hg.
Qed.
Lemma first_expiration st :
  holds (Z.to_nat MAX_CHUNK_SIZE) EXPIRATION_TOTAL (ByExpiration st) s'
    (by_expiration st (g ++ [(u, r)])).
Proof.
  unfold by_expiration; rewrite uids_where_snoc; destruct Hix.
  case_bool_decide; [subst st|rewrite app_nil_r]; carry; apply Hg.
Qed.
Lemma first_recipient a : by_attester a (g ++ [(u, r)]) = [] ->
  holds cap RECIPIENT_TOTAL (ByAddress a) s' (by_recipient a (g ++ [(u, r)])).
Proof.
  intros [Hno Hr%bool_decide_eq_false]%uids_where_snoc_nil; unfold by_recipient.
  rewrite uids_where_snoc; destruct Hix.
  case_bool_decide; [subst a|rewrite app_nil_r]; carry; by apply Hg.
Qed.
Lemma first_attester a : by_recipient a (g ++ [(u, r)]) = [] ->
  holds cap ATTESTER_TOTAL (ByAddress a) s' (by_attester a (g ++ [(u, r)])).
Proof.
  intros [Hno Hr%bool_decide_eq_false]%uids_where_snoc_nil; unfold by_attester.
  rewrite uids_where_snoc; destruct Hix.
  case_bool_decide; [subst a|rewrite app_nil_r]; carry; by apply Hg.
Qed.

Lemma len_snoc (l : list UID) x : len (l ++ [x]) = len l + 1.
Proof. unfold len; rewrite length_app; simpl; lia. Qed.

Lemma first_recipient_total a :
  total_of s' RECIPIENT_TOTAL (ByAddress a) = len (by_recipient a (g ++ [(u, r)])).
Proof.
  pose proof (rf_recipient_total _ _ _ Hg a) as Ht; revert Ht; unfold by_recipient, total_of.
  rewrite uids_where_snoc; destruct Hix; case_bool_decide; [subst a|rewrite app_nil_r]; carry; [|done].
  rewrite (ap_total _ _ _ _ _ _ Hrecipient), len_snoc; unfold total_of; simpl; carry; by intros ->.
Qed.
Lemma first_attester_total a :
  total_of s' ATTESTER_TOTAL (ByAddress a) = len (by_attester a (g ++ [(u, r)])).
Proof.
  pose proof (rf_attester_total _ _ _ Hg a) as Ht; revert Ht; unfold by_attester, total_of.
  rewrite uids_where_snoc; destruct Hix; case_bool_decide; [subst a|rewrite app_nil_r]; carry; [|done].
  rewrite (ap_total _ _ _ _ _ _ Hattester), len_snoc; unfold total_of; simpl; carry; by intros ->.
Qed.

Lemma first_recipient_flag a u' :
  is_Some (pget s' (RECIPIENT_ATTESTATION a u')) <-> u' ∈ by_recipient a (g ++ [(u, r)]).
Proof.
  unfold by_recipient; rewrite uids_where_snoc, elem_of_app.
  change (uids_where _ g) with (by_recipient a g); rewrite <- (rf_recipient_flag _ _ _ Hg); destruct Hix.
  destruct (decide (RECIPIENT_ATTESTATION a u' = RECIPIENT_ATTESTATION (ir_recipient r) u)) as [[= -> ->]|Hne].
  - carry; rewrite bool_decide_true, list_elem_of_singleton by done.
    split; [by right|intros _; apply (fl_flag _ _ _ _ Hrflag)].
  - carry; case_bool_decide; rewrite ?list_elem_of_singleton, ?elem_of_nil; intuition congruence.
Qed.
Lemma first_schema_flag v u' :
  is_Some (pget s' (SCHEMA_ATTESTATION v u')) <-> u' ∈ by_schema v (g ++ [(u, r)]).
Proof.
  unfold by_schema; rewrite uids_where_snoc, elem_of_app.
  change (uids_where _ g) with (by_schema v g); rewrite <- (rf_schema_flag _ _ _ Hg); destruct Hix.
  destruct (decide (SCHEMA_ATTESTATION v u' = SCHEMA_ATTESTATION (ir_schema r) u)) as [[= -> ->]|Hne].
  - carry; rewrite bool_decide_true, list_elem_of_singleton by done.
    split; [by right|intros _; apply (fl_flag _ _ _ _ Hsflag)].
  - carry; case_bool_decide; rewrite ?list_elem_of_singleton, ?elem_of_nil; intuition congruence.
Qed.

Lemma no_flag k (l : list UID) : u ∉ l -> (is_Some (pget s k) <-> u ∈ l) -> pget s k = None.
Proof. intros Hu Hk; apply eq_None_not_Some; tauto. Qed.

Lemma first_recipient_count a :
  number_at s' (RECIPIENT_ATTESTATION_COUNT a) = len (by_recipient a (g ++ [(u, r)])).
Proof.
  pose proof (rf_recipient_count _ _ _ Hg a) as Hc; pose proof (rf_recipient_total _ _ _ Hg a) as Ht.
  pose proof (no_flag _ _ (unindexed _) (rf_recipient_flag _ _ _ Hg a u)) as Hf.
  revert Hc Ht Hf; unfold by_recipient, number_at, total_of; rewrite uids_where_snoc; destruct Hix.
  case_bool_decide; [subst a|rewrite app_nil_r]; carry; [|done]; intros Hc Ht Hf.
  pose proof (ap_width _ _ _ _ _ _ Hrecipient) as Hw.
  pose proof (fl_count _ _ _ _ Hrflag) as Hn; revert Hw Hn; unfold number_at, total_of; carry.
  rewrite len_snoc, Ht, Hc; intros Hw Hn; rewrite Hn by done; unfold sat_add; lia.
Qed.
Lemma first_schema_count v :
  number_at s' (SCHEMA_ATTESTATION_COUNT v) = len (by_schema v (g ++ [(u, r)])).
Proof.
  pose proof (rf_schema_count _ _ _ Hg v) as Hc; pose proof (hd_total _ _ _ _ _ (rf_schema _ _ _ Hg v)) as Ht.
  pose proof (no_flag _ _ (unindexed _) (rf_schema_flag _ _ _ Hg v u)) as Hf.
  revert Hc Ht Hf; unfold by_schema, number_at, total_of; rewrite uids_where_snoc; destruct Hix.
  case_bool_decide; [subst v|rewrite app_nil_r]; carry; [|done]; intros Hc Ht Hf.
  pose proof (ap_width _ _ _ _ _ _ Hschema) as Hw.
  pose proof (fl_count _ _ _ _ Hsflag) as Hn; revert Hw Hn; unfold number_at, total_of; carry.
  rewrite len_snoc, Ht, Hc; intros Hw Hn; rewrite Hn by done; unfold sat_add; lia.
Qed.

Lemma indexed_refines : refines cap (g ++ [(u, r)]) s'.
Proof.
  split; eauto using first_record, first_uids, first_schema, first_expiration, first_recipient,
    first_attester, first_recipient_total, first_attester_total, first_recipient_flag,
    first_schema_flag, first_recipient_count, first_schema_count.
  apply (capacity_of_inst s); [intros k; by eapply indexed_inst|apply Hg].
Qed.
End first.

(** ** Everything else leaves the log as it is *)

Section walks.
Context (I : IdxIKey -> Prop) (P : IdxPKey -> Prop).

Lemma chunk_walk_touches fuel keep cap end_ get index out :
  (forall i, preserves (X := X) (touches I P) (get i)) ->
  preserves (touches I P) (chunk_walk fuel keep cap end_ get index out).
Proof.
  intros Hget; revert index out; induction fuel as [|n IH]; intros index out; simpl; pres.
Qed.
Lemma filtered_walk_touches fuel cap total limit b get index loaded out :
  (forall i, preserves (X := X) (touches I P) (get i)) ->
  preserves (touches I P) (filtered_walk fuel cap total limit b get index loaded out).
Proof.
  intros Hget; revert index loaded out; induction fuel as [|n IH]; intros; simpl; unfold load_chunk; pres.
Qed.
Lemma reverse_walk_touches fuel limit b get index loaded uids :
  (forall i, preserves (X := X) (touches I P) (get i)) ->
  preserves (touches I P) (reverse_walk fuel limit b get index loaded uids).
Proof.
  intros Hget; revert index loaded uids; induction fuel as [|n IH]; intros; simpl; unfold load_chunk; pres.
Qed.
Lemma read_chunk_touches key i : preserves (X := X) (touches I P) (read_chunk key i).
Proof. pres_open. Qed.
End walks.
#[local] Hint Resolve read_chunk_touches chunk_walk_touches filtered_walk_touches reverse_walk_touches : sas.

(** The entries outside of the indexes. *)
Definition aside (k : IdxPKey) : Prop :=
  match k with STATUS_KEY _ | VALID_FROM_KEY _ => True | _ => False end.
Abbreviation sidelong := (touches (C := IdxSig) (X := X) (fun k => k <> CHUNK_CAPACITY) aside).

Lemma refines_frame cap g s s' :
  chunk_capacity s' = chunk_capacity s -> (forall k, ~ aside k -> pget s' k = pget s k) ->
  refines cap g s -> refines cap g s'.
Proof.
  intros Hc Hp Hg; split; intros; unfold total_of, number_at; rewrite ?Hp by auto; try by apply Hg.
  1: rewrite Hc; apply Hg.
  all: apply (holds_frame _ _ _ s); [apply Hp; by intros []|intros i; apply Hp; by intros []|by apply Hg].
Qed.
Lemma refines_sidelong cap g e s s' : sidelong e s s' -> refines cap g s -> refines cap g s'.
Proof.
  intros [Hi Hp]; apply refines_frame; [|by intros k Hk; apply Hp].
  unfold chunk_capacity; by rewrite (Hi CHUNK_CAPACITY) by tauto.
Qed.
Lemma refines_same cap g s s' : same_values s s' -> refines cap g s -> refines cap g s'.
Proof.
  intros Hs; apply refines_frame; [|intros k _; apply (sv_pget _ _ Hs)].
  unfold chunk_capacity; by rewrite (sv_inst _ _ Hs).
Qed.

(** ** The simulation *)

(** What a successful call does to the log. *)
Definition log_call (g : IndexLog) (c : IdxCall) : IndexLog :=
  match c with
  | IdxIndexAttestation u recipient schema_uid attester expiration_time =>
      if decide (u ∈ g.*1) then g
      else g ++ [(u, mkIndexRecord recipient schema_uid attester expiration_time)]
  | _ => g
  end.
(** Chunks are read back with the capacity they were written with. *)
Definition keeps_capacity (cap : nat) (c : IdxCall) : Prop :=
  match c with
  | IdxSetChunkTier tier => adaptive_capacity_for_tier tier = Z.of_nat cap
  | _ => True
  end.

Lemma clamp_idem lower upper z : clamp lower upper (clamp lower upper z) = clamp lower upper z.
Proof. unfold clamp; lia. Qed.

Lemma index_attestation_refines cap g u a v b t e s x s' :
  refines cap g s -> index_attestation u a v b t e s = Ok (x, s') ->
  refines cap (log_call g (IdxIndexAttestation u a v b t)) s'.
Proof.
  intros Hg; unfold index_attestation, require_sas; intros Hr; idx_inv.
  rewrite (sv_pget _ _ H1 (INDEXED_KEY u)) in Hr.
  assert (Hg3 : refines cap g x3) by (by eapply refines_same).
  destruct (pget s (INDEXED_KEY u)) as [r|] eqn:Hu; unfold log_call.
  - rewrite decide_True; idx_inv.
    + by repeat (eapply refines_same; [eassumption|]).
    + apply (rf_record _ _ _ Hg) in Hu; apply list_elem_of_fmap; by exists (u, r).
  - rewrite decide_False by exact (unlogged Hg Hu).
    apply (indexed_refines (u := u) (e := e) Hg3); [by rewrite (sv_pget _ _ H1 (INDEXED_KEY u))|].
    by apply (index_first_ok cap) in Hr; [|apply Hg3].
Qed.

Lemma set_chunk_tier_refines cap g tier e s x s' :
  adaptive_capacity_for_tier tier = Z.of_nat cap ->
  refines cap g s -> set_chunk_tier tier e s = Ok (x, s') -> refines cap g s'.
Proof.
  intros Ht Hg; unfold set_chunk_tier, require_indexer_admin; intros Hr; idx_inv.
  eapply refines_same; [eassumption|]; apply (refines_frame _ _ s); [|by intros k _; rewrite <- (sv_pget s _ H0 k)|done].
  rewrite (rf_cap _ _ _ Hg), <- Ht; unfold chunk_capacity, adaptive_capacity_for_tier.
  apply clamp_idem.
Qed.

Lemma exec_sidelong c :
  match c with IdxIndexAttestation _ _ _ _ _ | IdxSetChunkTier _ => False | _ => True end ->
  preserves sidelong (idx_exec c).
Proof.
  intros Hc; destruct c; try done; unfold idx_exec, idx_void; pres_open.
Qed.

Lemma exec_refines cap g c e s s' :
  keeps_capacity cap c -> refines cap g s -> idx_exec c e s = Ok (tt, s') ->
  refines cap (log_call g c) s'.
Proof.
  intros Hc Hg Hr; pose proof (exec_sidelong c) as Hside.
  assert (Hrest : preserves sidelong (idx_exec c) -> refines cap g s')
    by (intros Hm; eapply refines_sidelong; [by eapply Hm|done]).
  destruct c; try exact (Hrest (Hside I)).
  - exact (set_chunk_tier_refines _ _ _ _ _ _ _ Hc Hg Hr).
  - exact (index_attestation_refines _ _ _ _ _ _ _ _ _ _ _ Hg Hr).
Qed.

(** The log of a history: a failed call adds nothing. *)
Fixpoint logged (h : list (Env * IdxCall)) s g : IndexLog :=
  match h with
  | [] => g
  | (e, c) :: h' =>
      logged h' (transact_call idx_exec e c s)
        (match idx_exec c e s with Ok _ => log_call g c | Err _ => g end)
  end.

Lemma logged_refines cap h s g :
  Forall (fun '(_, c) => keeps_capacity cap c) h -> refines cap g s ->
  refines cap (logged h s g) (run_calls idx_exec h s).
Proof.
  revert s g; induction h as [|[e c] h IH]; intros s g Hh Hg; simpl; [done|].
  apply Forall_cons in Hh as [Hc Hh]; apply IH; [done|]; unfold transact_call.
  destruct (idx_exec c e s) as [[[] s']|err] eqn:E; [by eapply exec_refines|done].
Qed.

(** A fresh contract refines the empty log. *)
Definition unwritten s : Prop := (forall k, inst s k = None) /\ forall k, pget s k = None.

Lemma unwritten_active s u : unwritten s -> is_active s u = true.
Proof. intros [_ Hp]; unfold is_active; by rewrite Hp. Qed.
Lemma unwritten_holds cap t key s : (forall k, pget s k = None) -> holds cap t key s [].
Proof.
  intros Hp; split; [by rewrite Hp| |unfold len, u32_max; simpl; lia].
  intros i; rewrite Hp; unfold slice; by rewrite drop_nil, take_nil.
Qed.
Lemma unwritten_refines s : unwritten s -> refines (Z.to_nat DEFAULT_CHUNK_SIZE) [] s.
Proof.
  intros [Hi Hp]; split; intros; unfold total_of, number_at; rewrite ?Hp; try done;
    try by apply unwritten_holds.
  - unfold chunk_capacity; by rewrite Hi.
  - rewrite elem_of_nil; by split.
  - constructor.
  - unfold by_recipient; rewrite uids_where_nil, elem_of_nil; split; [by intros []|done].
  - unfold by_schema; rewrite uids_where_nil, elem_of_nil; split; [by intros []|done].
Qed.

(** The indexes whose lists the log determines. *)
Inductive lists (g : IndexLog) : TotalSymbol -> LookupKey -> list UID -> Prop :=
  | ListSchema v : lists g SCHEMA_TOTAL (BySchema v) (by_schema v g)
  | ListExpiration st : lists g EXPIRATION_TOTAL (ByExpiration st) (by_expiration st g)
  | ListRecipient a :
      by_attester a g = [] -> lists g RECIPIENT_TOTAL (ByAddress a) (by_recipient a g)
  | ListAttester a :
      by_recipient a g = [] -> lists g ATTESTER_TOTAL (ByAddress a) (by_attester a g).

Lemma refines_lists g s t key l :
  refines (Z.to_nat MAX_CHUNK_SIZE) g s -> lists g t key l ->
  holds (Z.to_nat MAX_CHUNK_SIZE) t key s l.
Proof. by intros Hg []; apply Hg. Qed.

Lemma refines_elem cap g s u : refines cap g s -> is_Some (pget s (INDEXED_KEY u)) <-> u ∈ g.*1.
Proof.
  intros Hg; rewrite list_elem_of_fmap; split.
  - intros [r Hr%(rf_record _ _ _ Hg)]; by exists (u, r).
  - intros ([u' r] & Hu & Hr); simpl in Hu; subst u'; apply (rf_record _ _ _ Hg) in Hr; by exists r.
Qed.

(** ** Revoked and replaced attestations *)

Definition retires (c : IdxCall) : list UID :=
  match c with
  | IdxHandleRevoke u => [u]
  | IdxHandleReplace old_uid _ => [old_uid]
  | _ => []
  end.
Definition retired (h : list (Env * IdxCall)) : list UID := h ≫= fun x => retires x.2.

Abbreviation unretiring :=
  (touches (C := IdxSig) (X := X) (fun _ => True) (fun k => forall u, k <> STATUS_KEY u)).

Lemma exec_unretiring c : retires c = [] -> preserves unretiring (idx_exec c).
Proof.
  intros Hc; destruct c; try done; unfold idx_exec, idx_void; pres_open.
Qed.

(** Retiring needs no one's authorisation and cannot fail. *)
Lemma retire_run u st e s :
  exists s', (extend_instance_ttl;; set_index_status u st) e s = Ok (tt, s')
    /\ wrote (C := IdxSig) (STATUS_KEY u) (Some st) s s'.
Proof.
  destruct (idx_extend_answers e s) as (s1 & Hr & Hs1); rewrite (bind_run _ _ _ _ _ _ Hr).
  destruct (pers_put_run (C := IdxSig) (STATUS_KEY u) st LEDGERS_IN_ONE_YEAR e s1) as (l1 & l2 & Hp).
  eexists; split; [exact Hp|]; apply pers_put_wrote in Hp.
  split; [|apply (w_value _ _ _ _ Hp)|intros k Hk]; settle; done.
Qed.

Lemma wrote_active u st s s' v :
  wrote (C := IdxSig) (STATUS_KEY u) (Some st) s s' -> st <> Active ->
  is_active s' v = is_active s v && bool_decide (v ∉ [u]).
Proof.
  intros Hw Hst; unfold is_active; destruct (decide (u = v)) as [<-|Hne].
  - rewrite (w_value _ _ _ _ Hw), bool_decide_false by (rewrite list_elem_of_singleton; tauto).
    rewrite andb_false_r; by destruct st.
  - rewrite (w_others _ _ _ _ Hw (STATUS_KEY v)), bool_decide_true
      by (rewrite ?list_elem_of_singleton; congruence).
    by rewrite andb_true_r.
Qed.

Lemma transact_active e c s v :
  is_active (transact_call idx_exec e c s) v = is_active s v && bool_decide (v ∉ retires c).
Proof.
  destruct (decide (retires c = [])) as [Hc|Hc].
  - rewrite Hc, bool_decide_true by apply not_elem_of_nil; rewrite andb_true_r.
    destruct (transact_call_run idx_exec e c s) as [(s' & Hr & ->)|(err & _ & ->)]; [|done].
    apply (exec_unretiring _ Hc) in Hr as [_ Hp]; unfold is_active.
    by rewrite (Hp (STATUS_KEY v)) by (intros Hn; by apply (Hn v)).
  - destruct c; try done; unfold transact_call, idx_exec, handle_revoke, handle_replace;
      match goal with |- context [set_index_status ?u ?st] =>
        destruct (retire_run u st e s) as (s' & -> & Hw); by apply (wrote_active _ _ _ _ _ Hw) end.
Qed.
Lemma retired_inactive h s u :
  is_active (run_calls idx_exec h s) u = is_active s u && bool_decide (u ∉ retired h).
Proof.
  revert s; induction h as [|[e c] h IH]; intros s; simpl.
  - unfold retired; simpl; by rewrite andb_true_r.
  - rewrite IH, transact_active, <- andb_assoc, <- bool_decide_and; f_equal.
    apply bool_decide_ext; unfold retired; simpl; rewrite elem_of_app; tauto.
Qed.
End steps.
