(* ===== verification/IdxAnswers.v ===== *)
(** * Indexer: what the queries answer

    On an index that holds a list, a count is its length, a history the list,
    a page a segment of it, a filtered query its active entries and a backward
    query its entries from the newest one.  The counted queries answer while
    the ledger's allowance lasts. *)

From S2P Require Import Prelude Host Values Common IdxState IdxWrite IdxQuery IdxChunks.
From S2P Require Import IdxCalls IdxRefine.

(** ** The query limit *)

Section limit.
Context {X : Type}.
Implicit Types (s : State IdxSig X) (e : Env).

(** The counted queries of the current ledger. *)
Definition queries_used e s : Z :=
  if sequence e =? default 0 (inst s QUERY_COUNTER_SEQ)
  then default 0 (inst s QUERY_COUNTER_COUNT) else 0.

(** Nothing but the counter moved, and that by one. *)
Record counted e s s' : Prop := {
  ct_used : queries_used e s' = queries_used e s + 1;
  ct_inst : forall k, k <> QUERY_COUNTER_SEQ -> k <> QUERY_COUNTER_COUNT -> inst s' k = inst s k;
  ct_pget : forall k, pget s' k = pget s k
}.

Lemma check_query_limit_eq e s :
  check_query_limit e s =
    if MAX_QUERIES_PER_BLOCK <=? queries_used e s then Err (Panic LimitExceeded)
    else Ok (tt, upd_inst (store_update QUERY_COUNTER_COUNT (Some (sat_add u32_max (queries_used e s) 1)))
                   (upd_inst (store_update QUERY_COUNTER_SEQ (Some (sequence e))) s)).
Proof.
  transitivity ((panic_if (C := IdxSig) (MAX_QUERIES_PER_BLOCK <=? queries_used e s) LimitExceeded;;
    inst_set (C := IdxSig) QUERY_COUNTER_SEQ (sequence e);;
    inst_set (C := IdxSig) QUERY_COUNTER_COUNT (sat_add u32_max (queries_used e s) 1)) e s); [done|].
  cbv [mbind M_bind panic_if]; by destruct (_ <=? _).
Qed.

Lemma check_query_limit_run e s :
  queries_used e s < MAX_QUERIES_PER_BLOCK ->
  exists s', check_query_limit e s = Ok (tt, s') /\ counted e s s'.
Proof.
  intros Hlt; rewrite check_query_limit_eq, (proj2 (Z.leb_gt _ _) Hlt).
  eexists; split; [reflexivity|]; split; [|intros k H1 H2|done].
  - unfold queries_used at 1; simpl; rewrite Z.eqb_refl; unfold sat_add.
    unfold MAX_QUERIES_PER_BLOCK, u32_max in *; lia.
  - simpl; by rewrite !store_update_ne.
Qed.

(** A counted query that answers [v]. *)
Definition serves {A} (m : M IdxSig X A) e s (v : A) : Prop :=
  exists s', m e s = Ok (v, s') /\ counted e s s'.

Lemma counted_same e s s1 s' : counted e s s1 -> same_values s1 s' -> counted e s s'.
Proof.
  intros [Hu Hi Hp] Hs; split; [|intros k H1 H2; rewrite (sv_inst _ _ Hs); auto|].
  - unfold queries_used in *; by rewrite (sv_inst _ _ Hs).
  - intros k; by rewrite (sv_pget _ _ Hs k).
Qed.
Lemma same_counted e s s1 s' : same_values s s1 -> counted e s1 s' -> counted e s s'.
Proof.
  intros Hs [Hu Hi Hp]; split.
  - unfold queries_used in *; by rewrite <- (sv_inst _ _ Hs).
  - intros k H1 H2; rewrite <- (sv_inst _ _ Hs); auto.
  - intros k; by rewrite Hp, (sv_pget _ _ Hs k).
Qed.

Lemma limited_serves {A} (m : M IdxSig X A) e s v :
  queries_used e s < MAX_QUERIES_PER_BLOCK ->
  (forall s1, counted e s s1 -> answers m e s1 v) -> serves (check_query_limit;; m) e s v.
Proof.
  intros Hu Hm; destruct (check_query_limit_run e s Hu) as (s1 & Hr & Hc).
  destruct (Hm s1 Hc) as (s' & Hm' & Hs); exists s'; split; [|by eapply counted_same].
  by rewrite (bind_run _ _ _ _ _ _ Hr).
Qed.
Lemma extend_serves_some {A} (m : M IdxSig X A) (P : A -> Prop) e s :
  queries_used e s < MAX_QUERIES_PER_BLOCK ->
  (forall s1, counted e s s1 -> exists v, P v /\ answers m e s1 v) ->
  exists v, P v /\ serves (extend_instance_ttl;; check_query_limit;; m) e s v.
Proof.
  intros Hu Hm; destruct (idx_extend_answers e s) as (s1 & Hr & Hs1).
  destruct (check_query_limit_run e s1) as (s2 & Hl & Hc).
  { unfold queries_used in *; by rewrite (sv_inst _ _ Hs1). }
  apply (same_counted _ _ _ _ Hs1) in Hc; destruct (Hm s2 Hc) as (v & Hv & s' & Hm' & Hs).
  exists v; split; [done|]; exists s'; split; [|by eapply counted_same].
  by rewrite (bind_run _ _ _ _ _ _ Hr), (bind_run _ _ _ _ _ _ Hl).
Qed.
Lemma extend_serves {A} (m : M IdxSig X A) e s v :
  queries_used e s < MAX_QUERIES_PER_BLOCK ->
  (forall s1, counted e s s1 -> answers m e s1 v) ->
  serves (extend_instance_ttl;; check_query_limit;; m) e s v.
Proof. intros Hu Hm; destruct (extend_serves_some m (eq v) e s Hu) as (? & <- & ?); eauto. Qed.
Lemma limited_refuses {A} (m : M IdxSig X A) e s :
  MAX_QUERIES_PER_BLOCK <= queries_used e s ->
  (check_query_limit;; m) e s = Err (Panic LimitExceeded).
Proof.
  intros Hu; apply bind_err; by rewrite check_query_limit_eq, (proj2 (Z.leb_le _ _) Hu).
Qed.
Lemma extend_refuses {A} (m : M IdxSig X A) e s :
  MAX_QUERIES_PER_BLOCK <= queries_used e s ->
  (extend_instance_ttl;; check_query_limit;; m) e s = Err (Panic LimitExceeded).
Proof.
  intros Hu; destruct (idx_extend_answers e s) as (s1 & Hr & Hs1); rewrite (bind_run _ _ _ _ _ _ Hr).
  apply limited_refuses; unfold queries_used in *; by rewrite (sv_inst _ _ Hs1).
Qed.
End limit.

(** ** Single entries *)

Section entries.
Context {X : Type}.
Implicit Types (s : State IdxSig X) (e : Env).

Lemma counter_answers t key e s : answers (count_of t key) e s (total_of s t key).
Proof.
  eapply answers_bind; [apply idx_extend_answers|]; intros s1 Hs1.
  unfold total_of; rewrite <- (sv_pget _ _ Hs1 (Total t key)); apply index_total_answers.
Qed.
Lemma present_answers k e s : answers (present k) e s (bool_decide (is_Some (pget s k))).
Proof.
  eapply answers_bind; [apply idx_extend_answers|]; intros s1 Hs1; ans.
  rewrite (sv_pget _ _ Hs1 k); eapply answers_bind; [|intros; apply answers_ret].
  apply renew_if_answers; intros Hk%bool_decide_eq_true_1; by rewrite (sv_pget _ _ Hs1 k).
Qed.
Lemma recipient_count_answers a e s :
  answers (get_recipient_attestation_count a) e s (number_at s (RECIPIENT_ATTESTATION_COUNT a)).
Proof.
  eapply answers_bind; [apply idx_extend_answers|]; intros s1 Hs1; ans.
  unfold number_at; rewrite <- (sv_pget _ _ Hs1 (RECIPIENT_ATTESTATION_COUNT a)).
  eapply answers_bind; [|intros; apply answers_ret].
  apply renew_if_answers; apply bool_decide_eq_true_1.
Qed.
End entries.

(** ** An index that holds a list *)

Section answers.
Context {X : Type} (cap : nat) (t : TotalSymbol) (key : LookupKey) (l : list UID).
Implicit Types (s : State IdxSig X) (e : Env).

Definition indexes s : Prop := holds cap t key s l /\ chunk_capacity s = Z.of_nat cap.

Lemma indexes_pos s : indexes s -> (0 < cap)%nat.
Proof. intros [_ Hc]; pose proof (capacity_pos s); lia. Qed.
Lemma indexes_same s s' : same_values s s' -> indexes s -> indexes s'.
Proof.
  intros Hs [Hh Hc]; split; [by eapply holds_same|].
  unfold chunk_capacity in *; by rewrite (sv_inst _ _ Hs).
Qed.
Lemma indexes_counted e s s' : counted e s s' -> indexes s -> indexes s'.
Proof.
  intros Hs [Hh Hc]; split.
  - apply (holds_frame _ _ _ s); [|intros i|done]; apply (ct_pget _ _ _ Hs).
  - unfold chunk_capacity in *; by rewrite (ct_inst _ _ _ Hs).
Qed.
Lemma shown_counted e s s' b l' : counted e s s' -> shown s' b l' = shown s b l'.
Proof.
  intros Hc; apply list_filter_iff; intros u; unfold listed_if, is_active.
  by rewrite (ct_pget _ _ _ Hc (STATUS_KEY u)).
Qed.

Lemma total_answers s e : holds cap t key s l -> answers (index_total t key) e s (len l).
Proof. intros Hh; rewrite <- (hd_total _ _ _ _ _ Hh); apply index_total_answers. Qed.

Lemma filtered_answers s e b :
  indexes s -> answers (collect_filtered (len l) (read_chunk key) b) e s (shown s b l).
Proof.
  intros Hi; pose proof (indexes_pos s Hi); destruct Hi as [Hh Hc].
  unfold collect_filtered; ans; rewrite Hc; unfold len; rewrite Nat2Z.id.
  eapply answers_eq; [apply (chunk_walk_answers _ _ cap key l 0 (length l));
    [apply listed_if_proper|done|apply Hh|lia|lia]|].
  by simpl; rewrite Nat.sub_0_r, drop_0, firstn_all.
Qed.
Lemma history_answers s e : indexes s -> answers (history_of t key) e s l.
Proof.
  intros Hi; eapply answers_bind; [apply idx_extend_answers|]; intros s1 Hs1.
  apply (indexes_same _ _ Hs1) in Hi.
  eapply answers_bind; [apply total_answers, Hi|]; intros s2 Hs2; apply (indexes_same _ _ Hs2) in Hi.
  eapply answers_eq; [by apply filtered_answers|]; by apply filter_kept.
Qed.
Lemma collect_page_answers s e cursor limit :
  indexes s -> 0 <= cursor -> 0 <= limit ->
  answers (collect_page (len l) cursor limit (read_chunk key)) e s
    (take (Z.to_nat limit) (drop (Z.to_nat cursor) l)).
Proof.
  intros Hi Hcur Hlim; pose proof (indexes_pos s Hi); destruct Hi as [Hh Hc].
  unfold collect_page; destruct (Z.eqb_spec limit 0) as [->|Hl]; [apply answers_ret|].
  destruct (Z.leb_spec (len l) cursor) as [Hge|Hlt].
  { cbn [orb]; rewrite drop_ge, take_nil by (unfold len in *; lia); apply answers_ret. }
  cbn [orb]; ans; rewrite Hc; pose proof (hd_width _ _ _ _ _ Hh) as Hw.
  set (n := Nat.min (length l) (Z.to_nat cursor + Z.to_nat limit)).
  replace (Z.min (len l) _) with (Z.of_nat n) by (unfold n, sat_add, len in *; lia).
  replace cursor with (Z.of_nat (Z.to_nat cursor)) at 1 by lia.
  eapply answers_eq; [apply (chunk_walk_answers _ (fun _ _ => true) cap key l (Z.to_nat cursor) n);
    [done|done|apply Hh|unfold n, len in *; lia|unfold n, len in *; lia]|].
  simpl; rewrite (filter_kept (fun _ _ => true) s) by done.
  destruct (decide (Z.to_nat cursor + Z.to_nat limit <= length l)%nat).
  - f_equal; unfold n; lia.
  - rewrite !take_ge; rewrite ?length_drop; unfold n; lia || done.
Qed.

(** *** Backward *)

Definition newest s b : list UID := shown s b (reverse l).

Lemma reverse_page_newest s b limit page :
  reverse_page s b l limit (length l - 1) [] page ->
  rp_uids page = take (Z.to_nat limit) (newest s b).
Proof.
  intros [Hle Hp]; unfold newest; rewrite (take_ge l) in Hp by lia; simpl in Hp.
  destruct (rp_next_cursor page) as [z|].
  - destruct Hp as (j & _ & _ & Hlen & <-); rewrite take_app_le by (unfold len in *; lia).
    rewrite take_ge; [done|unfold len in *; lia].
  - rewrite Hp in Hle |- *; rewrite take_ge; [done|unfold len in *; lia].
Qed.

(** The pages of the entry points. *)
Definition reverse_answer s b limit (cursor : option Z) (page : ReversePage) : Prop :=
  if bool_decide (l = []) || (limit =? 0) || (len l <=? default (len l - 1) cursor)
  then page = mkReversePage [] None
  else reverse_page s b l limit (Z.to_nat (default (len l - 1) cursor)) [] page.

Lemma reverse_answer_shown s s' b limit cursor page :
  (forall l', shown s' b l' = shown s b l') ->
  reverse_answer s' b limit cursor page -> reverse_answer s b limit cursor page.
Proof. intros Hs; unfold reverse_answer; destruct (_ || _); [done|by apply reverse_page_shown]. Qed.

Lemma collect_reverse_answers s e cursor limit b :
  holds cap t key s l -> cap = Z.to_nat MAX_CHUNK_SIZE ->
  0 <= limit -> (forall z, cursor = Some z -> 0 <= z) ->
  exists page, reverse_answer s b limit cursor page
    /\ answers (collect_reverse_page (len l) cursor limit b (read_chunk key)) e s page.
Proof.
  intros Hh -> Hlim Hcur; unfold collect_reverse_page, reverse_answer.
  assert (Hz : (len l =? 0) = bool_decide (l = [])) by (by destruct l).
  rewrite Hz; clear Hz; case_bool_decide as Hl; [eexists; split; [done|apply answers_ret]|].
  destruct (Z.eqb_spec limit 0) as [|Hn]; [eexists; split; [done|apply answers_ret]|]; cbn [orb].
  assert (Hi : 0 <= default (len l - 1) cursor).
  { destruct cursor as [z|]; simpl; [auto|]; destruct l; [done|unfold len; simpl; lia]. }
  destruct (Z.leb_spec (len l) (default (len l - 1) cursor)) as [|Hlt];
    [eexists; split; [done|apply answers_ret]|].
  set (i := default _ _) in *.
  pose proof (reverse_walk_answers (Z.to_nat (len l)) key l (Z.to_nat i) limit b None [] e s) as Hw.
  rewrite Z2Nat.id in Hw by done; apply Hw; [apply Hh|done|unfold len in *; lia|unfold len in *; lia|].
  unfold len; simpl; lia.
Qed.

(** ** The counted entry points *)

Section served.
Context (e : Env) (s : State IdxSig X).
Hypothesis Hleft : queries_used e s < MAX_QUERIES_PER_BLOCK.

Lemma page_serves cursor limit :
  indexes s -> 0 <= cursor -> 0 <= limit ->
  serves (page_of t key cursor limit) e s (take (Z.to_nat limit) (drop (Z.to_nat cursor) l)).
Proof.
  intros Hi H1 H2; apply extend_serves; [done|]; intros s1 Hc; apply (indexes_counted _ _ _ Hc) in Hi.
  eapply answers_bind; [apply total_answers, Hi|]; intros s2 Hs2.
  by apply collect_page_answers; [apply (indexes_same s1)|..].
Qed.
Lemma filtered_serves b : indexes s -> serves (filtered_of t key b) e s (shown s b l).
Proof.
  intros Hi; apply limited_serves; [done|]; intros s1 Hc.
  rewrite <- (shown_counted e s s1 b l Hc); apply (indexes_counted _ _ _ Hc) in Hi.
  eapply answers_bind; [apply total_answers, Hi|]; intros s2 Hs2; rewrite <- (shown_same _ _ b l Hs2).
  by apply filtered_answers, (indexes_same s1).
Qed.
Lemma filtered_page_serves capacity cursor limit b :
  holds cap t key s l -> (0 < cap)%nat ->
  (forall s1, counted e s s1 -> capacity s1 = Z.of_nat cap) ->
  (forall s1 s2, same_values s1 s2 -> capacity s2 = capacity s1) -> 0 <= cursor -> 0 <= limit ->
  serves (filtered_page_of t key capacity cursor limit b) e s
    (take (Z.to_nat limit) (shown s b (drop (Z.to_nat cursor) l))).
Proof.
  intros Hh Hpos Hcap Hsame H1 H2; apply limited_serves; [done|]; intros s1 Hc.
  destruct (Z.eqb_spec limit 0) as [->|Hl]; [apply answers_ret|].
  rewrite <- (shown_counted e s s1 b _ Hc).
  assert (Hh1 : holds cap t key s1 l)
    by (apply (holds_frame _ _ _ s); [|intros i|done]; apply (ct_pget _ _ _ Hc)).
  eapply answers_bind; [apply total_answers, Hh1|]; intros s2 Hs2.
  rewrite <- (shown_same _ _ b _ Hs2).
  destruct (Z.leb_spec (len l) cursor) as [Hge|Hlt].
  { rewrite drop_ge, shown_nil, take_nil by (unfold len in *; lia); apply answers_ret. }
  ans; rewrite (Hsame s1 s2 Hs2), (Hcap s1 Hc).
  pose proof (filtered_walk_answers (Z.to_nat (len l)) cap key l (Z.to_nat cursor) limit b None [] e s2) as Hw.
  rewrite Z2Nat.id in Hw by done; eapply answers_eq; [apply Hw|].
  - done.
  - by eapply chunked_same; [|apply Hh1].
  - done.
  - unfold len in *; lia.
  - unfold len in *; lia.
  - unfold len; simpl; lia.
  - simpl; do 2 f_equal; unfold len; simpl; lia.
Qed.
Lemma reverse_serves cursor limit b :
  holds cap t key s l -> cap = Z.to_nat MAX_CHUNK_SIZE ->
  0 <= limit -> (forall z, cursor = Some z -> 0 <= z) ->
  exists page, reverse_answer s b limit cursor page /\ serves (reverse_of t key cursor limit b) e s page.
Proof.
  intros Hh Hc H1 H2; apply extend_serves_some; [done|]; intros s1 Hc1.
  assert (Hh1 : holds cap t key s1 l)
    by (apply (holds_frame _ _ _ s); [|intros i|done]; apply (ct_pget _ _ _ Hc1)).
  destruct (total_answers s1 e Hh1) as (s2 & Ht & Hs2).
  destruct (collect_reverse_answers s2 e cursor limit b) as (page & Hp & s3 & Hw & Hs3);
    [by eapply holds_same|done..|].
  exists page; split.
  - apply (reverse_answer_shown s s2); [|done].
    intros l'; by rewrite (shown_same s1 s2), (shown_counted e s s1).
  - exists s3; split; [by rewrite (bind_run _ _ _ _ _ _ Ht)|by transitivity s2].
Qed.
(** The most recent entries. *)
Lemma recent_serves limit b :
  holds cap t key s l -> cap = Z.to_nat MAX_CHUNK_SIZE -> 0 <= limit ->
  serves (recent_of t key limit b) e s (take (Z.to_nat limit) (newest s b)).
Proof.
  intros Hh Hc Hlim; destruct (reverse_serves None limit b Hh Hc Hlim) as (page & Hp & s' & Hr & Hc');
    [done|]; exists s'; split; [|done]; unfold recent_of; rewrite (bind_run _ _ _ _ _ _ Hr).
  enough (rp_uids page = take (Z.to_nat limit) (newest s b)) as <- by done.
  revert Hp; unfold reverse_answer; case_bool_decide as Hl.
  - intros ->; unfold newest; by rewrite Hl, reverse_nil, shown_nil, take_nil.
  - destruct (Z.eqb_spec limit 0) as [->|]; [by intros ->|]; simpl.
    rewrite (proj2 (Z.leb_gt _ _)) by lia.
    replace (Z.to_nat (len l - 1)) with (length l - 1)%nat by (unfold len; lia).
    apply reverse_page_newest.
Qed.
End served.
End answers.

(** ** Repeated indexing *)

Lemma require_sas_run {X} sas (s : State IdxSig X) e :
  inst s SAS_CONTRACT = Some sas -> authorized e sas = true -> require_sas e s = Ok (tt, s).
Proof.
  intros Hs Ha; unfold require_sas; run; rewrite Hs; change (require_auth (C := IdxSig) sas e s = Ok (tt, s)).
  unfold require_auth; by rewrite Ha.
Qed.

Lemma repeated_index {X} cap g sas (s : State IdxSig X) e u r r' :
  refines cap g s -> (u, r) ∈ g -> inst s SAS_CONTRACT = Some sas -> authorized e sas = true ->
  let again := index_attestation u (ir_recipient r') (ir_schema r') (ir_attester r') (ir_expiration r') in
  if decide (r' = r) then answers again e s tt else again e s = Err (Panic DuplicateAttestation).
Proof.
  intros Hg Hu%(rf_record _ _ _ Hg) Hsas Hauth; destruct r' as [a v b t]; cbn -[decide].
  pose proof (require_sas_run _ _ _ Hsas Hauth) as Hr; unfold index_attestation.
  destruct (decide (mkIndexRecord a v b t = r)) as [<-|Hne].
  - eapply answers_bind; [by exists s|]; intros s0 Hs0.
    eapply answers_bind; [apply idx_extend_answers|]; intros s1 Hs1; ans.
    rewrite (sv_pget _ _ Hs1 (INDEXED_KEY u)), (sv_pget _ _ Hs0 (INDEXED_KEY u)), Hu.
    rewrite bool_decide_true by done.
    eapply answers_bind; [by exists s1|]; intros s2 Hs2.
    eapply answers_bind; [|intros; apply idx_extend_answers].
    apply (answers_pers_extend_ttl (C := IdxSig)).
    rewrite (sv_pget _ _ Hs2 (INDEXED_KEY u)), (sv_pget _ _ Hs1 (INDEXED_KEY u)),
      (sv_pget _ _ Hs0 (INDEXED_KEY u)), Hu; eauto.
  - destruct (idx_extend_answers e s) as (s1 & Hx & Hs1).
    rewrite (bind_run _ _ _ _ _ _ Hr), (bind_run _ _ _ _ _ _ Hx); run.
    rewrite (sv_pget _ _ Hs1 (INDEXED_KEY u)), Hu; apply bind_panicked.
    rewrite bool_decide_false; [done|congruence].
Qed.

(** ** The allowance of a ledger *)

Definition limited (c : IdxCall) : bool :=
  match c with
  | IdxGetAttsByRecipientPaginated _ _ _ | IdxGetRecipientFiltered _ _
  | IdxGetAttsByRecipientReverse _ _ _ | IdxGetAttsByRecipientRecent _ _
  | IdxGetRecipientRecentFiltered _ _ _ | IdxGetRecipientPageFiltered _ _ _ _
  | IdxGetAttsBySchemaPaginated _ _ _ | IdxGetSchemaFiltered _ _
  | IdxGetAttsBySchemaReverse _ _ _ | IdxGetAttsBySchemaRecent _ _
  | IdxGetSchemaRecentFiltered _ _ _
  | IdxGetAttsByAttesterPaginated _ _ _ | IdxGetAttesterFiltered _ _
  | IdxGetAttsByAttesterReverse _ _ _ | IdxGetAttsByAttesterRecent _ _
  | IdxGetAttesterRecentFiltered _ _ _
  | IdxGetAttsByIssuerPaginated _ _ _ | IdxGetIssuerFiltered _ _
  | IdxGetIssuerPageFiltered _ _ _ _
  | IdxGetAttsByExpirationPaginated _ _ _ | IdxGetExpirationFiltered _ _
  | IdxGetExpirationPageFiltered _ _ _ _ => true
  | _ => false
  end.

Section allowance.
Context {X : Type} `{IdxDeps X}.
Implicit Types (s : State IdxSig X) (e : Env).

Definition costs_one {A} (m : M IdxSig X A) : Prop := forall e s a s',
  m e s = Ok (a, s') ->
  queries_used e s < MAX_QUERIES_PER_BLOCK /\ queries_used e s' = queries_used e s + 1.
Definition uncounted (k : IdxIKey) : Prop := k <> QUERY_COUNTER_SEQ /\ k <> QUERY_COUNTER_COUNT.
Abbreviation free := (touches (C := IdxSig) (X := X) uncounted (fun _ => True)).

Lemma free_used e s s' : free e s s' -> queries_used e s' = queries_used e s.
Proof.
  intros [Hi _]; unfold queries_used.
  by rewrite (Hi QUERY_COUNTER_SEQ), (Hi QUERY_COUNTER_COUNT) by (intros [? ?]; congruence).
Qed.
Lemma costs_check : costs_one check_query_limit.
Proof.
  intros e s a s'; destruct (Z.ltb_spec (queries_used e s) MAX_QUERIES_PER_BLOCK) as [Hlt|Hge].
  - destruct (check_query_limit_run e s Hlt) as (s1 & -> & Hc); intros [= <- <-].
    split; [done|apply Hc].
  - by rewrite check_query_limit_eq, (proj2 (Z.leb_le _ _) Hge).
Qed.
Lemma costs_before {A B} (m : M IdxSig X A) (f : A -> M IdxSig X B) :
  costs_one m -> (forall a, preserves free (f a)) -> costs_one (mbind f m).
Proof.
  intros Hm Hf e s b s' (a & s1 & H1 & H2)%bind_ok.
  apply Hm in H1 as [? <-]; split; [done|]; by eapply free_used, Hf.
Qed.
Lemma costs_after {A B} (m : M IdxSig X A) (f : A -> M IdxSig X B) :
  preserves free m -> (forall a, costs_one (f a)) -> costs_one (mbind f m).
Proof.
  intros Hm Hf e s b s' (a & s1 & H1 & H2)%bind_ok.
  apply Hm, free_used in H1 as <-; by eapply Hf.
Qed.

#[local] Hint Extern 1 (uncounted _) => (split; discriminate) : sas.
#[local] Hint Resolve chunk_walk_touches filtered_walk_touches reverse_walk_touches read_chunk_touches : sas.

Lemma exec_cost c : if limited c then costs_one (idx_exec c) else preserves free (idx_exec c).
Proof.
  destruct c; simpl limited; cbv iota; unfold idx_exec, idx_void;
    repeat match goal with
    | |- costs_one check_query_limit => apply costs_check
    | |- costs_one (mbind _ extend_instance_ttl) => apply costs_after; [|intros ?]
    | |- costs_one (mbind _ _) => apply costs_before; [|intros ?]
    | |- costs_one ?m => let h := get_head m in unfold h
    end; pres_open.
Qed.

Fixpoint answered_queries (h : list (Env * IdxCall)) s : nat :=
  match h with
  | [] => O
  | (e, c) :: h' =>
      ((match idx_exec c e s with Ok _ => if limited c then 1 else 0 | Err _ => 0 end)
       + answered_queries h' (transact_call idx_exec e c s))%nat
  end.

Lemma queries_used_ledger e e' s : sequence e = sequence e' -> queries_used e s = queries_used e' s.
Proof. unfold queries_used; by intros ->. Qed.

Lemma answered_bound h s n :
  Forall (fun '(e, _) => sequence e = n) h ->
  forall e, sequence e = n -> 0 <= queries_used e s <= MAX_QUERIES_PER_BLOCK ->
  Z.of_nat (answered_queries h s) + queries_used e s <= MAX_QUERIES_PER_BLOCK.
Proof.
  revert s; induction h as [|[e' c] h IH]; intros s Hh e He Hu; simpl; [lia|].
  apply Forall_cons in Hh as [He' Hh]; unfold transact_call; pose proof (exec_cost c) as Hc.
  destruct (idx_exec c e' s) as [[[] s']|err] eqn:E; [|by apply IH].
  assert (Hsame : queries_used e s = queries_used e' s /\ queries_used e s' = queries_used e' s')
    by (split; apply queries_used_ledger; congruence); destruct Hsame as [H1 H2].
  destruct (limited c).
  - apply Hc in E as [? ?]; specialize (IH s' Hh e He); lia.
  - apply Hc, free_used in E; specialize (IH s' Hh e He); lia.
Qed.
End allowance.
