(* ===== verification/IdxProps.v ===== *)
(** * Indexer: properties

    The theorems about the indexer as a whole, with concrete runs on which
    their hypotheses hold. *)

From S2P Require Import Prelude Host Values Common Sample IdxState IdxWrite IdxQuery IdxCalls.
From S2P Require Import IdxChunks IdxRefine IdxAnswers.

(** ** A concrete indexer *)

(** A SAS contract that answers the probe. *)
#[export] Instance probed_sas : IdxDeps unit := {|
  sas_SASV1 _ := fun _ x => Some (Val true, x);
  sas_sasv1 _ := fun _ x => Some (Val false, x)
|}.

Definition idx_empty : State IdxSig unit := empty_state IdxSig tt.
Definition idx_schema : UID := mkUID (key_of 40).
Definition idx_uid (n : Z) : UID := mkUID (key_of n).
(** Two attestations of alice's by bob, one of them indexed twice, and the
    revocation of the other. *)
Definition idx_history : list (Env * IdxCall) := [
  (sample_env 100 [root_admin], IdxInit root_admin sas_id);
  (sample_env 200 [sas_id], IdxIndexAttestation (idx_uid 50) alice idx_schema bob 0);
  (sample_env 300 [], IdxIndexAttestation (idx_uid 52) alice idx_schema bob 0);
  (sample_env 300 [sas_id], IdxIndexAttestation (idx_uid 51) alice idx_schema bob 9000);
  (sample_env 400 [sas_id], IdxIndexAttestation (idx_uid 51) alice idx_schema bob 9000);
  (sample_env 500 [], IdxHandleRevoke (idx_uid 50)) ].

(** ** Properties *)

Section properties.
Context {X : Type} `{IdxDeps X}.
Implicit Types (s : State IdxSig X) (e : Env) (h : list (Env * IdxCall)) (g : IndexLog).

(** The capacity the chunks have unless the admin picks a tier. *)
Abbreviation default_capacity := (Z.to_nat DEFAULT_CHUNK_SIZE).

(** C23: After any history of calls on a fresh indexer in which no tier changed
    the chunk capacity, the contract refines the log of the attestations that
    SAS had indexed by successful calls, each UID once: the histories and
    counts by schema and by expiration status are the entries of the log, in
    order; so are those by recipient and by attester for an address in one of
    the two roles only; the membership flags tell who is in the log. *)
Theorem indexer_refines_its_log h s e :
  unwritten s -> Forall (fun '(_, c) => keeps_capacity default_capacity c) h ->
  let g := logged h s [] in
  let s' := run_calls idx_exec h s in
  NoDup g.*1
  /\ (forall v, answers (get_attestations_by_schema v) e s' (by_schema v g)
                /\ answers (get_count_by_schema v) e s' (len (by_schema v g)))
  /\ (forall st, answers (get_attestations_by_expiration st) e s' (by_expiration st g)
                /\ answers (get_count_by_expiration st) e s' (len (by_expiration st g)))
  /\ (forall a, by_attester a g = [] ->
        answers (get_attestations_by_recipient a) e s' (by_recipient a g))
  /\ (forall a, by_recipient a g = [] ->
        answers (get_attestations_by_attester a) e s' (by_attester a g))
  /\ (forall a, answers (get_count_by_recipient a) e s' (len (by_recipient a g))
                /\ answers (get_count_by_attester a) e s' (len (by_attester a g))
                /\ answers (get_recipient_attestation_count a) e s' (len (by_recipient a g)))
  /\ (forall u, answers (is_attestation_indexed u) e s' (bool_decide (u ∈ g.*1)))
  /\ (forall a u, answers (has_attestation a u) e s' (bool_decide (u ∈ by_recipient a g)))
  /\ (forall v u, answers (has_schema_attestation v u) e s' (bool_decide (u ∈ by_schema v g))).
Proof.
  intros Hs Hh g s'; assert (Hg : refines default_capacity g s')
    by (apply logged_refines; [done|by apply unwritten_refines]).
  assert (Hc : chunk_capacity s' = Z.of_nat default_capacity) by apply Hg.
  assert (Hi : forall t key l, lists g t key l -> answers (history_of t key) e s' l)
    by (intros; apply (history_answers default_capacity); split; [by eapply refines_lists|done]).
  assert (Ht : forall t key l, lists g t key l -> answers (count_of t key) e s' (len l)).
  { intros t key l Hl; rewrite <- (hd_total _ _ _ _ _ (refines_lists _ _ _ _ _ Hg Hl)).
    apply counter_answers. }
  split_and!.
  - apply Hg.
  - intros v; split; [apply Hi|apply Ht]; constructor.
  - intros st; split; [apply Hi|apply Ht]; constructor.
  - intros a Ha; by apply Hi; constructor.
  - intros a Ha; by apply Hi; constructor.
  - intros a; rewrite <- (rf_recipient_total _ _ _ Hg), <- (rf_attester_total _ _ _ Hg).
    split_and!; try apply counter_answers.
    rewrite (rf_recipient_total _ _ _ Hg), <- (rf_recipient_count _ _ _ Hg).
    apply recipient_count_answers.
  - intros u; eapply answers_eq; [apply present_answers|]; apply bool_decide_ext, (refines_elem _ _ _ _ Hg).
  - intros a u; eapply answers_eq; [apply present_answers|]; apply bool_decide_ext, Hg.
  - intros v u; eapply answers_eq; [apply present_answers|]; apply bool_decide_ext, Hg.
Qed.


(** A UID is indexed once.  For every entry of the log, SAS can repeat the
    call that indexed it, which succeeds and changes no value; with any other
    recipient, schema, attester or expiration time the call fails with
    [DuplicateAttestation]. *)
Theorem indexing_is_idempotent h s e u r sas r' :
  unwritten s -> Forall (fun '(_, c) => keeps_capacity default_capacity c) h ->
  let s' := run_calls idx_exec h s in
  let again := index_attestation u (ir_recipient r') (ir_schema r') (ir_attester r') (ir_expiration r') in
  (u, r) ∈ logged h s [] -> inst s' SAS_CONTRACT = Some sas -> authorized e sas = true ->
  if decide (r' = r) then answers again e s' tt
  else again e s' = Err (Panic DuplicateAttestation).
Proof.
  intros Hs Hh s' again Hu Hsas Hauth; apply (repeated_index (Z.to_nat DEFAULT_CHUNK_SIZE) (logged h s []) sas); try done.
  apply logged_refines; [done|by apply unwritten_refines].
Qed.

(** In any history within one ledger at most [MAX_QUERIES_PER_BLOCK] of the
    limited queries are answered. *)
Theorem limited_queries_per_ledger h s n :
  unwritten s -> Forall (fun '(e, _) => sequence e = n) h ->
  (answered_queries h s <= Z.to_nat MAX_QUERIES_PER_BLOCK)%nat.
Proof.
  intros [Hi _] Hh; destruct h as [|[e c] h]; [simpl; lia|].
  assert (He : sequence e = n) by (by apply Forall_cons in Hh as [? _]).
  assert (Hu : queries_used e s = 0) by (unfold queries_used; rewrite !Hi; by destruct (_ =? _)).
  pose proof (answered_bound _ s n Hh e He) as Hb; unfold MAX_QUERIES_PER_BLOCK in *; lia.
Qed.
End properties.

(** ** Witnesses *)

Lemma idx_empty_unwritten : unwritten idx_empty.
Proof. by split. Qed.
Lemma idx_history_capacity :
  Forall (fun '(_, c) => keeps_capacity (Z.to_nat DEFAULT_CHUNK_SIZE) c) idx_history.
Proof. by repeat constructor. Qed.

Definition idx_log : IndexLog := [
  (idx_uid 50, mkIndexRecord alice idx_schema bob 0);
  (idx_uid 51, mkIndexRecord alice idx_schema bob 9000) ].
Lemma idx_history_log : logged idx_history idx_empty [] = idx_log.
Proof. by vm_compute. Qed.

Lemma indexer_refines_its_log_witness :
  answers (get_attestations_by_schema idx_schema) (sample_env 600 [])
    (run_calls idx_exec idx_history idx_empty) [idx_uid 50; idx_uid 51].
Proof.
  pose proof (indexer_refines_its_log idx_history idx_empty (sample_env 600 [])
    idx_empty_unwritten idx_history_capacity) as (_ & Hs & _).
  rewrite idx_history_log in Hs; exact (proj1 (Hs idx_schema)).
Defined.


Lemma indexing_is_idempotent_witness :
  index_attestation (idx_uid 50) bob idx_schema bob 0 (sample_env 600 [sas_id])
    (run_calls idx_exec idx_history idx_empty) = Err (Panic DuplicateAttestation).
Proof.
  apply (indexing_is_idempotent idx_history idx_empty (sample_env 600 [sas_id]) (idx_uid 50)
    (mkIndexRecord alice idx_schema bob 0) sas_id (mkIndexRecord bob idx_schema bob 0)
    idx_empty_unwritten idx_history_capacity).
  - rewrite idx_history_log; left.
  - by vm_compute.
  - by vm_compute.
Defined.

Lemma limited_queries_per_ledger_witness :
  (answered_queries (replicate 3 (sample_env 600 [], IdxGetSchemaFiltered idx_schema true)) idx_empty
   <= Z.to_nat MAX_QUERIES_PER_BLOCK)%nat.
Proof.
  apply (limited_queries_per_ledger _ _ (sequence (sample_env 600 [])) idx_empty_unwritten).
  by repeat constructor.
Defined.
