(* ===== verification/Resolver.v ===== *)
(** * Resolvers: the interface

    SAS consults the resolver of a schema before an attestation is stored and
    after one was revoked; a resolver refuses by failing.  The contracts of
    this repository that can be installed as one are instances. *)

From S2P Require Import Prelude Host Values Common.

Class Resolver (C : Sig) (X : Type) := {
  on_attest : Attestation -> M C X unit;
  on_revoke : Attestation -> M C X unit
}.

(** [src/contracts/permissive-resolver/src/lib.rs]: it accepts everything. *)
Definition permissive_resolver {C X} : Resolver C X :=
  {| on_attest _ := mret tt; on_revoke _ := mret tt |}.

(** What a resolver decides on an attestation in a state. *)
Definition accepts {C X} `{Resolver C X} (e : Env) (s : State C X) (a : Attestation) : Prop :=
  exists s', on_attest a e s = Ok (tt, s').

(** The shared renewal of the instance always runs. *)
Lemma extend_common_run {C X} e (s : State C X) :
  answers extend_instance_ttl_common e s tt.
Proof. unfold answers; eexists; split; [reflexivity|by split]. Qed.

(** Invert a run, keeping values only. *)
Ltac val_inv_step :=
  first
  [ match goal with
    | H : pers_set _ _ _ _ = Ok _ |- _ => apply set_ok in H
    | H : pers_put _ _ _ _ _ = Ok _ |- _ => apply pers_put_wrote in H
    | H : pers_remove _ _ _ = Ok _ |- _ => apply remove_ok in H
    | H : publish _ _ _ = Ok _ |- _ => apply publish_ok in H as (? & ? & ?)
    | H : extend_instance_ttl_common _ _ = Ok _ |- _ => apply quiet_inst_extend_ttl in H; unfold quiet in H
    | H : inst_extend_ttl _ _ _ _ = Ok _ |- _ => apply quiet_inst_extend_ttl in H; unfold quiet in H
    | H : pers_extend_ttl _ _ _ _ _ = Ok _ |- _ => apply quiet_pers_extend_ttl in H; unfold quiet in H
    end
  | run_inv_step ].
Ltac val_inv := repeat val_inv_step.

Lemma wrote_from {C X} (k : PKey C) o (s s1 s' : State C X) :
  same_values s s1 -> wrote k o s1 s' -> wrote k o s s'.
Proof.
  intros Hs [Hi Hv Ho]; split; [by rewrite Hi, (sv_inst _ _ Hs)|done|].
  intros k' Hk; by rewrite Ho, (sv_pget _ _ Hs k').
Qed.
