(* ===== verification/TimeWindow.v ===== *)
(** * Time-window resolver

    [src/contracts/time-window-resolver/src/lib.rs]: an attestation for a
    recipient is accepted when the configured cooldown has passed since the
    last accepted one. *)

From Stdlib Require Import Sorted.
From S2P Require Import Prelude Host Values Common Resolver.

Record TimeWindowConfig := mkTimeWindowConfig { tw_admin : Address; cooldown_period_seconds : Z }.

Inductive TwIKey := TwConfig.
Inductive TwPKey := LastAttested (recipient : Address).
Definition tw_ival (k : TwIKey) : Type := match k with TwConfig => TimeWindowConfig end.
Definition tw_pval (k : TwPKey) : Type := match k with LastAttested _ => Z end.
Definition tw_tval (k : Empty_set) : Type := match k with end.
#[export] Instance TwIKey_eq_dec : EqDecision TwIKey.
Proof. solve_decision. Defined.
#[export] Instance TwPKey_eq_dec : EqDecision TwPKey.
Proof. solve_decision. Defined.

Inductive TwEvent := EvCooldownUpdated (old new : Z) (authorizer : Address).
Canonical Structure TwSig : Sig :=
  mkSig TwIKey tw_ival _ TwPKey tw_pval _ Empty_set tw_tval _ TwEvent SASError.

Section contract.
Context {X : Type}.
Abbreviation MW := (M TwSig X).
Abbreviation ttl := extend_instance_ttl_common.

Definition read_config : MW TimeWindowConfig :=
  o ← inst_get TwConfig; unwrap_or_panic o NotInitialized.

Definition init (admin : Address) (cooldown : Z) : MW unit :=
  ttl;;
  has ← inst_has TwConfig;
  panic_if has AlreadyInitialized;;
  require_auth admin;;
  inst_set TwConfig (mkTimeWindowConfig admin cooldown);;
  ttl.

Definition get_config : MW TimeWindowConfig := ttl;; read_config.
Definition get_cooldown_period_seconds : MW Z := ttl;; c ← read_config; mret (cooldown_period_seconds c).
Definition get_admin : MW Address := ttl;; c ← read_config; mret (tw_admin c).

Definition get_last_attested_time (recipient : Address) : MW (option Z) :=
  ttl;;
  last ← pers_get (LastAttested recipient);
  (if bool_decide (is_Some last)
   then pers_extend_ttl (C := TwSig) (LastAttested recipient) LEDGERS_IN_ONE_YEAR LEDGERS_IN_ONE_YEAR
   else mret tt);;
  mret last.

Definition set_cooldown_period_seconds (authorizer : Address) (cooldown : Z) : MW unit :=
  ttl;;
  c ← read_config;
  require_auth authorizer;;
  panic_if (negb (bool_decide (authorizer = tw_admin c))) Unauthorized;;
  inst_set TwConfig (mkTimeWindowConfig (tw_admin c) cooldown);;
  ttl;;
  publish (EvCooldownUpdated (cooldown_period_seconds c) cooldown authorizer).

Definition on_attest (a : Attestation) : MW unit :=
  ttl;;
  c ← read_config;
  now ← ask timestamp;
  let cooldown := cooldown_period_seconds c in
  (if negb (cooldown =? 0) then
     last ← pers_get (LastAttested (recipient a));
     match (last : option Z) with
     | Some last => panic_if (now <? sat_add u64_max last cooldown) CooldownActive
     | None => mret tt
     end
   else mret tt);;
  pers_put (C := TwSig) (LastAttested (recipient a)) now LEDGERS_IN_ONE_YEAR.

Definition on_revoke (a : Attestation) : MW unit := mret tt.

Inductive TwCall :=
  | TwInit (admin : Address) (cooldown : Z)
  | TwSetCooldown (authorizer : Address) (cooldown : Z)
  | TwOnAttest (a : Attestation)
  | TwOnRevoke (a : Attestation)
  | TwGetConfig
  | TwGetCooldown
  | TwGetAdmin
  | TwGetLastAttested (recipient : Address).
Definition tw_exec (c : TwCall) : MW unit :=
  match c with
  | TwInit admin cooldown => init admin cooldown
  | TwSetCooldown authorizer cooldown => set_cooldown_period_seconds authorizer cooldown
  | TwOnAttest a => on_attest a
  | TwOnRevoke a => on_revoke a
  | TwGetConfig => get_config;; mret tt
  | TwGetCooldown => get_cooldown_period_seconds;; mret tt
  | TwGetAdmin => get_admin;; mret tt
  | TwGetLastAttested recipient => get_last_attested_time recipient;; mret tt
  end.
End contract.

#[export] Instance time_window_resolver X : Resolver TwSig X :=
  {| Resolver.on_attest := on_attest; Resolver.on_revoke := on_revoke |}.

(** ** Correctness *)

Section proofs.
Context {X : Type}.
Implicit Types (s : State TwSig X) (e : Env) (a : Attestation) (h : list (Env * TwCall)).

(** The recipient's window is over at [now]. *)
Definition window_over s (r : Address) (now : Z) : Prop :=
  forall c last, inst s TwConfig = Some c -> cooldown_period_seconds c <> 0 ->
    pget s (LastAttested r) = Some last -> sat_add u64_max last (cooldown_period_seconds c) <= now.

Lemma on_attest_ok a e s x s' :
  on_attest a e s = Ok (x, s') ->
  is_Some (inst s TwConfig) /\ window_over s (recipient a) (timestamp e)
  /\ wrote (C := TwSig) (LastAttested (recipient a)) (Some (timestamp e)) s s'.
Proof.
  unfold on_attest, read_config; intros Hr; val_inv.
  match goal with Hs : same_values s ?s1, Hc : inst ?s1 TwConfig = Some ?c,
      Hw : (if _ then _ else _) _ ?s1 = Ok (_, ?s2) |- _ =>
    assert (Hover : s2 = s1 /\ window_over s1 (recipient a) (timestamp e)) end.
  { unfold window_over; destruct (Z.eqb_spec (cooldown_period_seconds x2) 0) as [Hz|Hz]; simpl in *; val_inv.
    - split; [done|]; intros c last Hc Hn _; congruence.
    - destruct (pget x1 (LastAttested (recipient a))) as [last|] eqn:Hl; val_inv; split; try done.
      intros c last' Hc _ [= <-]; simplify_eq; by apply Z.ltb_ge. }
  destruct Hover as [-> Hover]; split_and!.
  - rewrite <- (sv_inst _ _ H); eauto.
  - intros c last Hc Hn Hl; apply (Hover c last); [by rewrite (sv_inst _ _ H)|done|].
    by rewrite (sv_pget _ _ H (LastAttested _)).
  - by eapply wrote_from.
Qed.

Lemma on_attest_run a e s :
  is_Some (inst s TwConfig) -> window_over s (recipient a) (timestamp e) ->
  exists s', on_attest a e s = Ok (tt, s').
Proof.
  intros [c Hc] Hover; destruct (extend_common_run e s) as (s1 & Hr & Hs1).
  destruct (pers_put_run (C := TwSig) (LastAttested (recipient a)) (timestamp e) LEDGERS_IN_ONE_YEAR e s1)
    as (l1 & l2 & Hp).
  unfold on_attest, read_config; eexists; rewrite (bind_run _ _ _ _ _ _ Hr).
  rewrite (bind_run _ _ e s1 c s1) by (run; by rewrite (sv_inst _ _ Hs1), Hc); run.
  rewrite (bind_run _ _ e s1 tt s1); [exact Hp|].
  destruct (Z.eqb_spec (cooldown_period_seconds c) 0) as [Hz|Hz]; simpl; [done|]; run.
  rewrite (sv_pget _ _ Hs1 (LastAttested (recipient a))).
  destruct (pget s (LastAttested (recipient a))) as [last|] eqn:Hl; [|done].
  unfold panic_if; by rewrite (proj2 (Z.ltb_ge _ _) (Hover c last Hc Hz Hl)).
Qed.

(** ** Histories *)

Definition attests (c : TwCall) : option Address :=
  match c with TwOnAttest a => Some (recipient a) | _ => None end.

(** The times at which the recipient was accepted. *)
Fixpoint accepted_times (r : Address) h s : list Z :=
  match h with
  | [] => []
  | (e, c) :: h' =>
      (match tw_exec c e s with
       | Ok _ => if decide (attests c = Some r) then [timestamp e] else []
       | Err _ => []
       end) ++ accepted_times r h' (transact_call tw_exec e c s)
  end.

Definition keeps_cooldown (c : TwCall) : Prop := match c with TwSetCooldown _ _ => False | _ => True end.

(** One step: an accepted attestation is outside of its recipient's window and
    starts a new one; nothing else moves. *)
Lemma exec_window c e s s' cfg :
  keeps_cooldown c -> inst s TwConfig = Some cfg -> tw_exec c e s = Ok (tt, s') ->
  inst s' TwConfig = Some cfg
  /\ forall r, if decide (attests c = Some r)
               then window_over s r (timestamp e) /\ pget s' (LastAttested r) = Some (timestamp e)
               else pget s' (LastAttested r) = pget s (LastAttested r).
Proof.
  intros Hc Hcfg Hr; destruct c; try done; simpl in Hr |- *.
  2: { apply on_attest_ok in Hr as (_ & Hover & Hw); split; [by settle|]; intros r.
       case_decide as Hrec; [simplify_eq; by split; [|settle]|].
       by rewrite (w_others _ _ _ _ Hw (LastAttested r)) by congruence. }
  all: unfold init, on_revoke, get_config, get_cooldown_period_seconds, get_admin, get_last_attested_time,
         read_config in Hr; val_inv.
  { exfalso; apply bool_decide_eq_false in H0; apply H0; rewrite (sv_inst _ _ H), Hcfg; eauto. }
  all: try match goal with Hr : (if ?b then _ else _) _ _ = _ |- _ => destruct b; val_inv end.
  all: split; [by settle|by intros r; settle].
Qed.

(** The times are spaced by the cooldown. *)
Lemma accepted_times_spaced r h s cfg :
  cooldown_period_seconds cfg <> 0 -> inst s TwConfig = Some cfg ->
  Forall (fun '(_, c) => keeps_cooldown c) h ->
  let R t1 t2 := sat_add u64_max t1 (cooldown_period_seconds cfg) <= t2 in
  Sorted R (accepted_times r h s)
  /\ forall t, pget s (LastAttested r) = Some t -> HdRel R t (accepted_times r h s).
Proof.
  intros Hn Hcfg Hh R; revert s Hcfg; induction h as [|[e c] h IH]; intros s Hcfg; simpl.
  { split; [constructor|constructor]. }
  apply Forall_cons in Hh as [Hc Hh]; specialize (IH Hh).
  destruct (transact_call_run tw_exec e c s) as [(s' & Hr & ->)|(err & Hr & ->)]; rewrite Hr; [|by apply IH].
  destruct (exec_window c e s s' cfg Hc Hcfg Hr) as [Hcfg' Hw]; specialize (Hw r).
  destruct (IH s' Hcfg') as [Hs Hh']; case_decide as Hrec; simpl; split; try done.
  - destruct Hw as [_ Hw]; constructor; auto.
  - destruct Hw as [Hover _]; intros t Ht; constructor; by apply (Hover cfg).
  - by rewrite <- Hw.
Qed.
End proofs.
