(* ===== verification/TokenGate.v ===== *)
(** * Token-gated resolver

    [src/contracts/token-gated-resolver/src/lib.rs]: a recipient must hold a
    minimum balance of a token, and the attester may have to pay a fee in it.
    The token contract is a parameter. *)

From S2P Require Import Prelude Host Values Common Resolver.

Inductive ResolverError :=
  | TgAlreadyInitialized | TgNotInitialized | TgUnauthorized | TgResolverRejected
  | TgInvalidToken | TgInvalidThreshold | TgInvalidFee | TgInsufficientFee.

Inductive FeeDisposal := FeeNone | FeeTransfer | FeeBurn.
#[export] Instance FeeDisposal_eq_dec : EqDecision FeeDisposal.
Proof. solve_decision. Defined.

Record Config := mkConfig {
  tg_admin : Address; tg_token : Address; min_balance : Z; fee_amount : Z; fee_disposal : FeeDisposal
}.

Inductive TgPKey := CONFIG_KEY.
Definition tg_ival (k : Empty_set) : Type := match k with end.
Definition tg_pval (k : TgPKey) : Type := match k with CONFIG_KEY => Config end.
#[export] Instance TgPKey_eq_dec : EqDecision TgPKey.
Proof. solve_decision. Defined.
Canonical Structure TgSig : Sig :=
  mkSig Empty_set tg_ival _ TgPKey tg_pval _ Empty_set tg_ival _ Empty_set ResolverError.

(** The token contract. *)
Class TokenDeps (X : Type) := {
  token_balance : Address -> Address -> xcall X Z;
  token_transfer : Address -> Address -> Address -> Z -> xcall X unit;
  token_burn : Address -> Address -> Z -> xcall X unit
}.

Section contract.
Context {X : Type} `{TokenDeps X}.
Abbreviation MG := (M TgSig X).

Definition load_config : MG Config := o ← pers_get CONFIG_KEY; unwrap_or_panic o TgNotInitialized.

(** The checks shared by [initialize] and [set_fee]. *)
Definition check_fee (fee : Z) (disposal : FeeDisposal) : MG unit :=
  panic_if (fee <? 0) TgInvalidFee;;
  panic_if ((0 <? fee) && bool_decide (disposal = FeeNone)) TgInvalidFee.

Definition initialize (admin token : Address) (minimum fee : Z) (disposal : FeeDisposal) : MG unit :=
  has ← pers_has CONFIG_KEY;
  panic_if has TgAlreadyInitialized;;
  panic_if (minimum <? 0) TgInvalidThreshold;;
  check_fee fee disposal;;
  pers_set (C := TgSig) CONFIG_KEY (mkConfig admin token minimum fee disposal).

Definition config : MG Config := load_config.

Definition set_admin (new_admin : Address) : MG unit :=
  c ← load_config;
  require_auth (tg_admin c);;
  pers_set (C := TgSig) CONFIG_KEY
    (mkConfig new_admin (tg_token c) (min_balance c) (fee_amount c) (fee_disposal c)).

Definition set_min_balance (minimum : Z) : MG unit :=
  c ← load_config;
  require_auth (tg_admin c);;
  panic_if (minimum <? 0) TgInvalidThreshold;;
  pers_set (C := TgSig) CONFIG_KEY
    (mkConfig (tg_admin c) (tg_token c) minimum (fee_amount c) (fee_disposal c)).

Definition set_token (token : Address) : MG unit :=
  c ← load_config;
  require_auth (tg_admin c);;
  pers_set (C := TgSig) CONFIG_KEY
    (mkConfig (tg_admin c) token (min_balance c) (fee_amount c) (fee_disposal c)).

Definition set_fee (fee : Z) (disposal : FeeDisposal) : MG unit :=
  c ← load_config;
  require_auth (tg_admin c);;
  check_fee fee disposal;;
  pers_set (C := TgSig) CONFIG_KEY
    (mkConfig (tg_admin c) (tg_token c) (min_balance c) fee disposal).

Definition balance_of (account : Address) : MG Z :=
  c ← load_config; invoke (token_balance (tg_token c) account).

Definition is_eligible (account : Address) : MG bool :=
  c ← load_config;
  balance ← invoke (token_balance (tg_token c) account);
  mret (min_balance c <=? balance).

Definition collect_fee (c : Config) (attester : Address) : MG unit :=
  match fee_disposal c with
  | FeeNone => mret tt
  | FeeTransfer =>
    balance ← invoke (token_balance (tg_token c) attester);
    panic_if (balance <? fee_amount c) TgInsufficientFee;;
    invoke (token_transfer (tg_token c) attester (tg_admin c) (fee_amount c))
  | FeeBurn =>
    balance ← invoke (token_balance (tg_token c) attester);
    panic_if (balance <? fee_amount c) TgInsufficientFee;;
    invoke (token_burn (tg_token c) attester (fee_amount c))
  end.

Definition on_attest (a : Attestation) : MG unit :=
  c ← load_config;
  balance ← invoke (token_balance (tg_token c) (recipient a));
  panic_if (balance <? min_balance c) TgResolverRejected;;
  if 0 <? fee_amount c then
    require_auth (attester a);;
    collect_fee c (attester a)
  else mret tt.

Definition on_revoke (a : Attestation) : MG unit := mret tt.

Inductive TgCall :=
  | TgInitialize (admin token : Address) (minimum fee : Z) (disposal : FeeDisposal)
  | TgSetAdmin (new_admin : Address)
  | TgSetMinBalance (minimum : Z)
  | TgSetToken (token : Address)
  | TgSetFee (fee : Z) (disposal : FeeDisposal)
  | TgOnAttest (a : Attestation)
  | TgOnRevoke (a : Attestation)
  | TgConfig
  | TgBalanceOf (account : Address)
  | TgIsEligible (account : Address).
Definition tg_exec (c : TgCall) : MG unit :=
  match c with
  | TgInitialize admin token minimum fee disposal => initialize admin token minimum fee disposal
  | TgSetAdmin new_admin => set_admin new_admin
  | TgSetMinBalance minimum => set_min_balance minimum
  | TgSetToken token => set_token token
  | TgSetFee fee disposal => set_fee fee disposal
  | TgOnAttest a => on_attest a
  | TgOnRevoke a => on_revoke a
  | TgConfig => config;; mret tt
  | TgBalanceOf account => balance_of account;; mret tt
  | TgIsEligible account => is_eligible account;; mret tt
  end.
End contract.

#[export] Instance token_gated_resolver X `{TokenDeps X} : Resolver TgSig X :=
  {| Resolver.on_attest := on_attest; Resolver.on_revoke := on_revoke |}.

(** ** Correctness *)

(** A configuration the setters accept. *)
Record config_ok (c : Config) : Prop := {
  co_minimum : 0 <= min_balance c;
  co_fee : 0 <= fee_amount c;
  co_disposal : 0 < fee_amount c -> fee_disposal c <> FeeNone
}.

Section proofs.
Context {X : Type} `{TokenDeps X}.
Implicit Types (s : State TgSig X) (e : Env) (a : Attestation).

(** What the token must answer, in the order it is asked. *)
Inductive fee_paid e (c : Config) (payer : Address) : X -> X -> Prop :=
  | PaidNothing x : fee_amount c <= 0 -> fee_paid e c payer x x
  | PaidTransfer x x1 x2 balance :
      fee_disposal c = FeeTransfer -> 0 < fee_amount c -> authorized e payer = true ->
      token_balance (tg_token c) payer e x = Some (Val balance, x1) -> fee_amount c <= balance ->
      token_transfer (tg_token c) payer (tg_admin c) (fee_amount c) e x1 = Some (Val tt, x2) ->
      fee_paid e c payer x x2
  | PaidBurn x x1 x2 balance :
      fee_disposal c = FeeBurn -> 0 < fee_amount c -> authorized e payer = true ->
      token_balance (tg_token c) payer e x = Some (Val balance, x1) -> fee_amount c <= balance ->
      token_burn (tg_token c) payer (fee_amount c) e x1 = Some (Val tt, x2) ->
      fee_paid e c payer x x2.

Lemma invoke_run {A} (f : xcall X A) e s v x :
  f e (ext s) = Some (Val v, x) -> invoke f e s = Ok (v, upd_ext x s).
Proof. unfold invoke; by intros ->. Qed.

Lemma collect_fee_ok c p e s u s' :
  fee_disposal c <> FeeNone -> 0 < fee_amount c -> authorized e p = true ->
  collect_fee c p e s = Ok (u, s') -> exists x', s' = upd_ext x' s /\ fee_paid e c p (ext s) x'.
Proof.
  intros Hd Hf Ha; unfold collect_fee; destruct (fee_disposal c) eqn:Ed; intros Hr; [done|..]; run_inv;
    (match goal with H1 : invoke _ _ s = Ok _, H2 : (_ <? _) = false |- _ =>
       apply invoke_ok in H1 as (x' & H1 & ->); apply invoke_ok in Hr as (x2 & Hr & ->);
       apply Z.ltb_ge in H2 end);
    exists x2; (split; [by destruct s|]); destruct u.
  - by eapply PaidTransfer.
  - by eapply PaidBurn.
Qed.
Lemma collect_fee_run c p e s x' :
  0 < fee_amount c -> fee_paid e c p (ext s) x' -> collect_fee c p e s = Ok (tt, upd_ext x' s).
Proof.
  intros Hf Hp; inversion Hp as [|? x1 ? balance Hd _ _ Hb Hle Ht|? x1 ? balance Hd _ _ Hb Hle Ht]; subst; [lia|..];
    unfold collect_fee; rewrite Hd, (bind_run _ _ _ _ _ _ (invoke_run _ _ _ _ _ Hb)), bind_panic_if
      by (by apply Z.ltb_ge);
    exact (invoke_run _ _ (upd_ext x1 s) _ _ Ht).
Qed.

Lemma token_gate_iff a e s s' :
  (forall c, pget s CONFIG_KEY = Some c -> config_ok c) ->
  on_attest a e s = Ok (tt, s')
  <-> exists c balance x1 x', pget s CONFIG_KEY = Some c /\ s' = upd_ext x' s
      /\ token_balance (tg_token c) (recipient a) e (ext s) = Some (Val balance, x1)
      /\ min_balance c <= balance /\ fee_paid e c (attester a) x1 x'.
Proof.
  intros Hok; unfold on_attest, load_config; split.
  - intros Hr; run_inv.
    match goal with H1 : invoke _ _ s = Ok (?b, _), H2 : (_ <? _) = false, Hc : pget s CONFIG_KEY = Some ?c |- _ =>
      apply invoke_ok in H1 as (y & H1 & ->); apply Z.ltb_ge in H2; exists c, b, y; pose proof (Hok c Hc) as Hco end.
    destruct (Z.ltb_spec 0 (fee_amount x)) as [Hf|Hf]; run_inv.
    + eapply collect_fee_ok in Hr as (x' & -> & Hp); [|by apply Hco|done..].
      exists x'; split_and!; try done; by destruct s.
    + exists y; split_and!; try done; by constructor.
  - intros (c & balance & x1 & x' & Hc & -> & Hb & Hle & Hp).
    rewrite (bind_run _ _ e s c s) by (run; by rewrite Hc).
    rewrite (bind_run _ _ _ _ _ _ (invoke_run _ _ _ _ _ Hb)), bind_panic_if by (by apply Z.ltb_ge).
    destruct (Z.ltb_spec 0 (fee_amount c)) as [Hf|Hf].
    + rewrite bind_require_auth by (inversion Hp; subst; [lia|done..]).
      rewrite (collect_fee_run c (attester a) e (upd_ext x1 s) x'); done.
    + inversion Hp; subst; [done|lia..].
Qed.

(** Every history keeps the stored configuration well formed. *)
Lemma exec_config c e s s' :
  tg_exec c e s = Ok (tt, s') -> (forall c, pget s CONFIG_KEY = Some c -> config_ok c) ->
  forall c, pget s' CONFIG_KEY = Some c -> config_ok c.
Proof.
  intros Hr Hok cfg.
  assert (Hrest : preserves (touches (C := TgSig) (X := X) (fun _ => False) (fun _ => False)) (tg_exec c) ->
                  pget s' CONFIG_KEY = Some cfg -> config_ok cfg).
  { intros Hp; apply Hp in Hr as [_ Hk]; rewrite (Hk CONFIG_KEY) by tauto; auto. }
  destruct c; try (apply Hrest; simpl; by pres_open); clear Hrest; simpl in Hr;
    unfold initialize, set_admin, set_min_balance, set_token, set_fee, load_config, check_fee in Hr; val_inv;
    match goal with Hw : wrote CONFIG_KEY _ _ _ |- _ => rewrite (w_value _ _ _ _ Hw) end; intros [= <-];
    repeat match goal with Hb : (_ <? 0) = false |- _ => apply Z.ltb_ge in Hb end;
    try match goal with Hc : pget s CONFIG_KEY = Some ?c |- _ => destruct (Hok c Hc) end;
    split; simpl; try done;
    try match goal with Hb : _ && bool_decide _ = false |- _ =>
      intros Hf ->; rewrite bool_decide_true, andb_true_r in Hb by done; apply Z.ltb_ge in Hb; lia end.
Qed.
Lemma history_config h s :
  (forall c, pget s CONFIG_KEY = Some c -> config_ok c) ->
  forall c, pget (run_calls tg_exec h s) CONFIG_KEY = Some c -> config_ok c.
Proof.
  intros Hs; apply (run_calls_inv tg_exec (fun s => forall c, pget s CONFIG_KEY = Some c -> config_ok c)
    (fun _ _ => True)); [intros; by eapply exec_config|by apply Forall_forall; intros []|done].
Qed.
End proofs.
