(* ===== verification/Blacklist.v ===== *)
(** * Blacklist resolver

    [src/contracts/blacklist-resolver/src/lib.rs]: an administrator maintains
    a set of addresses; attestations by or for one of them are refused. *)

From S2P Require Import Prelude Host Values Common Resolver.

Definition MAX_UPDATE_BATCH : Z := 64.

Inductive BlacklistError :=
  | BlAlreadyInitialized | BlNotInitialized | BlBlockedParty | BlBatchTooLarge | BlUnauthorized.

Inductive BlKey := Admin | Blocked (who : Address).
Definition bl_ival (k : BlKey) : Type := match k with Admin => Address | Blocked _ => bool end.
Definition bl_none (k : Empty_set) : Type := match k with end.
#[export] Instance BlKey_eq_dec : EqDecision BlKey.
Proof. solve_decision. Defined.
Canonical Structure BlSig : Sig :=
  mkSig BlKey bl_ival _ Empty_set bl_none _ Empty_set bl_none _ Empty_set BlacklistError.

Section contract.
Context {X : Type}.
Abbreviation MB := (M BlSig X).

Definition require_initialized : MB Address :=
  o ← inst_get Admin; unwrap_or_panic o BlNotInitialized.

Definition blocked (who : Address) : MB bool := inst_has (Blocked who).

Definition initialize (admin : Address) : MB unit :=
  has ← inst_has Admin;
  panic_if has BlAlreadyInitialized;;
  require_auth admin;;
  inst_set Admin admin.

(** The loop of [set_blacklist]. *)
Fixpoint update_blacklist (addresses : list Address) (b : bool) : MB unit :=
  match addresses with
  | [] => mret tt
  | address :: rest =>
    (if b then inst_set (Blocked address) true else inst_remove (Blocked address));;
    update_blacklist rest b
  end.

Definition set_blacklist (admin : Address) (addresses : list Address) (b : bool) : MB unit :=
  owner ← require_initialized;
  panic_if (negb (bool_decide (admin = owner))) BlUnauthorized;;
  require_auth owner;;
  panic_if (MAX_UPDATE_BATCH <? len addresses) BlBatchTooLarge;;
  update_blacklist addresses b.

Definition is_blacklisted (address : Address) : MB bool := require_initialized;; blocked address.

Definition on_attest (a : Attestation) : MB unit :=
  require_initialized;;
  by_attester ← blocked (attester a);
  by_recipient ← (if (by_attester : bool) then mret true else blocked (recipient a));
  panic_if by_recipient BlBlockedParty.

Definition on_revoke (a : Attestation) : MB unit := require_initialized;; mret tt.

Inductive BlCall :=
  | BlInitialize (admin : Address)
  | BlSetBlacklist (admin : Address) (addresses : list Address) (b : bool)
  | BlIsBlacklisted (address : Address)
  | BlOnAttest (a : Attestation)
  | BlOnRevoke (a : Attestation).
Definition bl_exec (c : BlCall) : MB unit :=
  match c with
  | BlInitialize admin => initialize admin
  | BlSetBlacklist admin addresses b => set_blacklist admin addresses b
  | BlIsBlacklisted address => is_blacklisted address;; mret tt
  | BlOnAttest a => on_attest a
  | BlOnRevoke a => on_revoke a
  end.
End contract.

#[export] Instance blacklist_resolver X : Resolver BlSig X :=
  {| Resolver.on_attest := on_attest; Resolver.on_revoke := on_revoke |}.

(** ** The set behind the blacklist *)

Section proofs.
Context {X : Type}.
Implicit Types (s : State BlSig X) (e : Env) (a : Attestation) (f : Address -> bool).

(** What a successful call does to the set. *)
Definition bl_step f (c : BlCall) : Address -> bool :=
  match c with
  | BlSetBlacklist _ addresses b => fun who => if decide (who ∈ addresses) then b else f who
  | _ => f
  end.
Fixpoint blacklist_after (h : list (Env * BlCall)) s f : Address -> bool :=
  match h with
  | [] => f
  | (e, c) :: h' =>
      blacklist_after h' (transact_call bl_exec e c s)
        (match bl_exec c e s with Ok _ => bl_step f c | Err _ => f end)
  end.

Definition lists f s : Prop := forall who, is_Some (inst s (Blocked who)) <-> f who = true.

Lemma update_blacklist_ok addresses b e s x s' :
  update_blacklist addresses b e s = Ok (x, s') ->
  inst s' Admin = inst s Admin
  /\ forall who, is_Some (inst s' (Blocked who))
       <-> if decide (who ∈ addresses) then b = true else is_Some (inst s (Blocked who)).
Proof.
  revert s; induction addresses as [|y ys IH]; intros s; cbn [update_blacklist].
  - intros [= _ <-]; split; [done|]; intros who; case_decide as Hw; [by apply not_elem_of_nil in Hw|done].
  - intros Hr; run_inv; apply IH in Hr as [Ha Hw].
    match goal with Hi : (if b then _ else _) _ s = Ok (_, ?s1) |- _ =>
      assert (Hs : s1 = upd_inst (store_update (Blocked y) (if b then Some true else None)) s)
        by (destruct b; by injection Hi as <- <-) end; subst.
    split; [by rewrite Ha; simpl; rewrite store_update_ne|]; intros who; rewrite Hw; simpl.
    destruct (decide (who = y)) as [->|Hne].
    + rewrite (decide_True (P := y ∈ y :: ys)) by apply list_elem_of_here; case_decide; [done|].
      rewrite store_update_eq; destruct b; split; done || (intros []; done) || eauto.
    + rewrite store_update_ne by congruence.
      destruct (decide (who ∈ ys)) as [Hin|Hin].
      * by rewrite decide_True by (by apply list_elem_of_further).
      * by rewrite decide_False by (intros [?|?]%elem_of_cons; congruence).
Qed.

Lemma exec_lists c e s s' f :
  bl_exec c e s = Ok (tt, s') -> lists f s -> lists (bl_step f c) s'.
Proof.
  intros Hr Hf; destruct c; simpl in Hr |- *;
    unfold initialize, set_blacklist, is_blacklisted, on_attest, on_revoke, require_initialized, blocked in Hr;
    run_inv; try done.
  - apply update_blacklist_ok in Hr as [_ Hw]; intros who; rewrite Hw; destruct (decide (who ∈ addresses)); [reflexivity|apply Hf].
  - by match goal with Hi : (if ?b then _ else _) _ _ = _ |- _ => destruct b; run_inv end.
Qed.

Lemma history_lists h s f : lists f s -> lists (blacklist_after h s f) (run_calls bl_exec h s).
Proof.
  revert s f; induction h as [|[e c] h IH]; intros s f Hf; simpl; [done|]; apply IH.
  unfold transact_call; destruct (bl_exec c e s) as [[[] s']|err] eqn:E; [by eapply exec_lists|done].
Qed.

Lemma blacklist_verdict a e s f :
  lists f s ->
  on_attest a e s =
    if bool_decide (inst s Admin = None) then Err (Panic BlNotInitialized)
    else if f (attester a) || f (recipient a) then Err (Panic BlBlockedParty) else Ok (tt, s).
Proof.
  intros Hf; unfold on_attest, require_initialized, blocked.
  assert (Hb : forall who, bool_decide (is_Some (inst s (Blocked who))) = f who).
  { intros who; destruct (f who) eqn:E; [by apply bool_decide_eq_true, Hf|].
    apply bool_decide_eq_false; rewrite (Hf who); congruence. }
  destruct (inst s Admin) as [admin|] eqn:Ha.
  - rewrite bool_decide_false by done; rewrite (bind_run _ _ e s admin s) by (run; by rewrite Ha).
    rewrite (bind_run _ _ e s (f (attester a)) s) by (unfold inst_has; by rewrite Hb).
    destruct (f (attester a)); simpl; [done|].
    rewrite (bind_run _ _ e s (f (recipient a)) s) by (unfold inst_has; by rewrite Hb).
    unfold panic_if; by destruct (f (recipient a)).
  - rewrite bool_decide_true by done; apply bind_err; run; by rewrite Ha.
Qed.

Lemma is_blacklisted_eq who e s f :
  lists f s ->
  is_blacklisted who e s =
    if bool_decide (inst s Admin = None) then Err (Panic BlNotInitialized) else Ok (f who, s).
Proof.
  intros Hf; unfold is_blacklisted, require_initialized, blocked, inst_has.
  destruct (inst s Admin) as [admin|] eqn:Ha.
  - rewrite bool_decide_false by done; rewrite (bind_run _ _ e s admin s) by (run; by rewrite Ha).
    destruct (f who) eqn:E; [by rewrite bool_decide_true by (by apply Hf)|].
    rewrite bool_decide_false; [done|]; rewrite (Hf who); congruence.
  - rewrite bool_decide_true by done; apply bind_err; run; by rewrite Ha.
Qed.

(** Only the administrator changes the set, and the administrator stays. *)
Lemma exec_admin c e s s' admin :
  bl_exec c e s = Ok (tt, s') -> inst s Admin = Some admin ->
  inst s' Admin = Some admin /\ (authorized e admin = true \/ forall f, bl_step f c = f).
Proof.
  intros Hr Ha; destruct c; simpl in Hr |- *;
    unfold initialize, set_blacklist, is_blacklisted, on_attest, on_revoke, require_initialized, blocked in Hr;
    run_inv; auto.
  - exfalso; match goal with Hb : bool_decide _ = false |- _ => apply bool_decide_eq_false in Hb; apply Hb end.
    rewrite Ha; eauto.
  - apply update_blacklist_ok in Hr as [-> _]; rewrite Ha in *; simplify_eq; auto.
  - match goal with Hi : (if ?b then _ else _) _ _ = _ |- _ => destruct b; run_inv end; auto.
Qed.
End proofs.
