(* ===== verification/Multisig.v ===== *)
(** * Multisig resolver

    [src/contracts/multisig-resolver/src/lib.rs]: the data of an attestation
    is a list of endorsements, 32 bytes of key and 64 bytes of signature each;
    it is accepted with valid ones from a threshold of distinct configured
    signers.  Signature verification, of the [ed25519-dalek] crate, is a
    parameter.  The contract [EndorsementResolver] of the same file, and the
    crate of that name which re-exports it, forward to these operations. *)

From S2P Require Import Prelude Host Values Common TypedData Resolver.

Record Endorsement := mkEndorsement { signer : bytes; signature : bytes }.
Record ResolverConfig := mkResolverConfig { threshold : Z; signers : list bytes }.

Inductive MsError :=
  | MsNotInitialized | MsInvalidConfig | MsInvalidSignature | MsSignerNotAuthorized
  | MsDuplicateSignature | MsInsufficientSignatures.

Inductive MsKey := CFG.
Definition ms_ival (k : MsKey) : Type := match k with CFG => ResolverConfig end.
Definition ms_none (k : Empty_set) : Type := match k with end.
#[export] Instance MsKey_eq_dec : EqDecision MsKey.
Proof. solve_decision. Defined.
Canonical Structure MsSig : Sig :=
  mkSig MsKey ms_ival _ Empty_set ms_none _ Empty_set ms_none _ Empty_set MsError.

(** [VerifyingKey::from_bytes] and [verify]: the key decodes and the signature
    of the message verifies under it. *)
Class Dalek := dalek_verify : bytes -> bytes -> bytes -> bool.

(** ** Endorsements *)

Section endorsements.
Context `{Dalek}.

Definition validate_config (t : Z) (keys : list bytes) : bool :=
  negb ((t =? 0) || bool_decide (keys = []) || (len keys <? t)).

(** [n] bytes from [offset] on. *)
Definition read_bytes (payload : bytes) (offset n : nat) : option bytes :=
  let b := take n (drop offset payload) in
  if bool_decide (length b = n) then Some b else None.

(** The loop of [parse_endorsements]. *)
Fixpoint parse_loop (fuel : nat) (payload : bytes) (offset : nat) (acc : list Endorsement)
    : MsError + list Endorsement :=
  match fuel with
  | O => inr acc
  | S fuel' =>
    if bool_decide (offset < length payload)%nat then
      match read_bytes payload offset 32, read_bytes payload (offset + 32) 64 with
      | Some key, Some sig => parse_loop fuel' payload (offset + 96) (acc ++ [mkEndorsement key sig])
      | _, _ => inl MsInvalidSignature
      end
    else inr acc
  end.

Definition parse_endorsements (payload : bytes) : MsError + list Endorsement :=
  if bool_decide (payload = []) then inr []
  else if negb (len payload mod 96 =? 0) then inl MsInvalidSignature
  else parse_loop (length payload) payload 0 [].

Definition signer_is_authorized (config : ResolverConfig) (key : bytes) : bool :=
  bool_decide (key ∈ signers config).

Definition attestation_without_endorsements (a : Attestation) : Attestation :=
  mkAttestation (uid a) (att_schema_uid a) (time a) (expiration_time a) (revocation_time a)
    (ref_uid a) (recipient a) (attester a) (revocable a) [] (valid_from a).

Definition verify_payload_signature (key sig digest : bytes) : option MsError :=
  if dalek_verify key digest sig then None else Some MsInvalidSignature.

(** The loop of [resolve_valid_count]. *)
Fixpoint count_valid (config : ResolverConfig) (digest : bytes) (l : list Endorsement)
    (seen : list bytes) (valid_count : Z) : MsError + Z :=
  match l with
  | [] => inr valid_count
  | x :: rest =>
    if bool_decide (signer x ∈ seen) then count_valid config digest rest seen valid_count
    else if negb (signer_is_authorized config (signer x)) then inl MsSignerNotAuthorized
    else match verify_payload_signature (signer x) (signature x) digest with
         | Some err => inl err
         | None => count_valid config digest rest (seen ++ [signer x]) (valid_count + 1)
         end
  end.

Definition resolve_valid_count (e : Env) (a : Attestation) (config : ResolverConfig) : MsError + Z :=
  match parse_endorsements (data a) with
  | inl err => inl err
  | inr endorsements =>
    let digest := hash_attestation_struct e (attestation_without_endorsements a) in
    match count_valid config digest endorsements [] 0 with
    | inl err => inl err
    | inr n => if n <? threshold config then inl MsInsufficientSignatures else inr n
    end
  end.
End endorsements.

(** ** The contract *)

Section contract.
Context {X : Type} `{Dalek}.
Abbreviation MU := (M MsSig X).

Definition extend_ttl : MU unit := inst_extend_ttl 500000 6307200.

Definition require_config : MU ResolverConfig := o ← inst_get CFG; unwrap_or_panic o MsNotInitialized.

Definition init (t : Z) (keys : list bytes) : MU unit :=
  panic_if (negb (validate_config t keys)) MsInvalidConfig;;
  inst_set CFG (mkResolverConfig t keys);;
  extend_ttl.

Definition set_threshold (t : Z) : MU unit :=
  config ← require_config;
  panic_if (negb (validate_config t (signers config))) MsInvalidConfig;;
  inst_set CFG (mkResolverConfig t (signers config));;
  extend_ttl.

Definition set_signers (keys : list bytes) : MU unit :=
  config ← require_config;
  panic_if (negb (validate_config (threshold config) keys)) MsInvalidConfig;;
  inst_set CFG (mkResolverConfig (threshold config) keys);;
  extend_ttl.

Definition verify_endorsements (a : Attestation) : MU Z :=
  config ← require_config;
  r ← ask (fun e => resolve_valid_count e a config);
  match r with inl err => panic err | inr n => mret n end.

Definition check_approval (a : Attestation) : MU unit := verify_endorsements a;; mret tt.
Definition on_attest (a : Attestation) : MU unit := check_approval a.
Definition on_revoke (a : Attestation) : MU unit := check_approval a.

Inductive MsCall :=
  | MsInit (t : Z) (keys : list bytes)
  | MsSetThreshold (t : Z)
  | MsSetSigners (keys : list bytes)
  | MsVerifyEndorsements (a : Attestation)
  | MsOnAttest (a : Attestation)
  | MsOnRevoke (a : Attestation)
  | MsConfig.
Definition ms_exec (c : MsCall) : MU unit :=
  match c with
  | MsInit t keys => init t keys
  | MsSetThreshold t => set_threshold t
  | MsSetSigners keys => set_signers keys
  | MsVerifyEndorsements a => verify_endorsements a;; mret tt
  | MsOnAttest a => on_attest a
  | MsOnRevoke a => on_revoke a
  | MsConfig => inst_get CFG;; mret tt
  end.
End contract.

#[export] Instance multisig_resolver X `{Dalek} : Resolver MsSig X :=
  {| Resolver.on_attest := on_attest; Resolver.on_revoke := on_revoke |}.

(** ** Parsing *)

Definition encode_endorsement (x : Endorsement) : bytes := signer x ++ signature x.
Definition encode_endorsements (l : list Endorsement) : bytes := concat (map encode_endorsement l).
Definition endorsement_ok (x : Endorsement) : Prop := length (signer x) = 32%nat /\ length (signature x) = 64%nat.

Lemma read_bytes_app (before b after : bytes) n :
  length b = n -> read_bytes (before ++ b ++ after) (length before) n = Some b.
Proof.
  intros Hb; unfold read_bytes; rewrite drop_app_length, take_app_length' by done.
  by rewrite bool_decide_true.
Qed.

Lemma encode_endorsements_length l :
  Forall endorsement_ok l -> length (encode_endorsements l) = (96 * length l)%nat.
Proof.
  induction 1 as [|x l [Hs Hg] _ IH]; [done|]; unfold encode_endorsements in *; simpl.
  rewrite length_app, IH; unfold encode_endorsement; rewrite length_app; lia.
Qed.

Lemma parse_loop_encode fuel before l acc :
  Forall endorsement_ok l -> (length l <= fuel)%nat ->
  parse_loop fuel (before ++ encode_endorsements l) (length before) acc = inr (acc ++ l).
Proof.
  revert before l acc; induction fuel as [|fuel IH]; intros before l acc Hl Hf.
  { destruct l; simpl in Hf; [simpl; by rewrite app_nil_r|lia]. }
  destruct Hl as [|x l [Hs Hg] Hl]; simpl.
  - by rewrite bool_decide_false, app_nil_r by (rewrite length_app; simpl; lia).
  - unfold encode_endorsements; simpl; fold (encode_endorsements l); unfold encode_endorsement.
    rewrite bool_decide_true by (rewrite !length_app; lia).
    rewrite <- (app_assoc (signer x)), (read_bytes_app before (signer x)) by done.
    replace (before ++ signer x ++ signature x ++ encode_endorsements l)
      with ((before ++ signer x) ++ signature x ++ encode_endorsements l) by (by rewrite <- app_assoc).
    replace (length before + 32)%nat with (length (before ++ signer x)) by (rewrite length_app; lia).
    rewrite read_bytes_app by done.
    rewrite app_assoc, <- (app_assoc before).
    replace (length before + 96)%nat with (length (before ++ signer x ++ signature x))
      by (rewrite !length_app; lia).
    rewrite IH by (done || (simpl in Hf; lia)).
    destruct x; simpl; by rewrite <- app_assoc.
Qed.

(** Parsing reads back every encoded list. *)
Lemma parse_encode l : Forall endorsement_ok l -> parse_endorsements (encode_endorsements l) = inr l.
Proof.
  intros Hl; unfold parse_endorsements; case_bool_decide as Hn.
  - assert (length (encode_endorsements l) = 0%nat) as H0 by (by rewrite Hn).
    rewrite (encode_endorsements_length l Hl) in H0; destruct l; [done|simpl in H0; lia].
  - unfold len; rewrite (encode_endorsements_length l Hl).
    replace (Z.of_nat (96 * length l)) with (Z.of_nat (length l) * 96) by lia.
    rewrite Z.mod_mul by lia; simpl negb; cbv iota.
    apply (parse_loop_encode _ [] l []); [done|lia].
Qed.

Lemma read_bytes_some payload offset n b :
  read_bytes payload offset n = Some b -> b = take n (drop offset payload) /\ length b = n.
Proof. unfold read_bytes; case_bool_decide; [by intros [= <-]|done]. Qed.

Lemma parse_loop_sound fuel payload offset acc l :
  parse_loop fuel payload offset acc = inr l -> (length payload <= offset + 96 * fuel)%nat ->
  (offset <= length payload)%nat ->
  Forall endorsement_ok acc -> take offset payload = encode_endorsements acc ->
  payload = encode_endorsements l /\ Forall endorsement_ok l.
Proof.
  revert offset acc; induction fuel as [|fuel IH]; intros offset acc; simpl.
  { intros [= <-] Hlen Hoff Hacc Ht; split; [|done]; by rewrite <- Ht, take_ge by lia. }
  case_bool_decide as Hlt.
  2: { intros [= <-] _ Hoff Hacc Ht; split; [|done]; by rewrite <- Ht, take_ge by lia. }
  destruct (read_bytes payload offset 32) as [key|] eqn:Hk; [|done].
  destruct (read_bytes payload (offset + 32) 64) as [sig|] eqn:Hs; [|done]; intros Hr Hlen _ Hacc Ht.
  apply read_bytes_some in Hk as [Hk Hkl]; apply read_bytes_some in Hs as [Hs Hsl].
  assert (Hoff : (offset + 96 <= length payload)%nat)
    by (rewrite Hs, length_take, length_drop in Hsl; lia).
  apply IH in Hr; [done|lia|done| |].
  - apply Forall_app; split; [done|]; by apply Forall_singleton.
  - unfold encode_endorsements in *; rewrite map_app, concat_app; simpl; rewrite app_nil_r, <- Ht.
    unfold encode_endorsement; simpl; rewrite Hk, Hs.
    replace (offset + 96)%nat with (offset + (32 + 64))%nat by lia.
    rewrite <- take_take_drop, <- take_take_drop, drop_drop; done.
Qed.
Lemma parse_sound payload l :
  parse_endorsements payload = inr l -> payload = encode_endorsements l /\ Forall endorsement_ok l.
Proof.
  unfold parse_endorsements; case_bool_decide as Hn; [by intros [= <-]|].
  destruct (negb _); [done|]; intros Hr.
  eapply parse_loop_sound in Hr; [done|lia|lia|done|done].
Qed.

(** ** Counting *)

Section counting.
Context `{Dalek} (config : ResolverConfig) (digest : bytes).

(** The endorsements that count: the first one of each signer. *)
Fixpoint firsts (seen : list bytes) (l : list Endorsement) : list Endorsement :=
  match l with
  | [] => []
  | x :: rest =>
      if bool_decide (signer x ∈ seen) then firsts seen rest
      else x :: firsts (seen ++ [signer x]) rest
  end.
Definition endorses (x : Endorsement) : Prop :=
  signer x ∈ signers config /\ dalek_verify (signer x) digest (signature x) = true.

Lemma count_valid_iff l seen n m :
  count_valid config digest l seen n = inr m
  <-> Forall endorses (firsts seen l) /\ m = n + len (firsts seen l).
Proof.
  revert seen n; induction l as [|x l IH]; intros seen n; simpl.
  { split; [intros [= <-]; split; [done|unfold len; simpl; lia]|].
    intros [_ ->]; unfold len; simpl; f_equal; lia. }
  case_bool_decide; [apply IH|]; unfold signer_is_authorized, verify_payload_signature.
  rewrite Forall_cons; unfold endorses at 1.
  destruct (bool_decide_reflect (signer x ∈ signers config)) as [Hin|Hin]; simpl.
  2: { split; [done|tauto]. }
  destruct (dalek_verify (signer x) digest (signature x)); [|split; [done|intros [[[_ ?] _] _]; done]].
  rewrite IH; unfold len; simpl; split; intros [? ->]; split; tauto || lia.
Qed.

Lemma firsts_elem l seen x : x ∈ firsts seen l -> x ∈ l /\ signer x ∉ seen.
Proof.
  revert seen; induction l as [|y l IH]; intros seen; simpl; [by intros ?%elem_of_nil|].
  case_bool_decide as Hy.
  - intros [? ?]%IH; split; [by right|done].
  - intros [->|[? Hs]%IH]%elem_of_cons; [split; [by left|done]|].
    split; [by right|]; intros ?; apply Hs, elem_of_app; by left.
Qed.
Lemma firsts_nodup l seen : NoDup (signer <$> firsts seen l).
Proof.
  revert seen; induction l as [|y l IH]; intros seen; simpl; [constructor|].
  case_bool_decide; [apply IH|]; simpl; constructor; [|apply IH].
  intros (x & Hx & [_ Hs]%firsts_elem)%list_elem_of_fmap; apply Hs, elem_of_app; right.
  rewrite Hx; apply list_elem_of_here.
Qed.
End counting.

(** ** Approval *)

Section approval.
Context {X : Type} `{Dalek}.
Implicit Types (s : State MsSig X) (e : Env) (a : Attestation).

(** What the signers sign. *)
Definition endorsed_digest e a : bytes := hash_attestation_struct e (attestation_without_endorsements a).

Lemma approval_eq a e s :
  on_attest a e s =
    match inst s CFG with
    | None => Err (Panic MsNotInitialized)
    | Some config =>
        match resolve_valid_count e a config with
        | inl err => Err (Panic err)
        | inr _ => Ok (tt, s)
        end
    end.
Proof.
  unfold on_attest, check_approval, verify_endorsements, require_config.
  destruct (inst s CFG) as [config|] eqn:Hc.
  - destruct (resolve_valid_count e a config) as [err|n] eqn:Hr.
    + apply bind_err; rewrite (bind_run _ _ e s config s) by (run; by rewrite Hc); run; by rewrite Hr.
    + rewrite (bind_run _ _ e s n s); [done|].
      rewrite (bind_run _ _ e s config s) by (run; by rewrite Hc); run; by rewrite Hr.
  - apply bind_err, bind_err; run; by rewrite Hc.
Qed.

Lemma resolve_iff e a config n :
  resolve_valid_count e a config = inr n
  <-> exists l, data a = encode_endorsements l /\ Forall endorsement_ok l
      /\ Forall (endorses config (endorsed_digest e a)) (firsts [] l)
      /\ threshold config <= len (firsts [] l) /\ n = len (firsts [] l).
Proof.
  unfold resolve_valid_count; fold (endorsed_digest e a); split.
  - destruct (parse_endorsements (data a)) as [err|l] eqn:Hp; [done|].
    destruct (count_valid _ _ _ _ _) as [err|m] eqn:Hc; [done|].
    apply parse_sound in Hp as [Hd Hl]; apply count_valid_iff in Hc as [Hv ->].
    destruct (Z.ltb_spec (0 + len (firsts [] l)) (threshold config)); [done|]; intros [= <-].
    exists l; split_and!; done || lia.
  - intros (l & -> & Hl & Hv & Ht & ->); rewrite parse_encode by done.
    rewrite (proj2 (count_valid_iff config _ l [] 0 _) (conj Hv eq_refl)).
    rewrite (proj2 (Z.ltb_ge _ _)) by lia; f_equal; lia.
Qed.

Lemma endorsed_iff a e s :
  (exists s', on_attest a e s = Ok (tt, s'))
  <-> exists config l, inst s CFG = Some config /\ data a = encode_endorsements l
      /\ Forall endorsement_ok l /\ Forall (endorses config (endorsed_digest e a)) (firsts [] l)
      /\ threshold config <= len (firsts [] l).
Proof.
  rewrite approval_eq; destruct (inst s CFG) as [config|]; [|split; [by intros []|by intros (? & ? & ? & _)]].
  destruct (resolve_valid_count e a config) as [err|n] eqn:Hr; split.
  - by intros [].
  - intros (c & l & [= <-] & H1 & H2 & H3 & H4).
    assert (Hn : resolve_valid_count e a config = inr (len (firsts [] l))) by (apply resolve_iff; eauto 10).
    congruence.
  - apply resolve_iff in Hr as (l & H1 & H2 & H3 & H4 & _); intros _; exists config, l; done.
  - eauto.
Qed.

(** Every stored configuration passed the check. *)
Lemma validate_config_ok t keys :
  validate_config t keys = true -> 0 <= t -> 1 <= t <= len keys.
Proof.
  unfold validate_config; intros [[H1 _]%orb_false_iff H2]%negb_true_iff%orb_false_iff Ht.
  apply Z.eqb_neq in H1; apply Z.ltb_ge in H2; lia.
Qed.
Definition call_typed (c : MsCall) : Prop :=
  match c with MsInit t _ | MsSetThreshold t => 0 <= t | _ => True end.
Definition configured s : Prop :=
  forall config, inst s CFG = Some config -> 1 <= threshold config <= len (signers config).

Lemma exec_configured c e s s' :
  call_typed c -> ms_exec c e s = Ok (tt, s') -> configured s -> configured s'.
Proof.
  intros Hc Hr Hs.
  assert (Hrest : preserves (touches (C := MsSig) (X := X) (fun _ => False) (fun _ => False)) (ms_exec c) ->
                  configured s').
  { intros Hp; apply Hp in Hr as [Hi _]; intros config; rewrite (Hi CFG) by tauto; apply Hs. }
  destruct c; try (apply Hrest; simpl; by pres_open); clear Hrest; simpl in Hr, Hc;
    unfold init, set_threshold, set_signers, require_config, extend_ttl in Hr; val_inv;
    match goal with Hv : negb _ = false |- _ => apply negb_false_iff, validate_config_ok in Hv end;
    try done.
  4: match goal with Hx : inst s CFG = Some _ |- _ => apply Hs in Hx; lia end.
  all: intros config; settle; simpl; rewrite store_update_eq; by intros [= <-].
Qed.

End approval.
