(* ===== verification/CrossChain.v ===== *)
(** * Cross-chain verifier

    [src/contracts/cross-chain-verifier/src/lib.rs]: verdicts on attestations
    of another chain, received through an Axelar gateway or a LayerZero
    endpoint.  The gateway is a called contract; the host's strkey decoder
    [Address::from_string_bytes] is a parameter. *)

From S2P Require Import Prelude Host Values Common Resolver.

Definition MAX_VALIDITY_SECONDS : Z := 24 * 60 * 60.
Definition STATUS_PAYLOAD_LEN : Z := 50.
Definition PROOF_PAYLOAD_HEADER_LEN : Z := STATUS_PAYLOAD_LEN + 32 + 20 + 56 + 2.
Definition MAX_PROOF_DATA_LEN : Z := 1024.
Definition MAX_CHAIN_LEN : Z := 64.
Definition MAX_ADDRESS_LEN : Z := 128.
Definition MAX_MESSAGE_ID_LEN : Z := 128.

Inductive CrossChainError :=
  | CcAlreadyInitialized | CcNotInitialized | CcInvalidConfig | CcWrongSource | CcInvalidPayload
  | CcInvalidValidity | CcStaleRevision | CcMessageNotApproved | CcUnauthorizedEndpoint.

Record Origin := mkOrigin { o_src_eid : Z; o_sender : bytes; o_nonce : Z }.
Record LayerZeroConfig := mkLayerZeroConfig { lz_endpoint : Address; lz_src_eid : Z; lz_sender : bytes }.
Record SourceConfig := mkSourceConfig {
  sc_admin : Address; sc_gateway : Address; sc_source_chain : bytes; sc_source_address : bytes
}.
Record RemoteAttestation := mkRemoteAttestation {
  ra_uid : UID; ra_revision : Z; ra_valid_until : Z; ra_valid : bool
}.
Record RemoteProof := mkRemoteProof {
  rp_schema_uid : UID; rp_evm_recipient : bytes; rp_recipient : Address; rp_data : bytes
}.

Inductive CcIKey := CcConfig | CcAdmin | LzConfig.
Inductive CcPKey := Status (u : UID) | Proof (u : UID).
Definition cc_ival (k : CcIKey) : Type :=
  match k with CcConfig => SourceConfig | CcAdmin => Address | LzConfig => LayerZeroConfig end.
Definition cc_pval (k : CcPKey) : Type :=
  match k with Status _ => RemoteAttestation | Proof _ => RemoteProof end.
Definition cc_none (k : Empty_set) : Type := match k with end.
#[export] Instance CcIKey_eq_dec : EqDecision CcIKey.
Proof. solve_decision. Defined.
#[export] Instance CcPKey_eq_dec : EqDecision CcPKey.
Proof. solve_decision. Defined.

Inductive CcEvent :=
  | EvRemoteAttestationUpdated (message_id : bytes) (status : RemoteAttestation)
  | EvCrossChainAttestationReceived (guid : bytes) (src_eid : Z) (sender : bytes) (u : UID)
      (revision : Z) (valid : bool).
Canonical Structure CcSig : Sig :=
  mkSig CcIKey cc_ival _ CcPKey cc_pval _ Empty_set cc_none _ CcEvent CrossChainError.

(** The gateway's approval of a message to this contract, and the strkey
    decoder of the host, which traps on a malformed key. *)
Class CrossChainDeps (X : Type) := {
  gateway_validate_message :
    Address -> Address -> bytes -> bytes -> bytes -> bytes -> xcall X bool;
  address_of_strkey : bytes -> option Address
}.

(** ** The wire format *)

Section decode.

(** [Bytes::get] *)
Definition get (payload : bytes) (i : nat) : option Z := nth_error payload i.

(** [n] bytes from [offset] on. *)
Definition read_range (payload : bytes) (offset n : nat) : option bytes :=
  let b := slice offset (offset + n) payload in
  if bool_decide (length b = n) then Some b else None.

Definition decode_status (payload : bytes) : option RemoteAttestation :=
  let version := get payload 0 in
  if (bool_decide (version = Some 1) && negb (len payload =? STATUS_PAYLOAD_LEN))
     || (bool_decide (version = Some 2) && (len payload <? PROOF_PAYLOAD_HEADER_LEN))
     || negb (bool_decide (version = Some 1) || bool_decide (version = Some 2))
  then None
  else
    u ← read_range payload 1 32;
    revision ← read_range payload 33 8;
    valid_until ← read_range payload 41 8;
    valid ← (match get payload 49 with
             | Some 0 => Some false
             | Some 1 => Some true
             | _ => None
             end);
    Some (mkRemoteAttestation (mkUID u) (from_be_bytes revision) (from_be_bytes valid_until) valid).

(** The fields of a version 2 payload; the recipient is still a strkey. *)
Definition decode_proof_fields (payload : bytes) : option (UID * bytes * bytes * bytes) :=
  hi ← get payload 158;
  lo ← get payload 159;
  let data_len := hi * 256 + lo in
  if (MAX_PROOF_DATA_LEN <? data_len) || negb (len payload =? PROOF_PAYLOAD_HEADER_LEN + data_len)
  then None
  else
    schema ← read_range payload 50 32;
    evm ← read_range payload 82 20;
    strkey ← read_range payload 102 56;
    data ← read_range payload 160 (Z.to_nat data_len);
    Some (mkUID schema, evm, strkey, data).
End decode.

(** ** The contract *)

Section contract.
Context {X : Type} `{CrossChainDeps X}.
Abbreviation MX := (M CcSig X).
Abbreviation ttl := extend_instance_ttl_common.

Definition decode_proof (payload : bytes) : MX (option RemoteProof) :=
  if negb (bool_decide (get payload 0 = Some 2)) then mret None
  else
    '(schema, evm, strkey, data) ← unwrap_or_panic (decode_proof_fields payload) CcInvalidPayload;
    r ← unwrap (address_of_strkey strkey) ConversionError;
    mret (Some (mkRemoteProof schema evm r data)).

Definition source_config : MX SourceConfig := o ← inst_get CcConfig; unwrap_or_panic o CcNotInitialized.

Definition init (admin gateway : Address) (source_chain source_address : bytes) : MX unit :=
  has ← inst_has CcConfig;
  panic_if has CcAlreadyInitialized;;
  require_auth admin;;
  this ← ask current_contract;
  panic_if (bool_decide (gateway = this)
            || bool_decide (source_chain = []) || (MAX_CHAIN_LEN <? len source_chain)
            || bool_decide (source_address = []) || (MAX_ADDRESS_LEN <? len source_address))
    CcInvalidConfig;;
  inst_set CcConfig (mkSourceConfig admin gateway source_chain source_address);;
  ttl.

Definition get_source : MX SourceConfig := ttl;; source_config.

(** The validity window of a verdict at time [now]. *)
Definition bad_validity (now : Z) (st : RemoteAttestation) : bool :=
  (ra_revision st =? 0)
  || (ra_valid st && ((ra_valid_until st <=? now)
                      || (sat_add u64_max now MAX_VALIDITY_SECONDS <? ra_valid_until st)))
  || (negb (ra_valid st) && negb (ra_valid_until st =? 0)).

(** Decode a message and check it against the stored verdict. *)
Definition admit_message (payload : bytes) : MX (RemoteAttestation * option RemoteProof) :=
  st ← unwrap_or_panic (decode_status payload) CcInvalidPayload;
  proof ← decode_proof payload;
  now ← ask timestamp;
  panic_if (bad_validity now st) CcInvalidValidity;;
  previous ← pers_get (Status (ra_uid st));
  panic_if (match (previous : option RemoteAttestation) with
            | Some p => ra_revision st <=? ra_revision p
            | None => false
            end) CcStaleRevision;;
  mret (st, proof).

Definition record_message (st : RemoteAttestation) (proof : option RemoteProof) : MX unit :=
  pers_put (C := CcSig) (Status (ra_uid st)) st LEDGERS_IN_ONE_YEAR;;
  match proof with
  | Some p => pers_put (C := CcSig) (Proof (ra_uid st)) p LEDGERS_IN_ONE_YEAR
  | None => pers_remove (C := CcSig) (Proof (ra_uid st))
  end.

Definition execute (source_chain message_id source_address payload : bytes) : MX RemoteAttestation :=
  trusted ← source_config;
  panic_if (negb (bool_decide (source_chain = sc_source_chain trusted))
            || negb (bool_decide (source_address = sc_source_address trusted))) CcWrongSource;;
  panic_if (bool_decide (message_id = []) || (MAX_MESSAGE_ID_LEN <? len message_id)) CcInvalidPayload;;
  '(st, proof) ← admit_message payload;
  payload_hash ← ask (fun e => keccak256 e payload);
  this ← ask current_contract;
  approved ← probe (gateway_validate_message (sc_gateway trusted) this source_chain message_id
                      source_address payload_hash) false;
  panic_if (negb approved) CcMessageNotApproved;;
  record_message st proof;;
  publish (EvRemoteAttestationUpdated message_id st);;
  ttl;;
  mret st.

(** A read that renews what it finds. *)
Definition read_renewed (k : CcPKey) : MX (option (cc_pval k)) :=
  ttl;;
  o ← pers_get k;
  (if bool_decide (is_Some o)
   then pers_extend_ttl (C := CcSig) k LEDGERS_IN_ONE_YEAR LEDGERS_IN_ONE_YEAR else mret tt);;
  mret o.
Definition get_status (u : UID) : MX (option RemoteAttestation) := read_renewed (Status u).
Definition get_proof (u : UID) : MX (option RemoteProof) := read_renewed (Proof u).

Definition verify_remote (u : UID) : MX bool :=
  o ← get_status u;
  match o with
  | None => mret false
  | Some st => now ← ask timestamp; mret (ra_valid st && (now <? ra_valid_until st))
  end.

Definition set_lz_config (caller endpoint : Address) (src_eid : Z) (sender : bytes) : MX unit :=
  require_auth caller;;
  conf ← inst_get CcConfig;
  stored ← inst_get CcAdmin;
  let admin := match conf, stored with
               | Some c, _ => sc_admin c
               | None, Some a => a
               | None, None => caller
               end in
  panic_if (negb (bool_decide (caller = admin))) CcUnauthorizedEndpoint;;
  this ← ask current_contract;
  panic_if (bool_decide (endpoint = this) || (src_eid =? 0)) CcInvalidConfig;;
  inst_set CcAdmin admin;;
  inst_set LzConfig (mkLayerZeroConfig endpoint src_eid sender);;
  ttl.

Definition get_lz_config : MX LayerZeroConfig :=
  ttl;; o ← inst_get LzConfig; unwrap_or_panic o CcNotInitialized.

Definition lz_receive (origin : Origin) (guid message : bytes) : MX RemoteAttestation :=
  trusted ← get_lz_config;
  require_auth (lz_endpoint trusted);;
  panic_if (negb (o_src_eid origin =? lz_src_eid trusted)) CcUnauthorizedEndpoint;;
  panic_if (negb (bool_decide (o_sender origin = lz_sender trusted))) CcWrongSource;;
  panic_if (bool_decide (guid = zero_bytes32)) CcInvalidPayload;;
  '(st, proof) ← admit_message message;
  record_message st proof;;
  publish (EvCrossChainAttestationReceived guid (o_src_eid origin) (o_sender origin) (ra_uid st)
             (ra_revision st) (ra_valid st));;
  ttl;;
  mret st.

Inductive CcCall :=
  | CcInit (admin gateway : Address) (source_chain source_address : bytes)
  | CcExecute (source_chain message_id source_address payload : bytes)
  | CcLzReceive (origin : Origin) (guid message : bytes)
  | CcSetLzConfig (caller endpoint : Address) (src_eid : Z) (sender : bytes)
  | CcGetSource
  | CcGetLzConfig
  | CcGetStatus (u : UID)
  | CcGetProof (u : UID)
  | CcVerifyRemote (u : UID).
Definition cc_exec (c : CcCall) : MX unit :=
  match c with
  | CcInit admin gateway source_chain source_address => init admin gateway source_chain source_address
  | CcExecute source_chain message_id source_address payload =>
      execute source_chain message_id source_address payload;; mret tt
  | CcLzReceive origin guid message => lz_receive origin guid message;; mret tt
  | CcSetLzConfig caller endpoint src_eid sender => set_lz_config caller endpoint src_eid sender
  | CcGetSource => get_source;; mret tt
  | CcGetLzConfig => get_lz_config;; mret tt
  | CcGetStatus u => get_status u;; mret tt
  | CcGetProof u => get_proof u;; mret tt
  | CcVerifyRemote u => verify_remote u;; mret tt
  end.
End contract.

(** ** The wire format read back

    The format the doc comment of [decode_status] describes. *)

Definition status_fields (st : RemoteAttestation) : bytes :=
  uid_bytes (ra_uid st) ++ to_be_bytes 8 (ra_revision st) ++ to_be_bytes 8 (ra_valid_until st)
  ++ [if ra_valid st then 1 else 0].
Definition proof_fields (schema : UID) (evm strkey data : bytes) : bytes :=
  uid_bytes schema ++ evm ++ strkey ++ to_be_bytes 2 (len data) ++ data.
Definition encode_v1 (st : RemoteAttestation) : bytes := [1] ++ status_fields st.
Definition encode_v2 (st : RemoteAttestation) (schema : UID) (evm strkey data : bytes) : bytes :=
  [2] ++ status_fields st ++ proof_fields schema evm strkey data.

Record status_typed (st : RemoteAttestation) : Prop := {
  st_uid : length (uid_bytes (ra_uid st)) = 32%nat;
  st_revision : is_u64 (ra_revision st);
  st_valid_until : is_u64 (ra_valid_until st)
}.

Lemma read_range_app (before b after : bytes) off n :
  length before = off -> length b = n -> read_range (before ++ b ++ after) off n = Some b.
Proof.
  intros <- <-; unfold read_range, slice; rewrite drop_app_length.
  replace (length before + length b - length before)%nat with (length b) by lia.
  by rewrite take_app_length, bool_decide_true.
Qed.

Lemma get_app (before : bytes) x after i :
  length before = i -> get (before ++ x :: after) i = Some x.
Proof. intros <-; unfold get; rewrite nth_error_app2, Nat.sub_diag by done; done. Qed.

Lemma status_fields_length st : status_typed st -> length (status_fields st) = 49%nat.
Proof.
  intros [Hu _ _]; unfold status_fields; rewrite !length_app, !length_to_be_bytes, Hu; done.
Qed.

(** Whatever follows the fields. *)
Lemma decode_fields st v rest :
  status_typed st ->
  (read_range ([v] ++ status_fields st ++ rest) 1 32 = Some (uid_bytes (ra_uid st)))
  /\ read_range ([v] ++ status_fields st ++ rest) 33 8 = Some (to_be_bytes 8 (ra_revision st))
  /\ read_range ([v] ++ status_fields st ++ rest) 41 8 = Some (to_be_bytes 8 (ra_valid_until st))
  /\ get ([v] ++ status_fields st ++ rest) 49 = Some (if ra_valid st then 1 else 0).
Proof.
  intros [Hu _ _]; unfold status_fields; set (u := uid_bytes (ra_uid st)) in *.
  set (r := to_be_bytes 8 (ra_revision st)); set (t := to_be_bytes 8 (ra_valid_until st)).
  assert (Hr : length r = 8%nat) by apply length_to_be_bytes.
  assert (Ht : length t = 8%nat) by apply length_to_be_bytes.
  set (f := if ra_valid st then 1 else 0).
  rewrite <- !app_assoc; split_and!.
  - by apply (read_range_app [v] u).
  - rewrite (app_assoc [v]); apply (read_range_app ([v] ++ u) r); rewrite ?length_app, ?Hu; done.
  - rewrite (app_assoc [v]), (app_assoc ([v] ++ u)); apply (read_range_app (([v] ++ u) ++ r) t);
      rewrite ?length_app, ?Hu, ?Hr; done.
  - rewrite (app_assoc [v]), (app_assoc ([v] ++ u)), (app_assoc (([v] ++ u) ++ r)).
    by apply get_app; rewrite !length_app, Hu, Hr, Ht.
Qed.

Lemma decode_status_fields st v rest :
  status_typed st ->
  let p := [v] ++ status_fields st ++ rest in
  (v = 1 /\ rest = []) \/ (v = 2 /\ PROOF_PAYLOAD_HEADER_LEN <= len p) ->
  decode_status p = Some st.
Proof.
  intros Hst p Hv; unfold decode_status; change (get p 0) with (Some v); cbv zeta.
  assert (Hlen : len p = 50 + len rest).
  { unfold p, len; rewrite !length_app, (status_fields_length st Hst); simpl; lia. }
  destruct (decode_fields st v rest Hst) as (H1 & H2 & H3 & H4); fold p in H1, H2, H3, H4.
  rewrite H1, H2, H3, H4; destruct Hst as [_ Hr Ht].
  assert (Hguard : (bool_decide (Some v = Some 1) && negb (len p =? STATUS_PAYLOAD_LEN))
     || (bool_decide (Some v = Some 2) && (len p <? PROOF_PAYLOAD_HEADER_LEN))
     || negb (bool_decide (Some v = Some 1) || bool_decide (Some v = Some 2)) = false).
  { clearbody p; rewrite Hlen in *; destruct Hv as [[-> ->]|[-> Hge]]; [done|].
    by rewrite (proj2 (Z.ltb_ge _ _) Hge). }
  rewrite Hguard; cbn -[to_be_bytes from_be_bytes]; destruct st as [[u] r t b].
  destruct b; cbn -[to_be_bytes from_be_bytes] in *; by rewrite !from_to_be_bytes_u64.
Qed.

(** A version 1 payload. *)
Lemma decode_encode_v1 st : status_typed st -> decode_status (encode_v1 st) = Some st.
Proof.
  intros Hst; pose proof (decode_status_fields st 1 [] Hst) as Hd; rewrite app_nil_r in Hd.
  apply Hd; by left.
Qed.

(** The fields of a proof, after fifty bytes. *)
Lemma proof_ranges (head s evm strkey data : bytes) hi lo :
  length head = 50%nat -> length s = 32%nat -> length evm = 20%nat -> length strkey = 56%nat ->
  let p := head ++ s ++ evm ++ strkey ++ [hi; lo] ++ data in
  get p 158 = Some hi /\ get p 159 = Some lo
  /\ read_range p 50 32 = Some s /\ read_range p 82 20 = Some evm
  /\ read_range p 102 56 = Some strkey /\ read_range p 160 (length data) = Some data.
Proof.
  intros Hh Hs He Hk p; unfold p; clear p.
  set (b1 := head ++ s); set (b2 := b1 ++ evm); set (b3 := b2 ++ strkey).
  assert (H1 : length b1 = 82%nat) by (unfold b1; rewrite length_app; lia).
  assert (H2 : length b2 = 102%nat) by (unfold b2; rewrite length_app; lia).
  assert (H3 : length b3 = 158%nat) by (unfold b3; rewrite length_app; lia).
  assert (E1 : head ++ s ++ evm ++ strkey ++ [hi; lo] ++ data = b1 ++ evm ++ strkey ++ [hi; lo] ++ data)
    by (unfold b1; by rewrite <- app_assoc).
  assert (E2 : b1 ++ evm ++ strkey ++ [hi; lo] ++ data = b2 ++ strkey ++ [hi; lo] ++ data)
    by (unfold b2; by rewrite <- app_assoc).
  assert (E3 : b2 ++ strkey ++ [hi; lo] ++ data = b3 ++ hi :: lo :: data)
    by (unfold b3; by rewrite <- app_assoc).
  assert (E4 : b3 ++ hi :: lo :: data = (b3 ++ [hi]) ++ lo :: data) by (by rewrite <- app_assoc).
  assert (E5 : b3 ++ hi :: lo :: data = (b3 ++ [hi; lo]) ++ data ++ [])
    by (rewrite app_nil_r; by rewrite <- app_assoc).
  split_and!.
  - rewrite E1, E2, E3; by apply get_app.
  - rewrite E1, E2, E3, E4; apply get_app; rewrite length_app; simpl; lia.
  - by apply read_range_app.
  - rewrite E1; by apply read_range_app.
  - rewrite E1, E2; by apply read_range_app.
  - rewrite E1, E2, E3, E5; apply read_range_app; [rewrite length_app; simpl; lia|done].
Qed.

(** A version 2 payload, with its proof. *)
Lemma decode_encode_v2 st schema evm strkey data :
  status_typed st -> length (uid_bytes schema) = 32%nat -> length evm = 20%nat ->
  length strkey = 56%nat -> len data <= MAX_PROOF_DATA_LEN ->
  decode_status (encode_v2 st schema evm strkey data) = Some st
  /\ decode_proof_fields (encode_v2 st schema evm strkey data) = Some (schema, evm, strkey, data).
Proof.
  intros Hst Hs He Hk Hd; unfold encode_v2.
  assert (Hlen : len ([2] ++ status_fields st ++ proof_fields schema evm strkey data)
                 = PROOF_PAYLOAD_HEADER_LEN + len data).
  { unfold proof_fields, len; rewrite !length_app, (status_fields_length st Hst), Hs, He, Hk,
      length_to_be_bytes; unfold PROOF_PAYLOAD_HEADER_LEN, STATUS_PAYLOAD_LEN; simpl; lia. }
  split; [apply decode_status_fields; [done|]; right; split; [done|]; rewrite Hlen; unfold len; lia|].
  set (hi := len data / 256 mod 256); set (lo := len data mod 256).
  assert (Hn : hi * 256 + lo = len data).
  { unfold hi, lo; rewrite (Z.mod_small (len data / 256)); [pose proof (Z.div_mod (len data) 256); lia|].
    unfold MAX_PROOF_DATA_LEN, len in *; split; [apply Z.div_pos; lia|apply Z.div_lt_upper_bound; lia]. }
  assert (Hp : [2] ++ status_fields st ++ proof_fields schema evm strkey data
               = ([2] ++ status_fields st) ++ uid_bytes schema ++ evm ++ strkey ++ [hi; lo] ++ data).
  { unfold proof_fields; cbn [to_be_bytes]; by rewrite <- app_assoc. }
  destruct (proof_ranges ([2] ++ status_fields st) (uid_bytes schema) evm strkey data hi lo)
    as (H1 & H2 & H3 & H4 & H5 & H6); [|done..|].
  { rewrite length_app, (status_fields_length st Hst); done. }
  rewrite <- Hp in H1, H2, H3, H4, H5, H6; clear Hp.
  set (p := [2] ++ status_fields st ++ _) in *; clearbody p hi lo; unfold decode_proof_fields.
  rewrite H1, H2; cbn -[Z.mul Z.add]; rewrite Hn, Hlen, Z.eqb_refl, (proj2 (Z.ltb_ge _ _) Hd).
  unfold len; rewrite Nat2Z.id, H3, H4, H5, H6; by destruct schema.
Qed.

(** ** Where a verdict comes from *)

Section verdicts.
Context {X : Type} `{CrossChainDeps X}.
Implicit Types (s : State CcSig X) (e : Env) (st : RemoteAttestation) (h : list (Env * CcCall)).

(** The call [c] delivers [st] from the configured source. *)
Definition authentic (c : CcCall) e s st : Prop :=
  match c with
  | CcExecute chain id address payload =>
      decode_status payload = Some st
      /\ exists cfg x x', inst s CcConfig = Some cfg /\ sc_source_chain cfg = chain
         /\ sc_source_address cfg = address
         /\ gateway_validate_message (sc_gateway cfg) (current_contract e) chain id address
              (keccak256 e payload) e x = Some (Val true, x')
  | CcLzReceive origin guid message =>
      decode_status message = Some st
      /\ exists cfg, inst s LzConfig = Some cfg /\ authorized e (lz_endpoint cfg) = true
         /\ o_src_eid origin = lz_src_eid cfg /\ o_sender origin = lz_sender cfg
  | _ => False
  end.

(** [st] was recorded by [c], as a newer verdict than the one before. *)
Record delivered (c : CcCall) e s st : Prop := {
  dl_authentic : authentic c e s st;
  dl_validity : bad_validity (timestamp e) st = false;
  dl_newer : forall p, pget s (Status (ra_uid st)) = Some p -> ra_revision p < ra_revision st
}.

Lemma admit_message_ok payload e s st proof s' :
  admit_message payload e s = Ok ((st, proof), s') ->
  s' = s /\ decode_status payload = Some st /\ bad_validity (timestamp e) st = false
  /\ forall p, pget s (Status (ra_uid st)) = Some p -> ra_revision p < ra_revision st.
Proof.
  unfold admit_message, decode_proof; intros Hr; run_inv.
  match goal with Hp : (if ?b then _ else _) _ s = Ok (_, ?s1) |- _ =>
    assert (s1 = s) as -> by (destruct b; run_inv; [done|];
      match goal with Hq : (let '(_, _) := ?q in _) _ _ = _ |- _ => destruct q as [[[? ?] ?] ?]; run_inv; done end)
  end.
  simplify_eq; split_and!; try done.
  intros p Hp; match goal with Hm : match pget _ _ with _ => _ end = false |- _ => rewrite Hp in Hm;
    by apply Z.leb_gt end.
Qed.

Lemma record_message_ok st proof e s x s' :
  record_message st proof e s = Ok (x, s') ->
  inst s' = inst s /\ pget s' (Status (ra_uid st)) = Some st
  /\ forall u, u <> ra_uid st -> pget s' (Status u) = pget s (Status u).
Proof.
  unfold record_message; intros Hr; val_inv.
  destruct proof; val_inv; split_and!; intros; settle; try done.
Qed.

(** What a successful delivery does. *)
Definition recorded st s s' : Prop :=
  pget s' (Status (ra_uid st)) = Some st
  /\ forall u, u <> ra_uid st -> pget s' (Status u) = pget s (Status u).

Lemma recorded_later st proof e s x s1 s2 s' :
  record_message st proof e s = Ok (x, s1) -> (forall k, pget s2 k = pget s1 k) -> same_values s2 s' ->
  recorded st s s'.
Proof.
  intros (_ & Hst & Ho)%record_message_ok Hp Hs; split; [by rewrite (sv_pget _ _ Hs (Status _)), Hp|].
  intros u Hu; rewrite (sv_pget _ _ Hs (Status _)), Hp; auto.
Qed.

Lemma execute_ok chain id address payload e s st s' :
  execute chain id address payload e s = Ok (st, s') ->
  delivered (CcExecute chain id address payload) e s st /\ recorded st s s'.
Proof.
  unfold execute, source_config; intros Hr; val_inv.
  match goal with Hm : (let '(_, _) := ?q in _) _ _ = _ |- _ => destruct q as [st' proof]; val_inv end.
  match goal with Ha : admit_message _ _ _ = _ |- _ => apply admit_message_ok in Ha as (-> & Hd & Hv & Hn) end.
  match goal with Hp : probe _ _ _ _ = Ok (?b, _), Hb : negb ?b = false |- _ =>
    destruct b; [|done]; apply probe_ok in Hp as (x' & -> & [Hg|[? _]]); [|done] end.
  match goal with Hb : negb _ || negb _ = false |- _ => apply orb_false_iff in Hb as [Hc Ha] end.
  apply negb_false_iff, bool_decide_eq_true in Hc, Ha; split.
  2: match goal with Hm : record_message _ _ _ _ = _, Hp : forall k, pget _ k = _, Hs : same_values _ _ |- _ =>
       exact (recorded_later _ _ _ _ _ _ _ _ Hm Hp Hs) end.
  split; [|done|done]; split; [done|]; naive_solver.
Qed.

Lemma lz_receive_ok origin guid message e s st s' :
  lz_receive origin guid message e s = Ok (st, s') ->
  delivered (CcLzReceive origin guid message) e s st /\ recorded st s s'.
Proof.
  unfold lz_receive, get_lz_config; intros Hr; val_inv.
  match goal with Hm : (let '(_, _) := ?q in _) _ _ = _ |- _ => destruct q as [st' proof]; val_inv end.
  match goal with Ha : admit_message _ _ _ = _ |- _ => apply admit_message_ok in Ha as (-> & Hd & Hv & Hn) end.
  match goal with Hs : same_values s ?s1, Hm : record_message _ _ _ ?s1 = Ok (_, ?s2),
      Hp : forall k, pget ?s6 k = pget ?s2 k, Hs' : same_values ?s6 _ |- _ =>
    pose proof (recorded_later _ _ _ _ _ _ _ _ Hm Hp Hs') as [Hst Ho]; split; [split|split] end.
  - split; [done|]; rewrite <- (sv_inst _ _ H6); eexists; split_and!; [done|done|..].
    + by apply Z.eqb_eq, negb_false_iff.
    + by apply negb_false_iff, bool_decide_eq_true in H3.
  - done.
  - intros p Hp; apply Hn; by rewrite (sv_pget _ _ H6 (Status _)).
  - done.
  - intros u Hu; by rewrite Ho, (sv_pget _ _ H6 (Status u)).
Qed.

(** Every call leaves the verdict on [u] or delivers a newer one. *)
Lemma exec_delivers c e s s' u :
  cc_exec c e s = Ok (tt, s') ->
  pget s' (Status u) = pget s (Status u)
  \/ exists st, ra_uid st = u /\ pget s' (Status u) = Some st /\ delivered c e s st.
Proof.
  intros Hr.
  assert (Hrest : preserves (touches (C := CcSig) (X := X) (fun _ => True) (fun _ => False)) (cc_exec c) ->
                  pget s' (Status u) = pget s (Status u))
    by (intros Hp; apply Hp in Hr as [_ Hk]; apply Hk; tauto).
  assert (Hrec : forall st, delivered c e s st -> recorded st s s' ->
    pget s' (Status u) = pget s (Status u)
    \/ exists st, ra_uid st = u /\ pget s' (Status u) = Some st /\ delivered c e s st).
  { intros st Hd [Hst Ho]; destruct (decide (u = ra_uid st)) as [->|Hne]; [right; eauto|left; auto]. }
  destruct c; try (left; apply Hrest; simpl; by pres_open); clear Hrest; simpl in Hr; run_inv.
  - by eapply Hrec; eapply execute_ok.
  - by eapply Hrec; eapply lz_receive_ok.
Qed.

(** A stored verdict was delivered by some call of the history. *)
Lemma status_origin h s u st :
  (forall v, pget s (Status v) = None) -> pget (run_calls cc_exec h s) (Status u) = Some st ->
  ra_uid st = u /\ exists h1 e c h2, h = h1 ++ (e, c) :: h2 /\ delivered c e (run_calls cc_exec h1 s) st.
Proof.
  intros Hs; induction h as [|[e c] h IH] using rev_ind; [by rewrite Hs|].
  rewrite run_calls_app; simpl; intros Hst.
  assert (Hearlier : pget (run_calls cc_exec h s) (Status u) = Some st ->
    ra_uid st = u /\ exists h1 e' c' h2,
      h ++ [(e, c)] = h1 ++ (e', c') :: h2 /\ delivered c' e' (run_calls cc_exec h1 s) st).
  { intros (Hu & h1 & e' & c' & h2 & -> & Hd)%IH; split; [done|].
    exists h1, e', c', (h2 ++ [(e, c)]); by rewrite <- app_assoc. }
  destruct (transact_call_run cc_exec e c (run_calls cc_exec h s)) as [(s' & Hr & Ht)|(err & _ & Ht)];
    rewrite Ht in Hst; [|auto].
  apply (exec_delivers _ _ _ _ u) in Hr as [Hr|(st' & Hu & Hst' & Hd)]; [rewrite Hr in Hst; auto|].
  simplify_eq; split; [done|]; by exists h, e, c, [].
Qed.

(** Over a history a verdict is only replaced by newer ones. *)
Lemma revisions_grow h s u st :
  pget s (Status u) = Some st ->
  exists st', pget (run_calls cc_exec h s) (Status u) = Some st'
    /\ (st' = st \/ ra_revision st < ra_revision st').
Proof.
  revert s st; induction h as [|[e c] h IH]; intros s st Hst; simpl; [eauto|].
  destruct (transact_call_run cc_exec e c s) as [(s' & Hr & ->)|(err & _ & ->)]; [|by apply IH].
  apply (exec_delivers _ _ _ _ u) in Hr as [Hr|(st1 & Hu & Hst1 & [_ _ Hn])]; [apply IH; by rewrite Hr|].
  destruct (IH s' st1 Hst1) as (st' & Hst' & Hor); exists st'; split; [done|right].
  subst u; apply Hn in Hst; destruct Hor as [->|?]; lia.
Qed.

Lemma verify_remote_answers u e s :
  answers (verify_remote u) e s
    (match (pget s (Status u) : option RemoteAttestation) with
     | Some st => ra_valid st && (timestamp e <? ra_valid_until st)
     | None => false
     end).
Proof.
  unfold verify_remote, get_status, read_renewed.
  eapply (answers_bind _ _ _ _ (pget s (Status u))).
  - eapply answers_bind; [apply extend_common_run|]; intros s1 Hs1; ans.
    rewrite (sv_pget _ _ Hs1 (Status u)); eapply answers_bind; [|intros; apply answers_ret].
    case_bool_decide as Hi; [|apply answers_ret].
    apply (answers_pers_extend_ttl (C := CcSig)); by rewrite (sv_pget _ _ Hs1 (Status u)).
  - intros s1 _; destruct (pget s (Status u)); ans; apply answers_ret.
Qed.

(** What a positive verdict rests on. *)
Lemma accepted_validity now st :
  bad_validity now st = false -> ra_valid st = true ->
  now < ra_valid_until st <= now + MAX_VALIDITY_SECONDS.
Proof.
  unfold bad_validity; intros Hb Hv; rewrite Hv in Hb; simpl in Hb.
  rewrite orb_false_r in Hb; apply orb_false_iff in Hb as [_ Hb].
  apply orb_false_iff in Hb as [H1 H2]; apply Z.leb_gt in H1; apply Z.ltb_ge in H2.
  unfold sat_add in H2; lia.
Qed.
End verdicts.
