(* ===== verification/ZkVerifier.v ===== *)
(** * Private-attestation verifier

    [src/contracts/zk-verifier/src/lib.rs]: a proof is accepted once per
    nullifier, when its header binds the commitment and the nullifier, it is
    recent, and SAS confirms the attestation it refers to. *)

From S2P Require Import Prelude Host Values Common Resolver.

Definition MAX_ZK_PROOF_AGE_SECONDS : Z := 7 * 24 * 60 * 60.
Definition MAX_NULLIFIER_BATCH : Z := 50.

Inductive ZkVerifierError :=
  | ZkAlreadyInitialized | ZkNotInitialized | NullifierSpent | InvalidProof | AttestationExpired
  | AttestationNotYetActive | AttestationRevokedOrInvalid | InvalidCommitment | ProofTooOld
  | BatchTooLarge.

Record ZkConfig := mkZkConfig { zk_admin : Address; zk_sas_contract : Address }.
Record ZkAttestationProof := mkZkAttestationProof {
  zp_attestation_uid : UID; zp_schema_uid : UID; zp_nullifier : bytes; zp_commitment : bytes;
  zp_proof : bytes; zp_timestamp : Z
}.

Inductive ZkIKey := ZkConf.
Inductive ZkPKey := Nullifier (n : bytes) | Commitment (c : bytes).
Definition zk_ival (k : ZkIKey) : Type := match k with ZkConf => ZkConfig end.
Definition zk_pval (k : ZkPKey) : Type := match k with Nullifier _ | Commitment _ => Z end.
Definition zk_none (k : Empty_set) : Type := match k with end.
#[export] Instance ZkIKey_eq_dec : EqDecision ZkIKey.
Proof. solve_decision. Defined.
#[export] Instance ZkPKey_eq_dec : EqDecision ZkPKey.
Proof. solve_decision. Defined.

Inductive ZkEvent := EvPrivateAttestationVerified (attestation_uid schema_uid : UID) (nullifier commitment : bytes).
Canonical Structure ZkSig : Sig :=
  mkSig ZkIKey zk_ival _ ZkPKey zk_pval _ Empty_set zk_none _ ZkEvent ZkVerifierError.

(** The queries to SAS. *)
Class ZkDeps (X : Type) := {
  sas_verify_attestation : Address -> UID -> xcall X bool;
  sas_get_valid_from : Address -> UID -> xcall X Z
}.

Section contract.
Context {X : Type} `{ZkDeps X}.
Abbreviation MZ := (M ZkSig X).
Abbreviation ttl := extend_instance_ttl_common.

Definition load_config : MZ ZkConfig := o ← inst_get ZkConf; unwrap_or_panic o ZkNotInitialized.

Definition extend_nullifier_ttl (k : ZkPKey) : MZ unit :=
  pers_extend_ttl (C := ZkSig) k INSTANCE_TTL_THRESHOLD_LEDGERS INSTANCE_EXTEND_TO_LEDGERS.

Definition consume_nullifier (n : bytes) (now : Z) : MZ unit :=
  has ← pers_has (Nullifier n);
  panic_if has NullifierSpent;;
  pers_set (C := ZkSig) (Nullifier n) now;;
  extend_nullifier_ttl (Nullifier n).

Definition init (admin sas_contract : Address) : MZ unit :=
  has ← inst_has ZkConf;
  panic_if has ZkAlreadyInitialized;;
  require_auth admin;;
  inst_set ZkConf (mkZkConfig admin sas_contract);;
  ttl.

Definition get_config : MZ ZkConfig := ttl;; load_config.

(** The proof's header is the hash of the commitment and the nullifier. *)
Definition binds (e : Env) (p : ZkAttestationProof) : bool :=
  bool_decide (take 32 (zp_proof p) = sha256 e (zp_commitment p ++ zp_nullifier p)).

(** Format, age and binding of a proof. *)
Definition check_proof (p : ZkAttestationProof) : MZ unit :=
  now ← ask timestamp;
  panic_if (bool_decide (zp_proof p = []) || (1024 <? len (zp_proof p))) InvalidProof;;
  panic_if ((now <? zp_timestamp p)
            || (MAX_ZK_PROOF_AGE_SECONDS <? sat_sub now (zp_timestamp p))) ProofTooOld;;
  panic_if (len (zp_proof p) <? 32) InvalidProof;;
  bound ← ask (fun e => binds e p);
  panic_if (negb bound) InvalidProof.

(** SAS must confirm the attestation, and its time lock must be over. *)
Definition check_attestation (sas : Address) (u : UID) : MZ unit :=
  if bool_decide (u = zero_uid) then mret tt
  else
    now ← ask timestamp;
    is_valid ← probe (sas_verify_attestation sas u) false;
    panic_if (negb is_valid) AttestationRevokedOrInvalid;;
    valid_from ← probe (sas_get_valid_from sas u) 0;
    panic_if ((0 <? valid_from) && (now <? valid_from)) AttestationNotYetActive.

Definition verify_and_consume_proof (p : ZkAttestationProof) : MZ bool :=
  config ← load_config;
  ttl;;
  now ← ask timestamp;
  consume_nullifier (zp_nullifier p) now;;
  check_proof p;;
  check_attestation (zk_sas_contract config) (zp_attestation_uid p);;
  pers_set (C := ZkSig) (Commitment (zp_commitment p)) now;;
  extend_nullifier_ttl (Commitment (zp_commitment p));;
  publish (EvPrivateAttestationVerified (zp_attestation_uid p) (zp_schema_uid p) (zp_nullifier p)
             (zp_commitment p));;
  mret true.

(** A membership query that renews what it finds. *)
Definition used (k : ZkPKey) : MZ bool :=
  b ← pers_has k; (if (b : bool) then extend_nullifier_ttl k else mret tt);; mret b.

Definition is_nullifier_used (n : bytes) : MZ bool := ttl;; used (Nullifier n).
Definition is_commitment_verified (c : bytes) : MZ bool := ttl;; used (Commitment c).

(** The loop of [are_nullifiers_used]. *)
Fixpoint used_loop (l : list bytes) (acc : list bool) : MZ (list bool) :=
  match l with
  | [] => mret acc
  | n :: rest => b ← used (Nullifier n); used_loop rest (acc ++ [b])
  end.
Definition are_nullifiers_used (l : list bytes) : MZ (list bool) :=
  ttl;;
  panic_if (MAX_NULLIFIER_BATCH <? len l) BatchTooLarge;;
  used_loop l [].

Inductive ZkCall :=
  | ZkInit (admin sas_contract : Address)
  | ZkVerify (p : ZkAttestationProof)
  | ZkGetConfig
  | ZkIsNullifierUsed (n : bytes)
  | ZkIsCommitmentVerified (c : bytes)
  | ZkAreNullifiersUsed (l : list bytes).
Definition zk_exec (c : ZkCall) : MZ unit :=
  match c with
  | ZkInit admin sas_contract => init admin sas_contract
  | ZkVerify p => verify_and_consume_proof p;; mret tt
  | ZkGetConfig => get_config;; mret tt
  | ZkIsNullifierUsed n => is_nullifier_used n;; mret tt
  | ZkIsCommitmentVerified c => is_commitment_verified c;; mret tt
  | ZkAreNullifiersUsed l => are_nullifiers_used l;; mret tt
  end.
End contract.

(** ** Correctness *)

Section proofs.
Context {X : Type} `{ZkDeps X}.
Implicit Types (s : State ZkSig X) (e : Env) (p : ZkAttestationProof) (h : list (Env * ZkCall)).

(** The proofs a history accepted, in order. *)
Definition proof_of (c : ZkCall) : list ZkAttestationProof :=
  match c with ZkVerify p => [p] | _ => [] end.
Fixpoint accepted_proofs h s : list ZkAttestationProof :=
  match h with
  | [] => []
  | (e, c) :: h' =>
      (match zk_exec c e s with Ok _ => proof_of c | Err _ => [] end)
      ++ accepted_proofs h' (transact_call zk_exec e c s)
  end.

(** What an accepted proof satisfied. *)
Record proof_ok e s p : Prop := {
  po_fresh : pget s (Nullifier (zp_nullifier p)) = None;
  po_binds : binds e p = true;
  po_length : 32 <= len (zp_proof p) <= 1024;
  po_age : timestamp e - MAX_ZK_PROOF_AGE_SECONDS <= zp_timestamp p <= timestamp e;
  po_valid : zp_attestation_uid p <> zero_uid ->
    exists config x, inst s ZkConf = Some config
      /\ sas_verify_attestation (zk_sas_contract config) (zp_attestation_uid p) e (ext s) = Some (Val true, x)
}.

Lemma check_proof_ok p e s x s' :
  check_proof p e s = Ok (x, s') ->
  s' = s /\ binds e p = true /\ 32 <= len (zp_proof p) <= 1024
  /\ timestamp e - MAX_ZK_PROOF_AGE_SECONDS <= zp_timestamp p <= timestamp e.
Proof.
  unfold check_proof; intros Hr; run_inv.
  repeat match goal with Hb : _ || _ = false |- _ => apply orb_false_iff in Hb as [? ?] end.
  repeat match goal with Hb : (_ <? _) = false |- _ => apply Z.ltb_ge in Hb end.
  match goal with Hb : negb _ = false |- _ => apply negb_false_iff in Hb end.
  unfold sat_sub in *; split_and!; done || lia.
Qed.

Lemma check_attestation_ok sas u e s x s' :
  check_attestation sas u e s = Ok (x, s') ->
  (exists y, s' = upd_ext y s)
  /\ (u <> zero_uid -> exists y, sas_verify_attestation sas u e (ext s) = Some (Val true, y)).
Proof.
  unfold check_attestation; case_bool_decide as Hu; intros Hr; run_inv.
  - split; [exists (ext s); by destruct s|done].
  - repeat match goal with Hp : probe _ _ _ _ = Ok _ |- _ => apply probe_ok in Hp as (? & -> & ?) end.
    split; [by eexists|intros _].
    match goal with Hb : negb ?b = false, Hp : _ = Some (Val ?b, ?y) \/ _ |- _ =>
      destruct b; [|done]; destruct Hp as [Hp|[? _]]; [by exists y|done] end.
Qed.

(** SAS is asked in the state the others had when the call began. *)
Lemma verify_asked p e s b s' :
  verify_and_consume_proof p e s = Ok (b, s') -> zp_attestation_uid p <> zero_uid ->
  exists config x, inst s ZkConf = Some config
    /\ sas_verify_attestation (zk_sas_contract config) (zp_attestation_uid p) e (ext s) = Some (Val true, x).
Proof.
  unfold verify_and_consume_proof, load_config; intros Hr Hu; run_inv.
  match goal with Hp : check_proof _ _ _ = _, Hc : check_attestation _ _ _ _ = _ |- _ =>
    apply check_proof_ok in Hp as [-> _]; apply check_attestation_ok in Hc as [_ Hc];
    destruct (Hc Hu) as [y Hy] end.
  match goal with Ht : extend_instance_ttl_common _ _ = _, Hn : consume_nullifier _ _ _ ?s1 = Ok (_, ?s2) |- _ =>
    apply quiet_inst_extend_ttl in Ht as [_ _ _ E1];
    assert (through (=) e s1 s2) as E2 by (refine ((_ : preserves (through (=)) _) _ _ _ _ Hn); pres_open) end.
  eexists _, y; split; [done|]; by rewrite <- E1, E2.
Qed.

Lemma verify_ok p e s b s' :
  verify_and_consume_proof p e s = Ok (b, s') ->
  proof_ok e s p /\ is_Some (pget s' (Nullifier (zp_nullifier p)))
  /\ forall n, is_Some (pget s (Nullifier n)) -> is_Some (pget s' (Nullifier n)).
Proof.
  intros Hr; pose proof (verify_asked _ _ _ _ _ Hr) as Hasked; revert Hr.
  unfold verify_and_consume_proof, load_config, consume_nullifier, extend_nullifier_ttl; intros Hr; val_inv.
  match goal with Hp : check_proof _ _ _ = _ |- _ => apply check_proof_ok in Hp as (-> & Hb & Hl & Ha) end.
  match goal with Hc : check_attestation _ _ _ _ = _ |- _ => apply check_attestation_ok in Hc as [[y ->] _] end.
  assert (Hafter : forall n, pget x16 (Nullifier n)
    = if decide (zp_nullifier p = n) then Some (timestamp e) else pget s (Nullifier n)).
  { intros n; settle; change (pget (upd_ext y x6) (Nullifier n)) with (pget x6 (Nullifier n)); settle.
    case_decide as Hn; [subst n; by settle|].
    rewrite (w_others _ _ _ _ H13 (Nullifier n)) by congruence; by settle. }
  split_and!.
  - split; [|done|done|done|].
    + apply eq_None_not_Some; apply bool_decide_eq_false in H11.
      by rewrite <- (sv_pget _ _ H1 (Nullifier _)).
    + exact Hasked.
  - rewrite Hafter, decide_True; eauto.
  - intros n Hn; rewrite Hafter; case_decide; eauto.
Qed.

(** No other call touches a nullifier. *)
Lemma used_loop_quiet l acc :
  preserves (touches (C := ZkSig) (X := X) (fun _ => True) (fun _ => False)) (used_loop l acc).
Proof. revert acc; induction l as [|n l IH]; intros acc; simpl; [pres|]; unfold used, extend_nullifier_ttl; pres. Qed.
#[local] Hint Resolve used_loop_quiet : sas.

Lemma exec_nullifiers c e s s' :
  zk_exec c e s = Ok (tt, s') ->
  Forall (proof_ok e s) (proof_of c)
  /\ Forall (fun p => is_Some (pget s' (Nullifier (zp_nullifier p)))) (proof_of c)
  /\ forall n, is_Some (pget s (Nullifier n)) -> is_Some (pget s' (Nullifier n)).
Proof.
  intros Hr; destruct (decide (proof_of c = [])) as [Hc|Hc].
  - rewrite Hc; split_and!; try constructor; intros n Hn.
    assert (Hp : preserves (touches (C := ZkSig) (X := X) (fun _ => True) (fun _ => False)) (zk_exec c))
      by (destruct c; try done; simpl; by pres_open).
    apply Hp in Hr as [_ Hk]; by rewrite (Hk (Nullifier n)) by tauto.
  - destruct c; try done; simpl in Hr |- *; run_inv.
    match goal with Hv : verify_and_consume_proof _ _ _ = _ |- _ => apply verify_ok in Hv as (? & ? & ?) end.
    split_and!; try done; by apply Forall_singleton.
Qed.

(** No two accepted proofs share a nullifier. *)
Lemma accepted_nullifiers h s :
  NoDup (zp_nullifier <$> accepted_proofs h s)
  /\ forall n, is_Some (pget s (Nullifier n)) -> n ∉ zp_nullifier <$> accepted_proofs h s.
Proof.
  revert s; induction h as [|[e c] h IH]; intros s; simpl.
  { split; [constructor|intros; apply not_elem_of_nil]. }
  destruct (transact_call_run zk_exec e c s) as [(s' & Hr & ->)|(err & Hr & ->)]; rewrite Hr; [|apply IH].
  apply exec_nullifiers in Hr as (Hok & Hspent & Hkeep); destruct (IH s') as [Hnd Hnot].
  rewrite fmap_app; destruct (proof_of c) as [|p [|q l]] eqn:Hc; [by split; auto| |by destruct c].
  apply (Forall_singleton (proof_ok e s)) in Hok; apply Forall_cons in Hspent as [Hspent _]; simpl; split.
  - constructor; [exact (Hnot _ Hspent)|done].
  - intros n Hn [->|Hin]%elem_of_cons; [|by apply (Hnot n); auto].
    destruct Hok as [Hf _ _ _ _]; rewrite Hf in Hn; by destruct Hn.
Qed.
End proofs.
