(* ===== verification/ComposeResolver.v ===== *)
(** * SAS over the registry and a resolver contract

    SAS bound to the registry of this repository ([Compose.v]) and to one of
    its resolvers: the resolver's operations answer SAS's consultations at the
    resolver's address, on the resolver's own state, which lies beside the
    registry's.  Tokens, the indexer, the proof verifier and resolvers at other
    addresses remain arbitrary. *)

From S2P Require Import Prelude Host Values Common TypedData Validation Resolver.
From S2P Require Import RegState RegQuery RegCalls RegFrame RegLineage.
From S2P Require Import SasState SasCore SasAdmin SasFees SasIssue SasAttest SasRevoke SasCalls.
From S2P Require Import SasFrame SasRecord SasIssueSpec Compose.

Section compose.
Context {C : Sig} {Y : Type} `{Resolver C Y} (others : Deps (State RegSig (State C Y))).
Context (registry_address resolver_address : Address).

(** A nested call of the resolver: a failure is an error reply. *)
Definition consult (m : M C Y unit) : xcall (State RegSig (State C Y)) unit :=
  fun e x => match m e (ext x) with
             | Ok (_, rs') => Some (Val tt, upd_ext rs' x)
             | Err _ => None
             end.
Definition at_resolver (m : M C Y unit) (f : xcall (State RegSig (State C Y)) unit) (callee : Address)
    : xcall (State RegSig (State C Y)) unit :=
  if bool_decide (callee = resolver_address) then consult m else f.

Definition with_resolver : Deps (State RegSig (State C Y)) := {|
  registry_SASREG := @registry_SASREG _ others;
  registry_sasreg := @registry_sasreg _ others;
  registry_get_schema := @registry_get_schema _ others;
  registry_is_schema_quarantined := @registry_is_schema_quarantined _ others;
  registry_get_max_ttl := @registry_get_max_ttl _ others;
  registry_is_authorized := @registry_is_authorized _ others;
  registry_is_attester_authorized := @registry_is_attester_authorized _ others;
  registry_is_schema_restricted := @registry_is_schema_restricted _ others;
  registry_get_schema_policy := @registry_get_schema_policy _ others;
  registry_get_creator := @registry_get_creator _ others;
  registry_get_creator_royalty := @registry_get_creator_royalty _ others;
  registry_get_schema_frost_group := @registry_get_schema_frost_group _ others;
  resolver_on_attest callee a :=
    at_resolver (on_attest a) (@resolver_on_attest _ others callee a) callee;
  resolver_on_revoke callee a :=
    at_resolver (on_revoke a) (@resolver_on_revoke _ others callee a) callee;
  indexer_index_attestation := @indexer_index_attestation _ others;
  indexer_set_valid_from := @indexer_set_valid_from _ others;
  indexer_handle_revoke := @indexer_handle_revoke _ others;
  indexer_handle_replace := @indexer_handle_replace _ others;
  indexer_handle_renew := @indexer_handle_renew _ others;
  token_transfer := @token_transfer _ others;
  token_balance := @token_balance _ others;
  zk_verify_proof := @zk_verify_proof _ others
|}.

(** The registry answers at its address, the resolver at its own. *)
Definition with_registry_and_resolver : Deps (State RegSig (State C Y)) :=
  composed with_resolver registry_address.
#[local] Existing Instance with_registry_and_resolver.
Implicit Types (s : State SasSig (State RegSig (State C Y))) (e : Env).

Lemma consulted a e s verdict s' :
  try_invoke (C := SasSig) (resolver_on_attest resolver_address a) e s = Ok (verdict, s') ->
  is_call_err verdict = false -> accepts e (ext (ext s)) a.
Proof.
  intros Ht%try_invoke_ok Hv; cbn [resolver_on_attest with_registry_and_resolver composed with_resolver] in Ht.
  unfold at_resolver, consult in Ht; rewrite bool_decide_true in Ht by done; unfold accepts.
  destruct (on_attest a e (ext (ext s))) as [[[] rs']|]; [eauto|].
  destruct verdict; [| |done]; by destruct Ht as (? & ? & _).
Qed.

(** SAS stores an attestation under a schema only when the resolver of that
    schema, as the registry held it when the call began, accepted it in the
    state it had then. *)
Lemma attest_consulted a e s u s' :
  attest a e s = Ok (u, s') -> inst s SCHEMA_REGISTRY = Some registry_address ->
  exists schema, visible (ext s) (att_schema_uid a) = Some schema
    /\ (sr_resolver schema = resolver_address -> accepts e (ext (ext s)) a).
Proof.
  unfold attest; intros Hr Hreg; sas_inv.
  match goal with Hq : require_unpaid_allowed _ _ _ = Ok (_, ?s1) |- _ =>
    pose proof (fp_require_unpaid_allowed (fun _ => False) (fun _ => False) _ _ _ _ _ Hq) as [Hi1 _];
    apply (through_require_unpaid_allowed (=)) in Hq as Hx1 end.
  apply in_callback_context_body in Hr as (s2 & s3 & Hr & [Hi2 _] & _ & Hx2 & _).
  unfold attest_body in Hr; sas_inv.
  match goal with Hq : inst _ SCHEMA_REGISTRY = Some ?r, Hr2 : validate_schema_rules ?r _ _ _ = _ |- _ =>
    change (inst s2 SCHEMA_REGISTRY = Some r) in Hq;
    rewrite (Hi2 SCHEMA_REGISTRY), (Hi1 SCHEMA_REGISTRY), Hreg in Hq by (intros []; done || tauto);
    injection Hq as <- end.
  match goal with Hf : validate_fields _ _ _ = _, Hv : validate_schema_rules _ _ _ _ = Ok (?schema, ?s4),
      Hc : consume_issuance_quota _ _ _ = Ok (_, ?s5), Hp : probe _ _ _ _ = Ok (?policy, ?s6),
      Ht : try_invoke _ _ _ = Ok (?verdict, _) |- _ =>
    apply (through_validate_fields (=)) in Hf as Hfields; apply rules_composed in Hv as [Hacc Hs4];
    apply (through_consume_issuance_quota (=)) in Hc as Hquota;
    apply (probe_registry _ _ _ _ _ _ _ _ _ (get_schema_policy_answers (att_schema_uid a) e (ext s5))) in Hp as [_ Hs6];
    exists schema; unfold through in *; cbn [upd_inst_live ext] in Hfields;
    rewrite Hx2, <- Hx1 in Hfields; rewrite <- Hfields in *; split; [apply Hacc|intros Hres];
    rewrite Hres in Ht; apply consulted in Ht; [|done];
    rewrite (sv_ext _ _ Hs6), <- Hquota, (sv_ext _ _ Hs4) in Ht; exact Ht end.
Qed.
End compose.
