(* ===== verification/ResolverProps.v ===== *)
(** * Resolvers and verifiers: properties

    The theorems about the contracts beside SAS, the registry and the indexer,
    with concrete runs on which their hypotheses hold: the resolvers, alone
    and consulted by SAS, the cross-chain verifier and the verifier of private
    attestations. *)

From Stdlib Require Import Sorted.
From S2P Require Import TimeWindow TokenGate Blacklist Multisig CrossChain ZkVerifier.
From S2P Require Import Prelude Host Values Common TypedData Sample Resolver.
From S2P Require Import SasState SasCore SasIssue SasAttest SasCalls SasSample SasRecord.
From S2P Require Import SasIssueSpec RegState RegFrame RegCalls RegSample ComposeResolver.

(** ** Concrete contracts *)

(** The time-window resolver with a cooldown of an hour. *)
Definition tw_start : State TimeWindow.TwSig unit :=
  run_calls TimeWindow.tw_exec [(sample_env 100 [root_admin], TimeWindow.TwInit root_admin 3600)]
    (empty_state TimeWindow.TwSig tt).
Definition tw_att (r : Address) : Attestation :=
  mkAttestation zero_uid zero_uid 0 0 0 zero_uid r alice true [] 0.
Definition tw_history : list (Env * TimeWindow.TwCall) :=
  [ (sample_env 1000 [], TimeWindow.TwOnAttest (tw_att bob));
    (sample_env 2000 [], TimeWindow.TwOnAttest (tw_att bob));
    (sample_env 2000 [], TimeWindow.TwOnAttest (tw_att alice));
    (sample_env 4600 [], TimeWindow.TwOnAttest (tw_att bob)) ].

(** The blacklist with bob on it. *)
Definition bl_empty : State Blacklist.BlSig unit := empty_state Blacklist.BlSig tt.
Definition bl_history : list (Env * Blacklist.BlCall) :=
  [ (sample_env 100 [root_admin], Blacklist.BlInitialize root_admin);
    (sample_env 200 [root_admin], Blacklist.BlSetBlacklist root_admin [bob; gold] true);
    (sample_env 300 [alice], Blacklist.BlSetBlacklist root_admin [bob] false);
    (sample_env 400 [root_admin], Blacklist.BlSetBlacklist root_admin [gold] false) ].

(** A multisig resolver with two of three signers required. *)
#[export] Instance toy_dalek : Multisig.Dalek := fun key msg sig => bool_decide (sig = toy_sign key msg).
Definition ms_empty : State Multisig.MsSig unit := empty_state Multisig.MsSig tt.
Definition ms_history : list (Env * Multisig.MsCall) :=
  [ (sample_env 100 [], Multisig.MsInit 3 [key_of 1; key_of 2; key_of 3]);
    (sample_env 200 [], Multisig.MsSetThreshold 2) ].
Definition ms_digest : bytes := Multisig.endorsed_digest (sample_env 300 []) (tw_att bob).
Definition ms_endorsement (n : Z) : Multisig.Endorsement :=
  Multisig.mkEndorsement (key_of n) (toy_sign (key_of n) ms_digest).
Definition ms_att (l : list Multisig.Endorsement) : Attestation :=
  mkAttestation zero_uid zero_uid 0 0 0 zero_uid bob alice true (Multisig.encode_endorsements l) 0.

(** A token gate in front of the balances of the sample world. *)
#[export] Instance toy_token : TokenGate.TokenDeps World := {|
  TokenGate.token_balance _ a := fun _ w => Some (Val (world_balance w a), w);
  TokenGate.token_transfer _ from to z := toy_transfer from to z;
  TokenGate.token_burn _ from z := toy_transfer from gold z
|}.
Definition tg_empty : State TokenGate.TgSig World := empty_state TokenGate.TgSig [(alice, 100); (bob, 20)].
Definition tg_history : list (Env * TokenGate.TgCall) :=
  [ (sample_env 100 [], TokenGate.TgInitialize root_admin gold 30 0 TokenGate.FeeNone);
    (sample_env 200 [root_admin], TokenGate.TgSetMinBalance 10);
    (sample_env 300 [root_admin], TokenGate.TgSetFee 5 TokenGate.FeeTransfer) ].

(** A gateway that approves every message. *)
#[export] Instance toy_gateway : CrossChain.CrossChainDeps unit := {|
  CrossChain.gateway_validate_message _ _ _ _ _ _ := fun _ x => Some (Val true, x);
  CrossChain.address_of_strkey _ := Some bob
|}.
Definition cc_status (revision valid_until : Z) : CrossChain.RemoteAttestation :=
  CrossChain.mkRemoteAttestation (mkUID (key_of 60)) revision valid_until true.
Definition cc_empty : State CrossChain.CcSig unit := empty_state CrossChain.CcSig tt.
Definition cc_history : list (Env * CrossChain.CcCall) :=
  [ (sample_env 100 [root_admin], CrossChain.CcInit root_admin registry_id [1] [2]);
    (sample_env 1000 [], CrossChain.CcExecute [1] [7] [2] (CrossChain.encode_v1 (cc_status 1 2000)));
    (sample_env 1500 [], CrossChain.CcExecute [1] [8] [2] (CrossChain.encode_v1 (cc_status 2 3000)));
    (sample_env 1600 [], CrossChain.CcExecute [1] [7] [2] (CrossChain.encode_v1 (cc_status 1 9000))) ].

(** A SAS contract that confirms every attestation. *)
#[export] Instance toy_sas : ZkVerifier.ZkDeps unit := {|
  ZkVerifier.sas_verify_attestation _ _ := fun _ x => Some (Val true, x);
  ZkVerifier.sas_get_valid_from _ _ := fun _ x => Some (Val 0, x)
|}.
Definition zk_proof (n : Z) : ZkVerifier.ZkAttestationProof :=
  ZkVerifier.mkZkAttestationProof (mkUID (key_of 60)) zero_uid (key_of n) (key_of 70)
    (toy_digest (key_of 70 ++ key_of n)) 1000.
Definition zk_empty : State ZkVerifier.ZkSig unit := empty_state ZkVerifier.ZkSig tt.
Definition zk_history : list (Env * ZkVerifier.ZkCall) :=
  [ (sample_env 100 [root_admin], ZkVerifier.ZkInit root_admin sas_id);
    (sample_env 1000 [], ZkVerifier.ZkVerify (zk_proof 1));
    (sample_env 1001 [], ZkVerifier.ZkVerify (zk_proof 1));
    (sample_env 1002 [], ZkVerifier.ZkVerify (zk_proof 2)) ].

(** ** Resolvers *)

(** The time-window resolver accepts an attestation exactly when it is
    initialised and the recipient's window is over, and over every history
    that leaves the cooldown alone the acceptances of one recipient are spaced
    by it. *)
Theorem cooldown_respected {X} (s : State TimeWindow.TwSig X) cfg :
  inst s TimeWindow.TwConfig = Some cfg -> TimeWindow.cooldown_period_seconds cfg <> 0 ->
  (forall a e, accepts e s a <-> TimeWindow.window_over s (recipient a) (timestamp e))
  /\ forall r h, Forall (fun '(_, c) => TimeWindow.keeps_cooldown c) h ->
     Sorted (fun t1 t2 => sat_add u64_max t1 (TimeWindow.cooldown_period_seconds cfg) <= t2)
       (TimeWindow.accepted_times r h s).
Proof.
  intros Hcfg Hn; split.
  - intros a e; split.
    + by intros (s' & (_ & Hw & _)%TimeWindow.on_attest_ok).
    + intros Hw; apply TimeWindow.on_attest_run; eauto.
  - intros r h Hh; by apply TimeWindow.accepted_times_spaced.
Qed.
Lemma cooldown_respected_witness :
  TimeWindow.accepted_times bob tw_history tw_start = [1000; 4600]
  /\ Sorted (fun t1 t2 => sat_add u64_max t1 3600 <= t2)
       (TimeWindow.accepted_times bob tw_history tw_start).
Proof.
  split; [vm_compute; reflexivity|].
  apply (cooldown_respected tw_start (TimeWindow.mkTimeWindowConfig root_admin 3600)).
  - vm_compute; reflexivity.
  - done.
  - by repeat constructor.
Defined.

(** The blacklist is a set: from an empty one, after any history, queries and
    verdicts follow the set built by the accepted updates, in order; an update
    needs the authorisation of the administrator, who stays. *)
Theorem blacklist_is_a_set {X} (h : list (Env * Blacklist.BlCall)) (s : State Blacklist.BlSig X) :
  (forall who, inst s (Blacklist.Blocked who) = None) ->
  let s' := run_calls Blacklist.bl_exec h s in
  let listed := Blacklist.blacklist_after h s (fun _ => false) in
  let guarded {A} (r : result Blacklist.BlacklistError A) :=
    if bool_decide (inst s' Blacklist.Admin = None) then Err (Panic Blacklist.BlNotInitialized) else r in
  (forall who e, Blacklist.is_blacklisted who e s' = guarded (Ok (listed who, s')))
  /\ (forall a e, Blacklist.on_attest a e s' = guarded
        (if listed (attester a) || listed (recipient a) then Err (Panic Blacklist.BlBlockedParty)
         else Ok (tt, s')))
  /\ forall c e s'' admin, inst s' Blacklist.Admin = Some admin ->
       Blacklist.bl_exec c e s' = Ok (tt, s'') ->
       inst s'' Blacklist.Admin = Some admin
       /\ (authorized e admin = true \/ forall f, Blacklist.bl_step f c = f).
Proof.
  intros Hs s' listed guarded.
  assert (Hl : Blacklist.lists listed s').
  { apply Blacklist.history_lists; intros who; rewrite Hs; by split; [intros []|]. }
  split_and!; intros.
  - by apply Blacklist.is_blacklisted_eq.
  - by apply Blacklist.blacklist_verdict.
  - by eapply Blacklist.exec_admin.
Qed.
Lemma blacklist_is_a_set_witness :
  Blacklist.is_blacklisted bob (sample_env 500 []) (run_calls Blacklist.bl_exec bl_history bl_empty)
  = Ok (true, run_calls Blacklist.bl_exec bl_history bl_empty).
Proof.
  destruct (blacklist_is_a_set bl_history bl_empty (fun _ => eq_refl)) as [Hq _].
  rewrite Hq; vm_compute; reflexivity.
Defined.

(** C29: After any history the multisig resolver accepts an attestation exactly
    when its data is a list of endorsements of which the first ones of each
    signer, from distinct configured signers, all verify over the rest of the
    attestation and reach the threshold, which is at least one. *)
Theorem endorsement_threshold {X} `{Multisig.Dalek} (h : list (Env * Multisig.MsCall))
    (s : State Multisig.MsSig X) (a : Attestation) (e : Env) :
  inst s Multisig.CFG = None -> Forall (fun '(_, c) => Multisig.call_typed c) h ->
  let s' := run_calls Multisig.ms_exec h s in
  accepts e s' a
  <-> exists config l, inst s' Multisig.CFG = Some config
      /\ 1 <= Multisig.threshold config <= len (Multisig.signers config)
      /\ data a = Multisig.encode_endorsements l /\ Forall Multisig.endorsement_ok l
      /\ NoDup (Multisig.signer <$> Multisig.firsts [] l)
      /\ Forall (Multisig.endorses config (Multisig.endorsed_digest e a)) (Multisig.firsts [] l)
      /\ Multisig.threshold config <= len (Multisig.firsts [] l).
Proof.
  intros Hs Hh s'.
  assert (Hc : Multisig.configured s').
  { apply (run_calls_inv Multisig.ms_exec Multisig.configured (fun _ c => Multisig.call_typed c)); [..|done|].
    - intros; by eapply Multisig.exec_configured.
    - intros config; by rewrite Hs. }
  unfold accepts; cbn [Resolver.on_attest Multisig.multisig_resolver]; rewrite Multisig.endorsed_iff; split.
  - intros (config & l & Hi & Hd & Hl & Hv & Ht); exists config, l; split_and!; try done;
      [by apply Hc|by apply Hc|apply Multisig.firsts_nodup].
  - intros (config & l & Hi & _ & Hd & Hl & _ & Hv & Ht); by exists config, l.
Qed.
Lemma endorsement_threshold_witness :
  exists config l, inst (run_calls Multisig.ms_exec ms_history ms_empty) Multisig.CFG = Some config
    /\ NoDup (Multisig.signer <$> Multisig.firsts [] l)
    /\ Multisig.threshold config <= len (Multisig.firsts [] l).
Proof.
  destruct (proj1 (endorsement_threshold ms_history ms_empty
    (ms_att [ms_endorsement 1; ms_endorsement 1; ms_endorsement 3]) (sample_env 300 []) eq_refl
    ltac:(by repeat constructor)))
    as (config & l & Hc & _ & _ & _ & Hn & _ & Ht).
  - eexists; apply run_final; vm_compute; reflexivity.
  - exists config, l; exact (conj Hc (conj Hn Ht)).
Defined.

(** C31: After any history the stored configuration of the token gate is well
    formed, and an attestation is accepted exactly when the token reports the
    minimum for the recipient and the fee, if there is one, was collected
    with the attester's authorisation. *)
Theorem token_gate_decides {X} `{TokenGate.TokenDeps X} (h : list (Env * TokenGate.TgCall))
    (s : State TokenGate.TgSig X) :
  pget s TokenGate.CONFIG_KEY = None ->
  let s' := run_calls TokenGate.tg_exec h s in
  (forall c, pget s' TokenGate.CONFIG_KEY = Some c -> TokenGate.config_ok c)
  /\ forall a e s'', TokenGate.on_attest a e s' = Ok (tt, s'')
     <-> exists c balance x1 x', pget s' TokenGate.CONFIG_KEY = Some c /\ s'' = upd_ext x' s'
         /\ TokenGate.token_balance (TokenGate.tg_token c) (recipient a) e (ext s') = Some (Val balance, x1)
         /\ TokenGate.min_balance c <= balance /\ TokenGate.fee_paid e c (attester a) x1 x'.
Proof.
  intros Hs s'.
  assert (Hok : forall c, pget s' TokenGate.CONFIG_KEY = Some c -> TokenGate.config_ok c)
    by (apply TokenGate.history_config; intros c; by rewrite Hs).
  split; [done|]; intros; by apply TokenGate.token_gate_iff.
Qed.
Lemma token_gate_decides_witness :
  TokenGate.config_ok (TokenGate.mkConfig root_admin gold 10 5 TokenGate.FeeTransfer)
  /\ exists x', TokenGate.fee_paid (sample_env 400 [alice])
       (TokenGate.mkConfig root_admin gold 10 5 TokenGate.FeeTransfer) alice [(alice, 100); (bob, 20)] x'.
Proof.
  destruct (token_gate_decides tg_history tg_empty eq_refl) as [Hok Hiff]; split.
  - apply Hok; vm_compute; reflexivity.
  - destruct (proj1 (Hiff (tw_att bob) (sample_env 400 [alice])
      (final (TokenGate.on_attest (tw_att bob)) (sample_env 400 [alice])
         (run_calls TokenGate.tg_exec tg_history tg_empty))))
      as (c & balance & x1 & x' & Hc & _ & Hb & _ & Hp).
    { apply run_final; vm_compute; reflexivity. }
    vm_compute in Hc; injection Hc as <-; vm_compute in Hb; injection Hb as _ <-.
    exists x'; exact Hp.
Defined.

(** ** The cross-chain verifier *)

(** C28: A positive verdict on a remote attestation, after any history on a fresh
    verifier, rests on a message of that history: it came from the configured
    source, through the gateway's approval or the authorised endpoint, its
    validity had begun to run for at most a day and has not ended, and it was
    newer than the verdict it replaced. *)
Theorem remote_verdicts_are_authentic {X} `{CrossChain.CrossChainDeps X}
    (h : list (Env * CrossChain.CcCall)) (s : State CrossChain.CcSig X) (u : UID) (e : Env) s' :
  (forall v, pget s (CrossChain.Status v) = None) ->
  CrossChain.verify_remote u e (run_calls CrossChain.cc_exec h s) = Ok (true, s') ->
  exists h1 e1 c h2 st, h = h1 ++ (e1, c) :: h2 /\ CrossChain.ra_uid st = u
    /\ CrossChain.delivered c e1 (run_calls CrossChain.cc_exec h1 s) st
    /\ CrossChain.ra_valid st = true
    /\ timestamp e < CrossChain.ra_valid_until st
    /\ timestamp e1 < CrossChain.ra_valid_until st <= timestamp e1 + CrossChain.MAX_VALIDITY_SECONDS.
Proof.
  intros Hs Hr.
  destruct (CrossChain.verify_remote_answers u e (run_calls CrossChain.cc_exec h s)) as (s1 & Ha & _).
  rewrite Hr in Ha; injection Ha as Hb _.
  destruct (pget _ (CrossChain.Status u)) as [st|] eqn:Hst; [|done].
  symmetry in Hb; apply andb_true_iff in Hb as [Hv Hu%Z.ltb_lt].
  apply CrossChain.status_origin in Hst as (Hid & h1 & e1 & c & h2 & Hh & Hd); [|done].
  pose proof (CrossChain.accepted_validity _ _ (CrossChain.dl_validity _ _ _ _ Hd) Hv) as [? ?].
  exists h1, e1, c, h2, st; by split_and!.
Qed.
Lemma remote_verdicts_are_authentic_witness :
  exists e1 c st, (e1, c) ∈ cc_history /\ CrossChain.ra_uid st = mkUID (key_of 60)
    /\ 2500 < CrossChain.ra_valid_until st.
Proof.
  destruct (remote_verdicts_are_authentic cc_history cc_empty (mkUID (key_of 60)) (sample_env 2500 [])
    (final (CrossChain.verify_remote (mkUID (key_of 60))) (sample_env 2500 [])
       (run_calls CrossChain.cc_exec cc_history cc_empty)))
    as (h1 & e1 & c & h2 & st & Hh & Hid & _ & _ & Hu & _).
  - done.
  - apply run_final; vm_compute; reflexivity.
  - exists e1, c, st; split_and!; [|exact Hid|exact Hu].
    rewrite Hh; apply elem_of_app; right; apply list_elem_of_here.
Defined.

(** The decoders read back what the wire format of the payloads encodes, in
    both versions. *)
Theorem wire_format_round_trip st schema evm strkey (data : bytes) :
  CrossChain.status_typed st -> length (uid_bytes schema) = 32%nat -> length evm = 20%nat ->
  length strkey = 56%nat -> len data <= CrossChain.MAX_PROOF_DATA_LEN ->
  CrossChain.decode_status (CrossChain.encode_v1 st) = Some st
  /\ CrossChain.decode_status (CrossChain.encode_v2 st schema evm strkey data) = Some st
  /\ CrossChain.decode_proof_fields (CrossChain.encode_v2 st schema evm strkey data)
     = Some (schema, evm, strkey, data).
Proof.
  intros; split; [by apply CrossChain.decode_encode_v1|by apply CrossChain.decode_encode_v2].
Qed.
Lemma wire_format_round_trip_witness :
  CrossChain.decode_proof_fields
    (CrossChain.encode_v2 (cc_status 1 2000) (mkUID (key_of 5)) (replicate 20 9) (replicate 56 71) [1; 2; 3])
  = Some (mkUID (key_of 5), replicate 20 9, replicate 56 71, [1; 2; 3]).
Proof.
  destruct (wire_format_round_trip (cc_status 1 2000) (mkUID (key_of 5)) (replicate 20 9) (replicate 56 71)
    [1; 2; 3]) as (_ & _ & Hd); [..|exact Hd]; [split|..]; vm_compute; try done; by split.
Defined.

(** ** The verifier of private attestations *)

(** C30: Over every history the accepted proofs have distinct nullifiers, and each
    was fresh, bound to its commitment and recent; one that names an
    attestation was confirmed by SAS in the state SAS had when the call began.
    A proof with the zero UID names none, and SAS is not asked about it. *)
Theorem private_proofs_accepted_once {X} `{ZkVerifier.ZkDeps X} (h : list (Env * ZkVerifier.ZkCall))
    (s : State ZkVerifier.ZkSig X) :
  NoDup (ZkVerifier.zp_nullifier <$> ZkVerifier.accepted_proofs h s)
  /\ forall h1 e c h2 s1, h = h1 ++ (e, c) :: h2 ->
       ZkVerifier.zk_exec c e (run_calls ZkVerifier.zk_exec h1 s) = Ok (tt, s1) ->
       Forall (ZkVerifier.proof_ok e (run_calls ZkVerifier.zk_exec h1 s)) (ZkVerifier.proof_of c).
Proof.
  split; [apply ZkVerifier.accepted_nullifiers|].
  intros h1 e c h2 s1 _ Hr; by apply ZkVerifier.exec_nullifiers in Hr as [? _].
Qed.
Lemma private_proofs_accepted_once_witness :
  ZkVerifier.accepted_proofs zk_history zk_empty = [zk_proof 1; zk_proof 2]
  /\ NoDup (ZkVerifier.zp_nullifier <$> ZkVerifier.accepted_proofs zk_history zk_empty).
Proof.
  split; [vm_compute; reflexivity|]; apply (private_proofs_accepted_once zk_history zk_empty).
Defined.

(** ** SAS over the registry and a resolver *)

(** C26: When SAS is configured with the registry and [attest] succeeds, the
    registry held the schema of the attestation when the call began; and when
    the resolver of that schema is the resolver contract [R] of this
    repository, [R] accepted the attestation in the state it had then. *)
Theorem issuance_respects_the_resolver {C Y} `{Resolver C Y} (others : Deps (State RegSig (State C Y)))
    (registry_address resolver_address : Address) a e (s : State SasSig (State RegSig (State C Y))) u s' :
  @attest _ (with_registry_and_resolver others registry_address resolver_address) a e s = Ok (u, s') ->
  inst s SCHEMA_REGISTRY = Some registry_address ->
  exists schema, visible (ext s) (att_schema_uid a) = Some schema
    /\ (sr_resolver schema = resolver_address -> accepts e (ext (ext s)) a).
Proof. apply attest_consulted. Qed.

(** The registry with alice's schemas, whose resolver is the blacklist, which
    lists bob; the other contracts do nothing. *)
#[local] Instance idle_token : RegDeps (State Blacklist.BlSig unit) := {|
  fee_token_transfer _ _ _ _ := reply tt
|}.
Definition over_blacklist : Deps (State RegSig (State Blacklist.BlSig unit)) :=
  with_registry_and_resolver obliging registry_id resolver_id.
Definition guarded_start : State SasSig (State RegSig (State Blacklist.BlSig unit)) :=
  @SasCalls.run_history _ over_blacklist [sample_init]
    (empty_state SasSig (RegCalls.run_history [reg_init; reg_register]
       (empty_state RegSig (run_calls Blacklist.bl_exec bl_history bl_empty)))).
(** Alice attests about bob, and about the administrator. *)
Definition score_att (r : Address) : Attestation :=
  mkAttestation (attestation_uid (sample_env 0 []) score_uid r alice [7]) score_uid
    0 5000 0 zero_uid r alice true [7] 0.

Lemma score_resolver :
  sr_resolver <$> visible (ext guarded_start) score_uid = Some resolver_id.
Proof. vm_compute; reflexivity. Qed.

Lemma issuance_respects_the_resolver_witness :
  value_of (@attest _ over_blacklist (score_att bob)) (sample_env 1000 [alice]) guarded_start = None
  /\ accepts (sample_env 1000 [alice]) (ext (ext guarded_start)) (score_att root_admin).
Proof.
  split; [vm_compute; reflexivity|].
  destruct (issuance_respects_the_resolver obliging registry_id resolver_id (score_att root_admin)
    (sample_env 1000 [alice]) guarded_start (uid (score_att root_admin))
    (final (@attest _ over_blacklist (score_att root_admin)) (sample_env 1000 [alice]) guarded_start))
    as (schema & Hv & Hacc).
  - apply run_final; vm_compute; reflexivity.
  - vm_compute; reflexivity.
  - apply Hacc; pose proof score_resolver as Hr.
    change (att_schema_uid (score_att root_admin)) with score_uid in Hv; rewrite Hv in Hr.
    by injection Hr as ->.
Defined.
