(* ===== verification/ComposeIndexer.v ===== *)
(** * SAS over the indexer

    SAS bound to the indexer of this repository: the indexer's operations
    answer SAS's notifications at the indexer's address, on the indexer's own
    state, which is part of the state of the other contracts.  Over any history
    in which the binding stays and is strict, the index agrees with the records
    of SAS. *)

From S2P Require Import IdxState IdxWrite IdxQuery IdxCalls IdxChunks IdxRefine IdxAnswers IdxProps.
From S2P Require Import Prelude Host Values Common TypedData Merkle Validation Sample.
From S2P Require Import SasState SasCore SasAdmin SasFees SasIssue SasAttest SasRevoke SasQuery.
From S2P Require Import SasCalls SasFrame SasRecord SasIssueSpec SasLife SasAuthority.
From S2P Require Import SasTime SasSample.

Section compose.
Context {Y : Type} `{IdxDeps Y} (others : Deps (State IdxSig Y)) (indexer_address : Address).

(** What a contract sees that SAS calls: its invoker is authorised. *)
Definition callee_env (e : Env) : Env := {|
  timestamp := timestamp e; sequence := sequence e; network_id := network_id e;
  current_contract := indexer_address;
  authorized a := bool_decide (a = current_contract e) || authorized e a;
  max_entry_ttl := max_entry_ttl e; min_persistent_ttl := min_persistent_ttl e;
  min_temp_ttl := min_temp_ttl e; sha256 := sha256 e; keccak256 := keccak256 e;
  ed25519_valid := ed25519_valid e; xdr_address := xdr_address e; xdr_bytes := xdr_bytes e;
  xdr_string := xdr_string e; xdr_uid := xdr_uid e
|}.

(** A nested call of the indexer: a failure is an error reply. *)
Definition notify (c : IdxCall) : xcall (State IdxSig Y) unit :=
  fun e ix => match idx_exec c (callee_env e) ix with
              | Ok (_, ix') => Some (Val tt, ix')
              | Err _ => None
              end.
Definition at_indexer (f g : xcall (State IdxSig Y) unit) (callee : Address)
    : xcall (State IdxSig Y) unit :=
  if bool_decide (callee = indexer_address) then f else g.

(** The indexer has no function [handle_renew]. *)
Definition with_indexer : Deps (State IdxSig Y) := {|
  registry_SASREG := @registry_SASREG _ others;
  registry_sasreg := @registry_sasreg _ others;
  registry_get_schema := @registry_get_schema _ others;
  registry_is_schema_quarantined := @registry_is_schema_quarantined _ others;
  registry_get_max_ttl := @registry_get_max_ttl _ others;
  registry_is_authorized := @registry_is_authorized _ others;
  registry_is_attester_authorized := @registry_is_attester_authorized _ others;
  registry_is_schema_restricted := @registry_is_schema_restricted _ others;
  registry_get_schema_policy := @registry_get_schema_policy _ others;
  registry_get_creator := @registry_get_creator _ others;
  registry_get_creator_royalty := @registry_get_creator_royalty _ others;
  registry_get_schema_frost_group := @registry_get_schema_frost_group _ others;
  resolver_on_attest := @resolver_on_attest _ others;
  resolver_on_revoke := @resolver_on_revoke _ others;
  indexer_index_attestation callee u a v b t :=
    at_indexer (notify (IdxIndexAttestation u a v b t)) (@indexer_index_attestation _ others callee u a v b t) callee;
  indexer_set_valid_from callee u t :=
    at_indexer (notify (IdxSetValidFrom u t)) (@indexer_set_valid_from _ others callee u t) callee;
  indexer_handle_revoke callee u :=
    at_indexer (notify (IdxHandleRevoke u)) (@indexer_handle_revoke _ others callee u) callee;
  indexer_handle_replace callee u v :=
    at_indexer (notify (IdxHandleReplace u v)) (@indexer_handle_replace _ others callee u v) callee;
  indexer_handle_renew callee u t :=
    at_indexer (fun _ _ => None) (@indexer_handle_renew _ others callee u t) callee;
  token_transfer := @token_transfer _ others;
  token_balance := @token_balance _ others;
  zk_verify_proof := @zk_verify_proof _ others
|}.
#[local] Existing Instance with_indexer.

(** ** The index advances *)

(** It stays an index; what it holds stays, and what is retired stays so. *)
Record advances (cap : nat) (ix ix' : State IdxSig Y) : Prop := {
  av_log : forall g, refines cap g ix -> exists g', refines cap g' ix' /\ g ⊆ g';
  av_retired : forall u, is_active ix u = false -> is_active ix' u = false
}.
#[local] Instance advances_preorder cap : PreOrder (advances cap).
Proof.
  split; [by intros ix; split; [intros g Hg; exists g|]|].
  intros x y z [A1 B1] [A2 B2]; split; [|auto].
  intros g (g1 & Hg1 & S1)%A1; destruct (A2 _ Hg1) as (g2 & Hg2 & S2); exists g2; split; [done|].
  by transitivity g1.
Qed.

Context (cap : nat).

(** Calls that do so. *)
Class AdvanceOnly (D : Deps (State IdxSig Y)) : Prop := {
  od_SASREG r : respects (advances cap) (@registry_SASREG _ D r);
  od_sasreg r : respects (advances cap) (@registry_sasreg _ D r);
  od_get_schema r u : respects (advances cap) (@registry_get_schema _ D r u);
  od_is_schema_quarantined r u : respects (advances cap) (@registry_is_schema_quarantined _ D r u);
  od_get_max_ttl r u : respects (advances cap) (@registry_get_max_ttl _ D r u);
  od_is_authorized r u a : respects (advances cap) (@registry_is_authorized _ D r u a);
  od_is_attester_authorized r u a : respects (advances cap) (@registry_is_attester_authorized _ D r u a);
  od_is_schema_restricted r u : respects (advances cap) (@registry_is_schema_restricted _ D r u);
  od_get_schema_policy r u : respects (advances cap) (@registry_get_schema_policy _ D r u);
  od_get_creator r u : respects (advances cap) (@registry_get_creator _ D r u);
  od_get_creator_royalty r u : respects (advances cap) (@registry_get_creator_royalty _ D r u);
  od_get_schema_frost_group r u : respects (advances cap) (@registry_get_schema_frost_group _ D r u);
  od_on_attest r a : respects (advances cap) (@resolver_on_attest _ D r a);
  od_on_revoke r a : respects (advances cap) (@resolver_on_revoke _ D r a);
  od_index_attestation r u a v b t : respects (advances cap) (@indexer_index_attestation _ D r u a v b t);
  od_set_valid_from r u t : respects (advances cap) (@indexer_set_valid_from _ D r u t);
  od_handle_revoke r u : respects (advances cap) (@indexer_handle_revoke _ D r u);
  od_handle_replace r u v : respects (advances cap) (@indexer_handle_replace _ D r u v);
  od_handle_renew r u t : respects (advances cap) (@indexer_handle_renew _ D r u t);
  od_transfer t a b z : respects (advances cap) (@token_transfer _ D t a b z);
  od_balance t a : respects (advances cap) (@token_balance _ D t a);
  od_verify_proof r b l : respects (advances cap) (@zk_verify_proof _ D r b l)
}.

Lemma log_call_grows g c : g ⊆ log_call g c.
Proof.
  destruct c; simpl; try done; destruct (decide _); [done|]; apply list_subseteq_app_l; done.
Qed.
Lemma exec_advances c e ix ix' :
  keeps_capacity cap c -> idx_exec c e ix = Ok (tt, ix') -> advances cap ix ix'.
Proof.
  intros Hc Hr; split.
  - intros g Hg; exists (log_call g c); split; [by eapply exec_refines|apply log_call_grows].
  - intros u Hu; pose proof (transact_active e c ix u) as Ht.
    unfold transact_call in Ht; rewrite Hr, Hu in Ht; exact Ht.
Qed.
Lemma notify_advances c : keeps_capacity cap c -> respects (advances cap) (notify c).
Proof.
  intros Hc e ix r ix'; unfold notify; destruct (idx_exec c _ ix) as [[[] x]|] eqn:Hr; [|done].
  intros [= _ <-]; by eapply exec_advances.
Qed.
Lemma at_indexer_advances f g callee :
  respects (advances cap) f -> respects (advances cap) g ->
  respects (advances cap) (at_indexer f g callee).
Proof. unfold at_indexer; by destruct (bool_decide _). Qed.

Context `{!AdvanceOnly others}.
#[local] Instance with_indexer_advances : AdvanceOnly with_indexer.
Proof.
  match goal with Ho : AdvanceOnly others |- _ => destruct Ho end; split; try done; intros;
    apply at_indexer_advances; try done; by apply notify_advances.
Qed.

#[local] Hint Resolve od_SASREG od_sasreg od_get_schema od_is_schema_quarantined od_get_max_ttl od_is_authorized
  od_is_attester_authorized od_is_schema_restricted od_get_schema_policy od_get_creator
  od_get_creator_royalty od_get_schema_frost_group od_on_attest od_on_revoke od_index_attestation
  od_set_valid_from od_handle_revoke od_handle_replace od_handle_renew od_transfer od_balance
  od_verify_proof : sas.

(** ** Agreement *)

Implicit Types (s : State SasSig (State IdxSig Y)) (e : Env).

Definition bound s : Prop :=
  inst s INDEXER = Some indexer_address /\ inst s INDEXER_STRICT = Some true.
(** The index holds the attestation [a] under [u]. *)
Definition filed (ix : State IdxSig Y) (u : UID) (a : Attestation) : Prop :=
  exists r, pget ix (INDEXED_KEY u) = Some r
    /\ ir_recipient r = recipient a /\ ir_schema r = att_schema_uid a /\ ir_attester r = attester a.
Record agrees s : Prop := {
  ag_index : exists g, refines cap g (ext s);
  ag_filed : forall u a, read_record s u = Some a -> filed (ext s) u a;
  ag_retired : forall u, is_Some (pget s (TimestampAnchorKey u true)) -> is_active (ext s) u = false
}.
Definition followed e s s' : Prop :=
  is_u64 (timestamp e) -> store_ok s -> bound s -> agrees s -> store_ok s' /\ bound s' /\ agrees s'.
#[local] Instance followed_preorder : PreorderE followed.
Proof.
  intros e; split; [done|]; intros s1 s2 s3 H12 H23 Hts Hok Hb Ha.
  destruct (H12 Hts Hok Hb Ha) as (? & ? & ?); by apply H23.
Qed.

Lemma filed_advances ix ix' u a :
  (exists g, refines cap g ix) -> advances cap ix ix' -> filed ix u a -> filed ix' u a.
Proof.
  intros [g Hg] [Hlog _] (r & Hr & ?); destruct (Hlog g Hg) as (g' & Hg' & Hsub).
  exists r; split; [|done]; apply (rf_record _ _ _ Hg'), Hsub, (rf_record _ _ _ Hg), Hr.
Qed.

(** Records keep their parties, or are filed; revocations are old, or shown. *)
Lemma followed_step e s s' :
  advances cap (ext s) (ext s') -> (bound s -> bound s') ->
  (is_u64 (timestamp e) -> store_ok s -> bound s -> agrees s -> store_ok s'
   /\ (forall u a', read_record s' u = Some a' ->
        filed (ext s') u a'
        \/ exists a, read_record s u = Some a /\ recipient a = recipient a'
             /\ att_schema_uid a = att_schema_uid a' /\ attester a = attester a')
   /\ (forall u, is_Some (pget s' (TimestampAnchorKey u true)) ->
        is_active (ext s') u = false \/ is_Some (pget s (TimestampAnchorKey u true)))) ->
  followed e s s'.
Proof.
  intros Hav Hbound Hstep Hts Hok Hb Ha; destruct (Hstep Hts Hok Hb Ha) as (Hok' & Hrec & Hanc).
  split_and!; [done|auto|]; split.
  - destruct (ag_index _ Ha) as [g Hg]; destruct (av_log _ _ _ Hav g Hg) as (g' & ? & _); eauto.
  - intros u a' [?|(a & Hu & H1 & H2 & H3)]%Hrec; [done|]; unfold filed; rewrite <- H1, <- H2, <- H3.
    apply (filed_advances (ext s)); [apply Ha|done|by apply Ha].
  - intros u [?|Hu]%Hanc; [done|]; apply (av_retired _ _ _ Hav); by apply Ha.
Qed.

(** Operations that write neither a record, an anchor nor the binding. *)
Definition unbinding (k : SasIKey) : Prop := k <> INDEXER /\ k <> INDEXER_STRICT.
Lemma bound_touches P e s s' : touches unbinding P e s s' -> bound s -> bound s'.
Proof. intros [Hi _] [? ?]; split; rewrite Hi; try done; unfold unbinding; tauto. Qed.

Lemma followed_touches {A} (m : M SasSig (State IdxSig Y) A) :
  preserves (touches unbinding no_attestation) m -> preserves (through (advances cap)) m ->
  preserves followed m.
Proof.
  intros Hm Ht e s r s' Hr; apply Ht in Hr as Hav; apply Hm in Hr as T.
  apply followed_step; [done|by eapply bound_touches|]; intros Hts Hok _ _.
  assert (forall u, read_record s' u = read_record s u) as Hread.
  { intros u; eapply read_record_touch; [exact T|]; intros k Hk Hn; by apply (Hn u); left. }
  split_and!.
  - destruct Hok as [Hok Hl], T as [_ Hp]; split; [intros u a; rewrite Hread; apply Hok|].
    intros u a; rewrite !Hp; [apply Hl|..]; intros Hn; apply (Hn u); left; unfold record_key; auto.
  - intros u a'; rewrite Hread; eauto 10.
  - intros u; destruct T as [_ Hp]; rewrite Hp; [by right|]; intros Hn; apply (Hn u); right; eauto.
Qed.
#[local] Hint Extern 5 (preserves followed _) => apply followed_touches : sas.
#[local] Hint Extern 1 (unbinding _) => (split; discriminate) : sas.

(** Steps that keep the binding. *)
Definition steady e s s' : Prop := through (advances cap) e s s' /\ (bound s -> bound s').
#[local] Instance steady_preorder : PreorderE steady.
Proof.
  intros e; split; [by intros s; split; [reflexivity|]|].
  intros s1 s2 s3 [A1 B1] [A2 B2]; split; [by transitivity s2|auto].
Qed.
Lemma steady_touches {A} (m : M SasSig (State IdxSig Y) A) :
  preserves (touches unbinding (fun _ => True)) m -> preserves (through (advances cap)) m -> preserves steady m.
Proof. intros Hm Ht e s r s' Hr; split; [by eapply Ht|]; apply Hm in Hr; by eapply bound_touches. Qed.
#[local] Hint Extern 5 (preserves steady _) => apply steady_touches : sas.
Lemma steady_index e s s' :
  steady e s s' -> (exists g, refines cap g (ext s)) -> exists g, refines cap g (ext s').
Proof. intros [Hav _] [g Hg]; destruct (av_log _ _ _ Hav g Hg) as (g' & ? & _); eauto. Qed.

(** ** Issuing *)

(** The indexer files what it accepts. *)
Lemma index_attestation_filed u a v b t e (ix ix' : State IdxSig Y) :
  (exists g, refines cap g ix) -> index_attestation u a v b t e ix = Ok (tt, ix') ->
  pget ix' (INDEXED_KEY u) = Some (mkIndexRecord a v b t).
Proof.
  intros [g Hg] Hr; pose proof (index_attestation_refines _ _ _ _ _ _ _ _ _ _ _ Hg Hr) as Hg'.
  apply (rf_record _ _ _ Hg'); unfold log_call; case_decide as Hu.
  2: { apply elem_of_app; right; apply list_elem_of_here. }
  unfold index_attestation, require_sas in Hr; idx_inv.
  apply list_elem_of_fmap in Hu as ([u' r] & -> & Hin); simpl in *.
  pose proof (proj2 (rf_record _ _ _ Hg _ _) Hin) as Hp.
  match goal with Hs : same_values ix ?x |- _ => rewrite (sv_pget _ _ Hs (INDEXED_KEY u')), Hp in Hr end.
  idx_inv; bool_facts; by subst.
Qed.

Lemma push_filed a e s s' :
  (exists g, refines cap g (ext s)) -> push_to_indexer indexer_address a e s = Ok (true, s') ->
  filed (ext s') (uid a) a.
Proof.
  intros Hg; unfold push_to_indexer; intros (r & s1 & Ht & [Hb ->]%ret_ok)%bind_ok.
  apply try_invoke_ok in Ht; symmetry in Hb; apply bool_decide_eq_true_1 in Hb as [? Hb].
  destruct r; try discriminate Hb; destruct Ht as (x' & Hx & ->).
  cbn [indexer_index_attestation with_indexer] in Hx; unfold at_indexer, notify in Hx.
  rewrite bool_decide_true in Hx by done; simpl idx_exec in Hx.
  destruct (index_attestation _ _ _ _ _ _ _) as [[[] ix']|] eqn:Hi; simplify_eq.
  apply index_attestation_filed in Hi; [|done]; eexists; split_and!; [exact Hi|done..].
Qed.

Lemma notify_filed a e s u s' :
  (exists g, refines cap g (ext s)) -> inst s INDEXER_STRICT = Some true ->
  notify_indexer_of_issuance indexer_address a e s = Ok (u, s') -> filed (ext s') (uid a) a.
Proof.
  intros Hg Hstrict; unfold notify_indexer_of_issuance; intros Hr; apply bind_ok in Hr as (pushed & s1 & Hp & Hr).
  assert (Hav : advances cap (ext s) (ext s1)).
  { refine ((_ : preserves (through (advances cap)) _) _ _ _ _ Hp); pres_open. }
  destruct pushed.
  - assert (Hav' : advances cap (ext s1) (ext s')).
    { refine ((_ : preserves (through (advances cap)) _) _ _ _ _ Hr); pres_open. }
    apply (filed_advances (ext s1)); [|done|by eapply push_filed].
    destruct Hg as [g Hg]; destruct (av_log _ _ _ Hav g Hg) as (g' & ? & _); eauto.
  - assert (inst s1 INDEXER_STRICT = Some true) as Hs1.
    { rewrite <- Hstrict; apply (fp_push_to_indexer (fun _ => False) (fun _ => False) _ _ _ _ _ _ Hp); tauto. }
    run_inv; by rewrite Hs1 in *.
Qed.

Lemma steady_attest_internal a : preserves steady (attest_internal a).
Proof. pres_open. Qed.
Lemma steady_revoke_internal u : preserves steady (revoke_internal u).
Proof. pres_open. Qed.

Lemma attest_internal_filed a e s u s' :
  bound s -> (exists g, refines cap g (ext s)) ->
  attest_internal a e s = Ok (u, s') -> filed (ext s') (uid a) a.
Proof.
  intros Hb Hg (s1 & s2 & Hr & T1 & _ & Hx1 & ->)%in_callback_context_body; rewrite <- Hx1 in Hg.
  assert (bound s1) as Hb1.
  { destruct T1 as [Hi _], Hb; split; rewrite Hi; try done; by intros [|]. }
  clear Hb T1 Hx1; unfold attest_body, store_issued in Hr; sas_inv.
  match goal with Hf : validate_fields _ _ ?s2 = _, Hn : match inst ?x INDEXER with Some _ => _ | None => _ end _ _ = _ |- _ =>
    assert (steady e s2 x) as Hst by chain; destruct (proj2 Hst Hb1) as [Hix Hstrict];
    rewrite Hix in Hn; change (ext s1) with (ext s2) in Hg;
    by apply (notify_filed _ _ _ _ _ (steady_index _ _ _ Hst Hg) Hstrict) in Hn end.
Qed.

(** ** Every entry point *)

Abbreviation all_rights := (mkRights (fun _ _ _ => True) (fun _ _ _ => True) (fun _ => True)).
Lemma life_store_ok e s s' :
  life all_rights e s s' -> is_u64 (timestamp e) -> store_ok s -> store_ok s'.
Proof. intros Hl Hts [Hok Hal]; destruct (Hl Hts Hok Hal) as (? & ? & _); by split. Qed.

Lemma followed_attest_internal a : att_typed a -> preserves followed (attest_internal a).
Proof.
  intros Hty e s u s' Hr; destruct (steady_attest_internal a _ _ _ _ Hr) as [Hav Hb].
  apply followed_step; [done|done|]; intros Hts Hok Hbs Ha.
  pose proof (attest_internal_filed _ _ _ _ _ Hbs (ag_index _ Ha) Hr) as Hf.
  pose proof (fp_attest_internal (fun _ => True) (fun k => record_key (uid a) k
    \/ k = TimestampAnchorKey (uid a) false) a I I (fun k Hk => or_introl Hk) (or_intror eq_refl)
    e s u s' Hr) as [_ T].
  split_and!.
  - refine (life_store_ok e s s' _ Hts Hok); by refine (life_attest_internal all_rights a Hty I e s u s' Hr).
  - apply attest_internal_ok in Hr as [_ [_ _ Hrec _ _ Ho]]; [|done..].
    intros v a'; destruct (decide (v = uid a)) as [->|Hne]; [rewrite Hrec; intros [= <-]; by left|].
    rewrite Ho by done; eauto 10.
  - intros v; rewrite T by (intros [[? | [? | ?]]|?]; congruence); by right.
Qed.

Lemma revoke_internal_retired u e s r s' :
  bound s -> revoke_internal u e s = Ok (r, s') -> is_active (ext s') u = false.
Proof.
  intros Hb (s1 & s2 & Hr & T1 & _ & Hx1 & ->)%in_callback_context_body.
  assert (bound s1) as Hb1.
  { destruct T1 as [Hi _], Hb; split; rewrite Hi; try done; by intros [|]. }
  clear Hb T1 Hx1; unfold revoke_body, consult_on_revocation in Hr; sas_inv.
  match goal with Hs : store_revoked _ _ ?sa = _, Hn : match inst ?x INDEXER with Some _ => _ | None => _ end _ _ = _ |- _ =>
    assert (steady e sa x) as Hst by chain; destruct (proj2 Hst Hb1) as [Hix _]; rewrite Hix in Hn; clear - Hn; rename x into s4 end.
  apply bind_ok in Hr as (r' & s3 & Ht%try_invoke_ok & [_ ->]%ret_ok).
  cbn [indexer_handle_revoke with_indexer] in Ht; unfold at_indexer, notify in Ht.
  rewrite bool_decide_true in Ht by done; simpl idx_exec in Ht; unfold handle_revoke in Ht.
  destruct (retire_run u Revoked (callee_env e) (ext s4)) as (ix' & Hrun & Hw); rewrite Hrun in Ht.
  destruct r'; [destruct Ht as (y & Hy & ->); simplify_eq|by destruct Ht as (? & ? & _)|by destruct Ht].
  simpl; rewrite (wrote_active _ _ _ _ u Hw), bool_decide_false by (done || rewrite list_elem_of_singleton; tauto).
  apply andb_false_r.
Qed.

Lemma followed_revoke_internal u : preserves followed (revoke_internal u).
Proof.
  intros e s r s' Hr; destruct (steady_revoke_internal u _ _ _ _ Hr) as [Hav Hb].
  apply followed_step; [done|done|]; intros Hts Hok Hbs Ha.
  pose proof (revoke_internal_retired _ _ _ _ _ Hbs Hr) as Hf.
  assert (exists a, read_record s u = Some a) as [a0 Ha0].
  { destruct Hok as [Hok _]; destruct (revoke_internal_ok _ _ _ _ _ Hok Hts Hr) as [(a & _ & _ & _ & Hb' & _) _ _ _ _].
    by exists a. }
  split_and!.
  - refine (life_store_ok e s s' _ Hts Hok); by refine (life_revoke_internal all_rights u e s a0 r s' Ha0 I Hr).
  - apply revoke_internal_ok in Hr as [(a & _ & _ & _ & Hb' & _ & _ & Ha' & _) _ _ Ho _]; [|apply Hok|done].
    intros v a'; destruct (decide (v = u)) as [->|Hne]; [|rewrite Ho by done; eauto 10].
    rewrite Ha'; intros [= <-]; right; by exists a.
  - apply revoke_internal_ok in Hr as [_ _ _ _ Hfr]; [|apply Hok|done].
    intros v; destruct (decide (v = u)) as [->|Hne]; [by left|].
    rewrite Hfr by (congruence || intros [? | [? | ?]]; congruence); by right.
Qed.

(** Renewal, pruning and migration keep the parties of the records they keep. *)
Lemma followed_remove_attestation u : preserves followed (remove_attestation u).
Proof.
  intros e s r s' Hr; assert (steady e s s') as [Hav Hb].
  { refine ((_ : preserves steady _) _ _ _ _ Hr); pres_open. }
  apply followed_step; [done|done|]; intros Hts [Hok Hl] _ _.
  assert (pget s' (TimestampAnchorKey u true) = None) as Hn.
  { unfold remove_attestation, remove_anchors in Hr; run_inv; exact (pget_remove_eq _ _). }
  pose proof (layout_remove_attestation u _ _ _ _ Hr Hl) as Hl'.
  apply remove_attestation_ok in Hr as (Hu & _ & Hk).
  assert (forall v, v <> u -> read_record s' v = read_record s v) as Ho.
  { intros v Hne; eapply (read_record_touch (fun _ => True) (attestation_key u) e); [split; [tauto|done]|].
    intros k [-> | [-> | ->]] [[? | [? | ?]]|[? ?]]; congruence. }
  split_and!; [split; [|done]| |].
  - intros v a; destruct (decide (v = u)) as [->|Hne]; [by rewrite Hu|rewrite Ho by done; apply Hok].
  - intros v a'; destruct (decide (v = u)) as [->|Hne]; [by rewrite Hu|rewrite Ho by done; eauto 10].
  - intros v; destruct (decide (v = u)) as [->|Hne]; [rewrite Hn; by intros []|].
    rewrite Hk; [by right|]; intros [[? | [? | ?]]|[? ?]]; congruence.
Qed.

Lemma followed_renew_attestation u ex : is_u64 ex -> preserves followed (renew_attestation u ex).
Proof.
  intros Hex e s r s' Hr; assert (steady e s s') as [Hav Hb].
  { refine ((_ : preserves steady _) _ _ _ _ Hr); pres_open. }
  apply followed_step; [done|done|]; intros Hts Hok _ _; destruct (Hok) as [Hrec _].
  pose proof (fp_renew_attestation (record_key u) u ex e s r s' Hrec (fun k Hk => Hk) Hr) as [_ T].
  split_and!.
  - refine (life_store_ok e s s' _ Hts Hok).
    by apply (life_renew_attestation all_rights u ex e s r s' Hex).
  - apply renew_attestation_ok in Hr as (a & Ha & _ & _ & _ & _ & _ & _ & _ & Ha' & Ho); [|done..].
    intros v a'; destruct (decide (v = u)) as [->|Hne]; [|rewrite Ho by done; eauto 10].
    rewrite Ha'; intros [= <-]; right; by exists a.
  - intros v; rewrite T by (intros [? | [? | ?]]; congruence); by right.
Qed.

Lemma followed_migrate_attestation u : preserves followed (migrate_attestation u).
Proof.
  intros e s r s' Hr; assert (steady e s s') as [Hav Hb].
  { refine ((_ : preserves steady _) _ _ _ _ Hr); pres_open. }
  apply followed_step; [done|done|]; intros Hts [Hok Hl] _ _.
  assert (touches (fun _ => True) (record_key u) e s s') as [_ T].
  { refine ((_ : preserves (touches _ _) _) e s r s' Hr).
    assert (record_key u (UidKey u)) by (right; by left).
    assert (record_key u (VALID_FROM u)) by (right; by right).
    pres_open. }
  apply migrate_attestation_ok in Hr as (Hl' & Hread & _); [|done..].
  split_and!; [split; [|done]; intros v a; rewrite Hread; apply Hok| |].
  - intros v a'; rewrite Hread; eauto 10.
  - intros v; rewrite T by (intros [? | [? | ?]]; congruence); by right.
Qed.
#[local] Hint Resolve followed_attest_internal followed_revoke_internal followed_remove_attestation
  followed_renew_attestation followed_migrate_attestation : sas.

Lemma followed_require_unpaid_allowed a : preserves followed (require_unpaid_allowed a).
Proof. pres_open. Qed.
#[local] Hint Resolve followed_require_unpaid_allowed : sas.
Lemma followed_multi_attest_loop l seen uids :
  Forall att_typed l -> preserves followed (multi_attest_loop l seen uids).
Proof. intros Hl; revert seen uids; induction Hl; intros; simpl; pres. Qed.
Lemma followed_multi_attest_by_delegation_loop l ns sgs pks seen uids :
  Forall att_typed l ->
  preserves followed (multi_attest_by_delegation_loop l ns sgs pks seen uids).
Proof. intros Hl; revert ns sgs pks seen uids; induction Hl; intros; simpl; pres_open. Qed.
Lemma followed_broadcast_loop a sch rs seen d ex rv uids :
  is_u64 ex -> preserves followed (broadcast_loop a sch rs seen d ex rv uids).
Proof.
  intros Hex; revert seen uids; induction rs as [|r rs IH]; intros; simpl; pres.
  apply followed_attest_internal; unfold att_typed, is_u64, u64_max in *; simpl; lia.
Qed.
Lemma followed_revoke_all l : preserves followed (revoke_all l).
Proof. induction l; simpl; pres_open. Qed.
Lemma followed_multi_revoke_by_delegation_commit l ns :
  preserves followed (multi_revoke_by_delegation_commit l ns).
Proof. revert ns; induction l; intros; simpl; pres_open. Qed.
Lemma followed_prune_loop l n : preserves followed (prune_loop l n).
Proof. revert n; induction l; intros; simpl; pres_open. Qed.
Lemma followed_migrate_loop l n : preserves followed (migrate_loop l n).
Proof. revert n; induction l; intros; simpl; pres_open. Qed.
Lemma followed_replace_internal u a old :
  att_typed a -> preserves followed (replace_internal u a old).
Proof. intros; unfold replace_internal; pres_open. Qed.
#[local] Hint Resolve followed_multi_attest_loop followed_multi_attest_by_delegation_loop
  followed_broadcast_loop followed_revoke_all followed_multi_revoke_by_delegation_commit
  followed_prune_loop followed_migrate_loop followed_replace_internal : sas.

Lemma followed_multi_revoke_validate l seen ds : preserves followed (multi_revoke_validate l seen ds).
Proof. revert seen ds; induction l; intros; simpl; pres_open. Qed.
Lemma followed_multi_revoke_by_delegation_validate l ns sgs pks seen ds :
  preserves followed (multi_revoke_by_delegation_validate l ns sgs pks seen ds).
Proof. revert ns sgs pks seen ds; induction l; intros; simpl; pres_open. Qed.
Lemma followed_revoke_by_schema_validate sch l seen :
  preserves followed (revoke_by_schema_validate sch l seen).
Proof. revert seen; induction l; intros; simpl; pres_open. Qed.
Lemma followed_bulk_reindex_loop ix l failed : preserves followed (bulk_reindex_loop ix l failed).
Proof. revert failed; induction l; intros; simpl; pres_open. Qed.
Lemma followed_verify_loop l bs : preserves followed (verify_loop l bs).
Proof. revert bs; induction l; intros; simpl; pres_open. Qed.
Lemma followed_verify_all_loop l : preserves followed (verify_all_loop l).
Proof. induction l; intros; simpl; pres_open. Qed.
Lemma followed_require_all_auth l : preserves followed (require_all_auth l).
Proof. induction l; simpl; pres_open. Qed.
#[local] Hint Resolve followed_require_all_auth followed_multi_revoke_validate
  followed_multi_revoke_by_delegation_validate
  followed_revoke_by_schema_validate followed_bulk_reindex_loop followed_verify_loop
  followed_verify_all_loop : sas.

(** The calls that leave the strict binding to the indexer in place. *)
Definition keeps_binding (c : SasCall) : Prop :=
  match c with SetIndexer _ | SetIndexerStrict _ => False | _ => True end.

Lemma followed_exec c : call_typed c -> keeps_binding c -> preserves followed (exec c).
Proof. destruct c; simpl; intros; try done; pres_open. Qed.

(** ** Both contracts on one ledger *)

(** Anyone may call either contract. *)
Inductive LedgerCall := ToSas (c : SasCall) | ToIndexer (c : IdxCall).
Definition ledger_exec (c : LedgerCall) : M SasSig (State IdxSig Y) unit :=
  match c with
  | ToSas c => exec c
  | ToIndexer c => fun e s => match idx_exec c e (ext s) with
                              | Ok (_, ix) => Ok (tt, upd_ext ix s)
                              | Err _ => Ok (tt, s)
                              end
  end.
(** Typed arguments, a lasting binding and a lasting chunk capacity. *)
Definition steady_call (e : Env) (c : LedgerCall) : Prop :=
  is_u64 (timestamp e) /\
  match c with
  | ToSas c => call_typed c /\ keeps_binding c
  | ToIndexer c => keeps_capacity cap c
  end.

Lemma followed_ledger e c s s' : steady_call e c -> ledger_exec c e s = Ok (tt, s') -> followed e s s'.
Proof.
  destruct c as [c|c]; simpl; intros [Hts Hc] Hr; [destruct Hc; by eapply followed_exec|].
  destruct (idx_exec c e (ext s)) as [[[] ix]|] eqn:Hi; simplify_eq; [|by intros].
  apply followed_step; [by eapply exec_advances|done|]; intros _ Hok _ _.
  split_and!; [exact Hok|intros u a Ha; right; by exists a|by right].
Qed.
Lemma agrees_ledger h s :
  Forall (fun '(e, c) => steady_call e c) h -> store_ok s -> bound s -> agrees s ->
  agrees (run_calls ledger_exec h s).
Proof.
  intros Hh Hok Hb Ha; apply (run_calls_inv ledger_exec
    (fun s => store_ok s /\ bound s /\ agrees s) steady_call); [|done..].
  intros c e s1 s2 Hc Hr (? & ? & ?); apply (followed_ledger e c s1 s2 Hc Hr); try done; apply Hc.
Qed.

Lemma unwritten_agrees g s :
  (forall k, pget s k = None) -> refines cap g (ext s) -> store_ok s /\ agrees s.
Proof.
  intros Hs Hg; assert (forall u, read_record s u = None) as Hn
    by (intros u; unfold read_record; by rewrite !Hs).
  split; split; try (intros u a; by rewrite ?Hn, ?Hs); [by exists g|].
  intros u; rewrite Hs; by intros [].
Qed.

(** *** What the indexer answers *)

Lemma filed_answers g (ix : State IdxSig Y) u a e :
  refines cap g ix -> filed ix u a ->
  answers (is_attestation_indexed u) e ix true
  /\ answers (IdxQuery.has_attestation (recipient a) u) e ix true
  /\ answers (has_schema_attestation (att_schema_uid a) u) e ix true
  /\ exists l, answers (get_attestations_by_schema (att_schema_uid a)) e ix l /\ u ∈ l.
Proof.
  intros Hg (r & Hr & Hrec & Hsch & _); apply (rf_record _ _ _ Hg) in Hr as Hin.
  assert (u ∈ by_recipient (recipient a) g /\ u ∈ by_schema (att_schema_uid a) g) as [H1 H2].
  { split; apply list_elem_of_fmap; exists (u, r); (split; [done|]);
      apply list_elem_of_filter; by rewrite ?bool_decide_eq_true. }
  split_and!; [eapply answers_eq; [apply present_answers|apply bool_decide_eq_true_2]..|].
  - by exists r.
  - by apply (rf_recipient_flag _ _ _ Hg).
  - by apply (rf_schema_flag _ _ _ Hg).
  - eexists; split; [|exact H2]; apply (history_answers cap); split; apply Hg.
Qed.
Lemma retired_answers (ix : State IdxSig Y) u e :
  is_active ix u = false ->
  answers (get_attestation_status u) e ix (Some Revoked)
  \/ answers (get_attestation_status u) e ix (Some Replaced).
Proof.
  intros Hu; assert (answers (get_attestation_status u) e ix (pget ix (STATUS_KEY u))) as Hs.
  { eapply answers_bind; [apply idx_extend_answers|]; intros s1 Hs1.
    rewrite <- (sv_pget _ _ Hs1 (STATUS_KEY u)); by exists s1. }
  unfold is_active in Hu; destruct (pget ix (STATUS_KEY u)) as [[]|]; auto; done.
Qed.
End compose.

(** ** What the two contracts guarantee together *)

(** C25: When SAS is bound to the indexer in strict mode before its first
    record, then after any calls of the two contracts that keep the binding and
    the chunk capacity, and with other contracts that take nothing out of the
    index, every record of SAS is indexed under its recipient and
    its schema and listed in the history of its schema, and every attestation
    with a revocation anchor is shown as revoked or replaced. *)
Theorem index_agrees_with_records {Y : Type} `{IdxDeps Y} (others : Deps (State IdxSig Y))
    (indexer_address : Address) (cap : nat) `{!AdvanceOnly cap others} g h s e :
  (forall k, pget s k = None) -> refines cap g (ext s) -> bound indexer_address s ->
  Forall (fun '(e, c) => steady_call cap e c) h ->
  let s' := run_calls (ledger_exec others indexer_address) h s in
  (forall u a, read_record s' u = Some a ->
     answers (is_attestation_indexed u) e (ext s') true
     /\ answers (IdxQuery.has_attestation (recipient a) u) e (ext s') true
     /\ answers (has_schema_attestation (att_schema_uid a) u) e (ext s') true
     /\ exists l, answers (get_attestations_by_schema (att_schema_uid a)) e (ext s') l /\ u ∈ l)
  /\ (forall u, is_Some (pget s' (TimestampAnchorKey u true)) ->
        answers (get_attestation_status u) e (ext s') (Some Revoked)
        \/ answers (get_attestation_status u) e (ext s') (Some Replaced)).
Proof.
  intros Hs Hg Hb Hh s'; destruct (unwritten_agrees cap g s Hs Hg) as [Hok Ha].
  destruct (agrees_ledger others indexer_address cap h s Hh Hok Hb Ha) as [[g' Hg'] Hf Hr]; split.
  - intros u a Hu; apply (filed_answers cap g'); [done|by apply Hf].
  - intros u Hu; by apply retired_answers, Hr.
Qed.

(** ** A concrete ledger *)

Definition indexer_id : Address := Contract (key_of 60).
#[export] Instance obliging_advances cap : AdvanceOnly cap (obliging (X := State IdxSig unit)).
Proof. by split; intros; intros ???? [= _ <-]; apply advances_preorder. Qed.

Definition index_setup : list (Env * IdxCall) := [(sample_env 50 [root_admin], IdxInit root_admin sas_id)].
Definition index_start : State IdxSig unit := run_calls idx_exec index_setup idx_empty.
Definition bound_start : State SasSig (State IdxSig unit) :=
  @run_history _ (with_indexer obliging indexer_id)
    [sample_init; (sample_env 150 [root_admin], SetIndexer indexer_id);
     (sample_env 150 [root_admin], SetIndexerStrict true)] (empty_state SasSig index_start).
(** An issuance, a stranger's attempt to index another attestation, and the
    revocation. *)
Definition ledger_history : list (Env * LedgerCall) := [
  (sample_issue.1, ToSas sample_issue.2);
  (sample_env 1500 [bob], ToIndexer (IdxIndexAttestation (idx_uid 52) bob idx_schema bob 0));
  (sample_revoke.1, ToSas sample_revoke.2) ].

Abbreviation ledger_end := (run_calls (ledger_exec obliging indexer_id) ledger_history bound_start).

Lemma ledger_steady : Forall (fun '(e, c) => steady_call (Z.to_nat DEFAULT_CHUNK_SIZE) e c) ledger_history.
Proof.
  repeat apply Forall_cons_2; try apply Forall_nil_2; (split; [by vm_compute|]); simpl;
    unfold att_typed, is_u64, u64_max; simpl; try done; lia.
Qed.
Lemma ledger_record : recipient <$> read_record ledger_end (sample_uid [1; 2; 3]) = Some bob.
Proof. vm_compute; reflexivity. Qed.
Lemma ledger_anchor : is_Some (pget ledger_end (TimestampAnchorKey (sample_uid [1; 2; 3]) true)).
Proof. vm_compute; by eexists. Qed.

Lemma index_agrees_with_records_witness :
  answers (IdxQuery.has_attestation bob (sample_uid [1; 2; 3])) (sample_env 3000 []) (ext ledger_end) true
  /\ (answers (get_attestation_status (sample_uid [1; 2; 3])) (sample_env 3000 []) (ext ledger_end) (Some Revoked)
      \/ answers (get_attestation_status (sample_uid [1; 2; 3])) (sample_env 3000 []) (ext ledger_end) (Some Replaced)).
Proof.
  destruct (index_agrees_with_records obliging indexer_id (Z.to_nat DEFAULT_CHUNK_SIZE)
    (logged index_setup idx_empty []) ledger_history bound_start (sample_env 3000 [])) as [Hrec Hanc].
  - intros k; vm_compute; reflexivity.
  - replace (ext bound_start) with index_start by (vm_compute; reflexivity).
    apply logged_refines; [by repeat constructor|apply unwritten_refines, idx_empty_unwritten].
  - split; vm_compute; reflexivity.
  - exact ledger_steady.
  - split; [|exact (Hanc _ ledger_anchor)].
    pose proof ledger_record as (a & Ha & Hb)%fmap_Some; rewrite Hb; exact (proj1 (proj2 (Hrec _ a Ha))).
Defined.
