(* ===== verification/Eip712.v ===== *)
(** * EIP-712 structured data

    [src/packages/soroban-sas-common/src/eip712.rs]: type strings, struct
    hashes and digests of declared structs.  Names are their UTF-8 bytes, on
    which the order of [str] is the lexicographic one. *)

From S2P Require Import Prelude Host Common TypedData.

Inductive SchemaError := UnknownStruct | ArityMismatch | TypeMismatch.

Inductive FieldType :=
  | TUint (bits : Z)
  | TInt (bits : Z)
  | TBool
  | TAddress
  | TBytes
  | TFixedBytes (size : Z)
  | TStr
  | TStruct (name : bytes)
  | TArray (element : FieldType).
#[export] Instance FieldType_eq_dec : EqDecision FieldType.
Proof. solve_decision. Defined.

Record FieldDef := mkFieldDef { fd_name : bytes; fd_ty : FieldType }.
Record StructDef := mkStructDef { sd_name : bytes; sd_fields : list FieldDef }.

Inductive FieldValue :=
  | Word (word : bytes)
  | Dynamic (preimage : bytes)
  | VStruct (name : bytes) (values : list FieldValue)
  | VList (element : FieldType) (values : list FieldValue).

(** ** Words *)

(** A value of at most 32 bytes in the low bytes of a word. *)
Definition low_bytes (fill : Z) (b : bytes) : bytes := replicate (32 - length b) fill ++ b.
Definition from_bool (value : bool) : FieldValue := Word (low_bytes 0 [if value then 1 else 0]).
Definition from_u64 (value : Z) : FieldValue := Word (low_bytes 0 (to_be_bytes 8 value)).
Definition from_u128 (value : Z) : FieldValue := Word (low_bytes 0 (to_be_bytes 16 value)).
(** [i128::to_be_bytes] is the one of the two's complement. *)
Definition from_i128 (value : Z) : FieldValue :=
  Word (low_bytes (if value <? 0 then 255 else 0) (to_be_bytes 16 (value mod 2 ^ 128))).
Definition from_bytes32 (value : bytes) : FieldValue := Word value.
Definition from_right_aligned (b : bytes) : option FieldValue :=
  if 32 <? len b then None else Some (Word (low_bytes 0 b)).
Definition from_address (b : bytes) : option FieldValue := from_right_aligned b.

(** ** Type strings *)

(** The first loop of [write_u32]: the digits, the lowest first. *)
Fixpoint digit_loop (fuel : nat) (value : Z) (digits : bytes) : bytes :=
  match fuel with
  | O => digits
  | S fuel' =>
    if 0 <? value then digit_loop fuel' (value / 10) (digits ++ [48 + value mod 10]) else digits
  end.
Definition write_u32 (out : bytes) (value : Z) : bytes :=
  if value =? 0 then out ++ [48] else out ++ reverse (digit_loop 10 value []).

Fixpoint write_name (ty : FieldType) (out : bytes) : bytes :=
  match ty with
  | TUint bits => write_u32 (out ++ bytes_of_string "uint") bits
  | TInt bits => write_u32 (out ++ bytes_of_string "int") bits
  | TBool => out ++ bytes_of_string "bool"
  | TAddress => out ++ bytes_of_string "address"
  | TBytes => out ++ bytes_of_string "bytes"
  | TFixedBytes size => write_u32 (out ++ bytes_of_string "bytes") size
  | TStr => out ++ bytes_of_string "string"
  | TStruct name => out ++ name
  | TArray element => write_name element out ++ bytes_of_string "[]"
  end.

Definition is_dynamic (ty : FieldType) : bool :=
  match ty with TBytes | TStr | TArray _ => true | _ => false end.

Fixpoint referenced_struct (ty : FieldType) : option bytes :=
  match ty with
  | TStruct name => Some name
  | TArray element => referenced_struct element
  | _ => None
  end.

Definition find_struct (defs : list StructDef) (name : bytes) : option StructDef :=
  find (fun def => bool_decide (sd_name def = name)) defs.

(** The loop of [write_struct_type]. *)
Fixpoint write_fields (first : bool) (fields : list FieldDef) (out : bytes) : bytes :=
  match fields with
  | [] => out
  | field :: rest =>
    let out := if first then out else out ++ bytes_of_string "," in
    write_fields false rest (write_name (fd_ty field) out ++ bytes_of_string " " ++ fd_name field)
  end.
Definition write_struct_type (out : bytes) (def : StructDef) : bytes :=
  write_fields true (sd_fields def) (out ++ sd_name def ++ bytes_of_string "(") ++ bytes_of_string ")".

Section types.
Context (defs : list StructDef).

Fixpoint references (from target : bytes) (budget : nat) : bool :=
  match budget with
  | O => false
  | S budget' =>
    match find_struct defs from with
    | None => false
    | Some def =>
      existsb (fun field =>
        match referenced_struct (fd_ty field) with
        | Some name => bool_decide (name = target) || references name target budget'
        | None => false
        end) (sd_fields def)
    end
  end.

(** The inner loop of [encode_type]: the least name after [last]. *)
Fixpoint next_name (primary : bytes) (last : option bytes) (l : list StructDef) (next : option bytes)
    : option bytes :=
  match l with
  | [] => next
  | def :: rest =>
    next_name primary last rest
      (if bool_decide (sd_name def = primary) || negb (references primary (sd_name def) (length defs + 1))
       then next
       else if match last with
               | Some previous => negb (bytes_ltb previous (sd_name def))
               | None => false
               end
       then next
       else match next with
            | Some current => if negb (bytes_ltb (sd_name def) current) then Some current else Some (sd_name def)
            | None => Some (sd_name def)
            end)
  end.

(** The loop of [encode_type]. *)
Fixpoint type_loop (fuel : nat) (primary : bytes) (last : option bytes) (out : bytes) : bytes :=
  match fuel with
  | O => out
  | S fuel' =>
    match next_name primary last defs None with
    | None => out
    | Some name =>
      type_loop fuel' primary (Some name)
        match find_struct defs name with
        | Some def => write_struct_type out def
        | None => out
        end
    end
  end.

Definition encode_type (primary : bytes) : bytes :=
  match find_struct defs primary with
  | None => []
  | Some primary_def => type_loop (length defs + 1) primary None (write_struct_type [] primary_def)
  end.
End types.

(** ** Hashes *)

Section hashes.
Context (e : Env) (defs : list StructDef).

Definition type_hash (primary : bytes) : SchemaError + bytes :=
  match find_struct defs primary with
  | None => inl UnknownStruct
  | Some _ => inr (keccak256 e (encode_type defs primary))
  end.

(** [encode_data], [hash_struct] and [encode_list] for an encoding of
    fields. *)
Section of_field.
Context (f : FieldDef -> FieldValue -> SchemaError + bytes).

Fixpoint encode_zip (fields : list FieldDef) (values : list FieldValue) (out : bytes) {struct values}
    : SchemaError + bytes :=
  match values, fields with
  | value :: values', field :: fields' =>
    match f field value with
    | inl err => inl err
    | inr b => encode_zip fields' values' (out ++ b)
    end
  | _, _ => inr out
  end.
Fixpoint encode_each (field : FieldDef) (values : list FieldValue) (buffer : bytes)
    : SchemaError + bytes :=
  match values with
  | [] => inr buffer
  | value :: values' =>
    match f field value with
    | inl err => inl err
    | inr b => encode_each field values' (buffer ++ b)
    end
  end.

Definition encode_data_of (struct_name : bytes) (values : list FieldValue) : SchemaError + bytes :=
  match find_struct defs struct_name with
  | None => inl UnknownStruct
  | Some def =>
    if negb (bool_decide (length (sd_fields def) = length values)) then inl ArityMismatch
    else encode_zip (sd_fields def) values []
  end.
Definition hash_struct_of (struct_name : bytes) (values : list FieldValue) : SchemaError + bytes :=
  match encode_data_of struct_name values with
  | inl err => inl err
  | inr encoded =>
    match type_hash struct_name with
    | inl err => inl err
    | inr hash => inr (keccak256 e (hash ++ encoded))
    end
  end.
Definition encode_list_of (element : FieldType) (values : list FieldValue) : SchemaError + bytes :=
  match encode_each (mkFieldDef [] element) values [] with
  | inl err => inl err
  | inr buffer => inr (keccak256 e buffer)
  end.
End of_field.

Fixpoint encode_field (field : FieldDef) (value : FieldValue) {struct value} : SchemaError + bytes :=
  match value with
  | Word word =>
    if bool_decide (is_Some (referenced_struct (fd_ty field))) || is_dynamic (fd_ty field)
    then inl TypeMismatch else inr word
  | Dynamic preimage =>
    match fd_ty field with
    | TBytes | TStr => inr (keccak256 e preimage)
    | _ => inl TypeMismatch
    end
  | VStruct name values =>
    match fd_ty field with
    | TStruct declared =>
      if negb (bool_decide (declared = name)) then inl TypeMismatch
      else hash_struct_of encode_field name values
    | _ => inl TypeMismatch
    end
  | VList element values =>
    match fd_ty field with
    | TArray declared =>
      if negb (bool_decide (declared = element)) then inl TypeMismatch
      else encode_list_of encode_field element values
    | _ => inl TypeMismatch
    end
  end.

Definition encode_data := encode_data_of encode_field.
Definition hash_struct := hash_struct_of encode_field.
Definition encode_list := encode_list_of encode_field.

Definition hash_typed_data_with_prefix (prefix primary : bytes) (values : list FieldValue)
    (domain_separator : bytes) : SchemaError + bytes :=
  match hash_struct primary values with
  | inl err => inl err
  | inr struct_hash => inr (keccak256 e (prefix ++ domain_separator ++ struct_hash))
  end.
Definition EIP712_PREFIX : bytes := [25; 1].
Definition hash_typed_data := hash_typed_data_with_prefix EIP712_PREFIX.
End hashes.

(** ** Type tags *)

Fixpoint position (c : Z) (l : bytes) : option nat :=
  match l with
  | [] => None
  | x :: l' => if x =? c then Some O else S <$> position c l'
  end.
Definition rposition (c : Z) (l : bytes) : option nat :=
  (fun i => length l - 1 - i)%nat <$> position c (reverse l).

(** [slice::split]: the pieces between the separators, at least one. *)
Fixpoint split_at (c : Z) (l : bytes) : list bytes :=
  match l with
  | [] => [[]]
  | x :: l' =>
    if x =? c then [] :: split_at c l'
    else match split_at c l' with
         | piece :: rest => (x :: piece) :: rest
         | [] => [[x]]
         end
  end.

(** The loop of [tag_matches_defs], from the field at hand on. *)
Fixpoint names_match (names : list bytes) (fields : list FieldDef) : bool :=
  match names, fields with
  | [], [] => true
  | name :: names', field :: fields' => bool_decide (name = fd_name field) && names_match names' fields'
  | _, _ => false
  end.

Definition tag_matches_defs (tag : bytes) (def : StructDef) : bool :=
  match position 40 tag, rposition 41 tag with
  | Some op, Some cl =>
    if bool_decide (cl <= op)%nat then false
    else names_match (split_at 44 (slice (op + 1) cl tag)) (sd_fields def)
  | _, _ => false
  end.

Definition field (name : string) (ty : FieldType) : FieldDef := mkFieldDef (bytes_of_string name) ty.
Definition DOMAIN : StructDef := mkStructDef (bytes_of_string "Domain")
  [ field "network_id" (TFixedBytes 32); field "contract" TBytes; field "nonce" (TUint 64) ].
Definition ATTESTATION : StructDef := mkStructDef (bytes_of_string "Attestation")
  [ field "uid" (TFixedBytes 32); field "schema_uid" (TFixedBytes 32); field "time" (TUint 64);
    field "expiration_time" (TUint 64); field "ref_uid" (TFixedBytes 32); field "recipient" TBytes;
    field "attester" TBytes; field "revocable" TBool; field "data" TBytes ].
Definition DELEGATED_REVOCATION : StructDef := mkStructDef (bytes_of_string "DelegatedRevocation")
  [ field "uid" (TFixedBytes 32); field "attester" TBytes ].
Definition TAGS : list (bytes * StructDef) :=
  [ (DOMAIN_TYPE_TAG, DOMAIN); (ATTESTATION_TYPE_TAG, ATTESTATION);
    (DELEGATED_REVOCATION_TYPE_TAG, DELEGATED_REVOCATION) ].
Definition v1_tags_match : bool := forallb (fun '(tag, def) => tag_matches_defs tag def) TAGS.
