(* ===== verification/Eip712Type.v ===== *)
(** * EIP-712 type strings: correctness

    The order of names, the type strings as words of a grammar that determines
    the declaration, and the dependencies as the reachable declarations. *)

From Stdlib Require Import Sorted.
From stdpp Require Import relations.
From S2P Require Import Prelude Host Common TypedData Eip712.

(** ** The order of names *)

Definition name_lt (a b : bytes) : Prop := bytes_ltb a b = true.

Lemma name_lt_irrefl a : bytes_ltb a a = false.
Proof. induction a as [|x a IH]; [done|]; simpl; by rewrite Z.ltb_irrefl, Z.eqb_refl, IH. Qed.
Lemma name_lt_trans a b c : name_lt a b -> name_lt b c -> name_lt a c.
Proof.
  unfold name_lt; revert b c; induction a as [|x a IH]; intros [|y b] [|z c]; simpl; try done.
  rewrite !orb_true_iff, !andb_true_iff, !Z.ltb_lt, !Z.eqb_eq.
  intros [?|[-> ?]] [?|[-> ?]]; [left; lia|by left|by left|right; eauto].
Qed.
Lemma name_lt_total a b : bytes_ltb a b = false -> a = b \/ name_lt b a.
Proof.
  unfold name_lt; revert b; induction a as [|x a IH]; intros [|y b]; simpl; try (by auto).
  rewrite orb_false_iff, andb_false_iff, !orb_true_iff, !andb_true_iff, Z.ltb_ge, !Z.eqb_neq, !Z.eqb_eq, Z.ltb_lt.
  intros [Hxy [Hne|Hab]]; [right; left; lia|].
  destruct (decide (x = y)) as [->|]; [|right; left; lia].
  destruct (IH b Hab) as [->|?]; auto.
Qed.
#[export] Instance name_lt_transitive : Transitive name_lt.
Proof. intros a b c; apply name_lt_trans. Qed.

(** ** Separators *)

Lemma cut_eq (c : Z) (l1 l2 r1 r2 : bytes) :
  c ∉ l1 -> c ∉ l2 -> l1 ++ c :: r1 = l2 ++ c :: r2 -> l1 = l2 /\ r1 = r2.
Proof.
  revert l2; induction l1 as [|x l1 IH]; intros [|y l2]; simpl; rewrite ?not_elem_of_cons.
  - by intros _ _ [= ->].
  - by intros _ [? _] [= ? _].
  - by intros [? _] _ [= ? _].
  - intros [? ?] [? ?] [= -> Hr]; by apply IH in Hr as [-> ->].
Qed.

Fixpoint join (c : Z) (pieces : list bytes) : bytes :=
  match pieces with
  | [] => []
  | [p] => p
  | p :: rest => p ++ c :: join c rest
  end.
Lemma join_cons c p ps : join c (p :: ps) = p ++ concat (cons c <$> ps).
Proof.
  revert p; induction ps as [|q ps IH]; intros p; [simpl; by rewrite app_nil_r|].
  change (join c (p :: q :: ps)) with (p ++ c :: join c (q :: ps)); by rewrite IH.
Qed.

Lemma split_at_free c p : c ∉ p -> split_at c p = [p].
Proof.
  induction p as [|x p IH]; simpl; [done|]; rewrite not_elem_of_cons; intros [? ?].
  destruct (Z.eqb_spec x c); [congruence|]; by rewrite IH.
Qed.
Lemma split_at_app c p rest : c ∉ p -> split_at c (p ++ c :: rest) = p :: split_at c rest.
Proof.
  induction p as [|x p IH]; simpl; [by rewrite Z.eqb_refl|]; rewrite not_elem_of_cons; intros [? ?].
  destruct (Z.eqb_spec x c); [congruence|]; by rewrite IH.
Qed.
(** Splitting undoes joining. *)
Lemma split_at_join c ps : ps <> [] -> Forall (fun p => c ∉ p) ps -> split_at c (join c ps) = ps.
Proof.
  intros Hne Hps; induction Hps as [|p ps Hp Hps IH]; [done|].
  destruct ps as [|q ps]; [by apply split_at_free|].
  change (join c (p :: q :: ps)) with (p ++ c :: join c (q :: ps)); by rewrite split_at_app, IH.
Qed.
Lemma join_split_at c l : join c (split_at c l) = l.
Proof.
  induction l as [|x l IH]; [done|]; simpl; destruct (Z.eqb_spec x c) as [->|Hne].
  - destruct (split_at c l) as [|q ps] eqn:E; [|simpl; by rewrite <- IH].
    by destruct l; simpl in E; [|destruct (_ =? _); [|destruct (split_at c l)]].
  - destruct (split_at c l) as [|q [|q' ps]]; simpl in *; congruence.
Qed.
Lemma not_elem_of_join c d ps : c <> d -> Forall (fun p => c ∉ p) ps -> c ∉ join d ps.
Proof.
  intros Hne; induction 1 as [|p ps Hp Hps IH]; [apply not_elem_of_nil|].
  destruct ps as [|q ps]; [done|]; change (join d (p :: q :: ps)) with (p ++ d :: join d (q :: ps)).
  rewrite not_elem_of_app, not_elem_of_cons; auto.
Qed.

(** ** Numbers *)

Definition of_decimal (b : bytes) : Z := fold_left (fun acc c => acc * 10 + (c - 48)) b 0.
Definition is_digit (c : Z) : Prop := 48 <= c <= 57.

Lemma digit_loop_acc fuel value digits : digit_loop fuel value digits = digits ++ digit_loop fuel value [].
Proof.
  revert value digits; induction fuel as [|fuel IH]; intros value digits; simpl; [by rewrite app_nil_r|].
  destruct (0 <? value); [|by rewrite app_nil_r].
  by rewrite IH, (IH _ [_]), app_assoc.
Qed.
Lemma of_decimal_snoc b c : of_decimal (b ++ [c]) = of_decimal b * 10 + (c - 48).
Proof. unfold of_decimal; by rewrite fold_left_app. Qed.

Lemma digit_loop_value fuel value :
  0 <= value < 10 ^ Z.of_nat fuel ->
  of_decimal (reverse (digit_loop fuel value [])) = value /\ Forall is_digit (digit_loop fuel value [])
  /\ (0 < value -> digit_loop fuel value [] <> []).
Proof.
  revert value; induction fuel as [|fuel IH]; intros value Hv.
  { simpl in *; split_and!; [unfold of_decimal; simpl; lia|done|lia]. }
  rewrite Nat2Z.inj_succ, Z.pow_succ_r in Hv by lia; simpl.
  destruct (Z.ltb_spec 0 value) as [Hpos|?]; [|split_and!; [unfold of_decimal; simpl; lia|done|lia]].
  assert (Hd : 0 <= value / 10 < 10 ^ Z.of_nat fuel)
    by (split; [apply Z.div_pos; lia|apply Z.div_lt_upper_bound; lia]).
  destruct (IH _ Hd) as (Hval & Hdig & _); rewrite digit_loop_acc, reverse_app, reverse_singleton, of_decimal_snoc, Hval.
  pose proof (Z.div_mod value 10); pose proof (Z.mod_pos_bound value 10); split_and!; [lia| |done].
  apply Forall_app; split; [|done]; apply Forall_singleton; unfold is_digit; lia.
Qed.

Definition decimal (value : Z) : bytes := write_u32 [] value.
Lemma write_u32_app out value : write_u32 out value = out ++ decimal value.
Proof. unfold decimal, write_u32; by destruct (_ =? _). Qed.
(** The number written is read back, and consists of digits. *)
Lemma decimal_value value :
  is_u32 value -> of_decimal (decimal value) = value /\ Forall is_digit (decimal value) /\ decimal value <> [].
Proof.
  unfold decimal, write_u32, is_u32, u32_max; intros Hv; destruct (Z.eqb_spec value 0) as [->|Hne].
  { split_and!; [done|by repeat constructor|done]. }
  destruct (digit_loop_value 10 value) as (H1 & H2 & H3); [simpl; lia|].
  rewrite !app_nil_l; split_and!; [done|by apply Forall_reverse|].
  intros Hr%(f_equal reverse); rewrite reverse_involutive in Hr; apply H3; [lia|done].
Qed.
Lemma decimal_inj a b : is_u32 a -> is_u32 b -> decimal a = decimal b -> a = b.
Proof. intros [Ha _]%decimal_value [Hb _]%decimal_value Hab; by rewrite <- Ha, <- Hb, Hab. Qed.

(** ** Spelling *)

Definition spell (ty : FieldType) : bytes := write_name ty [].
Definition spell_field (f : FieldDef) : bytes := spell (fd_ty f) ++ 32 :: fd_name f.
Definition spell_def (d : StructDef) : bytes :=
  sd_name d ++ 40 :: join 44 (spell_field <$> sd_fields d) ++ [41].

Lemma write_name_app ty out : write_name ty out = out ++ spell ty.
Proof.
  unfold spell; revert out; induction ty; intros out; simpl; rewrite ?(write_u32_app (_ ++ _)), ?write_u32_app;
    rewrite <- ?app_assoc; try done.
  by rewrite IHty, <- app_assoc.
Qed.
Lemma write_fields_app fields out :
  write_fields false fields out = out ++ concat (cons 44 <$> (spell_field <$> fields)).
Proof.
  revert out; induction fields as [|f fields IH]; intros out; simpl; [by rewrite app_nil_r|].
  rewrite IH, write_name_app; unfold spell_field; by rewrite <- !app_assoc.
Qed.
Lemma write_struct_type_app out d : write_struct_type out d = out ++ spell_def d.
Proof.
  unfold write_struct_type, spell_def; destruct (sd_fields d) as [|f fields]; cbn [write_fields fmap list_fmap].
  - simpl; by rewrite <- !app_assoc.
  - rewrite write_fields_app, write_name_app, join_cons; unfold spell_field; by rewrite <- !app_assoc.
Qed.

(** Names without punctuation, and struct names that are no built-in types. *)
Definition plain (c : Z) : Prop := c ∉ [32; 40; 41; 44; 91; 93].
Definition name_ok (n : bytes) : Prop := Forall plain n.
Definition builtin (ty : FieldType) : Prop :=
  match ty with
  | TStruct _ | TArray _ => False
  | TUint n | TInt n | TFixedBytes n => is_u32 n
  | _ => True
  end.
Fixpoint type_ok (ty : FieldType) : Prop :=
  match ty with
  | TStruct n => name_ok n /\ forall b, builtin b -> spell b <> n
  | TArray t => type_ok t
  | b => builtin b
  end.
Record def_ok (d : StructDef) : Prop := {
  do_name : name_ok (sd_name d);
  do_fields : Forall (fun f => name_ok (fd_name f) /\ type_ok (fd_ty f)) (sd_fields d)
}.

Lemma name_ok_free n c : name_ok n -> ~ plain c -> c ∉ n.
Proof. unfold name_ok; rewrite Forall_forall; intros Hn Hc Hin; by apply Hc, Hn. Qed.
Lemma decimal_plain n : is_u32 n -> Forall plain (decimal n).
Proof.
  intros (_ & Hd & _)%decimal_value; eapply Forall_impl; [done|].
  unfold is_digit, plain; intros c Hc; rewrite !not_elem_of_cons; split_and!; [lia..|apply not_elem_of_nil].
Qed.
Lemma ascii_plain (l : bytes) : forallb (fun c => negb (bool_decide (c ∈ [32; 40; 41; 44; 91; 93]))) l = true ->
  Forall plain l.
Proof.
  rewrite forallb_forall, Forall_forall; intros H c Hc; apply list_elem_of_In, H in Hc.
  by apply negb_true_iff, bool_decide_eq_false in Hc.
Qed.
Lemma builtin_plain b : builtin b -> Forall plain (spell b).
Proof.
  unfold spell; destruct b; simpl; try done; rewrite ?write_u32_app; intros Hb;
    rewrite ?Forall_app; try split; try (by apply ascii_plain); by apply decimal_plain.
Qed.

Lemma not_plain c : c ∈ [32; 40; 41; 44] -> ~ plain c.
Proof. unfold plain; intros Hc Hn; apply Hn; rewrite !elem_of_cons in *; tauto. Qed.
Lemma spell_free ty c : type_ok ty -> c ∈ [32; 40; 41; 44] -> c ∉ spell ty.
Proof.
  intros Hty Hc; induction ty; simpl in Hty;
    try (apply name_ok_free; [by apply builtin_plain|by apply not_plain]).
  - unfold spell; simpl; apply name_ok_free; [apply Hty|by apply not_plain].
  - unfold spell in *; simpl; rewrite not_elem_of_app; split; [auto|].
    intros Hin; apply (not_plain c Hc); rewrite !elem_of_cons in Hin; unfold plain.
    destruct Hin as [->|[->|Hin]]; [| |by apply elem_of_nil in Hin]; exfalso; rewrite !elem_of_cons in Hc;
      destruct Hc as [?|[?|[?|[?|Hc]]]]; try discriminate; by apply elem_of_nil in Hc.
Qed.

(** A spelling names one type. *)
Lemma spell_builtin_inj a b : builtin a -> builtin b -> spell a = spell b -> a = b.
Proof.
  unfold spell; destruct a, b; simpl; try done; rewrite ?write_u32_app; intros Ha Hb; simpl;
    try (intros [= Hs%decimal_inj]; congruence); try (by intros [=]);
    intros [= Hs]; pose proof (decimal_value _ Ha) as (_ & _ & ?) || pose proof (decimal_value _ Hb) as (_ & _ & ?);
    congruence.
Qed.
Lemma spell_plain ty : type_ok ty -> (forall t, ty <> TArray t) -> 93 ∉ spell ty.
Proof.
  intros Hty Ht; assert (Hp : ~ plain 93) by (unfold plain; intros Hn; apply Hn; rewrite !elem_of_cons; tauto).
  destruct ty; try (apply name_ok_free; [by apply builtin_plain|done]); [|by destruct (Ht ty)].
  unfold spell; simpl in *; apply name_ok_free; [apply Hty|done].
Qed.
Lemma array_spelled t : 93 ∈ spell (TArray t).
Proof. unfold spell; simpl; apply elem_of_app; right; rewrite !elem_of_cons; auto. Qed.
Lemma spell_inj a b : type_ok a -> type_ok b -> spell a = spell b -> a = b.
Proof.
  revert b; induction a as [| | | | | | |n|a IH]; intros b Ha Hb Hs.
  9: { destruct b as [| | | | | | | |b];
         try (exfalso; apply (spell_plain _ Hb); [done|]; rewrite <- Hs; apply array_spelled).
       unfold spell in Hs; simpl in Hs; apply app_inj_2 in Hs as [Hs _]; [|done]; f_equal; by apply IH. }
  8: { destruct b as [| | | | | | |m|b];
         try (exfalso; destruct Ha as [_ Ha]; eapply Ha; [|by symmetry]; done).
       - unfold spell in Hs; simpl in Hs; congruence.
       - exfalso; apply (spell_plain (TStruct n) Ha); [done|]; rewrite Hs; apply array_spelled. }
  all: destruct b as [| | | | | | |m|b]; try (by apply spell_builtin_inj);
    [exfalso; destruct Hb as [_ Hb]; eapply Hb; [|done]; done
    |exfalso; eapply spell_plain; [exact Ha|done|rewrite Hs; apply array_spelled]].
Qed.

Lemma spell_field_inj f g :
  type_ok (fd_ty f) -> type_ok (fd_ty g) -> spell_field f = spell_field g -> f = g.
Proof.
  unfold spell_field; intros Hf Hg Hs; apply cut_eq in Hs as [Ht Hn];
    [|apply spell_free; [done|by left]..].
  apply spell_inj in Ht; [|done..]; destruct f, g; simpl in *; congruence.
Qed.
Lemma spell_field_free f c :
  name_ok (fd_name f) -> type_ok (fd_ty f) -> c ∈ [40; 41; 44] -> c ∉ spell_field f.
Proof.
  intros Hn Ht Hc; unfold spell_field; rewrite not_elem_of_app, not_elem_of_cons.
  assert (Hc' : c ∈ [32; 40; 41; 44]) by (by right).
  split_and!; [by apply spell_free| |by apply name_ok_free, not_plain].
  intros ->; by rewrite !elem_of_cons, elem_of_nil in Hc; destruct Hc as [?|[?|[?|?]]].
Qed.

Lemma join_nonempty f ps : join 44 (spell_field f :: ps) <> [].
Proof. rewrite join_cons; unfold spell_field; by destruct (spell (fd_ty f)). Qed.

(** A type string determines the declaration and what follows it. *)
Lemma spell_def_inj d1 d2 (r1 r2 : bytes) :
  def_ok d1 -> def_ok d2 -> spell_def d1 ++ r1 = spell_def d2 ++ r2 -> d1 = d2 /\ r1 = r2.
Proof.
  intros [Hn1 Hf1] [Hn2 Hf2]; unfold spell_def; rewrite <- !app_assoc; simpl; rewrite <- !app_assoc; simpl.
  assert (Hfree : forall fs, Forall (fun f => name_ok (fd_name f) /\ type_ok (fd_ty f)) fs ->
            forall c, c ∈ [40; 41; 44] -> Forall (fun p => c ∉ p) (spell_field <$> fs)).
  { intros fs Hfs c Hc; apply Forall_fmap; eapply Forall_impl; [exact Hfs|].
    intros f [? ?]; by apply spell_field_free. }
  assert (H41 : forall fs, Forall (fun f => name_ok (fd_name f) /\ type_ok (fd_ty f)) fs ->
            41 ∉ join 44 (spell_field <$> fs))
    by (intros; apply not_elem_of_join; [done|]; apply Hfree; [done|]; rewrite !elem_of_cons; tauto).
  intros [Hname Hs]%cut_eq; [|apply name_ok_free; [done|]; apply not_plain; rewrite !elem_of_cons; tauto..].
  apply cut_eq in Hs as [Hbody ->]; [|by apply H41..]; split; [|done].
  assert (Hfs : spell_field <$> sd_fields d1 = spell_field <$> sd_fields d2).
  { assert (H44 : 44 ∈ [40; 41; 44]) by (rewrite !elem_of_cons; tauto).
    destruct (sd_fields d1) as [|f fs], (sd_fields d2) as [|g gs]; [done|..].
    - by destruct (join_nonempty g (spell_field <$> gs)).
    - by destruct (join_nonempty f (spell_field <$> fs)).
    - rewrite <- (split_at_join 44 (spell_field <$> f :: fs)), Hbody, split_at_join;
        [done|done|by apply Hfree|done|by apply Hfree]. }
  clear Hbody Hfree H41; destruct d1 as [n1 fs], d2 as [n2 gs]; simpl in *; subst n2; f_equal.
  revert gs Hfs Hf2; induction Hf1 as [|f fs [_ ?] _ IH]; intros [|g gs] Hfs Hf2; try done.
  apply Forall_cons in Hf2 as [[_ ?] ?]; injection Hfs as ? ?; f_equal; [by apply spell_field_inj|auto].
Qed.

(** ** Dependencies *)

Section dependencies.
Context (defs : list StructDef).
Implicit Types (a b n p : bytes).

Lemma find_struct_some n d : find_struct defs n = Some d -> d ∈ defs /\ sd_name d = n.
Proof.
  intros [Hin Hn]%find_some; split; [by apply list_elem_of_In|by apply bool_decide_eq_true in Hn].
Qed.
Lemma find_struct_declared n : n ∈ sd_name <$> defs <-> is_Some (find_struct defs n).
Proof.
  split.
  - intros (d & -> & Hin)%list_elem_of_fmap; destruct (find_struct defs (sd_name d)) eqn:E; [eauto|].
    eapply find_none in E; [|by apply list_elem_of_In]; by apply bool_decide_eq_false in E.
  - intros [d [Hin <-]%find_struct_some]; by apply list_elem_of_fmap_2.
Qed.

(** A field of [a] refers to [b]. *)
Definition edge a b : Prop :=
  exists d f, find_struct defs a = Some d /\ f ∈ sd_fields d /\ referenced_struct (fd_ty f) = Some b.
(** [b] is reachable from [a]. *)
Definition depends a b : Prop := tc edge a b.

Lemma references_step a b budget :
  references defs a b (S budget) = true
  <-> exists m, edge a m /\ (m = b \/ references defs m b budget = true).
Proof.
  simpl; unfold edge; destruct (find_struct defs a) as [d|]; [|split; [done|by intros (? & (? & ? & ? & _) & _)]].
  rewrite existsb_exists; split.
  - intros (f & Hin & Hf); destruct (referenced_struct (fd_ty f)) as [m|] eqn:Hm; [|done].
    apply orb_true_iff in Hf as [Hf%bool_decide_eq_true|Hf];
      exists m; (split; [exists d, f; by rewrite list_elem_of_In|auto]).
  - intros (m & (d' & f & [= <-] & Hin & Hm) & Hor); exists f; split; [by apply list_elem_of_In|].
    rewrite Hm; apply orb_true_iff; destruct Hor; [left; by apply bool_decide_eq_true|auto].
Qed.
Lemma references_sound a b budget : references defs a b budget = true -> depends a b.
Proof.
  revert a; induction budget as [|budget IH]; intros a; [done|].
  rewrite references_step; intros (m & He & [->|Hr]); [by apply tc_once|].
  eapply tc_l; [exact He|by apply IH].
Qed.

(** A walk through the sources [l]. *)
Fixpoint walk (l : list bytes) b : Prop :=
  match l with
  | [] => False
  | [a] => edge a b
  | a :: (m :: _) as l' => edge a m /\ walk l' b
  end.
Lemma walk_cons a m l b : walk (a :: m :: l) b <-> edge a m /\ walk (m :: l) b.
Proof. done. Qed.
Lemma depends_walk a b : depends a b -> exists l, walk (a :: l) b.
Proof.
  induction 1 as [a b He|a m b He _ [l IH]]; [by exists []|]; exists (m :: l); by rewrite walk_cons.
Qed.
Lemma walk_suffix l1 a l2 b : walk (l1 ++ a :: l2) b -> walk (a :: l2) b.
Proof.
  induction l1 as [|x l1 IH]; [done|]; destruct l1 as [|y l1]; simpl app; rewrite walk_cons; tauto.
Qed.
(** Loops can be cut. *)
Lemma walk_nodup a l b : walk (a :: l) b -> exists l', walk (a :: l') b /\ NoDup (a :: l').
Proof.
  revert a; induction l as [|m l IH]; intros a.
  { intros Hw; exists []; split; [done|]; apply NoDup_singleton. }
  rewrite walk_cons; intros [He (l' & Hw & Hnd)%IH].
  destruct (decide (a ∈ m :: l')) as [Hin|Hin].
  - apply list_elem_of_split in Hin as (l1 & l2 & Hl); rewrite Hl in *.
    exists l2; split; [by eapply walk_suffix|]; by apply NoDup_app in Hnd as (_ & _ & ?).
  - exists (m :: l'); split; [by rewrite walk_cons|by constructor].
Qed.
Lemma walk_declared l b : walk l b -> l ⊆ sd_name <$> defs.
Proof.
  induction l as [|a l IH]; [done|]; intros Hw x [->|Hin]%elem_of_cons.
  - assert (He : exists m, edge a m) by (destruct l; [eauto|apply walk_cons in Hw as [? _]; eauto]).
    destruct He as (m & d & f & Hf & _); apply find_struct_declared; eauto.
  - destruct l as [|m l]; [by apply elem_of_nil in Hin|]; apply walk_cons in Hw as [_ Hw]; by apply IH.
Qed.
Lemma walk_references a l b budget :
  walk (a :: l) b -> (length l < budget)%nat -> references defs a b budget = true.
Proof.
  revert a budget; induction l as [|m l IH]; intros a [|budget] Hw Hb; try (simpl in Hb; lia);
    apply references_step; [by exists b; auto|].
  apply walk_cons in Hw as [He Hw]; exists m; split; [done|right]; apply IH; [done|simpl in Hb; lia].
Qed.

(** The bound on the recursion loses no dependency. *)
Lemma references_complete a b : depends a b -> references defs a b (length defs + 1) = true.
Proof.
  intros (l & (l' & Hw & Hnd)%walk_nodup)%depends_walk; eapply walk_references; [done|].
  pose proof (submseteq_length _ _ (NoDup_submseteq _ _ Hnd (walk_declared _ _ Hw))) as Hl.
  rewrite length_fmap in Hl; simpl in Hl; lia.
Qed.
Lemma references_iff a b : references defs a b (length defs + 1) = true <-> depends a b.
Proof. split; [apply references_sound|apply references_complete]. Qed.

(** *** The loop over the dependencies *)

(** What [encode_type] writes after [last]. *)
Definition eligible p (last : option bytes) n : Prop :=
  n <> p /\ depends p n /\ match last with Some m => name_lt m n | None => True end.

Lemma next_name_cons p last d l next :
  (eligible p last (sd_name d) /\
   next_name defs p last (d :: l) next = next_name defs p last l
     match next with
     | Some c => if negb (bytes_ltb (sd_name d) c) then Some c else Some (sd_name d)
     | None => Some (sd_name d)
     end)
  \/ (~ eligible p last (sd_name d) /\ next_name defs p last (d :: l) next = next_name defs p last l next).
Proof.
  cbn [next_name]; unfold eligible; rewrite <- references_iff, <- (bool_decide_eq_false (sd_name d = p)).
  destruct (bool_decide (sd_name d = p)) eqn:E1; [right; split; [by intros [? _]|done]|].
  destruct (references _ _ _ _) eqn:E2; [|right; split; [by intros (_ & ? & _)|done]].
  destruct last as [m|]; [|by left]; unfold name_lt.
  destruct (bytes_ltb m (sd_name d)) eqn:E3; [by left|right; split; [by intros (_ & _ & ?)|done]].
Qed.

(** The inner loop finds the least name that is left. *)
Lemma next_name_spec p last l next :
  let among n := (n ∈ sd_name <$> l /\ eligible p last n) \/ next = Some n in
  match next_name defs p last l next with
  | None => forall n, ~ among n
  | Some m => among m /\ forall n, among n -> ~ name_lt n m
  end.
Proof.
  revert next; induction l as [|d l IH]; intros next.
  { simpl; destruct next as [m|].
    - split; [by right|]; intros n [[Hn _]|[= ->]]; [by apply elem_of_nil in Hn|]; unfold name_lt.
      by rewrite name_lt_irrefl.
    - intros n [[Hn _]|Hn]; [by apply elem_of_nil in Hn|done]. }
  cbv zeta; destruct (next_name_cons p last d l next) as [[He ->]|[He ->]].
  - set (next' := match next with Some _ => _ | None => _ end).
    assert (Hup : forall n, (n ∈ sd_name <$> l /\ eligible p last n) \/ next' = Some n ->
      (n ∈ sd_name <$> d :: l /\ eligible p last n) \/ next = Some n).
    { intros n [[Hn Hel]|Hn]; [left; split; [by right|done]|].
      unfold next' in Hn; destruct next as [c|]; [destruct (negb _)|]; simplify_eq; auto; left; (split; [by left|done]). }
    assert (Hdown : forall n, (n ∈ sd_name <$> d :: l /\ eligible p last n) \/ next = Some n ->
      (n ∈ sd_name <$> l /\ eligible p last n)
      \/ exists m, next' = Some m /\ (m = n \/ name_lt m n)).
    { intros n [[Hn Hel]| ->]; [apply elem_of_cons in Hn as [->|Hn]; [right|by auto]|right]; unfold next';
        [destruct next as [c|]; [|by eauto]|]; destruct (bytes_ltb (sd_name d) _) eqn:E; simpl; eauto.
      apply name_lt_total in E as [?|?]; eauto. }
    specialize (IH next'); cbv zeta in IH; destruct (next_name defs p last l next') as [m|].
    + destruct IH as [Hm Hmin]; split; [by apply Hup|]; intros n Hn Hlt.
      destruct (Hdown n Hn) as [?|(m' & Hm' & Hor)]; [by apply (Hmin n); auto|].
      apply (Hmin m'); [by right|]; destruct Hor as [->|?]; [done|by etrans].
    + intros n Hn; destruct (Hdown n Hn) as [?|(m' & Hm' & _)]; [by apply (IH n); auto|].
      by apply (IH m'); right.
  - assert (Hiff : forall n, (n ∈ sd_name <$> d :: l /\ eligible p last n) <-> n ∈ sd_name <$> l /\ eligible p last n).
    { intros n; rewrite fmap_cons, elem_of_cons; split; [intros [[->|?] ?]; done|tauto]. }
    specialize (IH next); cbv zeta in IH; destruct (next_name defs p last l next) as [m|].
    + destruct IH as [Hm Hmin]; rewrite Hiff; split; [done|]; intros n; rewrite Hiff; apply Hmin.
    + intros n; rewrite Hiff; apply IH.
Qed.

(** The type string of a declared name. *)
Definition spell_named n : bytes := match find_struct defs n with Some d => spell_def d | None => [] end.

Lemma type_loop_spec fuel p last (out : bytes) (bound : list bytes) :
  NoDup bound -> (length bound < fuel)%nat ->
  (forall n, n ∈ sd_name <$> defs /\ eligible p last n -> n ∈ bound) ->
  exists names, type_loop defs fuel p last out = out ++ concat (spell_named <$> names)
    /\ StronglySorted name_lt names
    /\ forall n, n ∈ names <-> n ∈ sd_name <$> defs /\ eligible p last n.
Proof.
  revert last out bound; induction fuel as [|fuel IH]; intros last out bound Hnd Hlen Hb; [lia|]; simpl.
  pose proof (next_name_spec p last defs None) as Hnext; cbv zeta in Hnext.
  destruct (next_name defs p last defs None) as [m|].
  2: { exists []; simpl; rewrite app_nil_r; split_and!; [done|constructor|].
       intros n; split; [by intros ?%elem_of_nil|]; intros Hn; by destruct (Hnext n); left. }
  destruct Hnext as [[[Hm Hel]|?] Hmin]; [|done].
  assert (Hafter : forall n, eligible p (Some m) n <-> eligible p last n /\ name_lt m n).
  { intros n; unfold eligible in *; destruct last as [k|]; [|tauto]; split; [|tauto].
    intros (? & ? & ?); split_and!; try done; etrans; [apply Hel|done]. }
  destruct (IH (Some m) match find_struct defs m with Some d => write_struct_type out d | None => out end
    (filter (fun n => n <> m) bound)) as (names & -> & Hs & Hn).
  { by apply NoDup_filter. }
  { assert (m ∈ bound) by auto; pose proof (length_filter_lt (fun n => n <> m) bound m); simpl in *.
    specialize (H0 H ltac:(by intros [])); lia. }
  { intros n [Hd Hel']; apply Hafter in Hel' as [Hel' Hlt]; apply list_elem_of_filter; split; [|by apply Hb].
    intros ->; unfold name_lt in Hlt; by rewrite name_lt_irrefl in Hlt. }
  exists (m :: names); split_and!.
  - simpl; unfold spell_named at 2; destruct (find_struct defs m) as [d|]; [|done].
    by rewrite write_struct_type_app, <- app_assoc.
  - constructor; [done|]; apply Forall_forall; intros n Hin; by apply Hn in Hin as [_ [_ ?]%Hafter].
  - intros n; rewrite elem_of_cons, Hn, Hafter; split; [intros [->|?]; tauto|]; intros [Hd Hel'].
    destruct (bytes_ltb m n) eqn:E; [by auto|]; left.
    apply name_lt_total in E as [->|E]; [done|]; by destruct (Hmin n); [left|].
Qed.

(** The type string: the declaration, then those of its dependencies in
    ascending order of their names. *)
Lemma encode_type_spec p d :
  find_struct defs p = Some d ->
  exists names, encode_type defs p = spell_def d ++ concat (spell_named <$> names)
    /\ StronglySorted name_lt names
    /\ forall n, n ∈ names <-> n ∈ sd_name <$> defs /\ n <> p /\ depends p n.
Proof.
  intros Hd; unfold encode_type; rewrite Hd, write_struct_type_app.
  destruct (type_loop_spec (length defs + 1) p None (spell_def d) (remove_dups (sd_name <$> defs)))
    as (names & Ht & Hs & Hn); [apply NoDup_remove_dups| | |].
  - pose proof (submseteq_length _ _ (NoDup_submseteq _ (sd_name <$> defs) (NoDup_remove_dups (sd_name <$> defs))
      (fun n => proj1 (elem_of_remove_dups _ n)))) as Hl; rewrite length_fmap in Hl; lia.
  - by intros n [? _]; apply elem_of_remove_dups.
  - exists names; split_and!; [done|done|]; intros n; rewrite Hn; unfold eligible; tauto.
Qed.
End dependencies.

(** ** Type strings determine what they declare *)

Lemma spell_def_nonempty d (r : bytes) : spell_def d ++ r <> [].
Proof. unfold spell_def; rewrite <- !app_assoc; by destruct (sd_name d). Qed.

Lemma spell_named_some defs n d : find_struct defs n = Some d -> spell_named defs n = spell_def d.
Proof. unfold spell_named; by intros ->. Qed.

Lemma spelled_names_inj defs1 defs2 names1 names2 :
  Forall def_ok defs1 -> Forall def_ok defs2 ->
  Forall (fun n => is_Some (find_struct defs1 n)) names1 -> Forall (fun n => is_Some (find_struct defs2 n)) names2 ->
  concat (spell_named defs1 <$> names1) = concat (spell_named defs2 <$> names2) ->
  names1 = names2 /\ Forall (fun n => find_struct defs1 n = find_struct defs2 n) names1.
Proof.
  intros Hok1 Hok2 H1; revert names2; induction H1 as [|n names1 [d Hd] _ IH]; intros [|n' names2] H2;
    rewrite ?fmap_cons, ?concat_cons; [by split; constructor|..].
  - apply Forall_cons in H2 as [[d' Hd'] _]; rewrite (spell_named_some _ _ _ Hd').
    intros Hs; by destruct (spell_def_nonempty _ _ (eq_sym Hs)).
  - rewrite (spell_named_some _ _ _ Hd); intros Hs; by destruct (spell_def_nonempty _ _ Hs).
  - apply Forall_cons in H2 as [[d' Hd'] H2]; rewrite (spell_named_some _ _ _ Hd), (spell_named_some _ _ _ Hd').
    apply find_struct_some in Hd as Hn, Hd' as Hn'; destruct Hn as [Hin <-], Hn' as [Hin' <-].
    intros [-> Hs]%spell_def_inj; [|by eapply Forall_forall in Hok1|by eapply Forall_forall in Hok2].
    destruct (IH _ H2 Hs) as [-> Hf]; split; [done|]; constructor; [congruence|done].
Qed.

Lemma encode_type_inj defs1 defs2 p1 p2 d1 d2 :
  Forall def_ok defs1 -> Forall def_ok defs2 ->
  find_struct defs1 p1 = Some d1 -> find_struct defs2 p2 = Some d2 ->
  encode_type defs1 p1 = encode_type defs2 p2 ->
  p1 = p2 /\ forall n, n = p1 \/ (n ∈ sd_name <$> defs1 /\ depends defs1 p1 n) ->
    find_struct defs1 n = find_struct defs2 n.
Proof.
  intros Hok1 Hok2 Hd1 Hd2 Ht.
  destruct (encode_type_spec _ _ _ Hd1) as (l1 & E1 & _ & Hl1), (encode_type_spec _ _ _ Hd2) as (l2 & E2 & _ & Hl2).
  apply find_struct_some in Hd1 as Hn1, Hd2 as Hn2; destruct Hn1 as [Hin1 <-], Hn2 as [Hin2 <-].
  rewrite E1, E2 in Ht; apply spell_def_inj in Ht as [-> Hs];
    [|by eapply Forall_forall in Hok1|by eapply Forall_forall in Hok2].
  apply spelled_names_inj in Hs as [-> Hf]; [|done..| |].
  - split; [done|]; intros n [->|[Hin Hdep]]; [congruence|].
    destruct (decide (n = sd_name d2)) as [->|Hne]; [congruence|].
    rewrite Forall_forall in Hf; apply Hf; by apply Hl1.
  - apply Forall_forall; intros n [Hn _]%Hl1; by apply find_struct_declared.
  - apply Forall_forall; intros n [Hn _]%Hl2; by apply find_struct_declared.
Qed.
