(* ===== verification/Eip712Hash.v ===== *)
(** * EIP-712 hashes: correctness

    Which values an encoding accepts, what a digest binds, the words of the
    atomic values and the check of the type tags. *)

From Stdlib Require Import Sorted.
From S2P Require Import Prelude Host Common TypedData Sample Eip712 Eip712Type.

(** Induction over nested values. *)
Lemma FieldValue_nested_ind (P : FieldValue -> Prop) :
  (forall w, P (Word w)) -> (forall b, P (Dynamic b)) ->
  (forall n vs, Forall P vs -> P (VStruct n vs)) -> (forall t vs, Forall P vs -> P (VList t vs)) ->
  forall v, P v.
Proof.
  intros Hw Hd Hs Hl; fix IH 1; intros [w|b|n vs|t vs]; [apply Hw|apply Hd|apply Hs|apply Hl];
    induction vs as [|v vs IHvs]; constructor; by try apply IH.
Qed.

(** ** Accepted values *)

Section hashes.
Context (e : Env) (defs : list StructDef).

(** A value in the representation its type calls for. *)
Inductive fits : FieldType -> FieldValue -> Prop :=
  | FitsWord ty w : referenced_struct ty = None -> is_dynamic ty = false -> fits ty (Word w)
  | FitsBytes b : fits TBytes (Dynamic b)
  | FitsStr b : fits TStr (Dynamic b)
  | FitsStruct n d vs :
      find_struct defs n = Some d -> Forall2 (fun f v => fits (fd_ty f) v) (sd_fields d) vs ->
      fits (TStruct n) (VStruct n vs)
  | FitsList t vs : Forall (fits t) vs -> fits (TArray t) (VList t vs).

Lemma encode_zip_ok g fields vs out b :
  length fields = length vs ->
  encode_zip g fields vs out = inr b
  <-> exists bs, Forall2 (fun '(f, v) b => g f v = inr b) (zip fields vs) bs /\ b = out ++ concat bs.
Proof.
  revert fields out; induction vs as [|v vs IH]; intros [|f fields] out Hl; try done; simpl.
  - split; [intros [= <-]; exists []; simpl; by rewrite app_nil_r|].
    by intros (bs & ->%Forall2_nil_inv_l & ->); simpl; rewrite app_nil_r.
  - injection Hl as Hl; destruct (g f v) as [err|b1] eqn:Hg.
    + split; [done|]; intros (bs & Hbs & _); inversion Hbs; congruence.
    + rewrite IH by done; split.
      * intros (bs & Hbs & ->); exists (b1 :: bs); simpl; rewrite <- app_assoc; auto.
      * intros (bs & Hbs & ->); inversion Hbs as [|? b2 ? bs' Hb2]; rewrite Hg in Hb2; simplify_eq.
        exists bs'; split; [done|]; simpl; by rewrite <- app_assoc.
Qed.
Lemma encode_each_ok g field vs out b :
  encode_each g field vs out = inr b
  <-> exists bs, Forall2 (fun v b => g field v = inr b) vs bs /\ b = out ++ concat bs.
Proof.
  revert out; induction vs as [|v vs IH]; intros out; simpl.
  - split; [intros [= <-]; exists []; simpl; by rewrite app_nil_r|].
    by intros (bs & ->%Forall2_nil_inv_l & ->); simpl; rewrite app_nil_r.
  - destruct (g field v) as [err|b1] eqn:Hg.
    + split; [done|]; intros (bs & Hbs & _); inversion Hbs; congruence.
    + rewrite IH; split.
      * intros (bs & Hbs & ->); exists (b1 :: bs); simpl; rewrite <- app_assoc; auto.
      * intros (bs & Hbs & ->); inversion Hbs as [|? b2 ? bs' Hb2]; rewrite Hg in Hb2; simplify_eq.
        exists bs'; split; [done|]; simpl; by rewrite <- app_assoc.
Qed.

(** Each operation as an equation on its result. *)
Lemma hash_struct_ok g n vs h :
  hash_struct_of e defs g n vs = inr h
  <-> exists d bs, find_struct defs n = Some d /\ length (sd_fields d) = length vs
      /\ Forall2 (fun '(f, v) b => g f v = inr b) (zip (sd_fields d) vs) bs
      /\ h = keccak256 e (keccak256 e (encode_type defs n) ++ concat bs).
Proof.
  unfold hash_struct_of, encode_data_of, type_hash; destruct (find_struct defs n) as [d|] eqn:Hd.
  2: { split; [done|by intros (? & ? & ? & _)]. }
  case_bool_decide as Hl; simpl; [|split; [done|by intros (? & ? & [= <-] & ? & _)]].
  destruct (encode_zip g (sd_fields d) vs []) as [err|b] eqn:Hz.
  - split; [done|]; intros (d' & bs & [= <-] & _ & Hbs & _).
    assert (Hz' : encode_zip g (sd_fields d) vs [] = inr (concat bs)) by (apply encode_zip_ok; eauto).
    congruence.
  - apply encode_zip_ok in Hz as (bs & Hbs & ->); [|done]; split.
    + intros [= <-]; by exists d, bs.
    + intros (d' & bs' & [= <-] & _ & Hbs' & ->); simpl.
      assert (bs = bs') as ->; [|done].
      revert bs' Hbs'; induction Hbs as [|[f v] b fvs bs Hb _ IH]; intros bs' Hbs'; inversion Hbs'; simplify_eq; [done|].
      f_equal; [congruence|auto].
Qed.
Lemma encode_list_ok g t vs h :
  encode_list_of e g t vs = inr h
  <-> exists bs, Forall2 (fun v b => g (mkFieldDef [] t) v = inr b) vs bs /\ h = keccak256 e (concat bs).
Proof.
  unfold encode_list_of; destruct (encode_each g _ vs []) as [err|b] eqn:Hz.
  - split; [done|]; intros (bs & Hbs & _).
    assert (Hz' : encode_each g (mkFieldDef [] t) vs [] = inr (concat bs)) by (apply encode_each_ok; eauto).
    congruence.
  - split.
    + apply encode_each_ok in Hz as (bs & Hbs & ->); intros [= <-]; eauto.
    + intros (bs & Hbs & ->).
      assert (Hz' : encode_each g (mkFieldDef [] t) vs [] = inr (concat bs)) by (apply encode_each_ok; eauto).
      congruence.
Qed.

(** The fields' results, one by one. *)
Lemma zip_results (g : FieldDef -> FieldValue -> SchemaError + bytes) fields vs :
  length fields = length vs ->
  (exists bs, Forall2 (fun '(f, v) b => g f v = inr b) (zip fields vs) bs)
  <-> Forall2 (fun f v => exists b, g f v = inr b) fields vs.
Proof.
  revert fields; induction vs as [|v vs IH]; intros [|f fields] Hl; try done; simpl in *.
  { split; [constructor|exists []; constructor]. }
  rewrite Forall2_cons, <- IH by lia; split.
  - intros (bs & Hbs); inversion Hbs; simplify_eq; eauto.
  - intros [[b Hb] [bs Hbs]]; exists (b :: bs); by constructor.
Qed.

Lemma encode_field_fits v f : (exists b, encode_field e defs f v = inr b) <-> fits (fd_ty f) v.
Proof.
  revert f; induction v as [w|p|n vs IH|t vs IH] using FieldValue_nested_ind; intros f; simpl.
  - case_bool_decide as Hr; simpl.
    { split; [by intros []|]; inversion 1; simplify_eq; by destruct Hr as [? Hr]; rewrite Hr in *. }
    destruct (is_dynamic (fd_ty f)) eqn:Hd; [split; [by intros []|inversion 1; congruence]|].
    split; [|eauto]; constructor; [by apply eq_None_not_Some|done].
  - destruct (fd_ty f); split; try (by intros []); try (by inversion 1); eauto; constructor.
  - destruct (fd_ty f) as [| | | | | | |m|]; split; try (by intros []); try (by inversion 1).
    + case_bool_decide as Hm; simpl; [subst m|by intros []].
      intros [h (d & bs & Hd & Hl & Hbs & _)%hash_struct_ok].
      apply (FitsStruct _ d); [done|]; destruct (zip_results (encode_field e defs) _ _ Hl) as [Hz _].
      specialize (Hz (ex_intro _ bs Hbs)); clear -Hz IH; revert Hz; generalize (sd_fields d) as fs.
      induction IH as [|v vs Hv _ IHvs]; intros fs Hz; inversion Hz; simplify_eq; constructor; [by apply Hv|auto].
    + inversion 1 as [| | |? d ? Hd Hfs|]; simplify_eq; rewrite bool_decide_true by done; simpl.
      assert (Hl := Forall2_length _ _ _ Hfs).
      assert (Hz : Forall2 (fun f v => exists b : bytes, encode_field e defs f v = inr b) (sd_fields d) vs).
      { clear -Hfs IH; revert Hfs; generalize (sd_fields d) as fs.
        induction IH as [|v vs Hv _ IHvs]; intros fs Hz; inversion Hz; simplify_eq; constructor; [by apply Hv|auto]. }
      apply zip_results in Hz as [bs Hbs]; [|done]; eexists; apply hash_struct_ok; eauto 10.
  - destruct (fd_ty f) as [| | | | | | | |m]; split; try (by intros []); try (by inversion 1).
    + case_bool_decide as Hm; simpl; [subst m|by intros []].
      intros [h (bs & Hbs & _)%encode_list_ok]; constructor; clear -Hbs IH; revert bs Hbs.
      induction IH as [|v vs Hv _ IHvs]; intros bs Hbs; inversion Hbs; simplify_eq; constructor; [|by eapply IHvs].
      apply (Hv (mkFieldDef [] t)); eauto.
    + inversion 1 as [| | | |? ? Hvs]; simplify_eq; rewrite bool_decide_true by done; simpl.
      assert (Hz : exists bs, Forall2 (fun v b => encode_field e defs (mkFieldDef [] t) v = inr b) vs bs).
      { clear -Hvs IH; induction IH as [|v vs Hv _ IHvs]; [by exists []|]; apply Forall_cons in Hvs as [Hf Hvs].
        destruct (IHvs Hvs) as [bs Hbs]; destruct (proj2 (Hv (mkFieldDef [] t)) Hf) as [b Hb]; exists (b :: bs); by constructor. }
      destruct Hz as [bs Hbs]; eexists; apply encode_list_ok; eauto.
Qed.
End hashes.

(** ** What a digest binds *)

(** Atomic values are words of 32 bytes. *)
Inductive sized : FieldValue -> Prop :=
  | SizedWord w : length w = 32%nat -> sized (Word w)
  | SizedDynamic b : sized (Dynamic b)
  | SizedStruct n vs : Forall sized vs -> sized (VStruct n vs)
  | SizedList t vs : Forall sized vs -> sized (VList t vs).

(** The strings hashed for a value, and for typed data. *)
Section hashed.
Context (e : Env) (defs : list StructDef).

Definition struct_preimage (n : bytes) (vs : list FieldValue) : bytes :=
  match encode_data e defs n vs with
  | inr encoded => keccak256 e (encode_type defs n) ++ encoded
  | inl _ => []
  end.
Definition list_preimage (t : FieldType) (vs : list FieldValue) : bytes :=
  match encode_each (encode_field e defs) (mkFieldDef [] t) vs [] with
  | inr buffer => buffer
  | inl _ => []
  end.
Fixpoint value_hashed (v : FieldValue) : list bytes :=
  match v with
  | Word _ => []
  | Dynamic p => [p]
  | VStruct n vs => struct_preimage n vs :: encode_type defs n :: flat_map value_hashed vs
  | VList t vs => list_preimage t vs :: flat_map value_hashed vs
  end.
Definition typed_data_hashed (n : bytes) (vs : list FieldValue) (sep : bytes) : list bytes :=
  (EIP712_PREFIX ++ sep ++ keccak256 e (struct_preimage n vs)) :: value_hashed (VStruct n vs).
End hashed.

Lemma concat_words_inj (bs1 bs2 : list bytes) :
  Forall (fun b => length b = 32%nat) bs1 -> Forall (fun b => length b = 32%nat) bs2 ->
  concat bs1 = concat bs2 -> bs1 = bs2.
Proof.
  intros H1; revert bs2; induction H1 as [|b1 bs1 Hb1 _ IH]; intros bs2 [|b2 bs2' Hb2 H2]; simpl; try done.
  - intros Hc%(f_equal length); rewrite length_app in Hc; simpl in Hc; lia.
  - intros Hc%(f_equal length); rewrite length_app in Hc; simpl in Hc; lia.
  - intros [-> Hc]%app_inj_1; [|lia]; f_equal; auto.
Qed.

Lemma struct_preimage_eq e defs n vs d bs :
  find_struct defs n = Some d -> length (sd_fields d) = length vs ->
  Forall2 (fun '(f, v) b => encode_field e defs f v = inr b) (zip (sd_fields d) vs) bs ->
  struct_preimage e defs n vs = keccak256 e (encode_type defs n) ++ concat bs.
Proof.
  intros Hd Hl Hbs; unfold struct_preimage, encode_data, encode_data_of; rewrite Hd, bool_decide_true by done; simpl.
  by rewrite (proj2 (encode_zip_ok (encode_field e defs) (sd_fields d) vs [] (concat bs) Hl) (ex_intro _ bs (conj Hbs eq_refl))).
Qed.
Lemma hash_struct_preimage e defs n vs h :
  hash_struct e defs n vs = inr h -> h = keccak256 e (struct_preimage e defs n vs).
Proof. intros (d & bs & Hd & Hl & Hbs & ->)%hash_struct_ok; by rewrite (struct_preimage_eq _ _ _ _ _ _ Hd Hl Hbs). Qed.
Lemma list_preimage_eq e defs t vs bs :
  Forall2 (fun v b => encode_field e defs (mkFieldDef [] t) v = inr b) vs bs ->
  list_preimage e defs t vs = concat bs.
Proof.
  intros Hbs; unfold list_preimage.
  by rewrite (proj2 (encode_each_ok (encode_field e defs) (mkFieldDef [] t) vs [] (concat bs)) (ex_intro _ bs (conj Hbs eq_refl))).
Qed.

Section binding.
Context (e : Env) (keccak_length : forall b, length (keccak256 e b) = 32%nat).

Lemma encode_field_length defs f v b :
  sized v -> encode_field e defs f v = inr b -> length b = 32%nat.
Proof.
  intros Hs; destruct Hs as [w Hw|p|n vs _|t vs _]; simpl.
  - destruct (_ || _); [done|]; by intros [= <-].
  - by destruct (fd_ty f); intros [= <-].
  - destruct (fd_ty f); try done; destruct (negb _); [done|].
    intros (d & bs & _ & _ & _ & ->)%hash_struct_ok; apply keccak_length.
  - destruct (fd_ty f); try done; destruct (negb _); [done|].
    intros (bs & _ & ->)%encode_list_ok; apply keccak_length.
Qed.

Section values.
Context (defs1 defs2 : list StructDef).
Context (declared1 : Forall def_ok defs1) (declared2 : Forall def_ok defs2).

(** The strings the two sides hash. *)
Context (xs ys : list bytes).

(** A type hash determines the declaration. *)
Lemma type_hash_binds n1 n2 d1 d2 :
  encode_type defs1 n1 ∈ xs -> encode_type defs2 n2 ∈ ys ->
  find_struct defs1 n1 = Some d1 -> find_struct defs2 n2 = Some d2 ->
  keccak256 e (encode_type defs1 n1) = keccak256 e (encode_type defs2 n2) ->
  (n1 = n2 /\ d1 = d2) \/ collides (keccak256 e) xs ys.
Proof.
  intros Hx Hy Hd1 Hd2 Hk; destruct (image_inj _ _ _ _ _ Hk Hx Hy) as [Ht|?]; [left|by right].
  destruct (encode_type_spec _ _ _ Hd1) as (l1 & E1 & _), (encode_type_spec _ _ _ Hd2) as (l2 & E2 & _).
  apply find_struct_some in Hd1 as [Hin1 <-], Hd2 as [Hin2 <-].
  rewrite E1, E2 in Ht; apply spell_def_inj in Ht as [-> _]; [done| |];
    [by eapply Forall_forall in declared1|by eapply Forall_forall in declared2].
Qed.

(** The encoding of a field binds its value. *)
Definition field_binds v1 : Prop := forall f1 f2 v2 b,
  sized v1 -> sized v2 -> value_hashed e defs1 v1 ⊆ xs -> value_hashed e defs2 v2 ⊆ ys ->
  fd_ty f1 = fd_ty f2 ->
  encode_field e defs1 f1 v1 = inr b -> encode_field e defs2 f2 v2 = inr b ->
  v1 = v2 \/ collides (keccak256 e) xs ys.

Lemma zip_binds fields vs1 vs2 bs :
  Forall field_binds vs1 -> Forall sized vs1 -> Forall sized vs2 ->
  flat_map (value_hashed e defs1) vs1 ⊆ xs -> flat_map (value_hashed e defs2) vs2 ⊆ ys ->
  length fields = length vs1 -> length fields = length vs2 ->
  Forall2 (fun '(f, v) b => encode_field e defs1 f v = inr b) (zip fields vs1) bs ->
  Forall2 (fun '(f, v) b => encode_field e defs2 f v = inr b) (zip fields vs2) bs ->
  vs1 = vs2 \/ collides (keccak256 e) xs ys.
Proof.
  intros Hb; revert fields vs2 bs; induction Hb as [|v1 vs1 Hv _ IH]; intros [|f fields] [|v2 vs2] bs Hs1 Hs2 Hx Hy Hl1 Hl2;
    try done; simpl; [by left|]; intros H1 H2.
  apply list_subseteq_app_iff_l in Hx as [? ?], Hy as [? ?].
  apply Forall_cons in Hs1 as [? ?], Hs2 as [? ?]; inversion H1; inversion H2; simplify_eq.
  destruct (Hv f f v2 y) as [->|?]; [done..| |by right].
  destruct (IH fields vs2 l') as [->|?]; simpl in *; auto.
Qed.
Lemma each_binds t vs1 vs2 bs :
  Forall field_binds vs1 -> Forall sized vs1 -> Forall sized vs2 ->
  flat_map (value_hashed e defs1) vs1 ⊆ xs -> flat_map (value_hashed e defs2) vs2 ⊆ ys ->
  Forall2 (fun v b => encode_field e defs1 (mkFieldDef [] t) v = inr b) vs1 bs ->
  Forall2 (fun v b => encode_field e defs2 (mkFieldDef [] t) v = inr b) vs2 bs ->
  vs1 = vs2 \/ collides (keccak256 e) xs ys.
Proof.
  intros Hb; revert vs2 bs; induction Hb as [|v1 vs1 Hv _ IH]; intros vs2 bs Hs1 Hs2 Hx Hy H1 H2.
  { inversion H1; subst; apply Forall2_nil_inv_r in H2; by left. }
  inversion H1; subst; inversion H2; subst; apply Forall_cons in Hs1 as [? ?], Hs2 as [? ?].
  simpl in Hx, Hy; apply list_subseteq_app_iff_l in Hx as [? ?], Hy as [? ?].
  match goal with Ha : encode_field _ defs1 _ v1 = inr ?b, Hc : encode_field _ defs2 _ ?v = inr ?b |- _ =>
    destruct (Hv _ _ v b ltac:(done) ltac:(done) ltac:(done) ltac:(done) eq_refl Ha Hc) as [->|?]; [|by right] end.
  edestruct IH as [->|?]; eauto.
Qed.

Lemma results_sized defs fields vs bs :
  Forall sized vs -> Forall2 (fun '(f, v) b => encode_field e defs f v = inr b) (zip fields vs) bs ->
  Forall (fun b => length b = 32%nat) bs.
Proof.
  intros Hs; revert fields bs; induction Hs as [|v vs Hv _ IH]; intros [|f fields] bs; simpl;
    intros H; inversion H; subst; constructor; [by eapply encode_field_length|by eapply IH].
Qed.
Lemma each_sized defs f vs bs :
  Forall sized vs -> Forall2 (fun v b => encode_field e defs f v = inr b) vs bs ->
  Forall (fun b => length b = 32%nat) bs.
Proof.
  intros Hs; revert bs; induction Hs as [|v vs Hv _ IH]; intros bs H; inversion H; subst; constructor;
    [by eapply encode_field_length|by eapply IH].
Qed.

Lemma struct_binds n1 n2 vs1 vs2 h :
  Forall field_binds vs1 -> Forall sized vs1 -> Forall sized vs2 ->
  value_hashed e defs1 (VStruct n1 vs1) ⊆ xs -> value_hashed e defs2 (VStruct n2 vs2) ⊆ ys ->
  hash_struct e defs1 n1 vs1 = inr h -> hash_struct e defs2 n2 vs2 = inr h ->
  (n1 = n2 /\ find_struct defs1 n1 = find_struct defs2 n2 /\ vs1 = vs2) \/ collides (keccak256 e) xs ys.
Proof.
  intros Hb Hs1 Hs2 Hx Hy (d1 & bs1 & Hd1 & Hl1 & Hbs1 & ->)%hash_struct_ok (d2 & bs2 & Hd2 & Hl2 & Hbs2 & Hh)%hash_struct_ok.
  apply list_subseteq_cons_iff in Hx as [Hx1 Hx], Hy as [Hy1 Hy]; apply list_subseteq_cons_iff in Hx as [Hx2 Hx], Hy as [Hy2 Hy].
  rewrite (struct_preimage_eq _ _ _ _ _ _ Hd1 Hl1 Hbs1) in Hx1; rewrite (struct_preimage_eq _ _ _ _ _ _ Hd2 Hl2 Hbs2) in Hy1.
  destruct (image_inj _ _ _ _ _ Hh Hx1 Hy1) as [Hh'|?]; [clear Hh; rename Hh' into Hh|by right].
  apply app_inj_1 in Hh as [Ht Hc]; [|by rewrite !keccak_length].
  apply concat_words_inj in Hc as ->; 
    [|exact (results_sized _ _ _ _ Hs1 Hbs1)|exact (results_sized _ _ _ _ Hs2 Hbs2)].
  destruct (type_hash_binds _ _ _ _ Hx2 Hy2 Hd1 Hd2 Ht) as [[-> ->]|?]; [|by right].
  destruct (zip_binds _ _ _ _ Hb Hs1 Hs2 Hx Hy Hl1 Hl2 Hbs1 Hbs2) as [->|?]; [|by right].
  left; split_and!; congruence.
Qed.

Lemma encode_field_binds v1 : field_binds v1.
Proof.
  induction v1 as [w1|p1|n1 vs1 IH|t1 vs1 IH] using FieldValue_nested_ind; intros f1 f2 v2 b Hs1 Hs2 Hx Hy Hty H1 H2;
    simpl in H1; rewrite Hty in H1; clear Hty.
  - destruct v2; simpl in H2; set (ty := fd_ty f2) in *; clearbody ty; destruct (_ || _) eqn:E; simplify_eq; auto;
      apply orb_false_iff in E as [E1 E2]; apply bool_decide_eq_false in E1;
      destruct ty; simpl in *; try done; by destruct E1; eauto.
  - destruct v2 as [w2|p2|n2 vs2|t2 vs2]; simpl in H2; set (ty := fd_ty f2) in *; clearbody ty;
      destruct ty; simpl in *; try done;
      apply list_subseteq_cons_iff in Hx as [Hx _], Hy as [Hy _];
      simplify_eq; destruct (image_inj (keccak256 e) p1 p2 xs ys) as [->|?]; auto; congruence.
  - destruct v2 as [w2|p2|n2 vs2|t2 vs2]; simpl in H2; set (ty := fd_ty f2) in *; clearbody ty;
      destruct ty as [| | | | | | |m|]; simpl in *; try done.
    repeat case_bool_decide; simpl in *; subst; try done; inversion Hs1; inversion Hs2; subst.
    eapply struct_binds in H2 as [(_ & _ & ->)|?]; [by left|by right|done..].
  - destruct v2 as [w2|p2|n2 vs2|t2 vs2]; simpl in H2; set (ty := fd_ty f2) in *; clearbody ty;
      destruct ty as [| | | | | | | |m]; simpl in *; try done; try (by rewrite orb_true_r in H2).
    repeat case_bool_decide; simpl in *; subst; try done; inversion Hs1; inversion Hs2; subst.
    apply encode_list_ok in H1 as (bs1 & Hbs1 & ->), H2 as (bs2 & Hbs2 & Hh).
    apply list_subseteq_cons_iff in Hx as [Hx1 Hx], Hy as [Hy1 Hy].
    rewrite (list_preimage_eq _ _ _ _ _ Hbs1) in Hx1; rewrite (list_preimage_eq _ _ _ _ _ Hbs2) in Hy1.
    destruct (image_inj _ _ _ _ _ Hh Hx1 Hy1) as [Hh'|?]; [clear Hh; rename Hh' into Hh|by right].
    apply concat_words_inj in Hh as ->; [|by eapply (each_sized defs1 _ vs1)|by eapply (each_sized defs2 _ vs2)].
    destruct (each_binds t1 vs1 vs2 bs2) as [->|?]; auto.
Qed.

(** A digest binds the prefix's domain, the struct and every value. *)
Lemma digest_binds n1 n2 vs1 vs2 sep1 sep2 h :
  Forall sized vs1 -> Forall sized vs2 -> length sep1 = 32%nat -> length sep2 = 32%nat ->
  typed_data_hashed e defs1 n1 vs1 sep1 ⊆ xs -> typed_data_hashed e defs2 n2 vs2 sep2 ⊆ ys ->
  hash_typed_data e defs1 n1 vs1 sep1 = inr h -> hash_typed_data e defs2 n2 vs2 sep2 = inr h ->
  (n1 = n2 /\ find_struct defs1 n1 = find_struct defs2 n2 /\ vs1 = vs2 /\ sep1 = sep2)
  \/ collides (keccak256 e) xs ys.
Proof.
  intros Hs1 Hs2 Hl1 Hl2 Hx Hy; unfold hash_typed_data, hash_typed_data_with_prefix.
  apply list_subseteq_cons_iff in Hx as [Hx1 Hx], Hy as [Hy1 Hy].
  destruct (hash_struct e defs1 n1 vs1) as [|h1] eqn:E1; [done|].
  destruct (hash_struct e defs2 n2 vs2) as [|h2] eqn:E2; [done|]; intros [= <-] [= Hh].
  rewrite <- (hash_struct_preimage _ _ _ _ _ E1) in Hx1; rewrite <- (hash_struct_preimage _ _ _ _ _ E2) in Hy1.
  symmetry in Hh; destruct (image_inj _ _ _ _ _ Hh Hx1 Hy1) as [Hh'|?]; [|by right]; injection Hh' as Hh'.
  apply app_inj_1 in Hh' as [-> ->]; [|congruence].
  destruct (struct_binds n1 n2 vs1 vs2 h2) as [(? & ? & ?)|?]; [|done..|by left|by right].
  apply Forall_forall; intros v _; apply encode_field_binds.
Qed.
End values.
End binding.

(** ** Words *)

Lemma from_be_bytes_concat a b :
  from_be_bytes (a ++ b) = from_be_bytes a * 256 ^ Z.of_nat (length b) + from_be_bytes b.
Proof.
  induction b as [|x b IH] using rev_ind.
  { rewrite app_nil_r; change (256 ^ Z.of_nat (length [])) with 1; change (from_be_bytes []) with 0; lia. }
  rewrite app_assoc, !from_be_bytes_app, IH, length_app; simpl length.
  rewrite Nat2Z.inj_add, Z.pow_add_r by lia; change (256 ^ Z.of_nat 1) with 256; lia.
Qed.
Lemma from_be_bytes_replicate k c :
  from_be_bytes (replicate k c) * 255 = c * (256 ^ Z.of_nat k - 1).
Proof.
  induction k as [|k IH]; [unfold from_be_bytes; simpl; lia|].
  rewrite (replicate_S_end k), from_be_bytes_app, Nat2Z.inj_succ, Z.pow_succ_r by lia; lia.
Qed.
Lemma low_bytes_length fill b : (length b <= 32)%nat -> length (low_bytes fill b) = 32%nat.
Proof. intros; unfold low_bytes; rewrite length_app, length_replicate; lia. Qed.
Lemma low_bytes_zero b : from_be_bytes (low_bytes 0 b) = from_be_bytes b.
Proof.
  unfold low_bytes; rewrite from_be_bytes_concat.
  pose proof (from_be_bytes_replicate (32 - length b) 0); lia.
Qed.

(** The value of a word as an unsigned number. *)
Definition word_value (v : FieldValue) : option Z :=
  match v with Word w => if bool_decide (length w = 32%nat) then Some (from_be_bytes w) else None | _ => None end.

Lemma from_u64_value z : is_u64 z -> word_value (from_u64 z) = Some z.
Proof.
  intros Hz; unfold word_value, from_u64; rewrite bool_decide_true, low_bytes_zero, from_to_be_bytes_u64 by
    (done || apply low_bytes_length; rewrite length_to_be_bytes; lia); done.
Qed.
Lemma from_u128_value z : 0 <= z < 2 ^ 128 -> word_value (from_u128 z) = Some z.
Proof.
  intros Hz; unfold word_value, from_u128; rewrite bool_decide_true, low_bytes_zero, from_to_be_bytes by
    (done || apply low_bytes_length; rewrite length_to_be_bytes; lia); done.
Qed.
(** Sign extension: the two's complement of the same number at 256 bits. *)
Lemma from_i128_value z : - 2 ^ 127 <= z < 2 ^ 127 -> word_value (from_i128 z) = Some (z mod 2 ^ 256).
Proof.
  intros Hz; unfold word_value, from_i128.
  rewrite bool_decide_true by (apply low_bytes_length; rewrite length_to_be_bytes; lia); f_equal.
  assert (Hm : 0 <= z mod 2 ^ 128 < 2 ^ 128) by (apply Z.mod_pos_bound; lia).
  unfold low_bytes; rewrite from_be_bytes_concat, length_to_be_bytes, from_to_be_bytes by done.
  pose proof (from_be_bytes_replicate (32 - 16) (if z <? 0 then 255 else 0)) as Hr.
  destruct (Z.ltb_spec z 0).
  - rewrite <- (Z.mod_add z 1 (2 ^ 128)), <- (Z.mod_add z 1 (2 ^ 256)), !Z.mod_small by lia.
    change (256 ^ Z.of_nat (32 - 16)) with (2 ^ 128) in Hr; change (256 ^ Z.of_nat 16) with (2 ^ 128); lia.
  - rewrite !Z.mod_small by lia; lia.
Qed.

(** ** Type tags *)

Lemma position_some c l i :
  position c l = Some i <-> exists l1 l2, l = l1 ++ c :: l2 /\ length l1 = i /\ c ∉ l1.
Proof.
  revert i; induction l as [|x l IH]; intros i; simpl.
  { split; [done|]; by intros ([|] & ? & ? & _). }
  destruct (Z.eqb_spec x c) as [->|Hne].
  - split; [intros [= <-]; exists [], l; split_and!; [done|done|apply not_elem_of_nil]|].
    intros ([|y l1] & l2 & Hl & <- & Hn); [done|]; injection Hl as -> ->; by apply not_elem_of_cons in Hn as [? _].
  - split.
    + destruct (position c l) as [j|]; [|done]; intros [= <-].
      destruct (proj1 (IH j) eq_refl) as (l1 & l2 & -> & <- & Hn); exists (x :: l1), l2; split_and!; [done..|].
      by apply not_elem_of_cons.
    + intros ([|y l1] & l2 & Hl & <- & Hn); [by injection Hl|]; injection Hl as -> ->; apply not_elem_of_cons in Hn as [_ Hn].
      by rewrite (proj2 (IH (length l1))) by eauto.
Qed.
Lemma rposition_some c l i :
  rposition c l = Some i <-> exists l1 l2, l = l1 ++ c :: l2 /\ length l1 = i /\ c ∉ l2.
Proof.
  unfold rposition; rewrite fmap_Some; split.
  - intros (j & (r1 & r2 & Hl & <- & Hn)%position_some & ->); exists (reverse r2), (reverse r1).
    apply (f_equal reverse) in Hl; rewrite reverse_involutive, reverse_app, reverse_cons, <- app_assoc in Hl.
    rewrite Hl, !length_app, length_reverse; simpl; rewrite length_reverse, elem_of_reverse; split_and!; [done|lia|done].
  - intros (l1 & l2 & -> & <- & Hn); exists (length l2); split; [|rewrite length_app; simpl; lia].
    apply position_some; exists (reverse l2), (reverse l1).
    by rewrite reverse_app, reverse_cons, <- app_assoc, length_reverse, elem_of_reverse.
Qed.
Lemma names_match_iff names fields : names_match names fields = true <-> names = fd_name <$> fields.
Proof.
  revert fields; induction names as [|n names IH]; intros [|f fields]; simpl; try done.
  rewrite andb_true_iff, bool_decide_eq_true, IH; split; [by intros [-> ->]|by intros [= -> ->]].
Qed.

(** The check accepts exactly the tags whose parenthesised part lists the
    field names. *)
Lemma tag_matches_iff tag def :
  sd_fields def <> [] -> Forall (fun f => 44 ∉ fd_name f) (sd_fields def) ->
  tag_matches_defs tag def = true
  <-> exists pre post, tag = pre ++ 40 :: join 44 (fd_name <$> sd_fields def) ++ 41 :: post
      /\ (40 ∉ pre) /\ (41 ∉ post).
Proof.
  intros Hne Hfree; unfold tag_matches_defs.
  assert (Hinner : forall (pre inner post : bytes),
    slice (length pre + 1) (length (pre ++ 40 :: inner)) (pre ++ 40 :: inner ++ 41 :: post) = inner).
  { intros pre inner post; unfold slice.
    replace (pre ++ 40 :: inner ++ 41 :: post) with ((pre ++ [40]) ++ inner ++ 41 :: post) by (by rewrite <- app_assoc).
    rewrite drop_app_length' by (rewrite length_app; done).
    apply take_app_length'; rewrite length_app; simpl; lia. }
  split.
  - destruct (position 40 tag) as [op|] eqn:Ho, (rposition 41 tag) as [cl|] eqn:Hc; try done.
    apply position_some in Ho as (pre & r1 & Ht & <- & Hpre).
    apply rposition_some in Hc as (l1 & post & Ht' & <- & Hpost).
    case_bool_decide as Hle; [done|]; intros Hm%names_match_iff.
    rewrite Ht' in Ht; assert (Hl1 : exists inner, l1 = pre ++ 40 :: inner).
    { apply app_eq_app in Ht as (k & [[-> Hk]|[-> Hk]]); [destruct k; simplify_eq/=; eauto|].
      rewrite length_app in Hle; lia. }
    destruct Hl1 as [inner ->]; exists pre, post; split_and!; [|done|done].
    rewrite <- app_assoc, <- app_comm_cons in Ht'; rewrite Ht' in Hm; rewrite Hinner in Hm.
    by rewrite <- Hm, join_split_at.
  - intros (pre & post & -> & Hpre & Hpost); set (inner := join 44 _).
    rewrite (proj2 (position_some 40 _ (length pre))) by eauto.
    rewrite (proj2 (rposition_some 41 _ (length (pre ++ 40 :: inner))))
      by (exists (pre ++ 40 :: inner), post; by rewrite <- app_assoc).
    rewrite bool_decide_false by (rewrite length_app; simpl; lia); rewrite Hinner.
    apply names_match_iff; unfold inner; rewrite split_at_join; [done| |by apply Forall_fmap].
    by destruct (sd_fields def).
Qed.

(** ** A concrete declaration *)

Definition person_name : bytes := bytes_of_string "Person".
Definition mail_name : bytes := bytes_of_string "Mail".
Definition PERSON : StructDef :=
  mkStructDef person_name [field "name" TStr; field "wallet" TAddress].
Definition MAIL : StructDef :=
  mkStructDef mail_name
    [field "from" (TStruct person_name); field "to" (TArray (TStruct person_name)); field "contents" TStr].
Definition person (name : string) (n : Z) : FieldValue :=
  VStruct person_name [Dynamic (bytes_of_string name); Word (key_of n)].
Definition mail_values : list FieldValue :=
  [ person "Alice" 17; VList (TStruct person_name) [person "Bob" 34; person "Carol" 51];
    Dynamic (bytes_of_string "Hello") ].
Definition mail_digest : bytes :=
  match hash_typed_data (sample_env 0 []) [MAIL; PERSON] mail_name mail_values (key_of 9) with
  | inl _ => [] | inr h => h
  end.

(** ** What the encoder guarantees *)

(** C32: The type string of a declared struct is its own declaration followed by
    those of exactly the other declared structs that are reachable from it
    through field types, in strictly ascending order of their names; the bound
    on the search and the loop cut none of them off.  And it determines them:
    when two sets of declarations use names without punctuation, and struct
    names that are no built-in types, equal type strings come from the same
    struct with the same declarations reachable from it. *)
Theorem type_string_is_canonical defs p d :
  find_struct defs p = Some d ->
  (exists names, encode_type defs p = spell_def d ++ concat (spell_named defs <$> names)
    /\ StronglySorted name_lt names
    /\ forall n, n ∈ names <-> n ∈ sd_name <$> defs /\ n <> p /\ depends defs p n)
  /\ forall defs' p', Forall def_ok defs -> Forall def_ok defs' -> is_Some (find_struct defs' p') ->
       encode_type defs p = encode_type defs' p' ->
       p = p' /\ forall n, n = p \/ (n ∈ sd_name <$> defs /\ depends defs p n) ->
         find_struct defs n = find_struct defs' n.
Proof.
  intros Hd; split; [by apply encode_type_spec|]; intros defs' p' Hok Hok' [d' Hd'] Ht.
  by eapply encode_type_inj.
Qed.

(** C34: Hashing a struct fails with [UnknownStruct] when it is not declared and
    with [ArityMismatch] when the number of values is not that of its fields;
    otherwise it succeeds exactly when every value, nested ones included, has
    the representation its declared type calls for. *)
Theorem typed_values_hashed_exactly e defs n vs :
  match find_struct defs n with
  | None => hash_struct e defs n vs = inl UnknownStruct
  | Some d =>
    if decide (length (sd_fields d) = length vs)
    then (exists h, hash_struct e defs n vs = inr h)
         <-> Forall2 (fun f v => fits defs (fd_ty f) v) (sd_fields d) vs
    else hash_struct e defs n vs = inl ArityMismatch
  end.
Proof.
  destruct (find_struct defs n) as [d|] eqn:Hd; [case_decide as Hl|].
  - pose proof (encode_field_fits e defs (VStruct n vs) (mkFieldDef [] (TStruct n))) as Hf; simpl in Hf.
    rewrite bool_decide_true in Hf by done; etrans; [exact Hf|].
    split; [inversion 1; simplify_eq; congruence|by econstructor].
  - unfold hash_struct, hash_struct_of, encode_data_of; by rewrite Hd, bool_decide_false.
  - unfold hash_struct, hash_struct_of, encode_data_of; by rewrite Hd.
Qed.

(** C33: Two equal digests were made from the same domain separator, the same
    struct name with the same declaration, and the same values, whatever else
    the two sets of declarations hold, or two of the strings hashed for them
    collide under Keccak-256. *)
Theorem typed_digest_binds (e : Env) defs1 defs2 n1 n2 vs1 vs2 sep1 sep2 h :
  (forall b, length (keccak256 e b) = 32%nat) ->
  Forall def_ok defs1 -> Forall def_ok defs2 -> Forall sized vs1 -> Forall sized vs2 ->
  length sep1 = 32%nat -> length sep2 = 32%nat ->
  hash_typed_data e defs1 n1 vs1 sep1 = inr h -> hash_typed_data e defs2 n2 vs2 sep2 = inr h ->
  (n1 = n2 /\ find_struct defs1 n1 = find_struct defs2 n2 /\ vs1 = vs2 /\ sep1 = sep2)
  \/ collides (keccak256 e) (typed_data_hashed e defs1 n1 vs1 sep1) (typed_data_hashed e defs2 n2 vs2 sep2).
Proof. intros; by eapply digest_binds. Qed.

Lemma person_type_ok : type_ok (TStruct person_name).
Proof.
  split; [by apply ascii_plain|].
  intros b Hb; unfold spell; destruct b; simpl; try done; by rewrite write_u32_app.
Qed.
Lemma mail_defs_ok : Forall def_ok [MAIL; PERSON].
Proof.
  pose proof person_type_ok.
  repeat (apply Forall_cons; split); [split|split|constructor]; try (by apply ascii_plain);
    simpl; repeat (apply Forall_cons; split; [split; [by apply ascii_plain|done]|]); constructor.
Qed.
Lemma defs_ok_swapped : Forall def_ok [PERSON; MAIL].
Proof. eapply Forall_Permutation; [done| |apply mail_defs_ok]; by constructor. Qed.
Lemma mail_depends : depends [MAIL; PERSON] mail_name person_name.
Proof. apply stdpp.relations.tc_once; exists MAIL, (field "from" (TStruct person_name)); split_and!; [done|left|done]. Qed.

Lemma type_string_is_canonical_witness :
  encode_type [MAIL; PERSON] mail_name
    = bytes_of_string "Mail(Person from,Person[] to,string contents)Person(string name,address wallet)"
  /\ (exists names, encode_type [MAIL; PERSON] mail_name
       = spell_def MAIL ++ concat (spell_named [MAIL; PERSON] <$> names))
  /\ find_struct [MAIL; PERSON] person_name = find_struct [PERSON; MAIL] person_name.
Proof.
  split; [vm_compute; reflexivity|].
  destruct (type_string_is_canonical [MAIL; PERSON] mail_name MAIL eq_refl) as [(names & Hn & _) Hinj].
  split; [exists names; exact Hn|].
  refine (proj2 (Hinj [PERSON; MAIL] mail_name mail_defs_ok defs_ok_swapped _ _) person_name (or_intror (conj _ mail_depends))).
  - by eexists.
  - vm_compute; reflexivity.
  - apply (bool_decide_unpack _); by vm_compute.
Defined.

Lemma mail_values_sized : Forall sized mail_values.
Proof. by repeat constructor. Qed.

Lemma typed_digest_binds_witness :
  (find_struct [MAIL; PERSON] mail_name = find_struct [PERSON; MAIL] mail_name
   /\ mail_values = mail_values)
  \/ collides (keccak256 (sample_env 0 []))
       (typed_data_hashed (sample_env 0 []) [MAIL; PERSON] mail_name mail_values (key_of 9))
       (typed_data_hashed (sample_env 0 []) [PERSON; MAIL] mail_name mail_values (key_of 9)).
Proof.
  destruct (typed_digest_binds (sample_env 0 []) [MAIL; PERSON] [PERSON; MAIL] mail_name mail_name
    mail_values mail_values (key_of 9) (key_of 9) mail_digest) as [(_ & Hd & Hv & _)|Hc].
  - intros b; apply length_to_be_bytes.
  - apply mail_defs_ok.
  - apply defs_ok_swapped.
  - apply mail_values_sized.
  - apply mail_values_sized.
  - reflexivity.
  - reflexivity.
  - vm_compute; reflexivity.
  - vm_compute; reflexivity.
  - left; exact (conj Hd Hv).
  - right; exact Hc.
Defined.

(** The literal tags of the first signing scheme list the fields of their
    declarations. *)
Example v1_tags_hold : v1_tags_match = true.
Proof. by vm_compute. Qed.
