(* ===== verification/SdkSequence.v ===== *)
(** * SDK: account sequence numbers

    [src/packages/soroban-sas-sdk/src/sequence.rs]: reservations of sequence
    numbers for the accounts of a client.  Every operation runs under the
    manager's mutex, so concurrent use is a sequence of operations.  What the
    RPC node answers is an argument of the operations that ask it. *)

From stdpp Require Import gmap relations.
From S2P Require Import Prelude Host Common TypedData Sample.

Definition i64_max : Z := 2 ^ 63 - 1.

Record AccountState := mkAccountState {
  on_chain_sequence : option Z;
  last_reserved : Z;
  recycled : gset Z;
  in_flight : gset Z;
  initialized : bool
}.
Abbreviation PublicKey := (list Z).
Abbreviation SequenceManager := (gmap PublicKey AccountState).
Definition default_account : AccountState := mkAccountState None 0 ∅ ∅ false.

Inductive SequenceError := FetchFailed | SequenceOverflowed.

(** The least element, [iter().next()] of the ordered set. *)
Definition smallest (s : gset Z) : option Z :=
  match elements s with
  | [] => None
  | x :: l => Some (foldr Z.min x l)
  end.

(** ** Operations *)

(** The state a reservation starts from, with the node's answer for an account
    that has none. *)
Definition warm (fetched : option Z) (o : option AccountState) : option AccountState :=
  match o with
  | Some s => if initialized s then Some s
              else (fun current => mkAccountState (Some current) current ∅ ∅ true) <$> fetched
  | None => (fun current => mkAccountState (Some current) current ∅ ∅ true) <$> fetched
  end.

(** The next number, and the state without it. *)
Definition next_sequence (s : AccountState) : option (Z * AccountState) :=
  match smallest (recycled s) with
  | Some n =>
    Some (n, mkAccountState (on_chain_sequence s) (last_reserved s) (recycled s ∖ {[n]}) (in_flight s)
               (initialized s))
  | None =>
    let n := last_reserved s + 1 in
    if i64_max <? n then None
    else Some (n, mkAccountState (on_chain_sequence s) n (recycled s) (in_flight s) (initialized s))
  end.

Definition reserve (fetched : option Z) (pk : PublicKey) (m : SequenceManager)
    : (SequenceError + Z) * SequenceManager :=
  match warm fetched (m !! pk) with
  | None => (inl FetchFailed, m)
  | Some s =>
    match next_sequence s with
    | None => (inl SequenceOverflowed, <[pk := s]> m)
    | Some (n, s') =>
      (inr n, <[pk := mkAccountState (on_chain_sequence s') (last_reserved s') (recycled s')
                        (in_flight s' ∪ {[n]}) (initialized s')]> m)
    end
  end.

Definition sync_on_chain (fetched : option Z) (pk : PublicKey) (m : SequenceManager)
    : (SequenceError + Z) * SequenceManager :=
  match fetched with
  | None => (inl FetchFailed, m)
  | Some current =>
    let s := default default_account (m !! pk) in
    (inr current,
     <[pk := mkAccountState (Some current) (if last_reserved s <? current then current else last_reserved s)
               (filter (fun n => current < n) (recycled s)) (filter (fun n => current < n) (in_flight s))
               true]> m)
  end.

Definition commit (pk : PublicKey) (sequence : Z) (m : SequenceManager) : SequenceManager :=
  match m !! pk with
  | None => m
  | Some s =>
    <[pk := mkAccountState
              (match on_chain_sequence s with
               | Some on_chain => Some (if on_chain <? sequence then sequence else on_chain)
               | None => Some sequence
               end) (last_reserved s) (recycled s) (in_flight s ∖ {[sequence]}) (initialized s)]> m
  end.

Definition record_failure (pk : PublicKey) (sequence : Z) (m : SequenceManager) : SequenceManager :=
  match m !! pk with
  | None => m
  | Some s =>
    let flying := in_flight s ∖ {[sequence]} in
    <[pk := if bool_decide (flying = ∅) && bool_decide (recycled s = ∅)
            then mkAccountState (on_chain_sequence s)
                   (match on_chain_sequence s with
                    | Some on_chain => on_chain
                    | None => Z.max (last_reserved s - 1) (- 2 ^ 63)
                    end) (recycled s) flying false
            else mkAccountState (on_chain_sequence s) (last_reserved s) (recycled s ∪ {[sequence]}) flying
                   (initialized s)]> m
  end.

Definition resync (pk : PublicKey) (m : SequenceManager) : SequenceManager :=
  match m !! pk with
  | None => m
  | Some s =>
    <[pk := mkAccountState (on_chain_sequence s)
              (match on_chain_sequence s with Some on_chain => on_chain | None => last_reserved s end)
              ∅ ∅ false]> m
  end.

Definition peek (pk : PublicKey) (m : SequenceManager) : option Z :=
  s ← m !! pk;
  if initialized s then
    match smallest (recycled s) with Some n => Some n | None => Some (last_reserved s) end
  else None.
Definition recycled_count (pk : PublicKey) (m : SequenceManager) : nat :=
  match m !! pk with Some s => size (recycled s) | None => 0%nat end.
Definition in_flight_count (pk : PublicKey) (m : SequenceManager) : nat :=
  match m !! pk with Some s => size (in_flight s) | None => 0%nat end.

(** ** Reservations over time

    The manager together with the reservations its clients hold and have not
    given up.  A client reports the outcome of a reservation once, since
    reporting consumes it.  [resync] forgets what is in flight, so the
    reservations held for the account at that time are given up: they are not
    counted and not reported any more.  The node's answer, when it is used, is never less than what the manager has
    seen on the chain ([sync_on_chain] asks before it takes the mutex, so a
    commit in between would have to be no newer than the answer). *)

Definition Reservation : Type := PublicKey * Z.
Definition seen (m : SequenceManager) (pk : PublicKey) : option Z :=
  s ← m !! pk; on_chain_sequence s.
Definition plausible (fetched : option Z) (m : SequenceManager) (pk : PublicKey) : Prop :=
  forall current c, fetched = Some current -> seen m pk = Some c -> c <= current.

Inductive seq_step : SequenceManager * list Reservation -> SequenceManager * list Reservation -> Prop :=
  | StepReserve m held pk fetched n m' :
      plausible fetched m pk -> reserve fetched pk m = (inr n, m') ->
      seq_step (m, held) (m', (pk, n) :: held)
  | StepReserveFails m held pk fetched err m' :
      plausible fetched m pk -> reserve fetched pk m = (inl err, m') ->
      seq_step (m, held) (m', held)
  | StepSync m held pk fetched r m' :
      plausible fetched m pk -> sync_on_chain fetched pk m = (r, m') ->
      seq_step (m, held) (m', held)
  | StepCommit m before pk n after :
      seq_step (m, before ++ (pk, n) :: after) (commit pk n m, before ++ after)
  | StepFail m before pk n after :
      seq_step (m, before ++ (pk, n) :: after) (record_failure pk n m, before ++ after)
  | StepResync m held pk : seq_step (m, held) (resync pk m, filter (fun r => r.1 <> pk) held).

(** ** Distinctness *)

Lemma smallest_spec s :
  match smallest s with
  | Some n => n ∈ s /\ forall x, x ∈ s -> n <= x
  | None => s = ∅
  end.
Proof.
  unfold smallest; destruct (elements s) as [|x l] eqn:E.
  { by apply elements_empty_inv in E; apply leibniz_equiv. }
  assert (Hmin : foldr Z.min x l ∈ x :: l /\ forall y, y ∈ x :: l -> foldr Z.min x l <= y).
  { clear E; induction l as [|y l [IH1 IH2]]; simpl.
    - split; [by left|]; intros y [->|Hy]%elem_of_cons; [lia|by apply elem_of_nil in Hy].
    - split.
      + rewrite !elem_of_cons in *; destruct (Z.min_spec y (foldr Z.min x l)) as [[_ ->]|[_ ->]]; tauto.
      + intros z Hz; rewrite !elem_of_cons in Hz; destruct Hz as [->|[->|Hz]]; [|lia|].
        * specialize (IH2 x (list_elem_of_here _ _)); lia.
        * specialize (IH2 z (list_elem_of_further _ _ _ Hz)); lia. }
  rewrite <- E in Hmin; destruct Hmin as [H1 H2]; split; [by apply elem_of_elements|].
  intros y Hy; apply H2; by apply elem_of_elements.
Qed.

(** The numbers [H] are held by clients of the account. *)
Record account_ok (H : Z -> Prop) (s : AccountState) : Prop := {
  ao_held : forall n, H n -> n ∈ in_flight s \/ exists c, on_chain_sequence s = Some c /\ n <= c;
  ao_recycled : forall n, n ∈ recycled s -> ~ H n /\ n <= last_reserved s;
  ao_flying : forall n, n ∈ in_flight s -> n <= last_reserved s;
  ao_chain : forall c, on_chain_sequence s = Some c -> c <= last_reserved s;
  ao_cold : initialized s = false -> in_flight s = ∅;
  ao_warm : initialized s = true -> is_Some (on_chain_sequence s)
}.

Lemma warm_ok H fetched s s' :
  account_ok H s -> (forall current c, fetched = Some current -> on_chain_sequence s = Some c -> c <= current) ->
  warm fetched (Some s) = Some s' -> account_ok H s' /\ initialized s' = true.
Proof.
  intros Hs Hf; simpl; destruct (initialized s) eqn:Hi; [by intros [= <-]|].
  destruct fetched as [current|]; [|done]; intros [= <-]; split; [|done]; split; simpl; try set_solver.
  - intros n Hn; right; exists current; split; [done|].
    destruct (ao_held _ _ Hs n Hn) as [Hin|(c & Hc & Hle)]; [rewrite (ao_cold _ _ Hs Hi) in Hin; set_solver|].
    specialize (Hf current c eq_refl Hc); lia.
Qed.

Lemma held_le H s n : account_ok H s -> H n -> n <= last_reserved s.
Proof.
  intros Hs Hn; destruct (ao_held _ _ Hs n Hn) as [Hin|(c & Hc & Hle)]; [by apply (ao_flying _ _ Hs)|].
  apply (ao_chain _ _ Hs) in Hc; lia.
Qed.

(** A new number is held by nobody, and the account stays in order. *)
Lemma next_ok H s n s' :
  account_ok H s -> initialized s = true -> next_sequence s = Some (n, s') ->
  ~ H n /\ account_ok (fun x => x = n \/ H x)
    (mkAccountState (on_chain_sequence s') (last_reserved s') (recycled s') (in_flight s' ∪ {[n]}) (initialized s')).
Proof.
  intros Hs Hi; unfold next_sequence; pose proof (smallest_spec (recycled s)) as Hmin.
  destruct (smallest (recycled s)) as [k|].
  - intros [= <- <-]; destruct Hmin as [Hk _]; destruct (ao_recycled _ _ Hs k Hk) as [Hnk Hle]; split; [done|].
    split; simpl; try (by rewrite Hi); try apply Hs.
    + intros x [->|Hx]; [set_solver|]; destruct (ao_held _ _ Hs x Hx) as [?|?]; [set_solver|by right].
    + intros x [Hx Hne]%elem_of_difference; destruct (ao_recycled _ _ Hs x Hx) as [? ?].
      split; [|done]; intros [->|?]; [by destruct Hne; apply elem_of_singleton|done].
    + intros x [Hx| ->%elem_of_singleton]%elem_of_union; [by apply (ao_flying _ _ Hs)|done].
  - destruct (i64_max <? _); [done|]; intros [= <- <-]; split.
    { intros Hn%(held_le _ _ _ Hs); lia. }
    split; simpl; try (by rewrite Hi); try apply Hs.
    + intros x [->|Hx]; [set_solver|]; destruct (ao_held _ _ Hs x Hx) as [?|?]; [set_solver|by right].
    + rewrite Hmin; set_solver.
    + intros x [Hx| ->%elem_of_singleton]%elem_of_union; [apply (ao_flying _ _ Hs) in Hx; lia|lia].
    + intros c Hc; apply (ao_chain _ _ Hs) in Hc; lia.
Qed.

(** The manager and the reservations held. *)
Record reservations_ok (m : SequenceManager) (held : list Reservation) : Prop := {
  ro_distinct : NoDup held;
  ro_accounts : forall pk, account_ok (fun n => (pk, n) ∈ held) (default default_account (m !! pk))
}.

Lemma account_ok_iff H H' s : (forall n, H n <-> H' n) -> account_ok H s -> account_ok H' s.
Proof.
  intros Heq [H1 H2 H3 H4 H5 H6]; split; try done.
  - by intros n ?%Heq; apply H1.
  - intros n Hn; rewrite <- Heq; by apply H2.
Qed.
Lemma reservations_update m held held' pk s' :
  reservations_ok m held -> NoDup held' ->
  (forall pk' n, pk' <> pk -> (pk', n) ∈ held' <-> (pk', n) ∈ held) ->
  account_ok (fun n => (pk, n) ∈ held') s' -> reservations_ok (<[pk := s']> m) held'.
Proof.
  intros [_ Hm] Hnd Hother Hs'; split; [done|]; intros pk'; destruct (decide (pk' = pk)) as [->|Hne].
  - by rewrite lookup_insert_eq.
  - rewrite lookup_insert_ne by done; eapply account_ok_iff; [|apply Hm]; intros n; by rewrite Hother.
Qed.

(** Reporting a reservation: what the account is like, and what the others
    hold. *)
Lemma reported pk n m before after :
  reservations_ok m (before ++ (pk, n) :: after) ->
  let H x := (pk, x) ∈ before ++ (pk, n) :: after in
  exists s, m !! pk = Some s /\ account_ok H s /\ n <= last_reserved s /\ NoDup (before ++ after)
    /\ (forall pk' x, pk' <> pk -> (pk', x) ∈ before ++ after <-> (pk', x) ∈ before ++ (pk, n) :: after)
    /\ forall x, (pk, x) ∈ before ++ after -> x <> n /\ H x.
Proof.
  intros Hm H; pose proof (ro_accounts _ _ Hm pk) as Ha; pose proof (ro_distinct _ _ Hm) as Hnd.
  rewrite <- (Permutation_middle before after (pk, n)) in Hnd; apply NoDup_cons in Hnd as [Hnew Hnd].
  assert (Hin : H n) by (apply elem_of_app; right; apply list_elem_of_here).
  assert (Hiff : forall y, y ∈ before ++ (pk, n) :: after <-> y = (pk, n) \/ y ∈ before ++ after)
    by (intros y; rewrite !elem_of_app, elem_of_cons; tauto).
  destruct (m !! pk) as [s|] eqn:Hs; simpl in Ha.
  2: { destruct (ao_held _ _ Ha n Hin) as [Hf|(? & ? & _)]; [|done]; by apply not_elem_of_empty in Hf. }
  exists s; split_and!; [done|done|by apply (held_le H)|done| |].
  - intros pk' x Hne; rewrite Hiff; split; [auto|]; intros [[= ? _]|?]; done.
  - intros x Hx; split; [intros ->; done|]; unfold H; rewrite Hiff; auto.
Qed.

Lemma reserve_ok fetched pk m held r m' :
  reservations_ok m held -> plausible fetched m pk -> reserve fetched pk m = (r, m') ->
  reservations_ok m' match r with inr n => (pk, n) :: held | inl _ => held end.
Proof.
  intros Hm Hp; pose proof (ro_accounts _ _ Hm pk) as Ha; unfold reserve.
  assert (Hw : warm fetched (m !! pk) = warm fetched (Some (default default_account (m !! pk))))
    by (by destruct (m !! pk)).
  rewrite Hw; clear Hw; destruct (warm fetched _) as [s|] eqn:Hs; [|by intros Hr; simplify_eq].
  apply (warm_ok _ _ _ _ Ha) in Hs as [Hok Hi].
  2: { intros current c Hf Hc; eapply Hp; [done|]; unfold seen.
       destruct (m !! pk); [exact Hc|done]. }
  destruct (next_sequence s) as [[n s']|] eqn:Hn; intros Hr; simplify_eq.
  - destruct (next_ok _ _ _ _ Hok Hi Hn) as [Hnew Hok'].
    eapply reservations_update; [exact Hm| | |].
    + constructor; [exact Hnew|apply Hm].
    + intros pk' x Hne; rewrite elem_of_cons; split; [intros [[= ? _]|?]; done|auto].
    + eapply account_ok_iff; [|exact Hok']; intros x; simpl; rewrite elem_of_cons; split; [intros [->|?]; auto|].
      intros [[= ->]|?]; auto.
  - eapply reservations_update; [exact Hm|apply Hm|done|done].
Qed.

Lemma sync_ok fetched pk m held r m' :
  reservations_ok m held -> plausible fetched m pk -> sync_on_chain fetched pk m = (r, m') ->
  reservations_ok m' held.
Proof.
  intros Hm Hp; unfold sync_on_chain; destruct fetched as [current|]; [|by intros Hr; simplify_eq]; intros Hr; simplify_eq.
  pose proof (ro_accounts _ _ Hm pk) as Ha; set (s := default default_account (m !! pk)) in *.
  assert (Hc : forall c, on_chain_sequence s = Some c -> c <= current).
  { intros c Hc; apply (Hp current c eq_refl); unfold seen, s in *; by destruct (m !! pk). }
  eapply reservations_update; [exact Hm|apply Hm|done|]; split; simpl.
  - intros n Hn; destruct (decide (current < n)) as [Hlt|Hle]; [|right; exists current; split; [done|lia]].
    left; apply elem_of_filter; split; [done|].
    destruct (ao_held _ _ Ha n Hn) as [?|(c & ?%Hc & ?)]; [done|lia].
  - intros n [_ Hn]%elem_of_filter; destruct (ao_recycled _ _ Ha n Hn) as [? ?]; split; [done|].
    destruct (Z.ltb_spec (last_reserved s) current); lia.
  - intros n [_ Hn]%elem_of_filter; apply (ao_flying _ _ Ha) in Hn.
    destruct (Z.ltb_spec (last_reserved s) current); lia.
  - intros c [= <-]; destruct (Z.ltb_spec (last_reserved s) current); lia.
  - done.
  - done.
Qed.

Lemma commit_ok pk n m before after :
  reservations_ok m (before ++ (pk, n) :: after) -> reservations_ok (commit pk n m) (before ++ after).
Proof.
  intros Hm; destruct (reported _ _ _ _ _ Hm) as (s & Hs & Ha & Hle & Hnd & Hother & Hheld).
  unfold commit; rewrite Hs; eapply reservations_update; [exact Hm|done|exact Hother|].
  pose proof (ao_chain _ _ Ha) as Hc; split; simpl.
  - intros x [Hne Hx]%Hheld; destruct (ao_held _ _ Ha x Hx) as [?|(c & -> & ?)].
    + left; apply elem_of_difference; by rewrite elem_of_singleton.
    + right; eexists; split; [done|]; destruct (Z.ltb_spec c n); lia.
  - intros x Hx; destruct (ao_recycled _ _ Ha x Hx) as [Hnx ?]; split; [|done]; by intros [_ ?]%Hheld.
  - intros x [Hx _]%elem_of_difference; by apply (ao_flying _ _ Ha).
  - intros c; destruct (on_chain_sequence s) as [c'|]; intros [= <-]; [|done].
    specialize (Hc c' eq_refl); destruct (Z.ltb_spec c' n); lia.
  - intros Hi; rewrite (ao_cold _ _ Ha Hi); clear; set_solver.
  - intros _; destruct (on_chain_sequence s); eauto.
Qed.

Lemma record_failure_ok pk n m before after :
  reservations_ok m (before ++ (pk, n) :: after) -> reservations_ok (record_failure pk n m) (before ++ after).
Proof.
  intros Hm; destruct (reported _ _ _ _ _ Hm) as (s & Hs & Ha & Hle & Hnd & Hother & Hheld).
  unfold record_failure; rewrite Hs; eapply reservations_update; [exact Hm|done|exact Hother|].
  assert (Hflying : forall x, (pk, x) ∈ before ++ after ->
    x ∈ in_flight s ∖ {[n]} \/ exists c, on_chain_sequence s = Some c /\ x <= c).
  { intros x [Hne Hx]%Hheld; destruct (ao_held _ _ Ha x Hx) as [?|?]; [left|by right].
    apply elem_of_difference; by rewrite elem_of_singleton. }
  assert (Hrecycled : forall x, x ∈ recycled s ∪ {[n]} ->
    ((pk, x) ∉ before ++ after) /\ x <= last_reserved s).
  { intros x [Hx| ->%elem_of_singleton]%elem_of_union.
    - destruct (ao_recycled _ _ Ha x Hx) as [Hnx ?]; split; [|done]; by intros [_ ?]%Hheld.
    - split; [|done]; by intros [? _]%Hheld. }
  assert (Hdown : forall x, x ∈ in_flight s ∖ {[n]} -> x <= last_reserved s)
    by (intros x [Hx _]%elem_of_difference; by apply (ao_flying _ _ Ha)).
  destruct (bool_decide_reflect (in_flight s ∖ {[n]} = ∅)) as [Hf|Hf];
    [destruct (bool_decide_reflect (recycled s = ∅)) as [Hr|Hr]|]; simpl; split; simpl; try done; try apply Ha.
  - rewrite Hr; by intros x ?%not_elem_of_empty.
  - rewrite Hf; by intros x ?%not_elem_of_empty.
  - intros c Hc; by rewrite Hc.
  - intros Hi; destruct Hf; rewrite (ao_cold _ _ Ha Hi); clear; set_solver.
Qed.

Lemma resync_ok pk m held :
  reservations_ok m held -> reservations_ok (resync pk m) (filter (fun r => r.1 <> pk) held).
Proof.
  intros Hm; pose proof (ro_accounts _ _ Hm pk) as Ha.
  assert (Hnd : NoDup (filter (fun r : Reservation => r.1 <> pk) held)) by apply NoDup_filter, Hm.
  assert (Hnone : forall n, (pk, n) ∉ filter (fun r : Reservation => r.1 <> pk) held)
    by (intros n [? _]%list_elem_of_filter; done).
  assert (Hother : forall pk' n, pk' <> pk -> (pk', n) ∈ filter (fun r : Reservation => r.1 <> pk) held <-> (pk', n) ∈ held)
    by (intros pk' n Hne; rewrite list_elem_of_filter; simpl; tauto).
  unfold resync; destruct (m !! pk) as [s|] eqn:Hs; simpl in Ha.
  - eapply reservations_update; [exact Hm|done|exact Hother|]; split; simpl; try set_solver.
    intros c Hc; by rewrite Hc.
  - split; [done|]; intros pk'; destruct (decide (pk' = pk)) as [->|Hne].
    + rewrite Hs; simpl; split; simpl; set_solver.
    + eapply account_ok_iff; [|apply Hm]; intros n; by rewrite Hother.
Qed.

(** Every step keeps the reservations distinct and in order. *)
Lemma seq_step_ok x y : seq_step x y -> reservations_ok x.1 x.2 -> reservations_ok y.1 y.2.
Proof.
  intros Hstep Hm; destruct Hstep; simpl in *.
  - by eapply (reserve_ok _ _ _ _ (inr n)).
  - by eapply (reserve_ok _ _ _ _ (inl err)).
  - by eapply sync_ok.
  - by apply commit_ok.
  - by apply record_failure_ok.
  - by apply resync_ok.
Qed.
Lemma initial_ok : reservations_ok ∅ [].
Proof. split; [constructor|]; intros pk; rewrite lookup_empty; split; simpl; set_solver. Qed.

(** ** Whatever the order of operations *)

(** C35: Whatever the order in which clients reserve sequence numbers, report
    their outcome, synchronise with the chain or start over with [resync], no
    two reservations of an account that are held at a time and were made since
    its last [resync] have the same number, and the next number reserved is not
    that of any of them.  Reservations made before a [resync] are neither
    counted nor reported after it, and the node never answers less than the
    manager has seen on the chain. *)
Theorem reservations_stay_distinct m held :
  rtc seq_step (∅, []) (m, held) ->
  NoDup held
  /\ forall pk fetched n m', plausible fetched m pk -> reserve fetched pk m = (inr n, m') -> (pk, n) ∉ held.
Proof.
  intros Hsteps.
  assert (Hok : reservations_ok m held).
  { change m with (m, held).1; change held with (m, held).2 at 2; revert Hsteps.
    apply (rtc_ind_r (fun x => reservations_ok x.1 x.2)); [apply initial_ok|].
    intros x y _ Hstep Hx; by apply (seq_step_ok x y). }
  split; [apply Hok|]; intros pk fetched n m' Hp Hr.
  pose proof (reserve_ok _ _ _ _ _ _ Hok Hp Hr) as [Hnd _]; by apply NoDup_cons in Hnd as [? _].
Qed.

Definition pk1 : PublicKey := key_of 1.
(** Two reservations, the first fails and its number is reused; then the
    account starts over. *)
Definition seq_two : SequenceManager := (reserve None pk1 (reserve (Some 100) pk1 ∅).2).2.
Definition seq_reused : SequenceManager := (reserve None pk1 (record_failure pk1 101 seq_two)).2.
Definition seq_again : SequenceManager := (reserve (Some 100) pk1 (resync pk1 seq_reused)).2.
Lemma reservations_stay_distinct_witness :
  NoDup [(pk1, 101)]
  /\ forall n m', reserve None pk1 seq_again = (inr n, m') -> (pk1, n) ∉ [(pk1, 101)].
Proof.
  destruct (reservations_stay_distinct seq_again [(pk1, 101)]) as [Hd Hn].
  - eapply rtc_l; [apply (StepReserve _ _ pk1 (Some 100) 101); [by intros ? ? ? [=]|vm_compute; reflexivity]|].
    eapply rtc_l; [apply (StepReserve _ _ pk1 None 102); [by intros ? ? [=]|vm_compute; reflexivity]|].
    eapply rtc_l; [apply (StepFail _ [(pk1, 102)] pk1 101 [])|].
    eapply rtc_l; [apply (StepReserve _ _ pk1 None 101); [by intros ? ? [=]|vm_compute; reflexivity]|].
    eapply rtc_l; [apply (StepResync _ _ pk1)|].
    eapply rtc_l; [apply (StepReserve _ _ pk1 (Some 100) 101); [|vm_compute; reflexivity]|apply rtc_refl].
    intros current c [= <-] Hc; vm_compute in Hc; injection Hc as <-; lia.
  - split; [exact Hd|]; intros n m' Hr; apply (Hn pk1 None n m'); [by intros ? ? [=]|exact Hr].
Defined.
