(* ===== verification/SdkCache.v ===== *)
(** * SDK: schema cache

    [src/packages/soroban-sas-sdk/src/schema_cache.rs]: a bounded cache of
    schema records with least-recently-used eviction, a time to live and
    refreshes identified by tokens.  Every operation runs under the cache's
    mutex.  The clock is an argument; the XDR codec of the records, of the
    stellar-xdr crate, is a parameter. *)

From stdpp Require Import gmap.
From S2P Require Import Prelude Host Common TypedData Sample.

Abbreviation SchemaUid := (list Z).

Record CacheEntry := mkCacheEntry { ce_value : option bytes; expires_at : Z }.
Record SchemaCacheStats := mkStats {
  hits : Z; misses : Z; expirations : Z; evictions : Z; refreshes : Z; refresh_errors : Z
}.
Record CacheState := mkCacheState {
  entries : gmap SchemaUid CacheEntry;
  lru : list SchemaUid;
  refreshing : gmap SchemaUid Z;
  next_refresh_token : Z;
  stats : SchemaCacheStats
}.

(** The codec of records: [None] when it fails. *)
Class RecordCodec := {
  encode_record : SchemaRecord -> option bytes;
  decode_record : bytes -> option SchemaRecord
}.

Section cache.
Context `{RecordCodec} (capacity : nat) (ttl : Z).

Definition new_cache : CacheState := mkCacheState ∅ [] ∅ 0 (mkStats 0 0 0 0 0 0).

Definition touch (uid : SchemaUid) (s : CacheState) : CacheState :=
  mkCacheState (entries s) (filter (fun k => k <> uid) (lru s) ++ [uid]) (refreshing s)
    (next_refresh_token s) (stats s).

Definition remove_entry (uid : SchemaUid) (s : CacheState) : bool * CacheState :=
  (bool_decide (is_Some (entries s !! uid)),
   mkCacheState (delete uid (entries s)) (filter (fun k => k <> uid) (lru s)) (refreshing s)
     (next_refresh_token s) (stats s)).

Definition count_eviction (t : SchemaCacheStats) : SchemaCacheStats :=
  mkStats (hits t) (misses t) (expirations t) (evictions t + 1) (refreshes t) (refresh_errors t).

(** The loop of [insert_encoded], over the queue. *)
Fixpoint evict (queue : list SchemaUid) (m : gmap SchemaUid CacheEntry) (t : SchemaCacheStats)
    : gmap SchemaUid CacheEntry * list SchemaUid * SchemaCacheStats :=
  if bool_decide (capacity <= size m)%nat then
    match queue with
    | evicted :: queue' => evict queue' (delete evicted m) (count_eviction t)
    | [] => (m, [], t)
    end
  else (m, queue, t).

Definition insert_encoded (uid : SchemaUid) (value : option bytes) (now : Z) (s : CacheState) : CacheState :=
  let s := (remove_entry uid s).2 in
  let '(m, queue, t) := evict (lru s) (entries s) (stats s) in
  mkCacheState (<[uid := mkCacheEntry value (now + ttl)]> m) (queue ++ [uid]) (refreshing s)
    (next_refresh_token s) t.

Definition forget_refresh (uid : SchemaUid) (s : CacheState) : CacheState :=
  mkCacheState (entries s) (lru s) (delete uid (refreshing s)) (next_refresh_token s) (stats s).

Definition invalidate (uid : SchemaUid) (s : CacheState) : bool * CacheState :=
  remove_entry uid (forget_refresh uid s).

(** The record in the form it is stored; [None] when the codec fails. *)
Definition encoded (value : option SchemaRecord) : option (option bytes) :=
  match value with
  | None => Some None
  | Some r => Some <$> encode_record r
  end.
Definition decoded (value : option bytes) : option (option SchemaRecord) :=
  match value with
  | None => Some None
  | Some b => Some <$> decode_record b
  end.

(** [None]: the codec failed. *)
Definition cache_insert (uid : SchemaUid) (value : option SchemaRecord) (now : Z) (s : CacheState)
    : option CacheState :=
  if bool_decide (sr_deprecated <$> value = Some true) || bool_decide (capacity = 0%nat)
  then Some (invalidate uid s).2
  else value' ← encoded value; Some (insert_encoded uid value' now (forget_refresh uid s)).

Definition count_lookup (found expired : bool) (s : CacheState) : CacheState :=
  let t := stats s in
  mkCacheState (entries s) (lru s) (refreshing s) (next_refresh_token s)
    (if found && negb expired
     then mkStats (hits t + 1) (misses t) (expirations t) (evictions t) (refreshes t) (refresh_errors t)
     else mkStats (hits t) (misses t + 1) (if found then expirations t + 1 else expirations t)
            (evictions t) (refreshes t) (refresh_errors t)).

(** The value and whether it has expired; the outer [None]: the codec
    failed. *)
Definition cache_lookup (uid : SchemaUid) (now : Z) (s : CacheState)
    : option (option (option SchemaRecord) * bool) * CacheState :=
  match entries s !! uid with
  | None => (Some (None, false), count_lookup false false s)
  | Some entry =>
    let expired := expires_at entry <=? now in
    (value ← decoded (ce_value entry); Some (Some value, expired), count_lookup true expired (touch uid s))
  end.

Definition cache_get (uid : SchemaUid) (now : Z) (s : CacheState)
    : option (option (option SchemaRecord)) * CacheState :=
  let '(r, s') := cache_lookup uid now s in
  ('(value, expired) ← r; Some (if (expired : bool) then None else value), s').

(** The registry events that concern the cache; the others carry no UID. *)
Definition invalidate_for_event (schema_uid : option SchemaUid) (s : CacheState) : bool * CacheState :=
  match schema_uid with
  | Some uid => invalidate uid s
  | None => (false, s)
  end.

Definition start_refresh (uid : SchemaUid) (s : CacheState) : option Z * CacheState :=
  if bool_decide (is_Some (refreshing s !! uid)) then (None, s)
  else (Some (next_refresh_token s),
        mkCacheState (entries s) (lru s) (<[uid := next_refresh_token s]> (refreshing s))
          ((next_refresh_token s + 1) mod 2 ^ 64) (stats s)).

Definition count_refresh (ok : bool) (s : CacheState) : CacheState :=
  let t := stats s in
  mkCacheState (entries s) (lru s) (refreshing s) (next_refresh_token s)
    (mkStats (hits t) (misses t) (expirations t) (evictions t)
       (if ok then refreshes t + 1 else refreshes t) (if ok then refresh_errors t else refresh_errors t + 1)).

(** What a refresh brings: nothing to keep, a value, or a failure. *)
Definition refreshed (result : option (option SchemaRecord)) : option (option (option bytes)) :=
  match result with
  | None => None
  | Some value =>
    if bool_decide (sr_deprecated <$> value = Some true) then Some None else Some <$> encoded value
  end.
Definition finish_refresh (uid : SchemaUid) (token : Z) (result : option (option SchemaRecord)) (now : Z)
    (s : CacheState) : CacheState :=
  if negb (bool_decide (refreshing s !! uid = Some token)) then s
  else
    let s := forget_refresh uid s in
    match refreshed result with
    | Some (Some value) => count_refresh true (insert_encoded uid value now s)
    | Some None => count_refresh true (remove_entry uid s).2
    | None => count_refresh false s
    end.

Definition cancel_refresh (uid : SchemaUid) (token : Z) (s : CacheState) : CacheState :=
  if bool_decide (refreshing s !! uid = Some token) then forget_refresh uid s else s.
End cache.

(** ** The queue of entries

    What the cache is meant to be: the entries from the least to the most
    recently used. *)

Abbreviation Queue := (list (SchemaUid * CacheEntry)).

Definition queue_remove (uid : SchemaUid) (l : Queue) : Queue := filter (fun p => p.1 <> uid) l.
Definition queue_find (uid : SchemaUid) (l : Queue) : option CacheEntry :=
  snd <$> find (fun p => bool_decide (p.1 = uid)) l.
Definition queue_touch (uid : SchemaUid) (l : Queue) : Queue :=
  match queue_find uid l with
  | Some e => queue_remove uid l ++ [(uid, e)]
  | None => l
  end.
(** The most recently used entries that leave room for the new one. *)
Definition queue_insert (capacity : nat) (uid : SchemaUid) (e : CacheEntry) (l : Queue) : Queue :=
  let l' := queue_remove uid l in
  drop (length l' - (capacity - 1)) l' ++ [(uid, e)].

(** The keys of the map and of the queue, without the state around them. *)
Definition tracks (queue : list SchemaUid) (m : gmap SchemaUid CacheEntry) : Prop :=
  NoDup queue /\ forall k, k ∈ queue <-> is_Some (m !! k).
Definition listing (queue : list SchemaUid) (m : gmap SchemaUid CacheEntry) : Queue :=
  omap (fun k => (fun e => (k, e)) <$> m !! k) queue.

Lemma tracks_size queue m : tracks queue m -> size m = length queue.
Proof.
  intros [Hnd Hk]; rewrite <- (size_dom (D := gset SchemaUid)).
  assert (Hd : dom m = list_to_set (C := gset SchemaUid) queue).
  { apply set_eq; intros k; by rewrite elem_of_dom, elem_of_list_to_set, Hk. }
  rewrite Hd; by apply size_list_to_set.
Qed.
Lemma tracks_delete queue m uid :
  tracks queue m -> tracks (filter (fun k => k <> uid) queue) (delete uid m).
Proof.
  intros [Hnd Hk]; split; [by apply NoDup_filter|]; intros k; rewrite list_elem_of_filter, Hk.
  destruct (decide (k = uid)) as [->|Hne].
  - rewrite lookup_delete_eq; split; [tauto|by intros []].
  - by rewrite lookup_delete_ne; [tauto|].
Qed.
Lemma tracks_push queue m uid e :
  tracks queue m -> uid ∉ queue -> tracks (queue ++ [uid]) (<[uid := e]> m).
Proof.
  intros [Hnd Hk] Hn; split.
  - apply NoDup_app; split_and!; [done| |apply NoDup_singleton].
    intros k Hin Hs; apply list_elem_of_singleton in Hs; by subst.
  - intros k; rewrite elem_of_app, list_elem_of_singleton, Hk; destruct (decide (k = uid)) as [->|Hne].
    + rewrite lookup_insert_eq; split; [eauto|auto].
    + rewrite lookup_insert_ne by done; tauto.
Qed.

Lemma listing_ext queue m m' :
  (forall k, k ∈ queue -> m !! k = m' !! k) -> listing queue m = listing queue m'.
Proof.
  unfold listing; induction queue as [|k queue IH]; intros Heq; [done|]; simpl.
  rewrite (Heq k) by apply list_elem_of_here; destruct (m' !! k); simpl; [f_equal|];
    apply IH; intros; apply Heq; by apply list_elem_of_further.
Qed.
Lemma listing_app q1 q2 m : listing (q1 ++ q2) m = listing q1 m ++ listing q2 m.
Proof. apply omap_app. Qed.
Lemma listing_remove queue m uid :
  listing (filter (fun k => k <> uid) queue) m = queue_remove uid (listing queue m).
Proof.
  unfold listing, queue_remove; induction queue as [|k queue IH]; [done|]; rewrite filter_cons; simpl.
  case_decide as Hk; simpl; destruct (m !! k) as [e|]; simpl; try done.
  - rewrite filter_cons_True by done; f_equal; exact IH.
  - by rewrite filter_cons_False by tauto.
Qed.
Lemma listing_length queue m : tracks queue m -> length (listing queue m) = length queue.
Proof.
  intros [_ Hk]; unfold listing.
  assert (Hs : forall k, k ∈ queue -> is_Some (m !! k)) by (intros k; apply Hk); clear Hk.
  induction queue as [|k queue IH]; [done|]; simpl.
  destruct (Hs k (list_elem_of_here _ _)) as [e He]; rewrite He; simpl; f_equal.
  apply IH; intros; by apply Hs, list_elem_of_further.
Qed.
Lemma listing_find queue m uid : tracks queue m -> queue_find uid (listing queue m) = m !! uid.
Proof.
  intros [Hnd Hk]; unfold queue_find, listing.
  destruct (decide (uid ∈ queue)) as [Hin|Hin].
  - assert (Hsome : is_Some (m !! uid)) by (by apply Hk); clear Hk; destruct Hsome as [e He].
    induction queue as [|k queue IH]; [by apply elem_of_nil in Hin|]; simpl.
    destruct (decide (k = uid)) as [->|Hne].
    + rewrite He; simpl; by rewrite bool_decide_true.
    + apply NoDup_cons in Hnd as [_ Hnd]; apply elem_of_cons in Hin as [->|Hin]; [done|].
      destruct (m !! k); simpl; rewrite ?bool_decide_false by done; by apply IH.
  - assert (Hnone : m !! uid = None) by (apply eq_None_not_Some; by rewrite <- Hk); rewrite Hnone; clear Hk Hnd Hnone.
    induction queue as [|k queue IH]; [done|]; simpl; apply not_elem_of_cons in Hin as [? ?].
    destruct (m !! k); simpl; rewrite ?bool_decide_false by done; by apply IH.
Qed.

Lemma evict_spec capacity queue m t m' queue' t' :
  tracks queue m -> evict capacity queue m t = (m', queue', t') ->
  tracks queue' m' /\ listing queue' m' = drop (length queue - (capacity - 1)) (listing queue m)
  /\ queue' = drop (length queue - (capacity - 1)) queue.
Proof.
  revert m t; induction queue as [|k queue IH]; intros m t Ht; pose proof (tracks_size _ _ Ht) as Hsize; simpl.
  { case_bool_decide; intros Hr; simplify_eq; done. }
  case_bool_decide as Hc.
  - assert (Ht' : tracks queue (delete k m)).
    { destruct Ht as [[Hk Hnd]%NoDup_cons Hkeys]; split; [done|]; intros x; destruct (decide (x = k)) as [->|Hne].
      - rewrite lookup_delete_eq; split; [done|by intros []].
      - rewrite lookup_delete_ne, <- Hkeys, elem_of_cons by done; tauto. }
    intros Hr; apply IH in Hr as (H1 & H2 & H3); [|done].
    assert (Hl : listing queue (delete k m) = listing queue m).
    { apply listing_ext; intros x Hx; apply lookup_delete_ne; intros ->; by destruct Ht as [[? _]%NoDup_cons _]. }
    destruct Ht as [_ Hk]; destruct (proj1 (Hk k) (list_elem_of_here _ _)) as [e He].
    rewrite Hl in H2; rewrite He; simpl; simpl in Hsize.
    replace (S (length queue) - (capacity - 1))%nat with (S (length queue - (capacity - 1))) by lia.
    done.
  - intros Hr; simplify_eq; simpl in Hsize.
    replace (S (length queue) - (capacity - 1))%nat with 0%nat by lia; done.
Qed.

(** ** Operations *)

Inductive CacheOp :=
  | OpInsert (uid : SchemaUid) (value : option SchemaRecord) (now : Z)
  | OpGet (uid : SchemaUid) (now : Z)
  | OpInvalidate (uid : SchemaUid)
  | OpEvent (schema_uid : option SchemaUid)
  | OpStart (uid : SchemaUid)
  | OpFinish (uid : SchemaUid) (token : Z) (result : option (option SchemaRecord)) (now : Z)
  | OpCancel (uid : SchemaUid) (token : Z).

Section operations.
Context `{RecordCodec} (capacity : nat) (ttl : Z).
Implicit Types (s : CacheState) (l : Queue) (uid : SchemaUid).

Definition cache_exec (op : CacheOp) s : CacheState :=
  match op with
  | OpInsert uid value now => default s (cache_insert capacity ttl uid value now s)
  | OpGet uid now => (cache_get uid now s).2
  | OpInvalidate uid => (invalidate uid s).2
  | OpEvent o => (invalidate_for_event o s).2
  | OpStart uid => (start_refresh uid s).2
  | OpFinish uid token result now => finish_refresh capacity ttl uid token result now s
  | OpCancel uid token => cancel_refresh uid token s
  end.

Definition cache_ok s : Prop := tracks (lru s) (entries s).
Definition queue_of s : Queue := listing (lru s) (entries s).

(** What an operation does to the queue. *)
Definition queue_store uid (o : option (option bytes)) now l : Queue :=
  match o with
  | Some b => queue_insert capacity uid (mkCacheEntry b (now + ttl)) l
  | None => queue_remove uid l
  end.
Definition queue_exec s (op : CacheOp) l : Queue :=
  match op with
  | OpInsert uid value now =>
    if bool_decide (sr_deprecated <$> value = Some true) || bool_decide (capacity = 0%nat)
    then queue_remove uid l
    else match encoded value with Some b => queue_store uid (Some b) now l | None => l end
  | OpGet uid _ => queue_touch uid l
  | OpInvalidate uid | OpEvent (Some uid) => queue_remove uid l
  | OpFinish uid token result now =>
    if decide (refreshing s !! uid = Some token)
    then match refreshed result with Some o => queue_store uid o now l | None => l end
    else l
  | OpEvent None | OpStart _ | OpCancel _ _ => l
  end.

Lemma remove_refines uid s s' :
  lru s' = filter (fun k => k <> uid) (lru s) -> entries s' = delete uid (entries s) ->
  cache_ok s -> cache_ok s' /\ queue_of s' = queue_remove uid (queue_of s).
Proof.
  unfold cache_ok, queue_of; intros -> -> Hs; split; [by apply tracks_delete|].
  rewrite <- listing_remove; apply listing_ext; intros k [Hk _]%list_elem_of_filter; by apply lookup_delete_ne.
Qed.

Lemma insert_refines uid b now s :
  cache_ok s ->
  cache_ok (insert_encoded capacity ttl uid b now s)
  /\ queue_of (insert_encoded capacity ttl uid b now s) = queue_store uid (Some b) now (queue_of s).
Proof.
  intros Hs; unfold insert_encoded.
  destruct (remove_refines uid s (remove_entry uid s).2 eq_refl eq_refl Hs) as [Hok Hq].
  set (s1 := (remove_entry uid s).2) in *.
  destruct (evict capacity (lru s1) (entries s1) (stats s1)) as [[m queue] t] eqn:E.
  destruct (evict_spec _ _ _ _ _ _ _ Hok E) as (Ht & Hl & Hd).
  assert (Hn : uid ∉ queue).
  { rewrite Hd; intros Hin; apply (subseteq_drop _ (lru s1)) in Hin; simpl in Hin.
    by apply list_elem_of_filter in Hin as [? _]. }
  unfold cache_ok, queue_store, queue_insert; rewrite <- Hq; unfold queue_of; cbn [lru entries].
  split; [by apply tracks_push|]; rewrite listing_app, (listing_length _ _ Hok), <- Hl; f_equal.
  - apply listing_ext; intros k Hk; apply lookup_insert_ne; by intros ->.
  - unfold listing; simpl; by rewrite lookup_insert_eq.
Qed.

Lemma touch_refines uid s :
  cache_ok s -> is_Some (entries s !! uid) ->
  cache_ok (touch uid s) /\ queue_of (touch uid s) = queue_touch uid (queue_of s).
Proof.
  intros Hs [e He]; unfold queue_touch, queue_of at 2; rewrite (listing_find _ _ _ Hs), He.
  unfold cache_ok, queue_of, touch; cbn [lru entries]; split.
  - destruct Hs as [Hnd Hk]; split.
    + apply NoDup_app; split_and!; [by apply NoDup_filter| |apply NoDup_singleton].
      intros k [? _]%list_elem_of_filter ?%list_elem_of_singleton; done.
    + intros k; rewrite elem_of_app, list_elem_of_filter, list_elem_of_singleton, Hk.
      destruct (decide (k = uid)) as [->|]; [rewrite He; split; [eauto|auto]|tauto].
  - rewrite listing_app, listing_remove; f_equal; unfold listing; simpl; by rewrite He.
Qed.

(** Every operation acts on the queue as intended. *)
Lemma exec_refines_queue op s :
  cache_ok s -> cache_ok (cache_exec op s) /\ queue_of (cache_exec op s) = queue_exec s op (queue_of s).
Proof.
  intros Hs; destruct op as [uid value now|uid now|uid|[uid|]|uid|uid token result now|uid token]; simpl.
  - unfold cache_insert; destruct (_ || _); [by apply remove_refines|].
    destruct (encoded value) as [b|]; simpl; [|done]; by apply (insert_refines uid b now (forget_refresh uid s)).
  - unfold cache_get, cache_lookup, queue_touch; unfold queue_of at 2; rewrite (listing_find _ _ _ Hs).
    destruct (entries s !! uid) as [e|] eqn:He; [|done]; cbn [snd].
    destruct (touch_refines uid s Hs ltac:(eauto)) as [Hok Hq]; split; [exact Hok|].
    unfold queue_touch in Hq; rewrite (listing_find _ _ _ Hs), He in Hq; exact Hq.
  - by apply remove_refines.
  - by apply remove_refines.
  - done.
  - unfold start_refresh; by case_bool_decide.
  - unfold finish_refresh; case_bool_decide as Ht; simpl.
    + rewrite decide_True by done; destruct (refreshed result) as [[b|]|]; [| |done].
      * by apply (insert_refines uid b now (forget_refresh uid s)).
      * by apply remove_refines.
    + by rewrite decide_False.
  - unfold cancel_refresh; by case_bool_decide.
Qed.

Lemma queue_exec_bounded s op l :
  (1 <= capacity)%nat -> (length l <= capacity)%nat -> (length (queue_exec s op l) <= capacity)%nat.
Proof.
  intros Hc Hl.
  assert (Hremove : forall uid, (length (queue_remove uid l) <= length l)%nat)
    by (intros; apply length_filter).
  assert (Hstore : forall uid o now, (length (queue_store uid o now l) <= capacity)%nat).
  { intros uid [b|] now; simpl; [|specialize (Hremove uid); lia].
    unfold queue_insert; rewrite length_app, length_drop; simpl; lia. }
  destruct op as [uid value now|uid now|uid|[uid|]|uid|uid token result now|uid token]; cbn [queue_exec];
    try done; try (specialize (Hremove uid); lia).
  - destruct (_ || _); [specialize (Hremove uid); lia|]; by destruct (encoded value).
  - unfold queue_touch; destruct (queue_find uid l) as [e|] eqn:He; [|done].
    rewrite length_app; simpl; unfold queue_remove; unfold queue_find in He.
    destruct (find _ l) as [p|] eqn:Hf; [|done]; apply find_some in Hf as [Hin Hp%bool_decide_eq_true].
    apply list_elem_of_In in Hin.
    pose proof (length_filter_lt (fun p => p.1 <> uid) l p Hin ltac:(by intros [])); lia.
  - case_decide; [|done]; destruct (refreshed result) as [o|]; [apply Hstore|done].
Qed.

Definition cache_run (ops : list CacheOp) s : CacheState := fold_left (fun s op => cache_exec op s) ops s.
Lemma run_bounded ops s :
  cache_ok s -> (1 <= capacity)%nat -> (length (queue_of s) <= capacity)%nat ->
  cache_ok (cache_run ops s) /\ (length (queue_of (cache_run ops s)) <= capacity)%nat.
Proof.
  intros Hs Hc; revert s Hs; induction ops as [|op ops IH]; intros s Hs Hl; [done|]; simpl.
  destruct (exec_refines_queue op s Hs) as [Hok Hq]; apply IH; [done|]; rewrite Hq; by apply queue_exec_bounded.
Qed.
Lemma run_ok ops s : cache_ok s -> cache_ok (cache_run ops s).
Proof.
  revert s; induction ops as [|op ops IH]; intros s Hs; [done|]; simpl; by apply IH, exec_refines_queue.
Qed.

(** What a query answers. *)
Lemma cache_get_answer uid now s :
  cache_ok s ->
  (cache_get uid now s).1 =
    match queue_find uid (queue_of s) with
    | None => Some None
    | Some e => v ← decoded (ce_value e); Some (if expires_at e <=? now then None else Some v)
    end.
Proof.
  intros Hs; unfold cache_get, cache_lookup, queue_of; rewrite (listing_find _ _ _ Hs).
  destruct (entries s !! uid) as [e|]; simpl; [|done]; by destruct (decoded (ce_value e)).
Qed.

(** ** Refreshes *)

(** No refresh with a token up to [t] can store a value for [uid] any more. *)
Definition barrier uid (t : Z) s : Prop :=
  t < next_refresh_token s /\ forall t', refreshing s !! uid = Some t' -> t < t'.

Lemma barrier_kept uid t op s :
  next_refresh_token s + 1 < 2 ^ 64 -> 0 <= next_refresh_token s -> barrier uid t s ->
  barrier uid t (cache_exec op s)
  /\ next_refresh_token s <= next_refresh_token (cache_exec op s) <= next_refresh_token s + 1.
Proof.
  intros Hw H0 [Hb1 Hb2].
  assert (Hforget : forall k s', refreshing s' = delete k (refreshing s) -> next_refresh_token s' = next_refresh_token s ->
    barrier uid t s' /\ next_refresh_token s <= next_refresh_token s' <= next_refresh_token s + 1).
  { intros k s' Hr Hn; unfold barrier; rewrite Hr, Hn; split; [split; [done|]|lia].
    intros t'; rewrite lookup_delete_Some; intros [_ ?]; auto. }
  assert (Hsame : forall s', refreshing s' = refreshing s -> next_refresh_token s' = next_refresh_token s ->
    barrier uid t s' /\ next_refresh_token s <= next_refresh_token s' <= next_refresh_token s + 1).
  { intros s' Hr Hn; unfold barrier; rewrite Hr, Hn; split; [done|lia]. }
  assert (Hinsert : forall k b now s1, refreshing (insert_encoded capacity ttl k b now s1) = refreshing s1
    /\ next_refresh_token (insert_encoded capacity ttl k b now s1) = next_refresh_token s1).
  { intros; unfold insert_encoded; by destruct (evict _ _ _ _) as [[? ?] ?]. }
  destruct op as [k value now|k now|k|[k|]|k|k token result now|k token]; cbn [cache_exec invalidate_for_event].
  - unfold cache_insert; destruct (_ || _); cbn [default]; [by apply (Hforget k)|].
    destruct (encoded value) as [b|]; cbn [default]; [|by apply Hsame].
    destruct (Hinsert k b now (forget_refresh k s)); by apply (Hforget k).
  - unfold cache_get, cache_lookup; destruct (entries s !! k); by apply Hsame.
  - by apply (Hforget k).
  - by apply (Hforget k).
  - by apply Hsame.
  - unfold start_refresh; case_bool_decide; [by apply Hsame|]; unfold barrier; simpl.
    rewrite Z.mod_small by lia; split; [split; [lia|]|lia]; intros t'; rewrite lookup_insert_Some.
    intros [[_ <-]|[_ ?]]; [lia|auto].
  - unfold finish_refresh; case_bool_decide; simpl; [|by apply Hsame].
    destruct (refreshed result) as [[b|]|]; [| |by apply (Hforget k)].
    + destruct (Hinsert k b now (forget_refresh k s)); by apply (Hforget k).
    + by apply (Hforget k).
  - unfold cancel_refresh; case_bool_decide; [by apply (Hforget k)|by apply Hsame].
Qed.
Lemma barrier_run uid t ops s :
  next_refresh_token s + len ops < 2 ^ 64 -> 0 <= next_refresh_token s -> barrier uid t s ->
  barrier uid t (cache_run ops s).
Proof.
  revert s; induction ops as [|op ops IH]; intros s Hl H0 Hb; [done|]; unfold len in *; simpl in Hl |- *.
  destruct (barrier_kept uid t op s) as [Hb' Hn]; [lia|done|done|]; apply IH; [lia|lia|done].
Qed.
Lemma barrier_stale uid t result now s :
  barrier uid t s -> finish_refresh capacity ttl uid t result now s = s.
Proof.
  intros [_ Hb]; unfold finish_refresh; rewrite bool_decide_false; [done|]; intros Ht%Hb; lia.
Qed.
End operations.

(** ** The cache is a queue *)

(** C36: After any sequence of operations the cache is a queue of entries from
    the least to the most recently used, within its capacity: every operation
    acts on the queue as the corresponding queue operation, so the entries
    dropped are the least recently used ones, and queries answer from the
    queue, with expired entries as misses.  A refresh that was started before
    an entry was invalidated does not bring it back. *)
Theorem cache_refines_queue `{RecordCodec} (capacity : nat) (ttl : Z) (ops : list CacheOp) :
  let s := cache_run capacity ttl ops new_cache in
  ((1 <= capacity)%nat -> (length (queue_of s) <= capacity)%nat)
  /\ (forall op, queue_of (cache_exec capacity ttl op s) = queue_exec capacity ttl s op (queue_of s))
  /\ (forall uid now, (cache_get uid now s).1 =
        match queue_find uid (queue_of s) with
        | None => Some None
        | Some e => v ← decoded (ce_value e); Some (if expires_at e <=? now then None else Some v)
        end)
  /\ (forall uid token later result now, token < next_refresh_token s ->
        next_refresh_token s + len later < 2 ^ 64 -> 0 <= next_refresh_token s ->
        let s' := cache_run capacity ttl later (invalidate uid s).2 in
        finish_refresh capacity ttl uid token result now s' = s').
Proof.
  intros s.
  assert (H0 : cache_ok new_cache) by (split; [constructor|intros k; split; [by intros ?%elem_of_nil|by intros []]]).
  assert (Hs : cache_ok s) by (by apply run_ok).
  split_and!.
  - intros Hc; apply run_bounded; [done|done|simpl; lia].
  - intros op; by apply exec_refines_queue.
  - intros uid now; by apply cache_get_answer.
  - intros uid token later result now Ht Hl Hn; apply barrier_stale, barrier_run; [done|done|].
    split; [done|]; intros t'; simpl; by rewrite lookup_delete_eq.
Qed.
#[export] Instance toy_codec : RecordCodec := {|
  encode_record r := Some (uid_bytes (sr_uid r));
  decode_record b := Some (mkSchemaRecord (mkUID b) resolver_id true [] false None)
|}.
Definition cached (n : Z) : CacheOp :=
  OpInsert (key_of n) (Some (mkSchemaRecord (mkUID (key_of n)) resolver_id true [] false None)) n.
Lemma cache_refines_queue_witness :
  (cache_get (key_of 2) 5 (cache_run 2 100 [cached 1; cached 2; OpGet (key_of 1) 3; cached 4] new_cache)).1
  = Some None
  /\ (length (queue_of (cache_run 2 100 [cached 1; cached 2; OpGet (key_of 1) 3; cached 4] new_cache)) <= 2)%nat.
Proof.
  destruct (cache_refines_queue 2 100 [cached 1; cached 2; OpGet (key_of 1) 3; cached 4]) as (Hb & _ & Hg & _).
  split; [rewrite Hg; vm_compute; reflexivity|apply Hb; lia].
Defined.
