(* ===== verification/SdkRetry.v ===== *)
(** * SDK: retries

    [src/packages/soroban-sas-sdk/src/retry.rs]: classification of RPC
    failures, exponential backoff and the retry loop.  A duration is its
    nanoseconds; the operation that is retried is a function of the number of
    the attempt. *)

From S2P Require Import Prelude.

Definition u128_top : Z := 2 ^ 128 - 1.

Inductive RpcErrorKind := RateLimited | GatewayTimeout | Transport | Other.

Definition from_status (status : Z) : RpcErrorKind :=
  if status =? 429 then RateLimited else if status =? 504 then GatewayTimeout else Other.
Definition is_retryable (kind : RpcErrorKind) : bool :=
  match kind with RateLimited | GatewayTimeout | Transport => true | Other => false end.

(** The [error.code] of the payload, if it has one. *)
Definition classify_rpc_payload (code : option Z) : RpcErrorKind :=
  match code with
  | Some code =>
    if code =? -32033 then RateLimited else if code =? -32000 then GatewayTimeout else Other
  | None => Other
  end.

Definition as_millis (d : Z) : Z := d / 1000000.
Definition from_millis (m : Z) : Z := m * 1000000.

Record ExponentialBackoff := mkExponentialBackoff {
  base_delay : Z; max_delay : Z; multiplier : Z; max_attempts : Z; jitter_millis : Z
}.
Definition default_backoff : ExponentialBackoff :=
  mkExponentialBackoff (from_millis 250) (from_millis 30000) 2 6 50.

Definition delay_for_attempt (b : ExponentialBackoff) (attempt : Z) : Z :=
  let exponent := Z.min attempt 32 in
  let factor := Z.min u32_max (multiplier b ^ exponent) in
  let raw_millis := Z.min u128_top (as_millis (base_delay b) * factor) in
  let jitter := if jitter_millis b =? 0 then 0 else attempt mod jitter_millis b in
  let millis := Z.min u128_top (raw_millis + jitter) in
  let bounded_millis := Z.min millis (as_millis (max_delay b)) mod 2 ^ 64 in
  from_millis bounded_millis.

Definition backoff_allows (b : ExponentialBackoff) (attempt : Z) : bool := attempt <? max_attempts b.
Definition should_retry (b : ExponentialBackoff) (attempt : Z) (kind : RpcErrorKind) : bool :=
  is_retryable kind && backoff_allows b attempt.

(** The loop of [execute_async]: the result and the delays slept. *)
Fixpoint execute_loop {T} (fuel : nat) (b : ExponentialBackoff) (f : Z -> RpcErrorKind + T) (attempt : Z)
    (slept : list Z) : option (RpcErrorKind + T) * list Z :=
  match fuel with
  | O => (None, slept)
  | S fuel' =>
    match f attempt with
    | inr value => (Some (inr value), slept)
    | inl kind =>
      if negb (should_retry b attempt kind) then (Some (inl kind), slept)
      else execute_loop fuel' b f (attempt + 1) (slept ++ [delay_for_attempt b attempt])
    end
  end.
Definition execute_async {T} (b : ExponentialBackoff) (f : Z -> RpcErrorKind + T)
    : option (RpcErrorKind + T) * list Z :=
  execute_loop (S (Z.to_nat (max_attempts b))) b f 0 [].

(** ** Correctness *)

(** The values of the Rust types. *)
Record backoff_typed (b : ExponentialBackoff) : Prop := {
  bt_base : 0 <= base_delay b;
  bt_max : 0 <= max_delay b;
  bt_multiplier : 0 <= multiplier b <= u32_max;
  bt_attempts : 0 <= max_attempts b <= u32_max;
  bt_jitter : 0 <= jitter_millis b
}.

(** The delay before the cap, in milliseconds. *)
Definition uncapped_millis (b : ExponentialBackoff) (attempt : Z) : Z :=
  Z.min u128_top (Z.min u128_top (as_millis (base_delay b) * Z.min u32_max (multiplier b ^ Z.min attempt 32))
                  + (if jitter_millis b =? 0 then 0 else attempt mod jitter_millis b)).
Lemma uncapped_nonneg b attempt : backoff_typed b -> 0 <= attempt -> 0 <= uncapped_millis b attempt.
Proof.
  intros [Hb _ Hm _ Hj] Ha; unfold uncapped_millis, u128_top, u32_max.
  assert (0 <= as_millis (base_delay b)) by (unfold as_millis; apply Z.div_pos; lia).
  assert (0 <= multiplier b ^ Z.min attempt 32) by (apply Z.pow_nonneg; lia).
  assert (0 <= (if jitter_millis b =? 0 then 0 else attempt mod jitter_millis b))
    by (destruct (Z.eqb_spec (jitter_millis b) 0); [lia|apply Z.mod_pos_bound; lia]).
  assert (0 <= as_millis (base_delay b) * Z.min (2 ^ 32 - 1) (multiplier b ^ Z.min attempt 32))
    by (apply Z.mul_nonneg_nonneg; lia).
  lia.
Qed.

(** No delay exceeds the configured maximum. *)
Lemma delay_bounded b attempt :
  backoff_typed b -> 0 <= attempt -> 0 <= delay_for_attempt b attempt <= max_delay b.
Proof.
  intros Hb Ha; pose proof (uncapped_nonneg b attempt Hb Ha) as Hu; destruct Hb as [_ Hmax _ _ _].
  unfold delay_for_attempt; cbv zeta; fold (uncapped_millis b attempt); unfold from_millis, as_millis in *.
  set (m := Z.min (uncapped_millis b attempt) (max_delay b / 1000000)).
  assert (Hm : 0 <= m <= max_delay b / 1000000) by (unfold m; pose proof (Z.div_pos (max_delay b) 1000000); lia).
  pose proof (Z.mod_pos_bound m (2 ^ 64) ltac:(lia)); pose proof (Z.mod_le m (2 ^ 64) ltac:(lia) ltac:(lia)).
  pose proof (Z.mul_div_le (max_delay b) 1000000 ltac:(lia)); lia.
Qed.

(** Without jitter the delays grow. *)
Lemma delay_monotone b attempt :
  backoff_typed b -> 1 <= multiplier b -> jitter_millis b = 0 -> as_millis (max_delay b) < 2 ^ 64 -> 0 <= attempt ->
  delay_for_attempt b attempt <= delay_for_attempt b (attempt + 1).
Proof.
  intros Hb Hm Hj Hmax Ha; pose proof (uncapped_nonneg b attempt Hb Ha) as Hu.
  pose proof (uncapped_nonneg b (attempt + 1) Hb ltac:(lia)) as Hu'.
  assert (Hle : uncapped_millis b attempt <= uncapped_millis b (attempt + 1)).
  { unfold uncapped_millis; rewrite Hj; simpl Z.eqb; cbv iota.
    assert (0 <= as_millis (base_delay b)) by (apply Z.div_pos; [apply Hb|lia]).
    assert (multiplier b ^ Z.min attempt 32 <= multiplier b ^ Z.min (attempt + 1) 32) by (apply Z.pow_le_mono_r; lia).
    assert (as_millis (base_delay b) * Z.min u32_max (multiplier b ^ Z.min attempt 32)
            <= as_millis (base_delay b) * Z.min u32_max (multiplier b ^ Z.min (attempt + 1) 32))
      by (apply Z.mul_le_mono_nonneg_l; lia).
    lia. }
  unfold delay_for_attempt; cbv zeta; fold (uncapped_millis b attempt) (uncapped_millis b (attempt + 1)).
  assert (0 <= as_millis (max_delay b)) by (apply Z.div_pos; [apply Hb|lia]).
  unfold from_millis; rewrite !Z.mod_small by lia; lia.
Qed.

(** The attempt the loop ends with. *)
Inductive ends_at {T} (b : ExponentialBackoff) (f : Z -> RpcErrorKind + T) (from : Z) : Z -> RpcErrorKind + T -> Prop :=
  | EndsOk v : f from = inr v -> ends_at b f from from (inr v)
  | EndsErr k : f from = inl k -> should_retry b from k = false -> ends_at b f from from (inl k)
  | EndsLater k n r :
      f from = inl k -> should_retry b from k = true -> ends_at b f (from + 1) n r -> ends_at b f from n r.

Lemma execute_loop_ends {T} fuel b (f : Z -> RpcErrorKind + T) attempt slept :
  attempt <= max_attempts b -> max_attempts b - attempt < Z.of_nat fuel ->
  exists n r more, execute_loop fuel b f attempt slept = (Some r, slept ++ more)
    /\ ends_at b f attempt n r /\ attempt <= n <= max_attempts b
    /\ more = delay_for_attempt b <$> seqZ attempt (n - attempt).
Proof.
  revert attempt slept; induction fuel as [|fuel IH]; intros attempt slept Hle Hf; [lia|]; simpl.
  destruct (f attempt) as [k|v] eqn:Hfa.
  - destruct (should_retry b attempt k) eqn:Hr; simpl.
    + assert (attempt < max_attempts b)
        by (unfold should_retry, backoff_allows in Hr; apply andb_true_iff in Hr as [_ ?]; by apply Z.ltb_lt).
      destruct (IH (attempt + 1) (slept ++ [delay_for_attempt b attempt])) as (n & r & more & -> & He & Hn & ->);
        [lia..|].
      exists n, r, (delay_for_attempt b attempt :: (delay_for_attempt b <$> seqZ (attempt + 1) (n - (attempt + 1)))).
      rewrite <- app_assoc; split_and!; [done|by econstructor|lia|lia|].
      rewrite (seqZ_cons attempt) by lia; simpl; by replace (Z.pred (n - attempt)) with (n - (attempt + 1)) by lia.
    + exists attempt, (inl k), []; rewrite app_nil_r, Z.sub_diag; split_and!; [done|by constructor|lia|done|done].
  - exists attempt, (inr v), []; rewrite app_nil_r, Z.sub_diag; split_and!; [done|by constructor|lia|done|done].
Qed.

(** ** Termination *)

(** C37: The retry loop ends for every operation, with its first success or the
    first failure that is not retried, after at most [max_attempts + 1]
    attempts; between two attempts it waits for the delays of the backoff, each
    at most the configured maximum. *)
Theorem retries_terminate {T} (b : ExponentialBackoff) (f : Z -> RpcErrorKind + T) :
  backoff_typed b ->
  exists n r delays, execute_async b f = (Some r, delays) /\ ends_at b f 0 n r
    /\ 0 <= n <= max_attempts b /\ delays = delay_for_attempt b <$> seqZ 0 n
    /\ Forall (fun d => 0 <= d <= max_delay b) delays.
Proof.
  intros Hb; unfold execute_async.
  destruct (execute_loop_ends (S (Z.to_nat (max_attempts b))) b f 0 []) as (n & r & more & He & Hends & Hn & Hm).
  - apply Hb.
  - pose proof (bt_attempts _ Hb); lia.
  - exists n, r, more; rewrite Z.sub_0_r in Hm; split_and!; [done|done|lia|lia|done|].
    rewrite Hm; apply Forall_fmap, Forall_forall; intros i Hi%elem_of_seqZ; apply delay_bounded; [done|lia].
Qed.
Lemma retries_terminate_witness :
  exists n, ends_at default_backoff (fun i => if i <? 3 then inl RateLimited else inr i) 0 n (inr 3).
Proof.
  destruct (retries_terminate default_backoff (fun i => if i <? 3 then inl RateLimited else inr i))
    as (n & r & delays & He & Hends & _).
  - split; vm_compute; try split; discriminate || done.
  - vm_compute in He; injection He as <- _; exists n; exact Hends.
Defined.
