(* ===== verification/SdkBuilders.v ===== *)
(** * SDK: addresses and builders

    [strkey.rs], [attestation_builder.rs] and [schema_builder.rs] of
    [src/packages/soroban-sas-sdk/src]: addresses are checked before they are
    converted, and the builders derive the identifiers the contracts expect.
    The decoders of the stellar-strkey crate and the host's conversion, which
    traps on a malformed address, are parameters. *)

From S2P Require Import Prelude Host Common Validation SasState SasCore SasIssue SasFrame SasRecord.
From S2P Require Import SasIssueSpec Sample.

Inductive SdkError := DecodingError | RpcError | InvalidInput | ValidationError.

(** A call that may fail, or trap the host and with it the process. *)
Inductive outcome (A : Type) :=
  | Done (a : A)
  | Fails (err : SdkError)
  | Traps.
Arguments Done {A} a.
Arguments Fails {A} err.
Arguments Traps {A}.
Definition and_then {A B} (m : outcome A) (f : A -> outcome B) : outcome B :=
  match m with Done a => f a | Fails err => Fails err | Traps => Traps end.
Definition required {A} (o : option A) : outcome A :=
  match o with Some a => Done a | None => Fails RpcError end.

Class Strkeys := {
  account_strkey : bytes -> option bytes;
  contract_strkey : bytes -> option bytes;
  address_from_string : bytes -> option Address
}.
(** The host decodes what the crate decodes. *)
Class StrkeyLaws `{Strkeys} : Prop := {
  account_converts v k : account_strkey v = Some k -> address_from_string v = Some (Account k);
  contract_converts v k : contract_strkey v = Some k -> address_from_string v = Some (Contract k)
}.

Section builders.
Context `{Strkeys}.

(** ** Addresses *)

Inductive AddressKind := KindAccount | KindContract | KindEither.

Definition validate_strkey (value : bytes) (kind : AddressKind) : outcome unit :=
  let is_account := bool_decide (is_Some (account_strkey value)) in
  let is_contract := bool_decide (is_Some (contract_strkey value)) in
  if match kind with
     | KindAccount => is_account
     | KindContract => is_contract
     | KindEither => is_account || is_contract
     end
  then Done tt else Fails DecodingError.

Definition convert_address (value : bytes) : outcome Address :=
  match address_from_string value with Some a => Done a | None => Traps end.

Definition parse_address (value : bytes) (kind : AddressKind) : outcome Address :=
  and_then (validate_strkey value kind) (fun _ => convert_address value).

(** ** Attestations *)

Record AttestationRequestBuilder := mkAttestationRequestBuilder {
  ab_recipient : option bytes;
  ab_schema_uid : option bytes;
  ab_data : option bytes;
  ab_expiration_time : Z;
  ab_revocable : bool;
  ab_ref_uid : bytes;
  ab_attester : option bytes;
  ab_valid_from : Z
}.

Definition build_attestation (e : Env) (b : AttestationRequestBuilder) : outcome Attestation :=
  and_then (required (ab_recipient b)) (fun recipient =>
  and_then (required (ab_attester b)) (fun attester =>
  and_then (required (ab_schema_uid b)) (fun schema_uid =>
  and_then (required (ab_data b)) (fun data =>
  and_then (parse_address recipient KindEither) (fun recipient =>
  and_then (parse_address attester KindEither) (fun attester =>
  match validate_attestation_parties recipient attester with
  | Some _ => Fails InvalidInput
  | None =>
    let schema_uid := mkUID schema_uid in
    Done (mkAttestation (attestation_uid e schema_uid recipient attester data) schema_uid (timestamp e)
            (ab_expiration_time b) 0 (mkUID (ab_ref_uid b)) recipient attester (ab_revocable b) data
            (ab_valid_from b))
  end)))))).

(** ** Schemas *)

Record SchemaBuilder := mkSchemaBuilder {
  sb_schema : bytes; sb_resolver : option bytes; sb_revocable : bool; sb_max_ttl : Z
}.

Definition build_schema (e : Env) (b : SchemaBuilder) : outcome SchemaRecord :=
  match validate_schema_syntax (sb_schema b) with
  | Some _ => Fails RpcError
  | None =>
    and_then (required (sb_resolver b)) (fun resolver =>
    and_then (convert_address resolver) (fun resolver =>
    let payload := xdr_string e (sb_schema b) ++ xdr_address e resolver
                   ++ [if sb_revocable b then 1 else 0] in
    Done (mkSchemaRecord (mkUID (sha256 e payload)) resolver (sb_revocable b) (sb_schema b) false None)))
  end.

(** ** Correctness *)

Context `{!StrkeyLaws}.

(** Parsing never traps, and converts what is of the requested kind. *)
Lemma parse_address_spec value kind :
  match parse_address value kind with
  | Done a => address_from_string value = Some a
              /\ match kind, a with
                 | KindAccount, Contract _ | KindContract, Account _ => False
                 | _, _ => True
                 end
  | Fails err => err = DecodingError
  | Traps => False
  end.
Proof.
  unfold parse_address, validate_strkey, convert_address.
  destruct (account_strkey value) as [k|] eqn:Ha, (contract_strkey value) as [k'|] eqn:Hc; destruct kind; simpl;
    rewrite ?(account_converts _ _ Ha), ?(contract_converts _ _ Hc); simpl; try done.
  exfalso; pose proof (account_converts _ _ Ha); pose proof (contract_converts _ _ Hc); congruence.
Qed.

(** What is left for SAS to check on the fields of a built attestation. *)
Record unchecked {X} (e : Env) (s : State SasSig X) (a : Attestation) : Prop := {
  uc_size : len (data a) <= MAX_ATTESTATION_DATA_BYTES;
  uc_fresh : read_record s (uid a) = None;
  uc_live : live_at e (expiration_time a);
  uc_range : 0 < expiration_time a -> valid_from a < expiration_time a;
  uc_ref_self : ref_uid a <> uid a;
  uc_ref : ref_uid a = zero_uid \/ is_Some (read_record s (ref_uid a))
}.

Lemma build_attestation_spec e b :
  match build_attestation e b with
  | Done a =>
      ab_schema_uid b = Some (uid_bytes (att_schema_uid a)) /\ ab_data b = Some (data a)
      /\ (r ← ab_recipient b; address_from_string r) = Some (recipient a)
      /\ (r ← ab_attester b; address_from_string r) = Some (attester a)
      /\ forall X (s : State SasSig X),
           (exists s', validate_fields a e s = Ok (tt, s')) <-> unchecked e s a
  | Fails _ => True
  | Traps => False
  end.
Proof.
  unfold build_attestation.
  destruct (ab_recipient b) as [r|]; simpl; [|done].
  destruct (ab_attester b) as [t|]; simpl; [|done].
  destruct (ab_schema_uid b) as [u|]; simpl; [|done].
  destruct (ab_data b) as [d|]; simpl; [|done].
  pose proof (parse_address_spec r KindEither) as Hr; destruct (parse_address r KindEither) as [ra|err|]; simpl;
    [destruct Hr as [Hr _]|done|done].
  pose proof (parse_address_spec t KindEither) as Ht; destruct (parse_address t KindEither) as [ta|err|]; simpl;
    [destruct Ht as [Ht _]|done|done].
  destruct (validate_attestation_parties ra ta) eqn:Hp; [done|].
  apply validate_attestation_parties_None in Hp as (Hp1 & Hp2 & Hp3); split_and!; try done.
  intros X s; split.
  - intros (s' & [Hf _]%validate_fields_valid); destruct Hf; by split.
  - intros [H1 H2 H3 H4 H5 H6]; exists s; apply valid_fields_accepted; by split.
Qed.

(** The identifier of a built schema is the one the registry derives. *)
Lemma build_schema_spec e b r :
  build_schema e b = Done r ->
  sr_uid r = schema_uid e (sr_schema r) (sr_resolver r) (sr_revocable r)
  /\ sr_schema r = sb_schema b /\ sr_revocable r = sb_revocable b
  /\ validate_schema_syntax (sr_schema r) = None.
Proof.
  unfold build_schema; destruct (validate_schema_syntax (sb_schema b)) eqn:Hs; [done|].
  destruct (sb_resolver b) as [v|]; simpl; [|done]; unfold convert_address.
  destruct (address_from_string v); simpl; [|done]; by intros [= <-].
Qed.
End builders.

(** ** What is left to SAS *)

(** C38: Building an attestation never traps the host.  A built attestation has
    the requested schema, data and parties, and SAS accepts its fields exactly
    when the checks the builder leaves to SAS hold: size, freshness, validity
    period and reference. *)
Theorem built_attestations_are_admitted `{StrkeyLaws} (e : Env) (b : AttestationRequestBuilder) :
  match build_attestation e b with
  | Done a =>
      ab_schema_uid b = Some (uid_bytes (att_schema_uid a)) /\ ab_data b = Some (data a)
      /\ (r ← ab_recipient b; address_from_string r) = Some (recipient a)
      /\ (r ← ab_attester b; address_from_string r) = Some (attester a)
      /\ forall X (s : State SasSig X),
           (exists s', validate_fields a e s = Ok (tt, s')) <-> unchecked e s a
  | Fails _ => True
  | Traps => False
  end.
Proof. apply build_attestation_spec. Qed.

(** A codec that marks accounts with 71 and contracts with 67. *)
#[export] Instance toy_strkeys : Strkeys := {|
  account_strkey v := match v with 71 :: k => Some k | _ => None end;
  contract_strkey v := match v with 67 :: k => Some k | _ => None end;
  address_from_string v := match v with 71 :: k => Some (Account k) | 67 :: k => Some (Contract k) | _ => None end
|}.
#[export] Instance toy_strkey_laws : StrkeyLaws.
Proof.
  split; intros v k; simpl; repeat case_match; by intros [= ->].
Qed.
Definition sample_request : AttestationRequestBuilder :=
  mkAttestationRequestBuilder (Some (71 :: key_of 2)) (Some (key_of 10)) (Some [1; 2; 3]) 5000 true
    (key_of 0) (Some (71 :: key_of 1)) 0.
Lemma built_attestations_are_admitted_witness :
  match build_attestation (sample_env 1000 []) sample_request with
  | Done a => recipient a = bob
  | _ => False
  end.
Proof.
  pose proof (built_attestations_are_admitted (sample_env 1000 []) sample_request) as Hb.
  destruct (build_attestation (sample_env 1000 []) sample_request) as [a|err|] eqn:E.
  - destruct Hb as (_ & _ & Hr & _); simpl in Hr; injection Hr as Hr; symmetry; exact Hr.
  - vm_compute in E; discriminate E.
  - exact Hb.
Defined.
