(* ===== verification/SdkDelegation.v ===== *)
(** * SDK: signed delegations

    [src/packages/soroban-sas-sdk/src/delegation.rs]: the digests, the checks
    and the signatures an issuer makes offline.  The ed25519-dalek crate is a
    parameter; the client's [Env] hashes and encodes as the contract's does. *)

From S2P Require Import Prelude Host Common TypedData Merkle Validation Sample SasState SasCore.
From S2P Require Import SasFees SasIssue SasAttest SasRevoke SasSample SasRecord SasIssueSpec.
From S2P Require Import SasProgress SdkBuilders.
From Stdlib Require Import Sorting.Sorted.

(** The key pair of a seed, its signatures and their verification. *)
Class Dalek := {
  verifying_key : bytes -> bytes;
  signing : bytes -> bytes -> bytes;
  is_verifying_key : bytes -> bool;
  dalek_verifies : bytes -> bytes -> bytes -> bool
}.
(** RFC 8032: signatures are valid for the host, with a reduced scalar. *)
Class DalekLaws `{Dalek} (e : Env) : Prop := {
  signing_valid seed m : ed25519_valid e (verifying_key seed) m (signing seed m) = true;
  signing_canonical seed m : signature_scalar_is_canonical (signing seed m) = true
}.

Section delegation.
Context `{Strkeys} `{Dalek}.

Definition network_id_of (e : Env) (network_passphrase : bytes) : bytes := sha256 e network_passphrase.

Definition delegation_domain (e : Env) (network_passphrase contract_id : bytes) (nonce : Z)
    : outcome AttestationDomain :=
  and_then (parse_address contract_id KindContract) (fun contract =>
  Done (mkAttestationDomain (network_id_of e network_passphrase) contract nonce)).

Definition attestation_digest (e : Env) (a : Attestation) (d : AttestationDomain) : bytes :=
  hash_offchain_attestation e a d.
Definition revocation_digest (e : Env) (u : UID) (a : Address) (d : AttestationDomain) : bytes :=
  hash_delegated_revocation e u a d.

Record DelegationSignature := mkDelegationSignature {
  ds_nonce : Z; ds_public_key : bytes; ds_signature : bytes; ds_digest : bytes
}.

Definition require_attester_key (e : Env) (a : Address) (public_key : bytes) : outcome unit :=
  if attester_matches_key e a public_key then Done tt else Fails ValidationError.

Definition sign_offchain_attestation (e : Env) (seed : bytes) (a : Attestation) (nonce : Z)
    (network_passphrase contract_id : bytes) : outcome DelegationSignature :=
  let public_key := verifying_key seed in
  and_then (require_attester_key e (attester a) public_key) (fun _ =>
  and_then (delegation_domain e network_passphrase contract_id nonce) (fun domain =>
  let digest := attestation_digest e a domain in
  Done (mkDelegationSignature nonce public_key (signing seed digest) digest))).

Definition sign_scoped_attestation (e : Env) (seed : bytes) (a : Attestation) (nonce : Z)
    (network_passphrase contract_id : bytes) (authorization : DelegationAuthorization)
    : outcome DelegationSignature :=
  if (Z.land (da_permissions authorization) 1 =? 0)
     || match schema_scope authorization with
        | ScopeOnly schema => negb (bool_decide (schema = att_schema_uid a))
        | ScopeAny => false
        end
  then Fails ValidationError
  else
    let public_key := verifying_key seed in
    and_then (require_attester_key e (attester a) public_key) (fun _ =>
    and_then (delegation_domain e network_passphrase contract_id nonce) (fun domain =>
    let digest := hash_scoped_attestation e a domain authorization in
    Done (mkDelegationSignature nonce public_key (signing seed digest) digest))).


Definition verify_digest (digest public_key signature : bytes) : outcome unit :=
  if negb (is_verifying_key public_key) then Fails ValidationError
  else if dalek_verifies public_key digest signature then Done tt else Fails ValidationError.
Definition verify_offchain_attestation (e : Env) (a : Attestation) (d : AttestationDomain)
    (public_key signature : bytes) : outcome unit :=
  verify_digest (attestation_digest e a d) public_key signature.
Definition verify_delegated_revocation (e : Env) (u : UID) (a : Address) (d : AttestationDomain)
    (public_key signature : bytes) : outcome unit :=
  verify_digest (revocation_digest e u a d) public_key signature.

(** ** Batches *)

Record DelegatedBatchSignaturePacket := mkPacket {
  pk_attestations : list Attestation; pk_nonces : list Z; pk_signatures : list bytes;
  pk_public_keys : list bytes; pk_digests : list bytes
}.

(** [nonces.windows(2).any(|pair| pair[0] >= pair[1])] *)
Fixpoint not_increasing (nonces : list Z) : bool :=
  match nonces with
  | n :: (m :: _) as rest => (m <=? n) || not_increasing rest
  | _ => false
  end.

Definition check_item (e : Env) (a : Attestation) (public_key : bytes) : outcome unit :=
  if negb (revocation_time a =? 0) then Fails ValidationError
  else if MAX_ATTESTATION_DATA_BYTES <? len (data a) then Fails ValidationError
  else if negb (bool_decide (attestation_uid e (att_schema_uid a) (recipient a) (attester a) (data a) = uid a))
  then Fails ValidationError
  else require_attester_key e (attester a) public_key.

Fixpoint sign_items (e : Env) (seed : bytes) (base : AttestationDomain) (items : list (Attestation * Z))
    (packet : DelegatedBatchSignaturePacket) : outcome DelegatedBatchSignaturePacket :=
  match items with
  | [] => Done packet
  | (a, nonce) :: rest =>
    let public_key := verifying_key seed in
    and_then (check_item e a public_key) (fun _ =>
    let domain := mkAttestationDomain (ad_network_id base) (ad_contract base) nonce in
    let digest := attestation_digest e a domain in
    sign_items e seed base rest
      (mkPacket (pk_attestations packet) (pk_nonces packet) (pk_signatures packet ++ [signing seed digest])
         (pk_public_keys packet ++ [public_key]) (pk_digests packet ++ [digest])))
  end.

Definition sign_batch (e : Env) (seed : bytes) (attestations : list Attestation) (nonces : list Z)
    (network_passphrase contract_id : bytes) : outcome DelegatedBatchSignaturePacket :=
  if negb (bool_decide (length attestations = length nonces)) then Fails ValidationError
  else if MAX_MULTI_ATTEST <? len attestations then Fails ValidationError
  else if not_increasing nonces then Fails ValidationError
  else
    and_then (delegation_domain e network_passphrase contract_id 0) (fun base =>
    sign_items e seed base (zip attestations nonces) (mkPacket attestations nonces [] [] [])).

(** ** What the contract accepts *)



Section accepted.
Context {X : Type} `{Deps X}.
Implicit Types (s : State SasSig X) (e : Env).


End accepted.

(** ** Batches are signed item by item *)

Lemma not_increasing_sorted l : not_increasing l = false -> StronglySorted Z.lt l.
Proof.
  intros Hl; apply Sorted_StronglySorted; [intros ???; lia|]; revert Hl.
  induction l as [|n [|m l] IH]; intros Hl; [by repeat constructor..|].
  simpl in Hl; apply orb_false_iff in Hl as [Hm%Z.leb_gt Hl]; constructor; [by apply IH|by constructor].
Qed.

(** The packet has for each item of [items] what signing it alone gives. *)
Definition item_signed (e : Env) (seed pass cid : bytes) (item : Attestation * Z) (sg pk : bytes) : Prop :=
  revocation_time item.1 = 0 /\ len (data item.1) <= MAX_ATTESTATION_DATA_BYTES
  /\ uid item.1 = attestation_uid e (att_schema_uid item.1) (recipient item.1) (attester item.1) (data item.1)
  /\ exists digest, sign_offchain_attestation e seed item.1 item.2 pass cid
                    = Done (mkDelegationSignature item.2 pk sg digest).

Lemma sign_items_ok e seed pass cid base items p p' :
  delegation_domain e pass cid 0 = Done base -> sign_items e seed base items p = Done p' ->
  pk_attestations p' = pk_attestations p /\ pk_nonces p' = pk_nonces p
  /\ exists sgs pks, pk_signatures p' = pk_signatures p ++ sgs /\ pk_public_keys p' = pk_public_keys p ++ pks
     /\ length pks = length items
     /\ Forall3 (item_signed e seed pass cid) items sgs pks.
Proof.
  intros Hbase; revert p; induction items as [|[a n] items IH]; intros p; cbn [sign_items].
  - intros [= <-]; split_and!; [done..|]; exists [], []; rewrite !app_nil_r; split_and!; [done..|constructor].
  - destruct (check_item e a (verifying_key seed)) as [[]| |] eqn:Hc; [|done..]; cbn [and_then].
    intros (Ha & Hn & sgs & pks & Hs & Hp & Hl & Hf)%IH; split_and!; [done..|]; cbn in Hs, Hp.
    rewrite <- app_assoc in Hs, Hp; eexists _, _; split_and!; [exact Hs|exact Hp|simpl; by rewrite Hl|].
    simpl; constructor; [|exact Hf].
    unfold check_item in Hc; destruct (Z.eqb_spec (revocation_time a) 0); [|done]; cbn [negb] in Hc.
    destruct (Z.ltb_spec MAX_ATTESTATION_DATA_BYTES (len (data a))); [done|].
    case_bool_decide as Hu; [|done]; cbn [negb] in Hc.
    split_and!; [done|done|by symmetry|]; unfold sign_offchain_attestation; cbn [fst snd]; rewrite Hc; cbn [and_then].
    unfold delegation_domain in *; destruct (parse_address cid KindContract); cbn [and_then] in *; [|done..].
    injection Hbase as <-; eexists; reflexivity.
Qed.

(** A signed batch is within the contract's limits, in increasing order of
    nonces, and every item is signed as it would be alone. *)
Theorem batches_are_signed_item_by_item e seed atts nonces pass cid p :
  sign_batch e seed atts nonces pass cid = Done p ->
  pk_attestations p = atts /\ pk_nonces p = nonces /\ len atts <= MAX_MULTI_ATTEST
  /\ len nonces = len atts /\ len (pk_signatures p) = len atts /\ len (pk_public_keys p) = len atts
  /\ StronglySorted Z.lt nonces
  /\ Forall3 (item_signed e seed pass cid) (zip atts nonces) (pk_signatures p) (pk_public_keys p).
Proof.
  unfold sign_batch; case_bool_decide as Hlen; [|done]; cbn [negb].
  destruct (Z.ltb_spec MAX_MULTI_ATTEST (len atts)) as [|Hmax]; [done|].
  destruct (not_increasing nonces) eqn:Hinc; [done|]; apply not_increasing_sorted in Hinc.
  destruct (delegation_domain e pass cid 0) as [base| |] eqn:Hbase; cbn [and_then]; [|done..].
  intros (Ha & Hn & sgs & pks & Hs & Hp & Hl & Hf)%(sign_items_ok _ _ _ _ _ _ _ _ Hbase); cbn in *.
  rewrite Hs, Hp; apply Forall3_length_lm in Hf as Hlm.
  rewrite length_zip_with, <- Hlen, Nat.min_id in Hlm, Hl.
  unfold len in *; rewrite <- Hlen, Hl, <- Hlm; split_and!; done.
Qed.
End delegation.


(** ** A concrete delegation *)

#[export] Instance toy_dalek : Dalek := {|
  verifying_key seed := seed;
  signing := toy_sign;
  is_verifying_key _ := true;
  dalek_verifies pk m sg := bool_decide (sg = toy_sign pk m)
|}.
Definition passphrase : bytes := bytes_of_string "Test Network".
(** The sample host on the network of the passphrase. *)
Definition delegate_env (now : Z) : Env :=
  let e := sample_env now [] in {|
  timestamp := now; sequence := sequence e; network_id := toy_digest passphrase;
  current_contract := sas_id; authorized := authorized e; max_entry_ttl := max_entry_ttl e;
  min_persistent_ttl := min_persistent_ttl e; min_temp_ttl := min_temp_ttl e; sha256 := toy_digest;
  keccak256 := keccak256 e; ed25519_valid := ed25519_valid e; xdr_address := toy_xdr_address;
  xdr_bytes := xdr_bytes e; xdr_string := xdr_string e; xdr_uid := xdr_uid e
|}.
#[export] Instance toy_dalek_laws now : DalekLaws (delegate_env now).
Proof.
  split; intros seed m; [by apply bool_decide_eq_true|].
  unfold signature_scalar_is_canonical; simpl signing; unfold toy_sign.
  rewrite drop_app_length' by (symmetry; apply length_to_be_bytes); by vm_compute.
Qed.



