(* ===== verification/SdkSubmit.v ===== *)
(** * SDK: the transaction submitter

    [src/packages/soroban-sas-sdk/src/transaction_submitter.rs]: submission of
    transactions with retries, and fee bumps of those that stay pending.  The
    RPC node and the signer are a class of operations on a state of their own.
    [f64] is IEEE binary64 as the Standard Library specifies it; the precision
    of [f64::powi] is not documented, so it is a parameter.  The submitter's
    state also keeps what it asked of the node and of the signer. *)

From S2P Require Import Prelude.
From stdpp Require Import gmap.
From Stdlib Require Import Floats.SpecFloat.
#[local] Open Scope Z_scope.

Definition i64_max : Z := 2 ^ 63 - 1.
Definition i64_min : Z := - 2 ^ 63.
Definition Hash : Type := bytes.
Definition text : Type := list Z.

(** ** Floating point *)

Definition f64 : Type := spec_float.
Definition f64_of (z : Z) : f64 := binary_normalize 53 1024 z 0 false.
Definition f64_mul : f64 -> f64 -> f64 := SFmul 53 1024.
(** [f64::min] returns the other argument for a NaN. *)
Definition f64_min (x y : f64) : f64 :=
  match x, y with
  | S754_nan, _ => y
  | _, S754_nan => x
  | _, _ => if SFleb x y then x else y
  end.
Definition signed_of (s : bool) (m : positive) : Z := if s then Z.neg m else Z.pos m.
Definition clamp (lo hi z : Z) : Z := Z.max lo (Z.min hi z).
(** [x.ceil() as i64] and [x as u64] saturate; a NaN is zero. *)
Definition ceil_as_i64 (x : f64) : Z :=
  match x with
  | S754_nan | S754_zero _ => 0
  | S754_infinity s => if s then i64_min else i64_max
  | S754_finite s m e =>
    let n := signed_of s m in
    clamp i64_min i64_max (if 0 <=? e then n * 2 ^ e else - ((- n) / 2 ^ (- e)))
  end.
Definition trunc_as_u64 (x : f64) : Z :=
  match x with
  | S754_nan | S754_zero _ => 0
  | S754_infinity s => if s then 0 else u64_max
  | S754_finite s m e =>
    let n := signed_of s m in
    clamp 0 u64_max (if 0 <=? e then n * 2 ^ e else Z.quot n (2 ^ (- e)))
  end.
Definition f64_one : f64 := f64_of 1.
Definition f64_two : f64 := f64_of 2.

(** ** Data *)

Inductive SubmitError :=
  | Build (message : text) | Signing (message : text)
  | Rpc (status : Z) (message : text) | TxFailed (code message : text)
  | FeeCapExceeded (required cap : Z) | MaxAttemptsExhausted (attempts : Z)
  | SequenceConflict (account : text) (expected actual : Z)
  | ConfirmationTimeout (ledgers : Z) | InvalidConfig (message : text).
Inductive SubmitResponse :=
  | RespPending (hash : Hash) | RespConfirmed (hash : Hash) (ledger : Z)
  | RespRejected (code message : text).
Inductive TransactionStatus := StPending | StConfirmed (ledger : Z) | StNotFound | StFailed (code : text).

Record FeeBumpStrategy := mkStrategy {
  pending_ledger_threshold : Z; fee_bump_multiplier : f64; max_fee_strops : Z; max_attempts : Z;
  base_fee_strops : Z
}.
Definition default_strategy : FeeBumpStrategy := mkStrategy 5 f64_two 10000000 5 1000.
Record RetryPolicy := mkRetryPolicy {
  max_retries : Z; base_delay_ms : Z; max_delay_ms : Z; backoff_multiplier : f64; jitter_ms : Z
}.
Definition default_policy : RetryPolicy := mkRetryPolicy 5 100 10000 f64_two 50.

Record FeeBumpTransactionEnvelope := mkEnvelope {
  inner_tx_hash : Hash; env_fee_strops : Z; env_fee_source : text; env_sequence_number : Z;
  envelope_xdr : text; envelope_hash : Hash
}.
Record PendingTransaction := mkPending {
  original_hash : Hash; current_hash : Hash; current_fee_strops : Z; submitted_at_ledger : Z;
  attempts : Z; sequence_number : Z; fee_source : text
}.

(** A call returns, fails with an error, or panics. *)
Inductive outcome (A : Type) := Returns (a : A) | Fails (err : SubmitError) | Panics.
Arguments Returns {A} a.
Arguments Fails {A} err.
Arguments Panics {A}.

(** ** Policies *)

Definition validate (s : FeeBumpStrategy) : outcome unit :=
  if pending_ledger_threshold s =? 0 then
    Fails (InvalidConfig (bytes_of_string "pending_ledger_threshold must be > 0"))
  else if SFleb (fee_bump_multiplier s) f64_one then
    Fails (InvalidConfig (bytes_of_string "fee_bump_multiplier must be > 1.0"))
  else if max_fee_strops s <=? 0 then Fails (InvalidConfig (bytes_of_string "max_fee_strops must be > 0"))
  else if max_attempts s =? 0 then Fails (InvalidConfig (bytes_of_string "max_attempts must be > 0"))
  else if base_fee_strops s <=? 0 then Fails (InvalidConfig (bytes_of_string "base_fee_strops must be > 0"))
  else Returns tt.

Definition checked_succ (z : Z) : outcome Z := if z =? i64_max then Panics else Returns (z + 1).

Definition next_fee (s : FeeBumpStrategy) (current_fee : Z) : outcome Z :=
  let multiplied := ceil_as_i64 (f64_mul (f64_of current_fee) (fee_bump_multiplier s)) in
  match checked_succ current_fee with
  | Returns succ =>
    let next := Z.max multiplied succ in
    if max_fee_strops s <? next then Fails (FeeCapExceeded next (max_fee_strops s)) else Returns next
  | Fails err => Fails err
  | Panics => Panics
  end.

Definition is_retryable_status (status : Z) : bool := bool_decide (status ∈ [429; 504; 503; 502]).

Section submitter.
Context (powi : f64 -> Z -> f64).

(** Milliseconds; [None] when the sum overflows. *)
Definition delay_for (p : RetryPolicy) (attempt : Z) : option Z :=
  let exponent := Z.min attempt 31 in
  let factor := powi (backoff_multiplier p) exponent in
  let raw := f64_min (f64_mul (f64_of (base_delay_ms p)) factor) (f64_of (max_delay_ms p)) in
  let jitter := if jitter_ms p =? 0 then 0 else (attempt * 2654435761) mod 2 ^ 64 mod jitter_ms p in
  let sum := trunc_as_u64 raw + jitter in
  if sum <=? u64_max then Some sum else None.
End submitter.

(** ** The submitter *)

(** The node and the signer. *)
Class Network (W : Type) := {
  submit_transaction : text -> W -> (SubmitError + SubmitResponse) * W;
  get_transaction_status : Hash -> W -> (SubmitError + TransactionStatus) * W;
  get_latest_ledger : W -> (SubmitError + Z) * W;
  get_account_sequence : text -> W -> (SubmitError + Z) * W;
  sign_fee_bump : Hash -> text -> Z -> Z -> W -> (SubmitError + FeeBumpTransactionEnvelope) * W
}.

(** What the signer was asked for. *)
Record SignRequest := mkSignRequest { sr_inner : Hash; sr_source : text; sr_fee : Z; sr_sequence : Z }.

Section operations.
Context {W : Type} `{Network W} (powi : f64 -> Z -> f64).
Context (strategy : FeeBumpStrategy) (retry_policy : RetryPolicy).

Record Submitter := mkSubmitter {
  pending : gmap Hash PendingTransaction; world : W; signed : list SignRequest; sent : nat
}.
Definition no_pending (w : W) : Submitter := mkSubmitter ∅ w [] 0.
Definition new (w : W) : outcome Submitter :=
  match validate strategy with
  | Returns _ => Returns (no_pending w)
  | Fails err => Fails err
  | Panics => Panics
  end.

Definition SM (A : Type) : Type := Submitter -> outcome A * Submitter.
#[local] Instance sm_ret : MRet SM := fun A a s => (Returns a, s).
#[local] Instance sm_bind : MBind SM := fun A B f m s =>
  match m s with
  | (Returns a, s') => f a s'
  | (Fails err, s') => (Fails err, s')
  | (Panics, s') => (Panics, s')
  end.
Definition lift {A} (r : outcome A) : SM A := fun s => (r, s).
Definition ask_node {A} (f : W -> (SubmitError + A) * W) : SM A := fun s =>
  let '(r, w) := f (world s) in
  (match r with inl err => Fails err | inr a => Returns a end, mkSubmitter (pending s) w (signed s) (sent s)).
Definition update_pending (f : gmap Hash PendingTransaction -> gmap Hash PendingTransaction) : SM unit :=
  fun s => (Returns tt, mkSubmitter (f (pending s)) (world s) (signed s) (sent s)).
Definition get_pending : SM (gmap Hash PendingTransaction) := fun s => (Returns (pending s), s).
Definition sign (inner : Hash) (source : text) (fee seq : Z) : SM FeeBumpTransactionEnvelope := fun s =>
  ask_node (sign_fee_bump inner source fee seq)
    (mkSubmitter (pending s) (world s) (signed s ++ [mkSignRequest inner source fee seq]) (sent s)).

(** The loop of [submit_with_retry]; [left] is [max_retries - attempt]. *)
Fixpoint submit_attempts (left : nat) (xdr : text) (attempt : Z) : SM SubmitResponse := fun s =>
  let '(r, w) := submit_transaction xdr (world s) in
  let s := mkSubmitter (pending s) w (signed s) (S (sent s)) in
  match r with
  | inr resp => (Returns resp, s)
  | inl (Rpc status message) =>
    match is_retryable_status status, left with
    | true, S left' =>
      match delay_for powi retry_policy attempt with
      | Some _ => submit_attempts left' xdr (attempt + 1) s
      | None => (Panics, s)
      end
    | _, _ => (Fails (Rpc status message), s)
    end
  | inl err => (Fails err, s)
  end.
Definition submit_with_retry (xdr : text) : SM SubmitResponse :=
  submit_attempts (Z.to_nat (max_retries retry_policy)) xdr 0.

Definition require_next_sequence (source : text) (sequence : Z) : SM unit :=
  on_chain_seq ← ask_node (get_account_sequence source);
  expected ← lift (checked_succ on_chain_seq);
  if sequence =? expected then mret tt else lift (Fails (SequenceConflict source expected sequence)).

Definition submit (xdr source : text) (sequence fee : Z) : SM Hash :=
  if max_fee_strops strategy <? fee then lift (Fails (FeeCapExceeded fee (max_fee_strops strategy)))
  else
    require_next_sequence source sequence;;
    ledger ← ask_node get_latest_ledger;
    resp ← submit_with_retry xdr;
    match resp with
    | RespPending hash =>
      update_pending (insert hash (mkPending hash hash fee ledger 0 sequence source));; mret hash
    | RespConfirmed hash _ => mret hash
    | RespRejected code message => lift (Fails (TxFailed code message))
    end.

Definition maybe_bump (hash : Hash) (latest_ledger : Z) : SM (option Hash) :=
  all ← get_pending;
  match all !! hash with
  | None => mret None
  | Some p =>
    let ledgers_pending := sat_sub latest_ledger (submitted_at_ledger p) in
    if ledgers_pending <? pending_ledger_threshold strategy then mret None
    else if max_attempts strategy <=? attempts p then lift (Fails (MaxAttemptsExhausted (attempts p)))
    else
      require_next_sequence (fee_source p) (sequence_number p);;
      fee ← lift (next_fee strategy (current_fee_strops p));
      envelope ← sign (current_hash p) (fee_source p) fee (sequence_number p);
      resp ← submit_with_retry (envelope_xdr envelope);
      match resp with
      | RespPending new_hash =>
        update_pending (alter (fun p => mkPending (original_hash p) new_hash fee latest_ledger
          (attempts p + 1) (sequence_number p) (fee_source p)) hash);;
        mret (Some new_hash)
      | RespConfirmed new_hash _ => update_pending (delete hash);; mret (Some new_hash)
      | RespRejected code message => lift (Fails (TxFailed code message))
      end
  end.

Fixpoint bump_loop (latest : Z) (hashes bumped : list Hash) : SM (list Hash) :=
  match hashes with
  | [] => mret bumped
  | hash :: rest =>
    status ← ask_node (get_transaction_status hash);
    match status with
    | StConfirmed _ | StFailed _ => update_pending (delete hash);; bump_loop latest rest bumped
    | StNotFound | StPending =>
      r ← maybe_bump hash latest;
      bump_loop latest rest (match r with Some new_hash => bumped ++ [new_hash] | None => bumped end)
    end
  end.
(** [order] is the order in which the map yields its keys. *)
Definition check_and_bump (order : gmap Hash PendingTransaction -> list Hash) : SM (list Hash) :=
  latest ← ask_node get_latest_ledger;
  all ← get_pending;
  bump_loop latest (order all) [].

(** ** Histories *)

Inductive SubOp :=
  | OpSubmit (xdr source : text) (sequence fee : Z)
  | OpCheck (order : gmap Hash PendingTransaction -> list Hash).
Definition run_op (s : Submitter) (op : SubOp) : Submitter :=
  match op with
  | OpSubmit xdr source sequence fee => (submit xdr source sequence fee s).2
  | OpCheck order => (check_and_bump order s).2
  end.
Definition run_ops (ops : list SubOp) (s : Submitter) : Submitter := foldl run_op s ops.
Definition submissions (ops : list SubOp) : nat :=
  length (List.filter (fun op => if op is OpSubmit _ _ _ _ then true else false) ops).

(** ** Bounds *)

(** The entry stems from a submission and paid more with every accepted bump. *)
Record entry_ok (ops : list SubOp) (h : Hash) (p : PendingTransaction) : Prop := {
  eo_hash : original_hash p = h;
  eo_paid : exists xdr fee, OpSubmit xdr (fee_source p) (sequence_number p) fee ∈ ops
              /\ fee + attempts p <= current_fee_strops p;
  eo_cap : current_fee_strops p <= max_fee_strops strategy;
  eo_attempts : 0 <= attempts p <= max_attempts strategy
}.
Definition sends : nat := S (Z.to_nat (max_retries retry_policy)).
(** With [slack] transmissions not yet made. *)
Record bounded (ops : list SubOp) (n slack : nat) (s : Submitter) : Prop := {
  bd_entry : forall h p, pending s !! h = Some p -> entry_ok ops h p;
  bd_signed : Forall (fun r => sr_fee r <= max_fee_strops strategy) (signed s);
  bd_sent : (sent s + slack <= sends * (n + length (signed s)))%nat
}.

(** After [m], [Q] holds of the value and the state, or [E] of the state. *)
Definition leads {A} (E : Submitter -> Prop) (Q : A -> Submitter -> Prop) (m : SM A) (s : Submitter) : Prop :=
  match m s with
  | (Returns a, s') => Q a s'
  | (_, s') => E s'
  end.
Lemma leads_bind {A B} E (Q : B -> Submitter -> Prop) (f : A -> SM B) (m : SM A) s :
  leads E (fun a => leads E Q (f a)) m s -> leads E Q (m ≫= f) s.
Proof. unfold leads, mbind, sm_bind; destruct (m s) as [[a|err|] s']; done. Qed.
Lemma leads_final {A} E (m : SM A) s : leads E (fun _ => E) m s -> E (m s).2.
Proof. unfold leads; by destruct (m s) as [[] ?]. Qed.

Lemma bounded_less ops n k s : bounded ops n k s -> bounded ops n 0 s.
Proof. intros [? ? ?]; split; [done..|lia]. Qed.
Lemma leads_ask {A} ops n k (Q : A -> Submitter -> Prop) (f : W -> (SubmitError + A) * W) s :
  bounded ops n k s ->
  (forall a s', bounded ops n k s' -> pending s' = pending s -> (exists w w', f w = (inr a, w')) -> Q a s') ->
  leads (bounded ops n 0) Q (ask_node f) s.
Proof.
  intros [H1 H2 H3] HQ; unfold leads, ask_node; destruct (f (world s)) as [[err|a] w] eqn:E.
  { apply (bounded_less _ _ k); by split. }
  apply HQ; [by split|done|by do 2 eexists].
Qed.
Lemma submit_attempts_frame left xdr attempt s :
  let s' := (submit_attempts left xdr attempt s).2 in
  pending s' = pending s /\ signed s' = signed s /\ (sent s' <= sent s + S left)%nat.
Proof.
  revert attempt s; induction left as [|left IH]; intros attempt s; cbn [submit_attempts];
    destruct (submit_transaction xdr (world s)) as [[[]|resp] w]; try (simpl; split_and!; [done..|lia]);
    destruct (is_retryable_status status); try (simpl; split_and!; [done..|lia]).
  destruct (delay_for powi retry_policy attempt); [|simpl; split_and!; [done..|lia]].
  pose proof (IH (attempt + 1) (mkSubmitter (pending s) w (signed s) (S (sent s)))) as (H1 & H2 & H3).
  simpl in H3; split_and!; [exact H1|exact H2|lia].
Qed.
Lemma leads_send ops n (Q : SubmitResponse -> Submitter -> Prop) xdr s :
  bounded ops n sends s -> (forall r s', bounded ops n 0 s' -> pending s' = pending s -> Q r s') ->
  leads (bounded ops n 0) Q (submit_with_retry xdr) s.
Proof.
  intros [H1 H2 H3] HQ; unfold leads, submit_with_retry.
  pose proof (submit_attempts_frame (Z.to_nat (max_retries retry_policy)) xdr 0 s) as (E1 & E2 & E3).
  assert (bounded ops n 0 (submit_attempts (Z.to_nat (max_retries retry_policy)) xdr 0 s).2) as Hb.
  { split; rewrite ?E1, ?E2; [done..|]; unfold sends in *; lia. }
  destruct (submit_attempts _ xdr 0 s) as [[r| |] s']; [by apply HQ|done|done].
Qed.
Lemma leads_sequence ops n k (Q : unit -> Submitter -> Prop) source sequence s :
  bounded ops n k s -> (forall s', bounded ops n k s' -> pending s' = pending s -> Q tt s') ->
  leads (bounded ops n 0) Q (require_next_sequence source sequence) s.
Proof.
  intros Hb HQ; apply leads_bind, (leads_ask _ _ k); [done|]; intros seq s' Hb' Hp _.
  apply leads_bind; unfold leads, lift, checked_succ; destruct (seq =? i64_max); [by eapply bounded_less|].
  destruct (sequence =? seq + 1); [by apply HQ|by eapply bounded_less].
Qed.

Lemma leads_sign ops n (Q : FeeBumpTransactionEnvelope -> Submitter -> Prop) inner source fee seq s :
  bounded ops n 0 s -> fee <= max_fee_strops strategy ->
  (forall a s', bounded ops n sends s' -> pending s' = pending s -> Q a s') ->
  leads (bounded ops n 0) Q (sign inner source fee seq) s.
Proof.
  intros [H1 H2 H3] Hfee HQ; unfold leads, sign.
  apply (leads_ask _ _ sends); [|by intros ??? Hp _; apply HQ].
  split; simpl; [done|by apply Forall_app; split; [|constructor]|].
  rewrite length_app; simpl length; unfold sends in *; lia.
Qed.

Lemma next_fee_bounds fee next :
  next_fee strategy fee = Returns next -> fee + 1 <= next <= max_fee_strops strategy.
Proof.
  unfold next_fee, checked_succ; destruct (fee =? i64_max); [done|].
  destruct (_ <? _) eqn:E; [done|]; intros [= <-]; bool_facts; lia.
Qed.

Context (Hthreshold : 0 < pending_ledger_threshold strategy) (Hattempts : 0 < max_attempts strategy).

Lemma submit_bounded ops n xdr source sequence fee s :
  OpSubmit xdr source sequence fee ∈ ops -> bounded ops n sends s ->
  bounded ops n 0 (submit xdr source sequence fee s).2.
Proof.
  intros Hop Hb; apply leads_final; unfold submit; destruct (Z.ltb_spec (max_fee_strops strategy) fee).
  { by apply (bounded_less _ _ sends). }
  apply leads_bind, (leads_sequence _ _ sends); [done|]; intros s1 Hb1 _.
  apply leads_bind, (leads_ask _ _ sends); [done|]; intros ledger s2 Hb2 _ _.
  apply leads_bind, leads_send; [done|]; intros [hash|hash l|c m] s3 [H1 H2 H3] _; [|by split..].
  split; [|done..]; simpl; intros h p; rewrite lookup_insert_Some.
  intros [[-> <-]|[_ Hp]]; [|by apply H1]; split; simpl; try done; [|lia..].
  exists xdr, fee; split; [done|lia].
Qed.

Lemma bump_entry ops h p hash fee latest :
  entry_ok ops h p -> attempts p < max_attempts strategy -> next_fee strategy (current_fee_strops p) = Returns fee ->
  entry_ok ops h (mkPending (original_hash p) hash fee latest (attempts p + 1) (sequence_number p) (fee_source p)).
Proof.
  intros [Hh (xdr & fee0 & Hop & Hf) Hc Ha] Hlt Hn%next_fee_bounds; split; simpl; [done| |lia..].
  exists xdr, fee0; split; [done|lia].
Qed.
Lemma maybe_bump_bounded ops n hash latest s :
  bounded ops n 0 s -> leads (bounded ops n 0) (fun _ => bounded ops n 0) (maybe_bump hash latest) s.
Proof.
  intros Hb; apply leads_bind; unfold leads at 1, get_pending.
  destruct (pending s !! hash) as [p|] eqn:Hp; [|done].
  destruct (Z.ltb_spec (sat_sub latest (submitted_at_ledger p)) (pending_ledger_threshold strategy)); [done|].
  destruct (Z.leb_spec (max_attempts strategy) (attempts p)); [done|].
  apply leads_bind, (leads_sequence _ _ 0); [done|]; intros s1 Hb1 Hp1.
  apply leads_bind; unfold leads at 1, lift; destruct (next_fee _ _) as [fee| |] eqn:Hfee; [|done..].
  apply next_fee_bounds in Hfee as Hf; apply leads_bind, leads_sign; [done|lia|]; intros env s2 Hb2 Hp2.
  apply leads_bind, leads_send; [done|]; intros [new|new l|c m] s3 [K1 K2 K3] Hp3; [| |by split].
  - split; [|done..]; simpl; intros h q; destruct (decide (h = hash)) as [->|Hne].
    + rewrite lookup_alter_eq, Hp3, Hp2, Hp1, Hp; intros [= <-].
      eapply bump_entry; [|done..]; by apply Hb.
    + rewrite lookup_alter_ne by done; apply K1.
  - split; [|done..]; simpl; intros h q [_ Hq]%lookup_delete_Some; by apply K1.
Qed.
Lemma bump_loop_bounded ops n latest hashes bumped s :
  bounded ops n 0 s -> leads (bounded ops n 0) (fun _ => bounded ops n 0) (bump_loop latest hashes bumped) s.
Proof.
  revert bumped s; induction hashes as [|hash hashes IH]; intros bumped s Hb; simpl; [done|].
  apply leads_bind, (leads_ask _ _ 0); [done|]; intros status s1 Hb1 _ _.
  assert (leads (bounded ops n 0) (fun _ => bounded ops n 0)
    (r ← maybe_bump hash latest;
     bump_loop latest hashes (match r with Some new_hash => bumped ++ [new_hash] | None => bumped end)) s1) as Hbump.
  { apply leads_bind; pose proof (maybe_bump_bounded ops n hash latest s1 Hb1) as Hm; unfold leads in Hm |- * at 1.
    destruct (maybe_bump hash latest s1) as [[r| |] s2]; [by apply IH|done|done]. }
  assert (leads (bounded ops n 0) (fun _ => bounded ops n 0)
    (update_pending (delete hash);; bump_loop latest hashes bumped) s1) as Hdel.
  { apply leads_bind, IH; destruct Hb1 as [H1 H2 H3]; split; [|done..]; simpl.
    intros h q [_ Hq]%lookup_delete_Some; by apply H1. }
  by destruct status.
Qed.
Lemma check_bounded ops n order s : bounded ops n 0 s -> bounded ops n 0 (check_and_bump order s).2.
Proof.
  intros Hb; apply leads_final, leads_bind, (leads_ask _ _ 0); [done|]; intros latest s1 Hb1 _ _.
  apply leads_bind; by apply bump_loop_bounded.
Qed.

Lemma bounded_more ops ops' n k s : ops ⊆ ops' -> bounded ops n k s -> bounded ops' n k s.
Proof.
  intros Hsub [H1 H2 H3]; split; [|done..]; intros h p Hp; destruct (H1 h p Hp) as [? (x & f & ? & ?) ? ?].
  split; try done; exists x, f; auto.
Qed.
Lemma run_ops_bounded ops w :
  bounded ops (submissions ops) 0 (run_ops ops (no_pending w)).
Proof.
  induction ops as [|op ops IH] using rev_ind; [by split; [|constructor|simpl; lia]|].
  unfold run_ops; rewrite foldl_snoc; apply (bounded_more _ (ops ++ [op])) in IH; [|set_solver].
  unfold submissions; rewrite List.filter_app, length_app; destruct op as [xdr source seq fee|order]; simpl.
  - apply submit_bounded; [set_solver|]; destruct IH as [H1 H2 H3]; split; [done..|].
    unfold submissions, run_ops in H3; lia.
  - rewrite Nat.add_0_r; by apply check_bounded.
Qed.

(** ** Pacing *)

(** [p'] is [p] after one accepted bump, at least the threshold after [p] was
    submitted or bumped. *)
Record bump_of (p p' : PendingTransaction) : Prop := {
  bo_hash : original_hash p' = original_hash p;
  bo_sequence : sequence_number p' = sequence_number p;
  bo_source : fee_source p' = fee_source p;
  bo_attempts : attempts p' = attempts p + 1;
  bo_fee : next_fee strategy (current_fee_strops p) = Returns (current_fee_strops p');
  bo_paced : submitted_at_ledger p + pending_ledger_threshold strategy <= submitted_at_ledger p'
}.
(** Every entry of [all'] is one of [all], bumped at most once, and then at the
    ledger [latest]. *)
Definition evolved (latest : Z) (all all' : gmap Hash PendingTransaction) : Prop :=
  forall h p', all' !! h = Some p' -> exists p, all !! h = Some p
    /\ (p' = p \/ (bump_of p p' /\ submitted_at_ledger p' = latest)).

(** Operations on the node and the signer alone. *)
Definition keeps {A} (m : SM A) : Prop := forall s, pending (m s).2 = pending s.
Lemma keeps_bind {A B} (m : SM A) (f : A -> SM B) : keeps m -> (forall a, keeps (f a)) -> keeps (m ≫= f).
Proof.
  intros Hm Hf s; specialize (Hm s); unfold mbind, sm_bind; destruct (m s) as [[a| |] s']; simpl in *; [|done..].
  by rewrite Hf.
Qed.
Lemma keeps_ask {A} (f : W -> (SubmitError + A) * W) : keeps (ask_node f).
Proof. intros s; unfold ask_node; by destruct (f (world s)). Qed.
Lemma keeps_lift {A} (r : outcome A) : keeps (lift r).
Proof. done. Qed.
Lemma keeps_sequence source sequence : keeps (require_next_sequence source sequence).
Proof.
  apply keeps_bind; [apply keeps_ask|intros seq]; apply keeps_bind; [done|intros expected].
  by destruct (sequence =? expected).
Qed.
Lemma keeps_sign inner source fee seq : keeps (sign inner source fee seq).
Proof. intros s; unfold sign; by rewrite keeps_ask. Qed.
Lemma keeps_send xdr : keeps (submit_with_retry xdr).
Proof. intros s; apply submit_attempts_frame. Qed.

Lemma leads_keeps {A B : Type} (P : gmap Hash PendingTransaction -> Prop) (Q : B -> Submitter -> Prop) (f : A -> SM B)
    (m : SM A) s :
  keeps m -> P (pending s) ->
  (forall a s', m s = (Returns a, s') -> pending s' = pending s -> leads (P ∘ pending) Q (f a) s') ->
  leads (P ∘ pending) Q (m ≫= f) s.
Proof.
  intros Hk HP Hf; apply leads_bind; specialize (Hk s); unfold leads at 1.
  destruct (m s) as [[a| |] s'] eqn:E; simpl in Hk; [by apply Hf|..]; simpl; by rewrite Hk.
Qed.

Lemma maybe_bump_evolved latest all hash s :
  evolved latest all (pending s) ->
  leads (evolved latest all ∘ pending) (fun _ => evolved latest all ∘ pending) (maybe_bump hash latest) s.
Proof.
  intros He; apply leads_keeps; [done|done|]; intros ps s0 Hps Hp0; unfold get_pending in Hps; simplify_eq.
  destruct (pending s0 !! hash) as [p|] eqn:Hp; [|done]; cbv zeta.
  destruct (Z.ltb_spec (sat_sub latest (submitted_at_ledger p)) (pending_ledger_threshold strategy)) as [|Hwait];
    [done|].
  destruct (max_attempts strategy <=? attempts p); [done|].
  apply leads_keeps; [apply keeps_sequence|done|]; intros _ s1 _ Hp1.
  apply leads_keeps; [done|by rewrite Hp1|]; intros fee s1' [= Hfee <-] _.
  apply leads_keeps; [apply keeps_sign|by rewrite Hp1|]; intros env s2 _ Hp2.
  apply leads_keeps; [apply keeps_send|by rewrite Hp2, Hp1|]; intros resp s3 _ Hp3.
  assert (Hp' : pending s3 = pending s0) by congruence; unfold sat_sub in Hwait.
  destruct resp as [new|new l|c m]; unfold leads; simpl; rewrite Hp'; [| |done].
  - intros h p'; destruct (decide (h = hash)) as [->|Hne]; [|rewrite lookup_alter_ne by done; apply He].
    rewrite lookup_alter_eq, Hp; intros [= <-]; destruct (He hash p Hp) as (q & Hq & [->|[_ Hl]]); [|lia].
    exists q; split; [done|right; split; [|done]]; split; simpl; try done; lia.
  - intros h p' [_ Hq]%lookup_delete_Some; by apply He.
Qed.
Lemma bump_loop_evolved latest all hashes bumped s :
  evolved latest all (pending s) ->
  leads (evolved latest all ∘ pending) (fun _ => evolved latest all ∘ pending) (bump_loop latest hashes bumped) s.
Proof.
  revert bumped s; induction hashes as [|hash hashes IH]; intros bumped s He; simpl; [done|].
  apply leads_keeps; [apply keeps_ask|done|]; intros status s1 _ Hp1; rewrite <- Hp1 in He.
  assert (leads (evolved latest all ∘ pending) (fun _ => evolved latest all ∘ pending)
    (r ← maybe_bump hash latest;
     bump_loop latest hashes (match r with Some new_hash => bumped ++ [new_hash] | None => bumped end)) s1) as Hbump.
  { apply leads_bind; pose proof (maybe_bump_evolved latest all hash s1 He) as Hm; unfold leads in Hm |- * at 1.
    destruct (maybe_bump hash latest s1) as [[r| |] s2]; [by apply IH|done|done]. }
  assert (leads (evolved latest all ∘ pending) (fun _ => evolved latest all ∘ pending)
    (update_pending (delete hash);; bump_loop latest hashes bumped) s1) as Hdel.
  { apply leads_bind, IH; simpl; intros h q [_ Hq]%lookup_delete_Some; by apply He. }
  by destruct status.
Qed.

(** How one operation changes an entry. *)
Definition entry_step (op : SubOp) (all : gmap Hash PendingTransaction) (h : Hash) (p' : PendingTransaction) : Prop :=
  all !! h = Some p'
  \/ match op with
     | OpSubmit _ source sequence fee => exists ledger, p' = mkPending h h fee ledger 0 sequence source
     | OpCheck _ => exists p, all !! h = Some p /\ bump_of p p'
     end.
Lemma run_op_steps op s h p' : pending (run_op s op) !! h = Some p' -> entry_step op (pending s) h p'.
Proof.
  revert h p'; change (let P all := forall h p', all !! h = Some p' -> entry_step op (pending s) h p' in
    P (pending (run_op s op))); intros P.
  assert (HP : P (pending s)) by (intros h p' ?; by left).
  destruct op as [xdr source sequence fee|order]; simpl.
  - apply (leads_final (P ∘ pending)); unfold submit; destruct (max_fee_strops strategy <? fee); [done|].
    apply leads_keeps; [apply keeps_sequence|done|]; intros _ s1 _ Hp1.
    apply leads_keeps; [apply keeps_ask|by rewrite Hp1|]; intros ledger s2 _ Hp2.
    apply leads_keeps; [apply keeps_send|by rewrite Hp2, Hp1|]; intros resp s3 _ Hp3.
    assert (Hp : pending s3 = pending s) by congruence.
    destruct resp as [hash|hash l|c m]; unfold leads; simpl; rewrite Hp; [|done..].
    intros h p'; rewrite lookup_insert_Some; intros [[-> <-]|[_ ?]]; [right; by eexists|by left].
  - apply (leads_final (P ∘ pending)), leads_keeps; [apply keeps_ask|done|]; intros latest s1 _ Hp1.
    apply leads_keeps; [done|by rewrite Hp1|]; intros all s2 [= <- <-] _.
    pose proof (bump_loop_evolved latest (pending s) (order (pending s1)) [] s1) as Hl.
    assert (HE : forall all', evolved latest (pending s) all' -> P all').
    { intros all' He h p' Hp'; destruct (He h p' Hp') as (p & Hp & [->|[? _]]); [by left|right; eauto]. }
    unfold leads in Hl |- *; destruct (bump_loop _ _ _ s1) as [[] s3]; apply HE, Hl; rewrite Hp1;
      intros h p ?; exists p; auto.
Qed.
End operations.

(** C39: Over any history of submissions and checks on a new submitter,
    whatever the node and the signer answer: every pending transaction stems
    from one of the submissions, with its source and sequence number; the bumps
    of it that the node accepted are at most [max_attempts], each raised the
    fee to the next one of the strategy, and each came at least
    [pending_ledger_threshold] ledgers after the submission or the accepted
    bump before it.  No pending fee and no fee the signer is asked for exceeds
    the cap, and the node gets at most [max_retries + 1] transmissions for each
    submission and each envelope to be signed.  Bumps that are refused are not
    counted. *)
Theorem fee_bumps_are_bounded {W : Type} `{Network W} powi strategy policy ops (w : W) s0 :
  new strategy w = Returns s0 ->
  is_u32 (pending_ledger_threshold strategy) -> is_u32 (max_attempts strategy) ->
  let s := run_ops powi strategy policy ops s0 in
  (forall h p, pending s !! h = Some p -> entry_ok strategy ops h p)
  /\ (forall op h p, pending (run_op powi strategy policy s op) !! h = Some p ->
       entry_step strategy op (pending s) h p)
  /\ Forall (fun r => sr_fee r <= max_fee_strops strategy) (signed s)
  /\ (sent s <= (Z.to_nat (max_retries policy) + 1) * (submissions ops + length (signed s)))%nat.
Proof.
  intros Hn Ht Ha s; unfold new in Hn; destruct (validate strategy) as [[]| |] eqn:Hv; [|done..].
  injection Hn as Hn; subst s0.
  assert (0 < pending_ledger_threshold strategy /\ 0 < max_attempts strategy) as [H1 H2].
  { unfold validate in Hv; repeat case_match; try done; bool_facts; unfold is_u32 in *; lia. }
  destruct (run_ops_bounded powi strategy policy H1 H2 ops w) as [E1 E2 E3].
  split_and!; [exact E1| |exact E2|unfold sends in E3; fold s in E3; lia].
  intros op h p; by apply run_op_steps.
Qed.

(** ** A concrete network *)

(** The ledger advances by five with every query; submissions get the scripted
    responses. *)
Definition Script : Type := Z * list SubmitResponse.
#[export] Instance scripted : Network Script := {|
  submit_transaction _ w := match w with
    | (l, r :: rs) => (inr r, (l, rs))
    | (l, []) => (inl (Rpc 400 []), (l, []))
    end;
  get_transaction_status _ w := (inr StPending, w);
  get_latest_ledger w := if (0 <=? w.1) && (w.1 <=? u32_max) then (inr w.1, (w.1 + 5, w.2)) else (inl (Rpc 500 []), w);
  get_account_sequence _ w := (inr 42, w);
  sign_fee_bump inner source fee seq w := (inr (mkEnvelope inner fee source seq [fee] [fee]), w)
|}.
Definition tx_hash (n : Z) : Hash := replicate 32 n.
Definition toy_powi (x : f64) (n : Z) : f64 := Nat.iter (Z.to_nat n) (f64_mul x) f64_one.
Definition all_keys (m : gmap Hash PendingTransaction) : list Hash := (map_to_list m).*1.
Definition bump_history : list SubOp :=
  [OpSubmit [1] [7] 43 1000; OpCheck all_keys].
Definition script : Script :=
  (100, [RespPending (tx_hash 1); RespPending (tx_hash 2); RespPending (tx_hash 3)]).
(** The second accepted bump follows the first. *)
Lemma fee_bumps_are_bounded_witness :
  exists p p', pending (run_ops toy_powi default_strategy default_policy bump_history (no_pending script))
      !! tx_hash 1 = Some p
    /\ attempts p = 1 /\ bump_of default_strategy p p' /\ attempts p' = 2 /\ submitted_at_ledger p' = 110.
Proof.
  destruct (fee_bumps_are_bounded toy_powi default_strategy default_policy bump_history script
    (no_pending script)) as (_ & Hs & _).
  - vm_compute; reflexivity.
  - by vm_compute.
  - by vm_compute.
  - eexists _, _; split; [vm_compute; reflexivity|].
    destruct (Hs (OpCheck all_keys) (tx_hash 1) _ ltac:(vm_compute; reflexivity)) as [E|(p & E & Hb)].
    + vm_compute in E; discriminate E.
    + vm_compute in E; injection E as <-; split; [done|]; split; [exact Hb|done].
Defined.
