(* ===== verification/CliBulk.v ===== *)
(** * CLI: bulk files

    [src/packages/soroban-sas-cli/src/bulk.rs]: the CSV scanner and the rows of
    [attest bulk].  A string is the list of its Unicode scalar values; an error
    message is a constructor with the values it shows. *)

From S2P Require Import Prelude.
From Stdlib Require Import Sorting.Sorted.

Definition text : Type := list Z.

Definition MAX_BULK_ROWS : nat := 5000.
Definition QUOTE : Z := 34.
Definition COMMA : Z := 44.
Definition CR : Z := 13.
Definition LF : Z := 10.

Definition SCHEMA_UID : text := bytes_of_string "schema_uid".
Definition RECIPIENT : text := bytes_of_string "recipient".
Definition DATA : text := bytes_of_string "data".
Definition EXPIRATION : text := bytes_of_string "expiration".
Definition REVOCABLE : text := bytes_of_string "revocable".
Definition REQUIRED_COLUMNS : list text := [SCHEMA_UID; RECIPIENT].
Definition OPTIONAL_COLUMNS : list text := [DATA; EXPIRATION; REVOCABLE].

Inductive BulkError :=
  | UnexpectedQuote (line : Z) | UnterminatedQuote (line : Z)
  | EmptyFile | MissingColumn (line : Z) (name : text) | UnknownColumn (line : Z) (name : text)
  | FieldCount (line : Z) (expected found : nat) | TooManyRows
  | EmptySchemaUid (line : Z) | EmptyRecipient (line : Z)
  | BadExpiration (line : Z) (raw : text) | BadRevocable (line : Z) (raw : text)
  | NoRows.

Record BulkRow := mkBulkRow {
  line : Z; schema_uid : text; recipient : text; data : text; expiration : Z; revocable : bool
}.

(** ** Strings *)

(** [char::is_whitespace]: the property White_Space of Unicode. *)
Definition is_whitespace (c : Z) : bool :=
  ((9 <=? c) && (c <=? 13)) || (c =? 32) || (c =? 133) || (c =? 160) || (c =? 5760)
  || ((8192 <=? c) && (c <=? 8202)) || (c =? 8232) || (c =? 8233) || (c =? 8239) || (c =? 8287)
  || (c =? 12288).
Fixpoint trim_start (s : text) : text :=
  match s with
  | [] => []
  | c :: s' => if is_whitespace c then trim_start s' else s
  end.
Definition trim (s : text) : text := reverse (trim_start (reverse (trim_start s))).
Definition to_ascii_lowercase (s : text) : text :=
  (fun c => if (65 <=? c) && (c <=? 90) then c + 32 else c) <$> s.
Definition blank (s : text) : bool := bool_decide (trim s = []).

(** [str::parse::<u64>]: decimal digits after an optional sign, in range. *)
Fixpoint parse_digits (acc : Z) (s : text) : option Z :=
  match s with
  | [] => Some acc
  | c :: s' =>
    if (48 <=? c) && (c <=? 57) then
      let v := acc * 10 + (c - 48) in
      if v <=? u64_max then parse_digits v s' else None
    else None
  end.
Definition parse_u64 (s : text) : option Z :=
  match s with
  | [] => None
  | c :: s' => if (c =? 43) && bool_decide (s' <> []) then parse_digits 0 s' else parse_digits 0 s
  end.

Definition parse_bool (value : text) : option bool :=
  let v := to_ascii_lowercase value in
  if bool_decide (v ∈ bytes_of_string <$> ["true"; "t"; "yes"; "y"; "1"]%string) then Some true
  else if bool_decide (v ∈ bytes_of_string <$> ["false"; "f"; "no"; "n"; "0"]%string) then Some false
  else None.

(** ** Records *)

(** The variables of the loop of [split_records]. *)
Record Scan := mkScan {
  records : list (Z * list text); record : list text; field : text; in_quotes : bool;
  cur_line : Z; record_line : Z
}.
Definition scan_start : Scan := mkScan [] [] [] false 1 1.

Definition push (c : Z) (s : Scan) : Scan :=
  mkScan (records s) (record s) (field s ++ [c]) (in_quotes s)
    (if in_quotes s && (c =? LF) then cur_line s + 1 else cur_line s) (record_line s).
Definition quoting (b : bool) (s : Scan) : Scan :=
  mkScan (records s) (record s) (field s) b (cur_line s) (record_line s).
Definition end_field (s : Scan) : Scan :=
  mkScan (records s) (record s ++ [field s]) [] (in_quotes s) (cur_line s) (record_line s).
Definition end_record (s : Scan) : Scan :=
  mkScan (records s ++ [(record_line s, record s ++ [field s])]) [] [] (in_quotes s)
    (cur_line s + 1) (cur_line s + 1).

Fixpoint scan (chars : text) (s : Scan) : BulkError + Scan :=
  match chars with
  | [] => inr s
  | c :: rest =>
    if in_quotes s then
      if c =? QUOTE then
        match rest with
        | d :: rest' => if d =? QUOTE then scan rest' (push QUOTE s) else scan rest (quoting false s)
        | [] => scan rest (quoting false s)
        end
      else scan rest (push c s)
    else if c =? QUOTE then
      if bool_decide (field s <> []) then inl (UnexpectedQuote (record_line s))
      else scan rest (quoting true s)
    else if c =? COMMA then scan rest (end_field s)
    else if c =? CR then
      match rest with
      | d :: rest' => if d =? LF then scan rest' (end_record s) else scan rest (end_record s)
      | [] => scan rest (end_record s)
      end
    else if c =? LF then scan rest (end_record s)
    else scan rest (push c s)
  end.

Definition split_records (input : text) : BulkError + list (Z * list text) :=
  match scan input scan_start with
  | inl err => inl err
  | inr s =>
    if in_quotes s then inl (UnterminatedQuote (record_line s))
    else if bool_decide (field s <> []) || bool_decide (record s <> []) then
      inr (records s ++ [(record_line s, record s ++ [field s])])
    else inr (records s)
  end.

(** ** Rows *)

Definition index_of (header : list text) (name : text) : option nat := fst <$> list_find (name =.) header.
(** [fields[i].trim()] for the position of a column. *)
Definition cell_at (fields : list text) (i : nat) : text := trim (nth i fields []).
Definition column (header fields : list text) (name : text) : option text :=
  cell_at fields <$> index_of header name.

Definition parse_header (header_line : Z) (raw : list text) : BulkError + list text :=
  let header := (fun name => to_ascii_lowercase (trim name)) <$> raw in
  match list_find (fun required => index_of header required = None) REQUIRED_COLUMNS with
  | Some (_, required) => inl (MissingColumn header_line required)
  | None =>
    match list_find (fun name => name ∉ REQUIRED_COLUMNS ++ OPTIONAL_COLUMNS) header with
    | Some (_, name) => inl (UnknownColumn header_line name)
    | None => inr header
    end
  end.

Definition parse_expiration (l : Z) (raw : option text) : BulkError + Z :=
  match raw with
  | None | Some [] => inr 0
  | Some raw => match parse_u64 raw with Some z => inr z | None => inl (BadExpiration l raw) end
  end.
Definition parse_revocable (l : Z) (raw : option text) : BulkError + bool :=
  match raw with
  | None | Some [] => inr false
  | Some raw => match parse_bool raw with Some b => inr b | None => inl (BadRevocable l raw) end
  end.

(** One turn of the loop over the rows, after the first [count] of them. *)
Definition parse_row (header : list text) (count : nat) (l : Z) (fields : list text)
    : BulkError + BulkRow :=
  let width := length header in
  let fields :=
    if bool_decide (width < length fields)%nat && forallb blank (drop width fields)
    then take width fields else fields in
  if negb (bool_decide (length fields = width)) then inl (FieldCount l width (length fields))
  else if bool_decide (count = MAX_BULK_ROWS) then inl TooManyRows
  else
    let schema_uid := default [] (column header fields SCHEMA_UID) in
    if bool_decide (schema_uid = []) then inl (EmptySchemaUid l)
    else
      let recipient := default [] (column header fields RECIPIENT) in
      if bool_decide (recipient = []) then inl (EmptyRecipient l)
      else
        let data := default [] (column header fields DATA) in
        match parse_expiration l (column header fields EXPIRATION) with
        | inl err => inl err
        | inr expiration =>
          match parse_revocable l (column header fields REVOCABLE) with
          | inl err => inl err
          | inr revocable => inr (mkBulkRow l schema_uid recipient data expiration revocable)
          end
        end.

Fixpoint parse_rows (header : list text) (records : list (Z * list text)) (rows : list BulkRow)
    : BulkError + list BulkRow :=
  match records with
  | [] => inr rows
  | (l, fields) :: rest =>
    match parse_row header (length rows) l fields with
    | inl err => inl err
    | inr row => parse_rows header rest (rows ++ [row])
    end
  end.

Definition parse_bulk_csv (input : text) : BulkError + list BulkRow :=
  match split_records input with
  | inl err => inl err
  | inr records =>
    match filter (fun r => forallb blank r.2 = false) records with
    | [] => inl EmptyFile
    | (header_line, raw) :: rest =>
      match parse_header header_line raw with
      | inl err => inl err
      | inr header =>
        match parse_rows header rest [] with
        | inl err => inl err
        | inr [] => inl NoRows
        | inr rows => inr rows
        end
      end
    end
  end.

(** ** Files

    The texts that stand for a list of records: each field bare or quoted, each
    record but possibly the last ended by LF or CRLF. *)

Definition plain (c : Z) : Prop := c <> QUOTE /\ c <> COMMA /\ c <> CR /\ c <> LF.
#[export] Instance plain_dec c : Decision (plain c).
Proof. unfold plain; apply _. Defined.
Fixpoint double (f : text) : text :=
  match f with
  | [] => []
  | c :: f' => if c =? QUOTE then QUOTE :: QUOTE :: double f' else c :: double f'
  end.
Inductive field_text : text -> text -> Prop :=
  | BareField f : Forall plain f -> field_text f f
  | QuotedField f : field_text f (QUOTE :: double f ++ [QUOTE]).
Inductive record_text : list text -> text -> Prop :=
  | LastField f t : field_text f t -> record_text [f] t
  | MoreFields f t r u : field_text f t -> record_text r u -> record_text (f :: r) (t ++ COMMA :: u).
Inductive ending : text -> Prop :=
  | EndLF : ending [LF]
  | EndCRLF : ending [CR; LF].
Inductive file_text : list (list text) -> text -> Prop :=
  | NoRecord : file_text [] []
  | OpenRecord r t : record_text r t -> r <> [[]] -> file_text [r] t
  | NextRecord r t n rs u :
      record_text r t -> ending n -> file_text rs u -> file_text (r :: rs) (t ++ n ++ u).

(** The source line of each record: a quoted field may span lines. *)
Definition newlines (f : text) : Z := len (List.filter (Z.eqb LF) f).
Definition lines_in (r : list text) : Z := foldr (fun f n => newlines f + n) 0 r.
Fixpoint numbered (l : Z) (rs : list (list text)) : list (Z * list text) :=
  match rs with
  | [] => []
  | r :: rs' => (l, r) :: numbered (l + lines_in r + 1) rs'
  end.

(** ** The scanner reads them *)

Lemma newlines_cons c f : newlines (c :: f) = (if c =? LF then 1 else 0) + newlines f.
Proof.
  unfold newlines, len; cbn [List.filter]; rewrite (Z.eqb_sym c).
  destruct (LF =? c); cbn [length]; lia.
Qed.
Lemma newlines_plain f : Forall plain f -> newlines f = 0.
Proof.
  induction 1 as [|c f (? & ? & ? & ?) _ IH]; [done|].
  by rewrite newlines_cons, IH, (proj2 (Z.eqb_neq c LF)).
Qed.

Lemma scan_bare f rest rs r g l rl :
  Forall plain f -> scan (f ++ rest) (mkScan rs r g false l rl) = scan rest (mkScan rs r (g ++ f) false l rl).
Proof.
  intros Hf; revert g; induction Hf as [|c f (H1 & H2 & H3 & H4) _ IH]; intros g; simpl.
  - by rewrite app_nil_r.
  - apply Z.eqb_neq in H1 as ->, H2 as ->, H3 as ->, H4 as ->; unfold push; simpl.
    by rewrite IH, <- app_assoc.
Qed.

Definition no_quote (rest : text) : Prop := head rest <> Some QUOTE.
Lemma scan_close f rest rs r g l rl :
  no_quote rest ->
  scan (double f ++ QUOTE :: rest) (mkScan rs r g true l rl)
  = scan rest (mkScan rs r (g ++ f) false (l + newlines f) rl).
Proof.
  intros Hr; revert g l; induction f as [|c f IH]; intros g l; simpl.
  - rewrite app_nil_r, Z.add_0_r; destruct rest as [|d rest]; [done|].
    by rewrite (proj2 (Z.eqb_neq d QUOTE)) by (intros ->; by apply Hr).
  - rewrite newlines_cons; destruct (Z.eqb_spec c QUOTE) as [->|Hne]; simpl.
    + unfold push; simpl; by rewrite IH, <- app_assoc.
    + apply Z.eqb_neq in Hne; rewrite Hne; unfold push; simpl; rewrite IH, <- app_assoc.
      by destruct (c =? LF); rewrite ?Z.add_0_l, ?Z.add_assoc.
Qed.

Lemma scan_field f t rest rs r l rl :
  field_text f t -> no_quote rest ->
  scan (t ++ rest) (mkScan rs r [] false l rl) = scan rest (mkScan rs r f false (l + newlines f) rl).
Proof.
  intros [g Hg|g] Hr.
  - by rewrite scan_bare, newlines_plain, Z.add_0_r.
  - simpl; unfold quoting; simpl; rewrite <- app_assoc; simpl; by rewrite scan_close.
Qed.
Lemma scan_record r t rest rs r0 l rl :
  record_text r t -> no_quote rest ->
  exists r1 f, r = r1 ++ [f] /\
  scan (t ++ rest) (mkScan rs r0 [] false l rl) = scan rest (mkScan rs (r0 ++ r1) f false (l + lines_in r) rl).
Proof.
  intros Hr Hq; revert r0 l; induction Hr as [f t Hf|f t r u Hf _ IH]; intros r0 l; simpl.
  - exists [], f; by rewrite (scan_field f), app_nil_r, Z.add_0_r.
  - rewrite <- app_assoc, (scan_field f) by done; simpl; unfold end_field; simpl.
    destruct (IH (r0 ++ [f]) (l + newlines f)) as (r1 & g & -> & ->).
    exists (f :: r1), g; by rewrite <- app_assoc, Z.add_assoc.
Qed.

Lemma scan_file recs t rs l :
  file_text recs t ->
  exists s, scan t (mkScan rs [] [] false l l) = inr s /\ in_quotes s = false
    /\ (if bool_decide (field s <> []) || bool_decide (record s <> [])
        then records s ++ [(record_line s, record s ++ [field s])] else records s)
       = rs ++ numbered l recs.
Proof.
  intros Hf; revert rs l; induction Hf as [|r t Hr Hne|r t n recs u Hr Hn Hf IH]; intros rs l.
  - eexists; split; [done|]; split; [done|]; by rewrite app_nil_r.
  - destruct (scan_record r t [] rs [] l l Hr) as (r1 & f & -> & Hs); [done|].
    rewrite app_nil_r in Hs; eexists; split; [exact Hs|]; split; [done|]; simpl.
    rewrite orb_true_intro; [done|]; rewrite !bool_decide_eq_true.
    destruct f; [right; by intros ->|by left].
  - destruct (scan_record r t (n ++ u) rs [] l l Hr) as (r1 & f & -> & ->); [by destruct Hn|].
    assert (scan (n ++ u) (mkScan rs ([] ++ r1) f false (l + lines_in (r1 ++ [f])) l)
      = scan u (mkScan (rs ++ [(l, r1 ++ [f])]) [] [] false (l + lines_in (r1 ++ [f]) + 1)
                  (l + lines_in (r1 ++ [f]) + 1))) as -> by by destruct Hn.
    simpl; destruct (IH (rs ++ [(l, r1 ++ [f])]) (l + lines_in (r1 ++ [f]) + 1)) as (s & Hs & Hq & Hr').
    exists s; by rewrite Hr', <- app_assoc.
Qed.

Lemma split_records_file recs t : file_text recs t -> split_records t = inr (numbered 1 recs).
Proof.
  intros (s & Hs & Hq & Hr)%(scan_file _ _ [] 1); unfold split_records, scan_start.
  rewrite Hs, Hq; by destruct (_ || _); rewrite Hr.
Qed.

(** ** The rows of a file *)

Fixpoint decimal_digits (fuel : nat) (n : Z) : text :=
  match fuel with
  | O => []
  | S fuel' => (if n <? 10 then [] else decimal_digits fuel' (n / 10)) ++ [48 + n mod 10]
  end.
(** A [u64] has at most twenty digits. *)
Definition decimal (n : Z) : text := decimal_digits 20 n.

Lemma decimal_step fuel n :
  decimal_digits (S fuel) n = (if n <? 10 then [] else decimal_digits fuel (n / 10)) ++ [48 + n mod 10].
Proof. done. Qed.
Lemma parse_digits_app acc a b : parse_digits acc (a ++ b) = parse_digits acc a ≫= fun v => parse_digits v b.
Proof. revert acc; induction a as [|c a IH]; intros acc; simpl; [done|]; by repeat case_match. Qed.
Lemma parse_decimal_digits fuel n :
  0 <= n < 10 ^ Z.of_nat (S fuel) -> n <= u64_max -> parse_digits 0 (decimal_digits (S fuel) n) = Some n.
Proof.
  revert n; induction fuel as [|fuel IH]; intros n Hn Hmax;
    rewrite decimal_step, parse_digits_app; pose proof (Z.mod_pos_bound n 10 ltac:(lia)); pose proof (Z.div_mod n 10 ltac:(lia)).
  all: assert (forall v, v * 10 + n mod 10 = n -> parse_digits v [48 + n mod 10] = Some n) as Hlast.
  all: try (intros v Hv; simpl; replace ((48 <=? _) && (_ <=? 57)) with true by (symmetry;
    apply andb_true_iff; split; apply Z.leb_le; lia); replace (v * 10 + _) with n by lia;
    by rewrite (proj2 (Z.leb_le _ _) Hmax)).
  - change (10 ^ Z.of_nat 1) with 10 in Hn; rewrite (proj2 (Z.ltb_lt n 10)) by lia.
    apply Hlast; rewrite Z.mod_small; lia.
  - destruct (Z.ltb_spec n 10); [apply Hlast; rewrite Z.mod_small; lia|].
    rewrite Nat2Z.inj_succ, Z.pow_succ_r in Hn by lia.
    assert (0 <= n / 10 < 10 ^ Z.of_nat (S fuel)) by (split; [apply Z.div_pos|apply Z.div_lt_upper_bound]; lia).
    rewrite IH by lia; apply Hlast; lia.
Qed.
Lemma decimal_digits_head fuel n : 0 <= n -> exists c s, decimal_digits (S fuel) n = c :: s /\ 48 <= c.
Proof.
  revert n; induction fuel as [|fuel IH]; intros n Hn; rewrite decimal_step;
    pose proof (Z.mod_pos_bound n 10 ltac:(lia)).
  - destruct (n <? 10); simpl; do 2 eexists; (split; [done|lia]).
  - destruct (n <? 10); [do 2 eexists; split; [done|lia]|].
    destruct (IH (n / 10)) as (c & s & -> & Hc); [apply Z.div_pos; lia|]; by do 2 eexists.
Qed.
Lemma parse_decimal n : is_u64 n -> decimal n <> [] /\ parse_u64 (decimal n) = Some n.
Proof.
  intros [H0 H1]; unfold decimal; destruct (decimal_digits_head 19 n H0) as (c & s & E & Hc).
  pose proof (parse_decimal_digits 19 n) as Hp; rewrite E in *; split; [done|]; unfold parse_u64.
  rewrite (proj2 (Z.eqb_neq c 43)) by lia; simpl andb; apply Hp; [|done].
  split; [done|]; unfold u64_max in H1; change (10 ^ Z.of_nat 20) with 100000000000000000000; lia.
Qed.

(** What a row has under a column. *)
Definition cell (row : BulkRow) (name : text) : text :=
  if bool_decide (name = SCHEMA_UID) then schema_uid row
  else if bool_decide (name = RECIPIENT) then recipient row
  else if bool_decide (name = DATA) then data row
  else if bool_decide (name = EXPIRATION) then decimal (expiration row)
  else if revocable row then bytes_of_string "true" else bytes_of_string "false".
(** The fields [r] on line [l], with white space around them, are those of [row];
    what has no column has its default. *)
Record row_text (names : list text) (lr : Z * list text) (row : BulkRow) : Prop := {
  rt_line : line row = lr.1;
  rt_cells : trim <$> lr.2 = cell row <$> names;
  rt_schema : schema_uid row <> [];
  rt_recipient : recipient row <> [];
  rt_expiration : is_u64 (expiration row);
  rt_no_data : DATA ∉ names -> data row = [];
  rt_no_expiration : EXPIRATION ∉ names -> expiration row = 0;
  rt_no_revocable : REVOCABLE ∉ names -> revocable row = false
}.
Definition column_name (raw : text) : text := to_ascii_lowercase (trim raw).

Lemma index_of_elem header name : name ∈ header -> exists i, index_of header name = Some i /\ header !! i = Some name.
Proof.
  intros Hn; destruct (list_find_elem_of (name =.) header name Hn eq_refl) as [[i x] Hf].
  unfold index_of; rewrite Hf; apply list_find_Some in Hf as (Hi & <- & _); by exists i.
Qed.
Lemma index_of_absent header name : name ∉ header -> index_of header name = None.
Proof.
  intros Hn; unfold index_of; rewrite (proj2 (list_find_None _ _)); [done|].
  apply Forall_forall; by intros x Hx <-.
Qed.
Lemma column_cell names r row name :
  trim <$> r = cell row <$> names ->
  column names r name = if bool_decide (name ∈ names) then Some (cell row name) else None.
Proof.
  intros Hr; unfold column; case_bool_decide as Hn; [|by rewrite index_of_absent].
  destruct (index_of_elem _ _ Hn) as (i & -> & Hi); simpl; f_equal; unfold cell_at.
  assert ((trim <$> r) !! i = Some (cell row name)) as Hc by (by rewrite Hr, list_lookup_fmap, Hi).
  rewrite list_lookup_fmap in Hc; destruct (r !! i) as [x|] eqn:Hx; simplify_eq/=.
  by rewrite (nth_lookup_Some _ _ _ _ Hx).
Qed.

Lemma parse_expiration_decimal l n : is_u64 n -> parse_expiration l (Some (decimal n)) = inr n.
Proof.
  intros [Hn Hp]%parse_decimal; unfold parse_expiration; rewrite Hp; by destruct (decimal n).
Qed.
Lemma row_text_columns names lr row :
  REQUIRED_COLUMNS ⊆ names -> row_text names lr row ->
  default [] (column names lr.2 SCHEMA_UID) = schema_uid row
  /\ default [] (column names lr.2 RECIPIENT) = recipient row
  /\ default [] (column names lr.2 DATA) = data row
  /\ parse_expiration lr.1 (column names lr.2 EXPIRATION) = inr (expiration row)
  /\ parse_revocable lr.1 (column names lr.2 REVOCABLE) = inr (revocable row).
Proof.
  intros Hreq Hrt; rewrite !(column_cell _ _ _ _ (rt_cells _ _ _ Hrt)).
  rewrite (bool_decide_eq_true_2 (SCHEMA_UID ∈ names)) by (apply Hreq; left).
  rewrite (bool_decide_eq_true_2 (RECIPIENT ∈ names)) by (apply Hreq; right; left).
  split_and!; [done..| | |]; case_bool_decide as Hn.
  - done.
  - symmetry; by apply Hrt.
  - by apply parse_expiration_decimal, Hrt.
  - rewrite (rt_no_expiration _ _ _ Hrt); done.
  - unfold cell; by destruct (revocable row).
  - rewrite (rt_no_revocable _ _ _ Hrt); done.
Qed.
Lemma parse_row_text names count lr row :
  REQUIRED_COLUMNS ⊆ names -> (count < MAX_BULK_ROWS)%nat -> row_text names lr row ->
  parse_row names count lr.1 lr.2 = inr row.
Proof.
  intros Hreq Hc Hrt; assert (length lr.2 = length names) as Hlen.
  { pose proof (f_equal length (rt_cells _ _ _ Hrt)) as E; by rewrite !length_fmap in E. }
  destruct (row_text_columns _ _ _ Hreq Hrt) as (H1 & H2 & H3 & H4 & H5).
  unfold parse_row; rewrite (bool_decide_eq_false_2 (_ < _)%nat) by lia; simpl andb; cbv iota.
  rewrite (bool_decide_eq_true_2 _ Hlen), (bool_decide_eq_false_2 (count = _)) by lia; simpl negb.
  rewrite H1, H2, H3, H4, H5, !bool_decide_eq_false_2 by apply Hrt.
  rewrite <- (rt_line _ _ _ Hrt); by destruct row.
Qed.
Lemma parse_rows_text names lrs rows acc :
  REQUIRED_COLUMNS ⊆ names -> Forall2 (row_text names) lrs rows ->
  (length acc + length rows <= MAX_BULK_ROWS)%nat -> parse_rows names lrs acc = inr (acc ++ rows).
Proof.
  intros Hreq Hrs; revert acc; induction Hrs as [|[l r] row lrs rows Hr _ IH]; intros acc Hlen.
  - by rewrite app_nil_r.
  - cbn [length] in Hlen; cbn [parse_rows].
    assert (parse_row names (length acc) l r = inr row) as ->
      by (apply (parse_row_text names _ (l, r)); [done|lia|done]).
    rewrite IH, <- app_assoc; [done|]; rewrite length_app; simpl length; lia.
Qed.

Lemma parse_header_names l hs names :
  column_name <$> hs = names -> REQUIRED_COLUMNS ⊆ names -> names ⊆ REQUIRED_COLUMNS ++ OPTIONAL_COLUMNS ->
  parse_header l hs = inr names.
Proof.
  intros Hn Hreq Hkn; unfold parse_header; change (_ <$> hs) with (column_name <$> hs); rewrite Hn.
  rewrite (proj2 (list_find_None _ REQUIRED_COLUMNS)), (proj2 (list_find_None _ names)); [done|..].
  - apply Forall_forall; intros x Hx Hx'; by apply Hx', Hkn.
  - apply Forall_forall; intros x (i & -> & _)%Hreq%index_of_elem; done.
Qed.
Lemma blank_elem x r : x ∈ r -> trim x <> [] -> forallb blank r = false.
Proof.
  intros Hx Hne; apply not_true_iff_false; rewrite forallb_forall; intros Hall.
  apply Hne; apply list_elem_of_In, Hall, bool_decide_eq_true_1 in Hx; done.
Qed.
Lemma not_blank_kept (lrs : list (Z * list text)) :
  Forall (fun lr => forallb blank lr.2 = false) lrs -> filter (fun lr => forallb blank lr.2 = false) lrs = lrs.
Proof. induction 1 as [|lr lrs H _ IH]; [done|]; by rewrite filter_cons_True, IH. Qed.
Lemma row_text_not_blank names lr row :
  SCHEMA_UID ∈ names -> row_text names lr row -> forallb blank lr.2 = false.
Proof.
  intros Hn Hrt; assert (schema_uid row ∈ trim <$> lr.2) as (x & Hx & Hin)%list_elem_of_fmap.
  { rewrite (rt_cells _ _ _ Hrt); apply list_elem_of_fmap; by exists SCHEMA_UID. }
  apply (blank_elem x); [done|]; rewrite <- Hx; apply Hrt.
Qed.
Lemma header_not_blank hs : SCHEMA_UID ∈ column_name <$> hs -> forallb blank hs = false.
Proof.
  intros (x & Hx & Hin)%list_elem_of_fmap; apply (blank_elem x); [done|]; intros He.
  unfold column_name in Hx; by rewrite He in Hx.
Qed.

(** C40: Every CSV file that holds a header and up to 5000 rows is read back: for
    any order of the columns and any case of their names, any choice of bare
    and quoted fields with commas, quotes and line breaks in them, either line
    ending and white space around the values, [parse_bulk_csv] returns exactly
    the rows, with the source line of each and the defaults of the columns that
    are not there. *)
Theorem bulk_files_round_trip hs rs rows t :
  let names := column_name <$> hs in
  file_text (hs :: rs) t ->
  REQUIRED_COLUMNS ⊆ names -> names ⊆ REQUIRED_COLUMNS ++ OPTIONAL_COLUMNS ->
  Forall2 (row_text names) (numbered (2 + lines_in hs) rs) rows ->
  (0 < length rows <= MAX_BULK_ROWS)%nat ->
  parse_bulk_csv t = inr rows.
Proof.
  intros names Hf Hreq Hkn Hrs Hlen; unfold parse_bulk_csv; rewrite (split_records_file _ _ Hf).
  cbn [numbered]; replace (1 + lines_in hs + 1) with (2 + lines_in hs) by lia.
  rewrite filter_cons_True by (by apply header_not_blank, Hreq; left).
  rewrite (not_blank_kept (numbered _ _)).
  - rewrite (parse_header_names _ _ names), (parse_rows_text names _ rows []) by (done || simpl; lia).
    by destruct rows; [simpl in Hlen; lia|].
  - eapply Forall2_Forall_l; [exact Hrs|]; apply Forall_true; intros row lr Hrt.
    eapply row_text_not_blank; [|exact Hrt]; apply Hreq; left.
Qed.

(** ** Accepted rows *)

Lemma trim_start_idem s : trim_start (trim_start s) = trim_start s.
Proof. induction s as [|c s IH]; simpl; [done|]; destruct (is_whitespace c) eqn:E; [done|]; simpl; by rewrite E. Qed.
Lemma trim_start_suffix s : exists p, s = p ++ trim_start s.
Proof.
  induction s as [|c s [p Hp]]; simpl; [by exists []|]; destruct (is_whitespace c); [|by exists []].
  exists (c :: p); by rewrite Hp at 1.
Qed.
Lemma trim_start_fixed s : trim_start s = s <-> forall c, head s = Some c -> is_whitespace c = false.
Proof.
  destruct s as [|c s]; simpl; [done|]; destruct (is_whitespace c) eqn:E; split; intros H.
  - destruct (trim_start_suffix s) as [p Hp]; rewrite H in Hp; apply (f_equal length) in Hp.
    rewrite length_app in Hp; simpl in Hp; lia.
  - by rewrite (H c) in E.
  - by intros ? [= <-].
  - done.
Qed.
(** The end that is cut off leaves the head in place. *)
Lemma trim_idem s : trim (trim s) = trim s.
Proof.
  unfold trim; set (u := trim_start s).
  assert (trim_start (reverse (trim_start (reverse u))) = reverse (trim_start (reverse u))) as ->.
  { apply trim_start_fixed; intros c Hc; destruct (trim_start_suffix (reverse u)) as [p Hp].
    apply (f_equal reverse) in Hp; rewrite reverse_involutive, reverse_app in Hp.
    apply (proj1 (trim_start_fixed u)); [apply trim_start_idem|]; rewrite Hp.
    destruct (reverse (trim_start (reverse u))); done. }
  by rewrite reverse_involutive, trim_start_idem.
Qed.

Record row_ok (row : BulkRow) : Prop := {
  ro_schema : schema_uid row <> [] /\ trim (schema_uid row) = schema_uid row;
  ro_recipient : recipient row <> [] /\ trim (recipient row) = recipient row;
  ro_data : trim (data row) = data row;
  ro_expiration : is_u64 (expiration row)
}.

Lemma column_trimmed header fields name :
  trim (default [] (column header fields name)) = default [] (column header fields name).
Proof. unfold column, cell_at; destruct (index_of header name); simpl; [apply trim_idem|done]. Qed.
Lemma parse_digits_range acc s z : is_u64 acc -> parse_digits acc s = Some z -> is_u64 z.
Proof.
  revert acc; induction s as [|c s IH]; intros acc Hacc; cbn [parse_digits]; [by intros [= <-]|].
  destruct (_ && _) eqn:Hc; [|done]; destruct (_ <=? u64_max) eqn:Hv; [|done]; bool_facts.
  apply IH; unfold is_u64 in *; lia.
Qed.
Lemma parse_expiration_range l raw z : parse_expiration l raw = inr z -> is_u64 z.
Proof.
  assert (is_u64 0) as H0 by (unfold is_u64, u64_max; lia).
  destruct raw as [[|c s]|]; cbn [parse_expiration]; [by intros [= <-]| |by intros [= <-]].
  destruct (parse_u64 (c :: s)) as [v|] eqn:E; [|done]; intros [= <-].
  unfold parse_u64 in E; destruct (_ && _); by eapply parse_digits_range.
Qed.

Lemma parse_row_ok header count l fields row :
  parse_row header count l fields = inr row -> row_ok row /\ count <> MAX_BULK_ROWS /\ line row = l.
Proof.
  unfold parse_row; set (f := if _ && _ then _ else _); clearbody f.
  repeat (case_bool_decide; try done); destruct (parse_expiration _ _) eqn:He; [done|].
  destruct (parse_revocable _ _); [done|]; intros [= <-]; split; [|done].
  split; simpl; eauto using column_trimmed, parse_expiration_range.
Qed.
Lemma parse_rows_ok header lrs acc rows :
  parse_rows header lrs acc = inr rows -> (length acc <= MAX_BULK_ROWS)%nat -> Forall row_ok acc ->
  (length rows <= MAX_BULK_ROWS)%nat /\ Forall row_ok rows
  /\ exists new, rows = acc ++ new /\ line <$> new = lrs.*1.
Proof.
  revert acc; induction lrs as [|[l fields] lrs IH]; intros acc; cbn [parse_rows].
  - intros [= <-] ??; split_and!; [done..|]; exists []; by rewrite app_nil_r.
  - destruct (parse_row _ _ _ _) as [|row] eqn:Hr; [done|]; intros Hrs Hlen Hacc.
    apply parse_row_ok in Hr as (Hok & Hne & Hl).
    apply IH in Hrs as (? & ? & new & -> & Hnew); [| |by apply Forall_app; split; [|constructor]].
    + split_and!; [done..|]; exists (row :: new); rewrite <- app_assoc; csimpl; by rewrite Hnew, Hl.
    + rewrite length_app; simpl; lia.
Qed.

(** Lines count upwards. *)
Record scan_ok (s : Scan) : Prop := {
  so_sorted : StronglySorted Z.lt (records s).*1;
  so_below : Forall (fun l => 1 <= l < record_line s) (records s).*1;
  so_line : 1 <= record_line s <= cur_line s
}.
Lemma scan_ok_push c s : scan_ok s -> scan_ok (push c s).
Proof. intros [? ? ?]; split; simpl; [done..|]; destruct (_ && _); lia. Qed.
Lemma scan_ok_quoting b s : scan_ok s -> scan_ok (quoting b s).
Proof. by intros [? ? ?]. Qed.
Lemma scan_ok_end_field s : scan_ok s -> scan_ok (end_field s).
Proof. by intros [? ? ?]. Qed.
Lemma sorted_snoc (l : list Z) x : StronglySorted Z.lt l -> Forall (fun y => y < x) l -> StronglySorted Z.lt (l ++ [x]).
Proof.
  induction 1 as [|y l Hs IH Hy]; intros Hx; simpl; [by repeat constructor|].
  apply Forall_cons in Hx as [? ?]; constructor; [auto|]; apply Forall_app; auto.
Qed.
Lemma scan_ok_end_record s : scan_ok s -> scan_ok (end_record s).
Proof.
  intros [Hs Hb Hl]; split; simpl; rewrite ?fmap_app; simpl; [|apply Forall_app; split|lia].
  - apply sorted_snoc; [done|]; eapply Forall_impl; [exact Hb|]; simpl; lia.
  - eapply Forall_impl; [exact Hb|]; simpl; lia.
  - constructor; [lia|constructor].
Qed.
#[local] Hint Resolve scan_ok_push scan_ok_quoting scan_ok_end_field scan_ok_end_record : core.

Lemma scan_keeps_ok n chars s s' :
  (length chars <= n)%nat -> scan_ok s -> scan chars s = inr s' -> scan_ok s'.
Proof.
  revert chars s; induction n as [|n IH]; intros [|c rest] s Hlen Hs; simpl in Hlen; try lia;
    cbn [scan]; try (by intros [= <-]).
  repeat case_match; simpl in Hlen; try done; intros Hr;
    (eapply IH; [| |exact Hr]; [simpl; lia|auto]).
Qed.
Lemma split_records_sorted t lrs :
  split_records t = inr lrs -> StronglySorted Z.lt lrs.*1 /\ Forall (fun l => 1 <= l) lrs.*1.
Proof.
  unfold split_records; destruct (scan t scan_start) as [|s] eqn:Hs; [done|].
  assert (scan_ok scan_start) as H0 by (split; [constructor..|simpl; lia]).
  apply (scan_keeps_ok (length t)) in Hs; [|lia|done].
  destruct (in_quotes s); [done|]; pose proof (scan_ok_end_record s Hs) as He.
  destruct (_ || _); intros [= <-]; split; [apply He| |apply Hs|].
  - eapply Forall_impl; [apply He|]; simpl; lia.
  - eapply Forall_impl; [apply Hs|]; simpl; lia.
Qed.

Lemma forall_sublist (P : Z -> Prop) (l k : list Z) : sublist l k -> Forall P k -> Forall P l.
Proof. rewrite !Forall_forall; eauto using elem_of_sublist. Qed.
Lemma sorted_sublist (l k : list Z) : sublist l k -> StronglySorted Z.lt k -> StronglySorted Z.lt l.
Proof.
  induction 1 as [|x l k Hsub IH|x l k Hsub IH]; intros Hk; [done|..];
    apply StronglySorted_inv in Hk as [Hk Hx]; [|auto].
  constructor; [auto|]; by eapply forall_sublist.
Qed.

(** The rows of an accepted file are between one and 5000, on lines that go
    up, with a schema and a recipient, values without white space around them
    and an expiration time of its type. *)
Theorem accepted_rows_are_sound t rows :
  parse_bulk_csv t = inr rows ->
  (0 < length rows <= MAX_BULK_ROWS)%nat /\ Forall row_ok rows
  /\ StronglySorted Z.lt (line <$> rows) /\ Forall (fun l => 1 < l) (line <$> rows).
Proof.
  unfold parse_bulk_csv; destruct (split_records t) as [|lrs] eqn:Hs; [done|].
  apply split_records_sorted in Hs as [Hs H1].
  assert (sublist (filter (fun r => forallb blank r.2 = false) lrs).*1 lrs.*1) as Hsub.
  { apply fmap_sublist, sublist_filter. }
  apply (sorted_sublist _ _ Hsub) in Hs; apply (forall_sublist _ _ _ Hsub) in H1.
  destruct (filter _ lrs) as [|[hl raw] rest]; [done|]; destruct (parse_header hl raw) as [|header]; [done|].
  destruct (parse_rows header rest []) as [|rows'] eqn:Hr; [done|].
  apply parse_rows_ok in Hr as (? & ? & new & -> & Hnew); [|simpl; lia|constructor].
  destruct new as [|row new]; [done|]; intros [= <-]; simpl app in *.
  apply StronglySorted_inv in Hs as [Hs Hhl]; apply Forall_cons in H1 as [? _]; simpl in *.
  change (line row :: (line <$> new)) with (line <$> row :: new) in Hnew |- *; rewrite Hnew.
  split_and!; [lia|done..|]; eapply Forall_impl; [exact Hhl|]; simpl; lia.
Qed.

(** ** A concrete file *)

Definition bulk_rows : list BulkRow := [
  mkBulkRow 3 (bytes_of_string "aa,bb") (bytes_of_string "GCRR") (bytes_of_string "0xdead") 1700000000 true;
  mkBulkRow 4 (bytes_of_string "cc") (bytes_of_string "GXYZ") [] 0 false ].
(** The header has a name on two lines; the second record ends with the file. *)
Definition bulk_header : list text :=
  [bytes_of_string " Recipient"; bytes_of_string "schema_uid" ++ [LF]; bytes_of_string "revocable";
   bytes_of_string "expiration"; bytes_of_string "data"].
Definition bulk_records : list (list text) := [
  bytes_of_string <$> ["GCRR"; "aa,bb"; "true"; "1700000000 "; "0xdead"]%string;
  bytes_of_string <$> ["GXYZ"; "cc"; "false"; "0"; ""]%string ].
Definition bulk_file : text :=
  (bytes_of_string " Recipient" ++ COMMA :: (QUOTE :: double (bytes_of_string "schema_uid" ++ [LF]) ++ [QUOTE])
   ++ COMMA :: bytes_of_string "revocable" ++ COMMA :: bytes_of_string "expiration"
   ++ COMMA :: bytes_of_string "data")
  ++ [CR; LF]
  ++ (bytes_of_string "GCRR" ++ COMMA :: (QUOTE :: double (bytes_of_string "aa,bb") ++ [QUOTE])
      ++ COMMA :: bytes_of_string "true" ++ COMMA :: bytes_of_string "1700000000 "
      ++ COMMA :: bytes_of_string "0xdead")
  ++ [LF]
  ++ (bytes_of_string "GXYZ" ++ COMMA :: bytes_of_string "cc" ++ COMMA :: bytes_of_string "false"
      ++ COMMA :: bytes_of_string "0" ++ COMMA :: []).

Lemma bulk_file_text : file_text (bulk_header :: bulk_records) bulk_file.
Proof.
  apply NextRecord; [|constructor|]; [|apply NextRecord; [|constructor|]; [|apply OpenRecord; [|done]]];
    repeat apply MoreFields; try apply LastField; try apply QuotedField;
    apply BareField; apply (bool_decide_unpack _); by vm_compute.
Qed.
Lemma bulk_rows_text :
  Forall2 (row_text (column_name <$> bulk_header)) (numbered (2 + lines_in bulk_header) bulk_records) bulk_rows.
Proof.
  repeat constructor; try (vm_compute; done); try (intros H; contradict H; apply (bool_decide_unpack _); by vm_compute).
Qed.

Lemma bulk_files_round_trip_witness : parse_bulk_csv bulk_file = inr bulk_rows.
Proof.
  apply (bulk_files_round_trip bulk_header bulk_records bulk_rows bulk_file bulk_file_text).
  - apply (bool_decide_unpack _); by vm_compute.
  - apply (bool_decide_unpack _); by vm_compute.
  - exact bulk_rows_text.
  - unfold MAX_BULK_ROWS; simpl; lia.
Defined.
