(* ===== verification/Findings.v ===== *)
(** * Behaviour worth knowing

    Concrete runs on which the contracts do something other than their
    documentation leads one to expect.  The theorems about the components are
    stated so that they hold nevertheless: the conditions that exclude these
    runs are explicit in them. *)

From S2P Require Import CliBulk SdkSubmit.
From S2P Require Import Compose SasState SasCore SasRecord SasCalls SasSample ComposeIndexer.
From S2P Require Import Prelude Host Values Common TypedData Sample.
From S2P Require Import RegState RegCalls RegQuery RegSample.
From S2P Require Import IdxState IdxWrite IdxQuery IdxCalls IdxProps.
From S2P Require Import TimeWindow Multisig CrossChain ResolverProps.
From S2P Require Import SdkSequence SdkCache SdkRetry SdkBuilders.

Section indexer.

Let indexed_by (calls : list IdxCall) : State IdxSig unit :=
  run_calls idx_exec ((sample_env 100 [root_admin], IdxInit root_admin sas_id)
                      :: map (fun c => (sample_env 200 [sas_id; root_admin], c)) calls) idx_empty.

(** The recipient and the attester index of an address share their chunks:
    alice received attestation 50 and issued attestation 51, and the query for
    attestations by alice answers 50. *)
Example address_in_both_roles_misread :
  value_of (get_attestations_by_attester alice) (sample_env 300 [])
    (indexed_by [ IdxIndexAttestation (idx_uid 50) alice idx_schema bob 0;
                  IdxIndexAttestation (idx_uid 51) bob idx_schema alice 0 ])
  = Some [idx_uid 50].
Proof. by vm_compute. Qed.

Let nth_index (i : nat) : IdxCall :=
  IdxIndexAttestation (idx_uid (Z.of_nat i)) alice idx_schema bob 0.

(** The tier changes from a hundred to twenty-five entries per chunk between
    the thirtieth and the thirty-first entry.  A page from the twenty-sixth
    entry on is empty, and the history lacks the thirty-first. *)
Example tier_change_hides_entries :
  let s := indexed_by (map nth_index (seq 0 30) ++ [IdxSetChunkTier 0; nth_index 30]) in
  (value_of (get_count_by_schema idx_schema) (sample_env 300 []) s,
   length <$> value_of (get_attestations_by_schema idx_schema) (sample_env 300 []) s,
   value_of (get_atts_by_schema_paginated idx_schema 26 4) (sample_env 300 []) s)
  = (Some 31, Some 30%nat, Some []).
Proof. by vm_compute. Qed.

(** Chunks of twenty-five from the start: the forward history is complete, the
    backward query, which assumes chunks of a hundred, finds nothing. *)
Example small_chunks_are_not_read_backwards :
  let s := indexed_by (IdxSetChunkTier 0 :: map nth_index (seq 0 30)) in
  (length <$> value_of (get_attestations_by_schema idx_schema) (sample_env 300 []) s,
   value_of (get_atts_by_schema_recent idx_schema 5) (sample_env 300 []) s)
  = (Some 30%nat, Some []).
Proof. by vm_compute. Qed.

(** Anyone can hide an attestation from the filtered queries. *)
Example revocation_status_is_unauthenticated :
  value_of (get_schema_filtered idx_schema false) (sample_env 300 [])
    (final (handle_revoke (idx_uid 0)) (sample_env 300 []) (indexed_by [nth_index 0])) = Some [].
Proof. by vm_compute. Qed.
End indexer.

(** A schema has three owners, two of whom must approve a transfer.  One of
    them offers it and carol claims it: carol is its creator. *)
Example offer_bypasses_the_quorum :
  value_of (get_creator score_uid) (sample_env 700 [])
    (RegCalls.run_history [ reg_owners;
       (sample_env 500 [alice], RegProposeSchemaOwner score_uid carol);
       (sample_env 600 [carol], RegClaimSchemaOwnership score_uid) ] reg_schemas)
  = Some (Some carol).
Proof. by vm_compute. Qed.

(** Alice deprecates the schema with [deprecate_schema].  It is still listed
    among the active schemas, and SAS still issues under it. *)
Example deprecated_schema_in_use :
  let reg := RegCalls.run_history [(sample_env 500 [alice], RegDeprecateSchema alice score_uid)] reg_schemas in
  let s := @SasCalls.run_history _ (composed only_resolver registry_id)
             [(sample_env 600 [root_admin], Init root_admin registry_id)] (empty_state SasSig reg) in
  ((fun r => (sr_uid r, sr_deprecated r)) <$> default [] (value_of (get_schemas 0 1) (sample_env 700 []) reg),
   value_of (@SasAttest.attest _ (composed only_resolver registry_id) composed_att) (sample_env 1000 [alice]) s)
  = ([(score_uid, true)], Some (uid composed_att)).
Proof. by vm_compute. Qed.

(** Bob installs a LayerZero endpoint before the verifier is initialised, and
    it stays. *)
Example endpoint_of_a_stranger :
  CrossChain.lz_endpoint <$> value_of CrossChain.get_lz_config (sample_env 300 [])
    (run_calls CrossChain.cc_exec
       ((sample_env 50 [bob], CrossChain.CcSetLzConfig bob bob 1 (key_of 2)) :: cc_history) cc_empty)
  = Some bob.
Proof. by vm_compute. Qed.

(** Nobody authorised the call that leaves one signer. *)
Example signers_of_a_stranger :
  inst (run_calls Multisig.ms_exec
          (ms_history ++ [(sample_env 300 [], Multisig.MsInit 1 [key_of 66])]) ms_empty) Multisig.CFG
  = Some (Multisig.mkResolverConfig 1 [key_of 66]).
Proof. by vm_compute. Qed.

(** A call of the callback that nobody authorised refuses bob's next
    attestation. *)
Example window_of_a_stranger :
  error_of (TimeWindow.on_attest (tw_att bob)) (sample_env 1001 [])
    (run_calls TimeWindow.tw_exec [(sample_env 1000 [], TimeWindow.TwOnAttest (tw_att bob))] tw_start)
  = Some (Panic CooldownActive).
Proof. by vm_compute. Qed.

(** ** SAS *)

Section sas.
(** The sample attestation, said to be revoked when it is issued. *)
Let revoked_at_birth : Attestation :=
  let a := sample_att [1; 2; 3] 5000 in
  mkAttestation (uid a) (att_schema_uid a) (time a) (expiration_time a) 77 (ref_uid a) (recipient a)
    (attester a) (revocable a) (data a) (valid_from a).

(** Alice's attestation is stored as revoked, with no anchor of a revocation. *)
Example issued_as_revoked :
  let s := SasCalls.run_history [(sample_env 1000 [alice], Attest revoked_at_birth)] sample_start in
  (revocation_time <$> read_record s (uid revoked_at_birth),
   pget s (TimestampAnchorKey (uid revoked_at_birth) true)) = (Some 77, None).
Proof. by vm_compute. Qed.

(** The contract is paused, and anyone removes the expired record. *)
Example pruned_while_paused :
  let s := SasCalls.run_history
             [ (sample_env 500 [root_admin], SetAutoPrune true); sample_issue;
               (sample_env 1500 [root_admin], Pause) ] sample_start in
  let s' := SasCalls.run_history [(sample_env 6000 [], PruneExpired [sample_uid [1; 2; 3]])] s in
  (inst s PAUSED, bool_decide (is_Some (read_record s (sample_uid [1; 2; 3]))),
   read_record s' (sample_uid [1; 2; 3])) = (Some true, true, None).
Proof. by vm_compute. Qed.

(** After a renewal until 9000 the index still has the expiry 5000, and the
    record cannot be indexed again. *)
Example renewal_misses_the_index :
  let s := run_calls (ledger_exec obliging indexer_id)
             [ (sample_issue.1, ToSas sample_issue.2);
               (sample_env 1500 [alice], ToSas (RenewAttestation (sample_uid [1; 2; 3]) 9000)) ]
             bound_start in
  (expiration_time <$> read_record s (sample_uid [1; 2; 3]),
   ir_expiration <$> pget (ext s) (INDEXED_KEY (sample_uid [1; 2; 3])),
   error_of (index_attestation (sample_uid [1; 2; 3]) bob sample_schema_uid alice 9000)
     (sample_env 2000 [sas_id]) (ext s))
  = (Some 9000, Some 5000, Some (Panic DuplicateAttestation)).
Proof. by vm_compute. Qed.
End sas.

(** ** Client side *)

(** With number 101 reserved, a peek answers it although the next reservation
    gets 102. *)
Example peek_answers_a_used_number :
  let m := (reserve (Some 100) pk1 ∅).2 in
  (SdkSequence.peek pk1 m, (reserve None pk1 m).1) = (Some 101, inr 102).
Proof. by vm_compute. Qed.

(** Starting over while 101 is held hands it out again. *)
Example resync_repeats_a_held_number :
  (reserve (Some 100) pk1 (resync pk1 (reserve (Some 100) pk1 ∅).2)).1 = inr 101.
Proof. by vm_compute. Qed.

(** Numbers 101 and 102 are reserved and the chain has consumed 101; the failure
    of 101 puts it back, and the next reservation gets the consumed number. *)
Example consumed_number_recycled :
  let m := (sync_on_chain (Some 101) pk1 seq_two).2 in
  (reserve None pk1 (record_failure pk1 101 m)).1 = inr 101.
Proof. by vm_compute. Qed.

(** A cache of capacity zero keeps what a refresh brings. *)
Example refresh_fills_a_disabled_cache :
  let s := (start_refresh (key_of 1) new_cache).2 in
  size (entries (finish_refresh 0 100 (key_of 1) 0 (Some None) 5 s)) = 1%nat.
Proof. by vm_compute. Qed.

(** Six attempts at most make seven calls, with six delays between them. *)
Example one_attempt_more :
  length (execute_async default_backoff (fun _ => (inl RateLimited : RpcErrorKind + Z))).2 = 6%nat.
Proof. by vm_compute. Qed.

(** A resolver that is not an address traps the schema builder. *)
Example resolver_is_not_validated :
  build_schema (sample_env 100 []) (mkSchemaBuilder score (Some [0]) true 0) = Traps.
Proof. by vm_compute. Qed.

Section submitter.
Let check : Submitter (W := Script) -> SdkSubmit.outcome (list Hash) * Submitter (W := Script) :=
  check_and_bump toy_powi default_strategy default_policy (fun _ => [tx_hash 1; tx_hash 2]).
Let run (ops : list SubOp) (responses : list SubmitResponse) : Submitter (W := Script) :=
  run_ops toy_powi default_strategy default_policy ops (no_pending (100, responses)).
Let checks (n : nat) : list SubOp := replicate n (OpCheck (fun _ => [tx_hash 1; tx_hash 2])).

(** The second bump is to wrap the first one, not the original transaction. *)
Example bump_of_a_bump :
  sr_inner <$> signed (run (OpSubmit [1] [7] 43 1000 :: checks 2)
    [RespPending (tx_hash 1); RespPending (tx_hash 5); RespPending (tx_hash 6)])
  = [tx_hash 1; tx_hash 5].
Proof. by vm_compute. Qed.

(** Three bumps were refused and none is counted. *)
Example refused_bumps_are_not_counted :
  let s := run (OpSubmit [1] [7] 43 1000 :: checks 3)
    [RespPending (tx_hash 1); RespRejected [] []; RespRejected [] []; RespRejected [] []] in
  (length (signed s), attempts <$> pending s !! tx_hash 1) = (3%nat, Some 0).
Proof. by vm_compute. Qed.

(** The first transaction has no attempts left; it stays, every check fails, and
    the second one, long pending, is not bumped. *)
Example exhausted_transaction_blocks_the_others :
  let s := run ([OpSubmit [1] [7] 43 1000] ++ checks 5 ++ [OpSubmit [2] [8] 43 1000] ++ checks 3)
    (RespPending (tx_hash 1) :: replicate 5 (RespPending (tx_hash 5)) ++ [RespPending (tx_hash 2)]) in
  ((check s).1, attempts <$> pending s !! tx_hash 1, attempts <$> pending s !! tx_hash 2)
  = (SdkSubmit.Fails (MaxAttemptsExhausted 5), Some 5, Some 0).
Proof. by vm_compute. Qed.
End submitter.

(** A carriage return alone ends a record. *)
Example carriage_return_ends_a_record :
  CliBulk.split_records [97; CR; 98] = inr [(1, [[97]]); (2, [[98]])].
Proof. by vm_compute. Qed.

(** Of two columns of one name the first counts. *)
Example repeated_column_is_ignored :
  CliBulk.parse_bulk_csv
    (bytes_of_string "schema_uid,recipient,data,data" ++ [LF] ++ bytes_of_string "aa,GCRR,01,02")
  = inr [CliBulk.mkBulkRow 2 (bytes_of_string "aa") (bytes_of_string "GCRR") (bytes_of_string "01") 0 false].
Proof. by vm_compute. Qed.
